(* ===== verification/_CoqProject ===== *)
-Q . S2P
Prelude.v
RustStr.v
RustStrFacts.v
ShellData.v
ShellTables.v
ShellLex.v
ShellLexFacts.v
ShellLexTotal.v
ShellClassify.v
ShellParse.v
ShellParseFacts.v
ShellParseTotal.v
ShellSpec.v
ShellVerdictSpec.v
ShellDescribe.v
ShellDescribeSpec.v
Float64.v
KeepwarmBase.v
KeepwarmWindows.v
Keepwarm.v
KeepwarmFacts.v
KeepwarmSpec.v
RustPath.v
RustPathFacts.v
KeepwarmConfig.v
KeepwarmPolicy.v
KeepwarmVerbs.v
KeepwarmPolicyFacts.v
KeepwarmPolicySpec.v
KeepwarmConfigSpec.v
KeepwarmVerbsSpec.v
JsonValue.v
SettingsMerge.v
SettingsMergeFacts.v
SettingsAudit.v
SettingsSpec.v
SettingsFiles.v
RustText.v
RustTextFacts.v
GroupsYaml.v
GroupsOps.v
GroupsRefine.v
GroupsSpec.v
