(* ===== verification/Prelude.v ===== *)
(** * A verification of the agent-ways tools

    The repository's Rust workspace ([src/tools]) holds the programs beside a coding
    agent's session: the matcher of shell commands ([command-describer]), the sensor
    and the policy that keep a session's prompt cache warm ([sensor-keepwarm], driven
    by [attend keepwarm]), the merge of the shipped settings into the user's
    ([ways-cli], [settings_merge.rs]), the channels agents and people share
    ([attend-groups]), and the rest of [attend] and [ways]. This development models
    these four in full detail and proves what they promise.

    ** The files

    - This file: results of code that may panic or run out of fuel ([res], with total
      correctness [sat]), machine-width arithmetic, and list lemmas.
    - [RustStr], [RustStrFacts]: the strings of the Rust standard library as byte
      lists, with the panics of slicing and the UTF-8 facts. [RustPath],
      [RustPathFacts]: [std::path] on Unix. [Float64]: [f64] as IEEE binary64.
    - [ShellData], [ShellTables], [ShellLex], [ShellClassify], [ShellParse],
      [ShellDescribe]: [tools/command-describer/src]: the data of [lib.rs], the tables
      of [tables.rs], the lexer of [lex.rs], the segment builder of [classify.rs],
      the command strings and the recursive parse of [command_string.rs] and
      [lib.rs], the summaries of [describe.rs]. [ShellLexFacts], [ShellLexTotal],
      [ShellParseFacts] and [ShellParseTotal] hold their lemmas, [ShellSpec],
      [ShellVerdictSpec] and [ShellDescribeSpec] the properties.
    - [KeepwarmBase], [KeepwarmWindows], [Keepwarm], [KeepwarmConfig],
      [KeepwarmPolicy]: [tools/sensor-keepwarm/src] ([lib.rs], [windows.rs],
      [policy.rs]); the end of [KeepwarmPolicy] and [KeepwarmVerbs]: the verbs of
      [tools/attend/src/cmd/keepwarm.rs] and [write_wrap] of [policy.rs].
      [KeepwarmFacts], [KeepwarmPolicyFacts] hold their lemmas; [KeepwarmSpec],
      [KeepwarmConfigSpec], [KeepwarmPolicySpec], [KeepwarmVerbsSpec] the properties.
    - [JsonValue], [SettingsMerge], [SettingsFiles]:
      [tools/ways-cli/src/cmd/settings_merge.rs], the documents, the merge and the
      withdrawal, and what they do to the files. [SettingsMergeFacts] and
      [SettingsAudit] (with the hooks that ship) hold the lemmas, [SettingsSpec] and the
      end of [SettingsFiles] the properties.
    - [RustText], [RustTextFacts]: splitting, trimming, lines and numbers of text, with
      the lemmas the line formats share.
    - [GroupsYaml], [GroupsOps]: [tools/attend-groups/src/lib.rs], the channels file and
      the operations of [Groups]. [GroupsRefine] states their effect on the membership
      alone; [GroupsYaml] ends with its lemmas, [GroupsSpec] holds the properties.

    ** How the model corresponds to the code

    A struct is a [Record] with the field names behind a short prefix, an enum an
    [Inductive] in a module of its name. A method of [&mut self] is a function that
    returns the new state beside its result. Strings are byte lists; offsets are list
    indices; slices that may panic return [res]. Unsigned arithmetic wraps at its
    width, as in the release profile ([u64_add] and the like), [saturating_sub] is
    [N.sub]; where [lex.rs] subtracts offsets, an underflow is a panic of the model, which
    is proved not to occur. The lexer is one open recursion: each production is a body over the
    productions it calls, closed by fuel in [lexer].

    The keepwarm step is written in the phases of [State::step_with], each with the
    lines it models, on a pair of state and outcome. A session's disk is its arm file
    and its ledger as values ([Disk]); a write may be refused ([Writes]), and what
    other processes do to the files between the read and the settle is an argument
    ([during]). The clock is an argument, as in the code: a verb reads it once, also where
    the code reads it again for the ledger's [updated_at].

    The channels are a directory of files ([Signals]): the text of [groups.yaml] and each
    channel's files by name, so that every operation parses and prints the text as the
    code does. A record says how the file system answers one call ([Answers], [Io]):
    whether the lock is taken and each write lands, so that every early return is a
    branch of the model. An operation runs whole under its lock; operations of different
    sessions interleave as the steps of a sequence.

    ** What is proved

    - Shell: the lexer and the parse return on every valid string and their segments
      slice the command without a panic ([parse_total], [parsed_slices], [lex_total]);
      quoted text comes back ([lex_sh_quote]); the text of a segment is the source
      without heredoc bodies ([cut_selected], [program_text_from_word]); offsets of a
      command string map back to the same text ([source_span_exact]). Segments say
      what their command does: a write to a file is an action ([redirect_is_action]),
      roles and classes agree ([parse_coherent]), no command is lost
      ([parse_keeps_commands]), the verb is the program's flags without their separate
      values and its leading words ([verb_reads_flags_and_words]); the block is that of a
      reference without the loop's stacks, in order and each segment once
      ([block_shows_all]), with its most specific page ([lookup_most_specific]).
    - Sensor: successive checks refine the sensor's loop ([check_refines_sensor]); one
      wake a stretch, and only where it pays ([one_wake_per_stretch],
      [wake_is_useful]); the operator's arm is left alone
      ([settle_keeps_operators_arm]); no cold write scored twice
      ([misses_scored_once]); durations read back ([duration_round_trip]).
    - Policy: over any sequence of verbs short of a reset the limits hold
      ([policy_bounded]) and a stop holds ([stopped_is_silent]); a keepalive goes out
      only where it pays ([keepalive_pays]), and where one is due an answer goes out
      ([due_point_answered]); a running policy asks again ([running_asks_again]); the
      estimate of the wrap is exact ([wraps_at_first_due]).
    - Configuration: settings fail closed and stay in range ([settings_fail_closed]);
      the wrap's reply stays under the wrap directory, in a file named for the session
      and behind no link ([wrap_file_confined], [check_wrap_path_safe]); what enters
      the prompt is plain ([wrap_skill_plain]); windows are the stretches of the week
      their entries name ([window_is_week_stretch], [day_span_round_the_week],
      [parse_window_well_formed]).
    - Verbs: a reply is written only where it is safe ([reply_written_where_safe]) and
      a report exits cleanly only when it held ([wrapped_exits]); a kept read of the
      settings is fresh ([kept_settings_fresh]) and pruned only when stale
      ([prune_only_stale]).
    - Settings: a withdrawal gives the user's file back ([withdraw_undoes_merge]), a merge
      is idempotent and absorbs earlier ones ([merge_absorbs]), the audit passes exactly
      on files in shape ([audit_passes_iff], [withdraw_audit_iff]); on disk an apply
      changes the file to the merge or not at all and settles ([apply_keeps_file],
      [apply_settles]).
    - Channels: every operation refines its effect on the membership ([groups_refine]),
      which stays well-formed ([groups_stay_wf]); agents cannot remove people
      ([agents_keep_people]); the file and the records read back
      ([channels_file_round_trip], [invite_reads_back]); a new channel is empty
      ([new_channel_is_empty]).

    The writes of the keepwarm files land in the theorems over sequences
    ([all_writes]: [policy_bounded], [stopped_is_silent], [check_refines_sensor],
    [one_wake_per_stretch]): a ledger that is not written holds no count, in the code as
    in the model.

    ** Fuel

    The lexer runs on [lex_fuel], three per byte and three more: the measure of its
    proof counts three for each byte left and tells productions at one byte apart.
    Nested commands recurse to [MAX_DEPTH], one level of fuel each. The expansion of a
    list of segments has one per segment and one more. The estimates of the policy loop
    at most once per keepalive left, and a span of days at most seven times. Each bound
    is proved enough: every function on fuel has a theorem that it returns.

    ** What is not in the source

    Time zones are the [jiff] crate's (class [Jiff]), JSON is [serde_json]'s (class
    [Json] for the settings of a project, [SerdeValue] for documents that are merged,
    [SerdeText] for their text), the Unicode tables the standard library's (class
    [Unicode]), and symbolic links the file system's (an argument).

    ** What is not modelled

    Reading and writing of files, processes, the terminal, and JSON encoding: what
    they answer is an argument. The status verb beyond its two cards. The time a lock is
    waited for and temporary files: a lock is taken or not, a write lands whole or not.
    The order of keys in a settings document. Who is alive, which a sweep of the channels
    asks of [attend-presence], is an argument; the deletion marks of
    [attend-groups/src/tombstones.rs] are not modelled. The other crates of [src/tools],
    the plugins and the hooks are listed in the manifest with their reasons. *)

From stdpp Require Import base tactics list numbers strings option.

(** ** Results of code that may panic

    A Rust function either returns or panics (an index or a slice out of range,
    an unsigned subtraction below zero). The model of a loop that is not
    structurally recursive runs on fuel and may stop with [NoFuel]; every such
    function has a theorem that the fuel its callers give is enough. *)

Inductive res (A : Type) : Type :=
  | Ok (a : A)
  | Panicked
  | NoFuel.
Arguments Ok {A} a.
Arguments Panicked {A}.
Arguments NoFuel {A}.

#[export] Instance res_ret : MRet res := λ A a, Ok a.
#[export] Instance res_bind : MBind res := λ A B f m,
  match m with
  | Ok a => f a
  | Panicked => Panicked
  | NoFuel => NoFuel
  end.
#[export] Instance res_fmap : FMap res := λ A B f m,
  match m with
  | Ok a => Ok (f a)
  | Panicked => Panicked
  | NoFuel => NoFuel
  end.

(** A Rust [assert] or bounds check: [b] or a panic. *)
Definition check (b : bool) : res unit := if b then Ok tt else Panicked.

(** Total correctness: the computation returns, and what it returns is in [Q]. *)
Definition sat {A} (m : res A) (Q : A → Prop) : Prop :=
  match m with
  | Ok a => Q a
  | _ => False
  end.

Section sat.
Context {A B : Type}.
Implicit Types (m : res A) (Q : A → Prop).

Lemma sat_ok a Q : Q a → sat (Ok a) Q.
Proof. done. Qed.

Lemma sat_inv m Q : sat m Q → ∃ a, m = Ok a ∧ Q a.
Proof. destruct m; naive_solver. Qed.

Lemma sat_mono m Q Q' : sat m Q → (∀ a, Q a → Q' a) → sat m Q'.
Proof. destruct m; naive_solver. Qed.

Lemma sat_bind m (f : A → res B) (Q : B → Prop) :
  sat m (λ a, sat (f a) Q) → sat (m ≫= f) Q.
Proof. by destruct m. Qed.

Lemma sat_bind_mono m (f : A → res B) P (Q : B → Prop) :
  sat m P → (∀ a, P a → sat (f a) Q) → sat (m ≫= f) Q.
Proof. destruct m; naive_solver. Qed.

Lemma sat_check b (f : unit → res B) (Q : B → Prop) :
  b = true → sat (f tt) Q → sat (check b ≫= f) Q.
Proof. by intros ->. Qed.

Lemma bind_ok m (f : A → res B) b :
  (m ≫= f) = Ok b ↔ ∃ a, m = Ok a ∧ f a = Ok b.
Proof.
  destruct m; cbn; split; [by intros ?; exists a| |done| |done|];
    intros (? & ? & ?); by simplify_eq.
Qed.
End sat.

Create HintDb ways.
Create Rewrite HintDb ways.
#[export] Hint Resolve sat_ok : ways.

(** ** Machine-width unsigned integers

    The release profile has no overflow checks, so an unsigned addition or
    multiplication wraps. [saturating_sub] is [N.sub], which stops at zero. *)

Definition u64_max : N := 18446744073709551615.
Definition u32_max : N := 4294967295.

Definition u64_add (a b : N) : N := ((a + b) `mod` (u64_max + 1))%N.
Definition u64_mul (a b : N) : N := ((a * b) `mod` (u64_max + 1))%N.
Definition u64_sub (a b : N) : N := ((a + (u64_max + 1) - b) `mod` (u64_max + 1))%N.
Definition u32_add (a b : N) : N := ((a + b) `mod` (u32_max + 1))%N.

Lemma u64_add_small a b : (a + b ≤ u64_max)%N → u64_add a b = (a + b)%N.
Proof. intros H. unfold u64_add, u64_max in *. apply N.mod_small. lia. Qed.

Lemma u64_mul_small a b : (a * b ≤ u64_max)%N → u64_mul a b = (a * b)%N.
Proof. intros H. unfold u64_mul, u64_max in *. apply N.mod_small. lia. Qed.

Lemma u64_sub_small a b : (b ≤ a ≤ u64_max)%N → u64_sub a b = (a - b)%N.
Proof.
  intros H. unfold u64_sub, u64_max in *.
  replace (a + (18446744073709551615 + 1) - b)%N with
    ((a - b) + 1 * (18446744073709551615 + 1))%N by lia.
  rewrite N.Div0.mod_add. apply N.mod_small. lia.
Qed.

Lemma u32_add_small a b : (a + b ≤ u32_max)%N → u32_add a b = (a + b)%N.
Proof. intros H. unfold u32_add, u32_max in *. apply N.mod_small. lia. Qed.

Lemma u64_add_le a b : (u64_add a b ≤ u64_max)%N.
Proof.
  unfold u64_add. pose proof (N.mod_upper_bound (a + b) (u64_max + 1)).
  unfold u64_max in *. lia.
Qed.
#[export] Hint Resolve u64_add_le : ways.

(** ** Boolean tests *)

(** Turns the boolean comparisons of the hypotheses and the goal into
    propositions. *)
Ltac bool_prop :=
  repeat match goal with
  | H : _ && _ = true |- _ => apply andb_prop in H as [? ?]
  | H : negb _ = true |- _ => apply negb_true_iff in H
  | H : negb _ = false |- _ => apply negb_false_iff in H
  | H : _ || _ = false |- _ => apply orb_false_elim in H as [? ?]
  | H : (_ =? _)%nat = true |- _ => apply Nat.eqb_eq in H
  | H : (_ =? _)%nat = false |- _ => apply Nat.eqb_neq in H
  | H : (_ <? _)%nat = true |- _ => apply Nat.ltb_lt in H
  | H : (_ <? _)%nat = false |- _ => apply Nat.ltb_ge in H
  | H : (_ <=? _)%nat = true |- _ => apply Nat.leb_le in H
  | H : (_ <=? _)%nat = false |- _ => apply Nat.leb_gt in H
  | H : (_ =? _)%N = true |- _ => apply N.eqb_eq in H
  | H : (_ =? _)%N = false |- _ => apply N.eqb_neq in H
  | H : (_ <? _)%N = true |- _ => apply N.ltb_lt in H
  | H : (_ <? _)%N = false |- _ => apply N.ltb_ge in H
  | H : (_ <=? _)%N = true |- _ => apply N.leb_le in H
  | H : (_ <=? _)%N = false |- _ => apply N.leb_gt in H
  | H : bool_decide _ = true |- _ => apply bool_decide_eq_true in H
  | H : bool_decide _ = false |- _ => apply bool_decide_eq_false in H
  end.

(** Rewrites with the boolean facts at hand. *)
Ltac bool_rewrite :=
  repeat match goal with
  | H : ?x = true |- context [?x] => rewrite H
  | H : ?x = false |- context [?x] => rewrite H
  end.

(** ** Lists *)

Section lists.
Context {A : Type}.
Implicit Types (l : list A) (p : A → bool).

(** [l[a..b]] *)
Definition slice (a b : nat) l : list A := take (b - a) (drop a l).

(** [windows(2)] *)
Definition windows2 l : list (A * A) := zip l (tail l).

(** [iter().position(p)] *)
Fixpoint position p l : option nat :=
  match l with
  | [] => None
  | x :: l' => if p x then Some 0 else S <$> position p l'
  end.

(** [iter().rposition(p)] *)
Fixpoint rposition p l : option nat :=
  match l with
  | [] => None
  | x :: l' =>
    match rposition p l' with
    | Some i => Some (S i)
    | None => if p x then Some 0 else None
    end
  end.

(** [iter().find(p)] *)
Fixpoint find p l : option A :=
  match l with
  | [] => None
  | x :: l' => if p x then Some x else find p l'
  end.

Fixpoint drop_while p l : list A :=
  match l with
  | [] => []
  | x :: l' => if p x then drop_while p l' else l
  end.

Fixpoint take_while p l : list A :=
  match l with
  | [] => []
  | x :: l' => if p x then x :: take_while p l' else []
  end.

Lemma take_while_drop_while p l : take_while p l ++ drop_while p l = l.
Proof. induction l as [|x l IH]; simpl; [done|]. destruct (p x); simpl; congruence. Qed.

Lemma take_while_forallb p l : forallb p (take_while p l) = true.
Proof. induction l as [|x l IH]; simpl; [done|]. destruct (p x) eqn:E; simpl; [|done]. by rewrite E. Qed.

Lemma drop_while_head p l x l' : drop_while p l = x :: l' → p x = false.
Proof.
  induction l as [|y l IH]; simpl; [done|].
  destruct (p y) eqn:E; [done|]. by intros [= -> ->].
Qed.

Lemma position_Some p l i : position p l = Some i → ∃ x, l !! i = Some x ∧ p x = true.
Proof.
  revert i. induction l as [|y l IH]; simpl; intros i; [done|].
  destruct (p y) eqn:E; [intros [= <-]; naive_solver|].
  destruct (position p l) eqn:E2; simpl; [|done].
  intros [= <-]. destruct (IH _ eq_refl) as (x & ? & ?). exists x. done.
Qed.

Lemma position_lt p l i : position p l = Some i → i < length l.
Proof. intros (x & Hx & _)%position_Some. by apply lookup_lt_Some in Hx. Qed.

Lemma position_first p l i j x :
  position p l = Some i → l !! j = Some x → p x = true → i ≤ j.
Proof.
  revert i j. induction l as [|y l IH]; simpl; intros i [|j]; try done.
  - intros H [= ->] Hp. rewrite Hp in H. simplify_eq. lia.
  - intros H Hj Hp. destruct (p y); [simplify_eq; lia|].
    destruct (position p l) as [k|] eqn:E; simplify_eq/=.
    specialize (IH _ _ eq_refl Hj Hp). lia.
Qed.

Lemma position_exists p l x : x ∈ l → p x = true → ∃ i, position p l = Some i.
Proof.
  induction l as [|y l IH]; simpl; [by intros ?%elem_of_nil|].
  intros [->|Hx]%elem_of_cons Hp; [rewrite Hp; eauto|].
  destruct (p y); [eauto|]. destruct (IH Hx Hp) as [i ->]. simpl; eauto.
Qed.

Lemma rposition_Some p l i : rposition p l = Some i → ∃ x, l !! i = Some x ∧ p x = true.
Proof.
  revert i. induction l as [|y l IH]; simpl; intros i; [done|].
  destruct (rposition p l) eqn:E2.
  - intros [= <-]. destruct (IH _ eq_refl) as (x & ? & ?). exists x. done.
  - destruct (p y) eqn:E; [|done]. intros [= <-]. naive_solver.
Qed.

Lemma rposition_None p l : rposition p l = None → forallb (λ x, negb (p x)) l = true.
Proof.
  induction l as [|y l IH]; simpl; [done|].
  destruct (rposition p l); [done|]. destruct (p y); [done|]. by intros _; apply IH.
Qed.

Lemma rposition_last p l i j x :
  rposition p l = Some i → l !! j = Some x → p x = true → j ≤ i.
Proof.
  revert i j. induction l as [|y l IH]; simpl; intros i [|j]; try done; [lia|].
  intros H Hj Hp. destruct (rposition p l) as [k|] eqn:E.
  - simplify_eq. specialize (IH _ _ eq_refl Hj Hp). lia.
  - apply rposition_None in E. rewrite forallb_forall in E.
    simpl in Hj. apply list_elem_of_lookup_2, list_elem_of_In, E in Hj. by rewrite Hp in Hj.
Qed.

Lemma rposition_exists p l x : x ∈ l → p x = true → ∃ i, rposition p l = Some i.
Proof.
  induction l as [|y l IH]; simpl; [by intros ?%elem_of_nil|].
  intros [->|Hx]%elem_of_cons Hp; destruct (rposition p l) eqn:E; eauto.
  - rewrite Hp. eauto.
  - destruct (IH Hx Hp) as [i Hi]. congruence.
Qed.

Lemma find_Some p l x : find p l = Some x → x ∈ l ∧ p x = true.
Proof.
  induction l as [|y l IH]; simpl; [done|].
  destruct (p y) eqn:E; [intros [= ->]; split; [left|done]|].
  intros [??]%IH; split; [by right|done].
Qed.

Lemma length_slice a b l : length (slice a b l) = min (b - a) (length l - a).
Proof. unfold slice. by rewrite length_take, length_drop. Qed.

Lemma slice_app_adj a b c l : a ≤ b ≤ c → slice a b l ++ slice b c l = slice a c l.
Proof.
  intros H. unfold slice.
  replace (drop b l) with (drop (b - a) (drop a l)) by (rewrite drop_drop; f_equal; lia).
  replace (c - a) with ((b - a) + (c - b)) by lia.
  by rewrite <- take_take_drop.
Qed.

Lemma slice_nil a b l : b ≤ a → slice a b l = [].
Proof. intros H. unfold slice. by replace (b - a) with 0 by lia. Qed.

Lemma lookup_slice a b l i : i < b - a → slice a b l !! i = l !! (a + i).
Proof. intros H. unfold slice. rewrite lookup_take_lt by done. by rewrite lookup_drop. Qed.
End lists.

#[export] Hint Rewrite @length_slice : ways.
