(* ===== verification/RustStr.v ===== *)
(** * Rust strings

    A [&str] or [String] is the list of its bytes. Byte offsets are list
    indices, a [char] is the list of the bytes that encode it, and the
    operations of the standard library the tools use are defined here:
    slicing with its panics, [chars], the Unicode White_Space predicate,
    trimming and splitting, searching and replacing, [from_utf8_lossy],
    and the parsing and printing of unsigned integers. *)

From Stdlib Require Import Ascii Strings.Byte.
From stdpp Require Import base tactics list numbers strings pretty option.
From S2P Require Import Prelude.

Abbreviation str := (list ascii).

(** The literal [s] as bytes; string literals of the development are of type
    [str]. *)
Definition lit (s : string) : str := String.list_ascii_of_string s.

Inductive str_literal : Type :=
  | Literal (s : string).
Definition str_parse (l : list byte) : str_literal := Literal (String.string_of_list_byte l).
Definition str_print (l : str_literal) : list byte :=
  match l with
  | Literal s => String.list_byte_of_string s
  end.
Declare Scope str_scope.
Delimit Scope str_scope with s.
String Notation list str_parse str_print (via str_literal mapping [lit => Literal])
  : str_scope.
Open Scope str_scope.

(** [format!]: the pieces one after the other. *)
Definition format (parts : list str) : str := concat parts.

#[export] Instance str_eq_dec : EqDecision str := _.

Definition str_eqb (a b : str) : bool := bool_decide (a = b).

(** [set.contains(&s)] *)
Definition mem_str (s : str) (set : list str) : bool := bool_decide (s ∈ set).

(** The bytes the sources name by escapes. *)
Definition tab : ascii := "009".
Definition nl : ascii := "010".
Definition cr : ascii := "013".
Definition squote : ascii := "'".
Definition dquote : ascii := "034".
Definition bslash : ascii := "092".
Definition btick : ascii := "096".

Infix "=?a" := Ascii.eqb (at level 70, no associativity).

(** ** Bytes *)

Definition byte_val (c : ascii) : N := N_of_ascii c.

Definition byte_in (lo hi : N) (c : ascii) : bool :=
  (lo <=? byte_val c)%N && (byte_val c <=? hi)%N.

Definition is_ascii (c : ascii) : bool := (byte_val c <? 128)%N.
Definition is_cont (c : ascii) : bool := byte_in 128 191 c.
Definition is_digit (c : ascii) : bool := byte_in 48 57 c.
Definition is_lower (c : ascii) : bool := byte_in 97 122 c.
Definition is_upper (c : ascii) : bool := byte_in 65 90 c.
Definition is_alpha (c : ascii) : bool := is_lower c || is_upper c.
Definition is_alnum (c : ascii) : bool := is_alpha c || is_digit c.

Definition ascii_lower (c : ascii) : ascii :=
  if is_upper c then ascii_of_N (byte_val c + 32) else c.

Definition to_ascii_lowercase (s : str) : str := map ascii_lower s.
Definition eq_ignore_ascii_case (a b : str) : bool :=
  str_eqb (to_ascii_lowercase a) (to_ascii_lowercase b).

(** ** Slicing *)

(** [str::is_char_boundary] *)
Definition is_char_boundary (s : str) (i : nat) : bool :=
  if (i =? 0) || (i =? length s) then true
  else match s !! i with
       | Some c => negb (is_cont c)
       | None => false
       end.

(** [&s[a..b]] panics past the end, on [b < a] and off a boundary. *)
Definition str_slice (s : str) (a b : nat) : res str :=
  if (a <=? b) && is_char_boundary s a && is_char_boundary s b
  then Ok (slice a b s) else Panicked.

(** [&s[a..]] *)
Definition str_from (s : str) (a : nat) : res str := str_slice s a (length s).

(** ** Characters *)

(** The number of bytes the first byte of an encoded character announces. *)
Definition char_width (c : ascii) : nat :=
  if (byte_val c <? 224)%N then (if (byte_val c <? 192)%N then 1 else 2)
  else if (byte_val c <? 240)%N then 3 else 4.

(** [s.chars()]: on a valid string, the encodings of its characters. *)
Fixpoint chars (s : str) : list str :=
  match s with
  | [] => []
  | c :: r =>
    match char_width c, r with
    | 2, c1 :: r1 => [c; c1] :: chars r1
    | 3, c1 :: c2 :: r2 => [c; c1; c2] :: chars r2
    | 4, c1 :: c2 :: c3 :: r3 => [c; c1; c2; c3] :: chars r3
    | _, _ => [c] :: chars r
    end
  end.

Lemma chars_cons c r :
  chars (c :: r) =
  match char_width c, r with
  | 2, c1 :: r1 => [c; c1] :: chars r1
  | 3, c1 :: c2 :: r2 => [c; c1; c2] :: chars r2
  | 4, c1 :: c2 :: c3 :: r3 => [c; c1; c2; c3] :: chars r3
  | _, _ => [c] :: chars r
  end.
Proof. done. Qed.

Lemma concat_chars s : concat (chars s) = s.
Proof.
  induction s as [s IH] using (induction_ltof1 _ (@length ascii)); unfold ltof in IH.
  destruct s as [|c r]; [done|]. rewrite chars_cons.
  repeat case_match; subst; cbn [concat app]; repeat f_equal; apply IH; simpl; lia.
Qed.

(** The code points below 128 are their own byte. *)
Definition char_ascii (c : str) : option ascii :=
  match c with
  | [b] => if is_ascii b then Some b else None
  | _ => None
  end.

(** [char::is_ascii_alphabetic] and the like, on an encoded character. *)
Definition char_is (p : ascii → bool) (c : str) : bool :=
  match char_ascii c with
  | Some b => p b
  | None => false
  end.

(** [char::is_whitespace]: the code points of the Unicode property
    White_Space, encoded. *)
Definition byte3 (a b c : N) : str := [ascii_of_N a; ascii_of_N b; ascii_of_N c].
Definition whitespace_chars : list str :=
  ((λ n, [ascii_of_N n]) <$> [9; 10; 11; 12; 13; 32])%N ++
  [[ascii_of_N 194; ascii_of_N 133]; [ascii_of_N 194; ascii_of_N 160];
   byte3 225 154 128; byte3 226 128 128; byte3 226 128 129; byte3 226 128 130;
   byte3 226 128 131; byte3 226 128 132; byte3 226 128 133; byte3 226 128 134;
   byte3 226 128 135; byte3 226 128 136; byte3 226 128 137; byte3 226 128 138;
   byte3 226 128 168; byte3 226 128 169; byte3 226 128 175; byte3 226 129 159;
   byte3 227 128 128].
Definition is_whitespace (c : str) : bool := bool_decide (c ∈ whitespace_chars).

(** [char::is_control]: U+0000 to U+001F and U+007F to U+009F. *)
Definition is_control (c : str) : bool :=
  match c with
  | [b] => (byte_val b <? 32)%N || (byte_val b =? 127)%N
  | [a; b] => (byte_val a =? 194)%N && (byte_val b <? 160)%N
  | _ => false
  end.

(** ** Trimming and splitting *)

Definition trim_start (s : str) : str := concat (drop_while is_whitespace (chars s)).
Definition trim_end (s : str) : str :=
  concat (reverse (drop_while is_whitespace (reverse (chars s)))).
Definition trim (s : str) : str := trim_end (trim_start s).

(** [trim_start_matches(c)] and [trim_end_matches(c)] for an ASCII [c]. *)
Definition trim_start_matches (c : ascii) (s : str) : str := drop_while (Ascii.eqb c) s.
Definition trim_end_matches (c : ascii) (s : str) : str :=
  reverse (drop_while (Ascii.eqb c) (reverse s)).

(** [split(p)] on a list: the pieces between the elements [p] holds of. *)
Fixpoint split_on {A} (p : A → bool) (l : list A) : list (list A) :=
  match l with
  | [] => [[]]
  | x :: l' =>
    if p x then [] :: split_on p l'
    else match split_on p l' with
         | w :: ws => (x :: w) :: ws
         | [] => [[x]]
         end
  end.

(** [s.split(c)] for an ASCII [c]. *)
Definition split_char (c : ascii) (s : str) : list str := split_on (Ascii.eqb c) s.

(** [s.split_whitespace()] *)
Definition split_whitespace (s : str) : list str :=
  filter (λ w, w ≠ []) (concat (A:=ascii) <$> split_on is_whitespace (chars s)).

(** [words.join(sep)] *)
Fixpoint join (sep : str) (l : list str) : str :=
  match l with
  | [] => []
  | [w] => w
  | w :: l' => w ++ sep ++ join sep l'
  end.

(** [s.starts_with(p)], [s.strip_prefix(p)] and their mirror images. *)
Fixpoint strip_prefix (p s : str) : option str :=
  match p, s with
  | [], _ => Some s
  | _, [] => None
  | a :: p', b :: s' => if a =?a b then strip_prefix p' s' else None
  end.
Definition starts_with (p s : str) : bool :=
  match strip_prefix p s with Some _ => true | None => false end.
Definition strip_suffix (p s : str) : option str :=
  reverse <$> strip_prefix (reverse p) (reverse s).
Definition ends_with (p s : str) : bool :=
  match strip_suffix p s with Some _ => true | None => false end.

(** [s.find(p)]: the offset of the first occurrence. *)
Fixpoint str_find (p s : str) : option nat :=
  if starts_with p s then Some 0
  else match s with
       | [] => None
       | _ :: s' => S <$> str_find p s'
       end.
Definition contains (p s : str) : bool :=
  match str_find p s with Some _ => true | None => false end.
Definition contains_char (c : ascii) (s : str) : bool := existsb (Ascii.eqb c) s.

(** [s.split_once(c)] for an ASCII [c]. *)
Definition split_once (c : ascii) (s : str) : option (str * str) :=
  i ← position (Ascii.eqb c) s; Some (take i s, drop (S i) s).

(** [s.replace(p, r)] for a non-empty [p]: the occurrences from the left,
    which do not overlap. [skip] counts the bytes of the current one left. *)
Fixpoint replace_go (p r : str) (skip : nat) (s : str) : str :=
  match s with
  | [] => []
  | c :: s' =>
    match skip with
    | S k => replace_go p r k s'
    | 0 =>
      if starts_with p s then r ++ replace_go p r (length p - 1) s'
      else c :: replace_go p r 0 s'
    end
  end.
Definition replace (p r s : str) : str := replace_go p r 0 s.

(** [s.lines()]: split at newlines, a trailing empty piece dropped, a
    carriage return before each newline dropped. *)
Definition strip_cr (l : str) : str :=
  match strip_suffix [cr] l with Some l' => l' | None => l end.
Definition lines (s : str) : list str :=
  match reverse (split_char nl s) with
  | [] => []
  | last :: before =>
    reverse (match last with [] => [] | _ => [last] end ++ (strip_cr <$> before))
  end.

(** ** UTF-8 *)

(** The second byte the first allows, for the encodings of three and four
    bytes. *)
Definition second_ok (c c1 : ascii) : bool :=
  let b := byte_val c in
  if (b =? 224)%N then byte_in 160 191 c1
  else if (b =? 237)%N then byte_in 128 159 c1
  else if (b =? 240)%N then byte_in 144 191 c1
  else if (b =? 244)%N then byte_in 128 143 c1
  else is_cont c1.

(** What the first byte announces: [None] where no encoding starts with it. *)
Definition lead_width (c : ascii) : option nat :=
  if is_ascii c then Some 1
  else if byte_in 194 223 c then Some 2
  else if byte_in 224 239 c then Some 3
  else if byte_in 240 244 c then Some 4
  else None.

Fixpoint utf8_valid (s : str) : bool :=
  match s with
  | [] => true
  | c :: r =>
    match lead_width c, r with
    | Some 1, _ => utf8_valid r
    | Some 2, c1 :: r1 => is_cont c1 && utf8_valid r1
    | Some 3, c1 :: c2 :: r2 => second_ok c c1 && is_cont c2 && utf8_valid r2
    | Some 4, c1 :: c2 :: c3 :: r3 =>
      second_ok c c1 && is_cont c2 && is_cont c3 && utf8_valid r3
    | _, _ => false
    end
  end.

Definition replacement_char : str := [ascii_of_N 239; ascii_of_N 191; ascii_of_N 189].

(** [String::from_utf8_lossy]: each maximal prefix of an encoding that is not
    completed becomes one replacement character. *)
Fixpoint from_utf8_lossy (s : str) : str :=
  match s with
  | [] => []
  | c :: r =>
    match lead_width c with
    | Some 1 => c :: from_utf8_lossy r
    | Some 2 =>
      match r with
      | c1 :: r1 => if is_cont c1 then c :: c1 :: from_utf8_lossy r1
                    else replacement_char ++ from_utf8_lossy r
      | [] => replacement_char
      end
    | Some 3 =>
      match r with
      | c1 :: r1 =>
        if second_ok c c1 then
          match r1 with
          | c2 :: r2 => if is_cont c2 then c :: c1 :: c2 :: from_utf8_lossy r2
                        else replacement_char ++ from_utf8_lossy r1
          | [] => replacement_char
          end
        else replacement_char ++ from_utf8_lossy r
      | [] => replacement_char
      end
    | Some 4 =>
      match r with
      | c1 :: r1 =>
        if second_ok c c1 then
          match r1 with
          | c2 :: r2 =>
            if is_cont c2 then
              match r2 with
              | c3 :: r3 => if is_cont c3 then c :: c1 :: c2 :: c3 :: from_utf8_lossy r3
                            else replacement_char ++ from_utf8_lossy r2
              | [] => replacement_char
              end
            else replacement_char ++ from_utf8_lossy r1
          | [] => replacement_char
          end
        else replacement_char ++ from_utf8_lossy r
      | [] => replacement_char
      end
    | _ => replacement_char ++ from_utf8_lossy r
    end
  end.

(** ** Numbers *)

(** [n.to_string()] *)
Definition show_N (n : N) : str := lit (pretty n).

(** [{n:0w$}]: padded with zeros to [w] bytes. *)
Definition show_pad (w : nat) (n : N) : str :=
  replicate (w - length (show_N n)) "0"%char ++ show_N n.

Definition digit_val (c : ascii) : N := byte_val c - 48.

Definition digits_val (s : str) : N :=
  fold_left (λ acc c, acc * 10 + digit_val c)%N s 0%N.

(** [s.parse::<uN>()], with [max] the type's largest value. *)
Definition parse_unsigned (max : N) (s : str) : option N :=
  let digits := match strip_prefix ["+"%char] s with
                | Some ((_ :: _) as d) => d
                | _ => s
                end in
  match digits with
  | [] => None
  | _ =>
    if forallb is_digit digits && (digits_val digits <=? max)%N
    then Some (digits_val digits) else None
  end.

(** Whether [s.parse::<f64>()] succeeds: an optional sign, then [inf],
    [infinity] or [nan] in any case, or digits with at most one point and at
    least one digit, then an optional exponent. *)
Definition parses_exponent (s : str) : bool :=
  match s with
  | [] => true
  | c :: r =>
    ((c =?a "e"%char) || (c =?a "E"%char)) &&
    let d := match r with
             | c1 :: r1 => if (c1 =?a "+"%char) || (c1 =?a "-"%char) then r1 else r
             | [] => r
             end in
    negb (str_eqb d []) && forallb is_digit d
  end.
Definition parses_f64 (s : str) : bool :=
  let body := match s with
              | c :: r => if (c =?a "+"%char) || (c =?a "-"%char) then r else s
              | [] => s
              end in
  mem_str (to_ascii_lowercase body) ["inf"; "infinity"; "nan"] ||
  let whole := take_while is_digit body in
  let rest := drop_while is_digit body in
  match rest with
  | c :: r =>
    if c =?a "."%char then
      let frac := take_while is_digit r in
      negb (str_eqb (whole ++ frac) []) && parses_exponent (drop_while is_digit r)
    else negb (str_eqb whole []) && parses_exponent rest
  | [] => negb (str_eqb whole [])
  end.

(** ** The Unicode tables of the standard library

    [char::is_alphanumeric] and [str::to_lowercase] read Unicode tables the
    model does not copy; on ASCII they are what these laws say. *)
Class Unicode := {
  is_alphanumeric : str → bool;
  to_lowercase : str → str;
  is_alphanumeric_ascii c :
    is_ascii c = true → is_alphanumeric [c] = is_alnum c;
  to_lowercase_ascii s :
    forallb is_ascii s = true → to_lowercase s = to_ascii_lowercase s;
}.

(** The tables restricted to ASCII: an instance for concrete runs. *)
#[export, refine] Instance ascii_unicode : Unicode := {|
  is_alphanumeric c := char_is is_alnum c;
  to_lowercase s := to_ascii_lowercase s;
|}.
Proof.
  - intros c Hc. unfold char_is, char_ascii. by rewrite Hc.
  - done.
Defined.
