(* ===== verification/RustStrFacts.v ===== *)
(** * Facts about Rust strings

    Valid UTF-8 strings, by an induction over their characters: the boundaries
    split them into valid strings, the position after an ASCII byte is a
    boundary, [from_utf8_lossy] is the identity on them and always gives one. *)

From Stdlib Require Import Ascii.
From stdpp Require Import base tactics list numbers strings option pretty.
From S2P Require Import Prelude RustStr.

(** ** Encoded characters *)

(** The encoding of one character. *)
Definition char_enc (ch : str) : bool :=
  match ch with
  | [] => false
  | c :: r =>
    bool_decide (lead_width c = Some (length ch)) && forallb is_cont r &&
    match r with
    | [] => true
    | c1 :: _ => if length r =? 1 then true else second_ok c c1
    end
  end.

Lemma byte_in_spec lo hi c : byte_in lo hi c = true ↔ (lo ≤ byte_val c ≤ hi)%N.
Proof. unfold byte_in. rewrite andb_true_iff, !N.leb_le. lia. Qed.

Lemma is_cont_spec c : is_cont c = true ↔ (128 ≤ byte_val c ≤ 191)%N.
Proof. apply byte_in_spec. Qed.

Lemma is_ascii_spec c : is_ascii c = true ↔ (byte_val c < 128)%N.
Proof. apply N.ltb_lt. Qed.

Lemma ascii_not_cont c : is_ascii c = true → is_cont c = false.
Proof. rewrite is_ascii_spec, <- not_true_iff_false, is_cont_spec. lia. Qed.

Lemma second_ok_cont c c1 : second_ok c c1 = true → is_cont c1 = true.
Proof.
  unfold second_ok. rewrite is_cont_spec.
  repeat case_match; rewrite ?byte_in_spec, ?is_cont_spec; lia.
Qed.

Lemma lead_width_not_cont c w : lead_width c = Some w → is_cont c = false.
Proof.
  unfold lead_width. rewrite <- not_true_iff_false, is_cont_spec.
  destruct (is_ascii c) eqn:E; [apply is_ascii_spec in E; lia|].
  repeat (case_match; [match goal with H : byte_in _ _ _ = true |- _ =>
    apply byte_in_spec in H end; lia|]).
  done.
Qed.

Lemma lead_width_1 c : lead_width c = Some 1 ↔ is_ascii c = true.
Proof. unfold lead_width. destruct (is_ascii c); [done|]. repeat case_match; done. Qed.

Lemma lead_width_range c w : lead_width c = Some w → 1 ≤ w ≤ 4.
Proof. unfold lead_width. repeat case_match; intros; simplify_eq; lia. Qed.

Lemma utf8_valid_cons c r :
  utf8_valid (c :: r) =
  match lead_width c, r with
  | Some 1, _ => utf8_valid r
  | Some 2, c1 :: r1 => is_cont c1 && utf8_valid r1
  | Some 3, c1 :: c2 :: r2 => second_ok c c1 && is_cont c2 && utf8_valid r2
  | Some 4, c1 :: c2 :: c3 :: r3 =>
    second_ok c c1 && is_cont c2 && is_cont c3 && utf8_valid r3
  | _, _ => false
  end.
Proof. done. Qed.

(** A valid string is empty or an encoded character before a valid string. *)
Lemma utf8_valid_inv s :
  utf8_valid s = true →
  s = [] ∨ ∃ ch r, s = ch ++ r ∧ char_enc ch = true ∧ utf8_valid r = true.
Proof.
  destruct s as [|c r]; [by left|]. rewrite utf8_valid_cons. intros H. right.
  unfold char_enc.
  destruct (lead_width c) as [[|[|[|[|[|]]]]]|] eqn:E; try done.
  - exists [c], r. simpl. by rewrite bool_decide_eq_true_2.
  - destruct r as [|c1 r]; [done|]. bool_prop. exists [c; c1], r.
    rewrite bool_decide_eq_true_2 by done. simpl. by bool_rewrite.
  - destruct r as [|c1 [|c2 r]]; try done. bool_prop. exists [c; c1; c2], r.
    rewrite bool_decide_eq_true_2 by done. simpl.
    erewrite second_ok_cont by done. by bool_rewrite.
  - destruct r as [|c1 [|c2 [|c3 r]]]; try done. bool_prop. exists [c; c1; c2; c3], r.
    rewrite bool_decide_eq_true_2 by done. simpl.
    erewrite second_ok_cont by done. by bool_rewrite.
Qed.

Lemma char_enc_inv ch :
  char_enc ch = true →
  ∃ c r, ch = c :: r ∧ lead_width c = Some (length ch) ∧ forallb is_cont r = true ∧
         (length r ≤ 1 ∨ ∃ c1 r', r = c1 :: r' ∧ second_ok c c1 = true).
Proof.
  destruct ch as [|c r]; [done|]. unfold char_enc. intros H. bool_prop.
  exists c, r. repeat split; [done..|].
  destruct r as [|c1 r']; [left; simpl; lia|].
  destruct (length (c1 :: r') =? 1) eqn:E; bool_prop; [left; lia|]. right. eauto.
Qed.

Lemma utf8_valid_char ch r : char_enc ch = true → utf8_valid (ch ++ r) = utf8_valid r.
Proof.
  intros (c & t & -> & Hw & Hc & Hs)%char_enc_inv.
  rewrite <- app_comm_cons, utf8_valid_cons, Hw.
  assert (Hr := lead_width_range _ _ Hw).
  destruct t as [|c1 [|c2 [|c3 [|]]]]; simpl in *; bool_prop; try lia; try done.
  - by bool_rewrite.
  - destruct Hs as [|(? & ? & ? & Hs)]; [lia|]. simplify_eq. by bool_rewrite.
  - destruct Hs as [|(? & ? & ? & Hs)]; [lia|]. simplify_eq. by bool_rewrite.
Qed.

Lemma utf8_valid_ind (P : str → Prop) :
  P [] →
  (∀ ch r, char_enc ch = true → utf8_valid r = true → P r → P (ch ++ r)) →
  ∀ s, utf8_valid s = true → P s.
Proof.
  intros Hnil Hcons s.
  induction s as [s IH] using (induction_ltof1 _ (@length ascii)); unfold ltof in IH.
  intros Hv. destruct (utf8_valid_inv s Hv) as [->|(ch & r & -> & Hch & Hr)]; [done|].
  apply Hcons; [done..|]. apply IH; [|done].
  destruct (char_enc_inv _ Hch) as (c & t & -> & _). rewrite length_app. simpl. lia.
Qed.

Lemma utf8_valid_app a b :
  utf8_valid a = true → utf8_valid (a ++ b) = utf8_valid b.
Proof.
  intros Ha. revert Ha. revert a. apply utf8_valid_ind; [done|].
  intros ch r Hch Hr IH. by rewrite <- app_assoc, utf8_valid_char.
Qed.

(** ** Boundaries *)

Lemma boundary_spec s i :
  is_char_boundary s i = true ↔
  i = 0 ∨ i = length s ∨ ∃ c, s !! i = Some c ∧ is_cont c = false.
Proof.
  unfold is_char_boundary.
  destruct (i =? 0) eqn:E0; bool_prop; simpl; [naive_solver|].
  destruct (i =? length s) eqn:E1; bool_prop; simpl; [naive_solver|].
  destruct (s !! i) as [c|]; [rewrite negb_true_iff|]; naive_solver.
Qed.

Lemma boundary_le s i : is_char_boundary s i = true → i ≤ length s.
Proof.
  rewrite boundary_spec. intros [->|[->|(c & Hc%lookup_lt_Some & _)]]; lia.
Qed.

Lemma boundary_0 s : is_char_boundary s 0 = true.
Proof. done. Qed.

Lemma boundary_length s : is_char_boundary s (length s) = true.
Proof. apply boundary_spec. auto. Qed.

Lemma boundary_ascii s i c :
  s !! i = Some c → is_ascii c = true → is_char_boundary s i = true.
Proof.
  intros Hc Ha. apply boundary_spec. right; right. exists c. auto using ascii_not_cont.
Qed.

Lemma char_enc_lookup_cont ch i c :
  char_enc ch = true → 0 < i → ch !! i = Some c → is_cont c = true.
Proof.
  intros (d & t & -> & _ & Hc & _)%char_enc_inv Hi Hl.
  destruct i as [|i]; [lia|]. simpl in Hl.
  rewrite forallb_forall in Hc. apply Hc, list_elem_of_In. by eapply list_elem_of_lookup_2.
Qed.

(** A boundary inside [ch ++ r] is at the start or past [ch]. *)
Lemma boundary_char ch r i :
  char_enc ch = true → is_char_boundary (ch ++ r) i = true →
  i = 0 ∨ (length ch ≤ i ∧ is_char_boundary r (i - length ch) = true).
Proof.
  intros Hch Hb. destruct (decide (i = 0)) as [|Hi]; [by left|]. right.
  apply boundary_spec in Hb as [?|[->|(c & Hc & Hn)]]; [done|..].
  - rewrite length_app. split; [lia|].
    replace (length ch + length r - length ch) with (length r) by lia.
    apply boundary_length.
  - destruct (decide (i < length ch)) as [Hlt|Hge].
    + rewrite lookup_app_l in Hc by done.
      rewrite (char_enc_lookup_cont ch i c) in Hn by (done || lia). done.
    + rewrite lookup_app_r in Hc by lia. split; [lia|].
      apply boundary_spec. eauto.
Qed.

Lemma valid_split s i :
  utf8_valid s = true → is_char_boundary s i = true →
  utf8_valid (take i s) = true ∧ utf8_valid (drop i s) = true.
Proof.
  intros Hs. revert i. revert s Hs.
  apply (utf8_valid_ind (λ s, ∀ i, is_char_boundary s i = true →
    utf8_valid (take i s) = true ∧ utf8_valid (drop i s) = true)).
  - intros [|i] _; done.
  - intros ch r Hch Hr IH i Hb.
    destruct (boundary_char ch r i Hch Hb) as [->|[Hle Hb']].
    + rewrite take_0, drop_0. by rewrite utf8_valid_char.
    + destruct (IH _ Hb') as [H1 H2].
      rewrite take_app_ge, drop_app_ge by done. by rewrite utf8_valid_char.
Qed.

(** The position after an ASCII byte is a boundary. *)
Lemma boundary_after_ascii s i c :
  utf8_valid s = true → s !! i = Some c → is_ascii c = true →
  is_char_boundary s (i + 1) = true.
Proof.
  intros Hs Hc Ha.
  destruct (valid_split s i Hs) as [_ Hd]; [by eapply boundary_ascii|].
  rewrite (drop_S _ c i) in Hd by done. rewrite utf8_valid_cons in Hd.
  rewrite (proj2 (lead_width_1 c) Ha) in Hd.
  apply boundary_spec. right.
  destruct (drop (S i) s) as [|d r] eqn:E.
  - left. apply (f_equal length) in E. rewrite length_drop in E.
    apply lookup_lt_Some in Hc. simpl in E. lia.
  - right. exists d. replace (s !! (i + 1)) with (drop (S i) s !! 0);
      [|rewrite lookup_drop; f_equal; lia].
    rewrite E. split; [done|].
    destruct (utf8_valid_inv _ Hd) as [|(ch & r' & E' & Hch & _)]; [done|].
    destruct (char_enc_inv _ Hch) as (e & t & -> & Hw & _).
    simplify_eq/=. by eapply lead_width_not_cont.
Qed.

Lemma valid_slice s a b :
  utf8_valid s = true → is_char_boundary s a = true → is_char_boundary s b = true →
  a ≤ b → utf8_valid (slice a b s) = true.
Proof.
  intros Hs Ha Hb Hab. unfold slice.
  destruct (valid_split s b Hs Hb) as [Ht _].
  replace (take (b - a) (drop a s)) with (drop a (take b s)).
  - apply valid_split; [done|]. apply boundary_le in Hb as Hb'.
    apply boundary_spec in Ha as [->|[->|(c & Hc & Hn)]]; [done|..].
    + assert (b = length s) as -> by lia. rewrite firstn_all. apply boundary_length.
    + apply boundary_spec. destruct (decide (a = b)) as [->|].
      * right; left. rewrite length_take. lia.
      * right; right. exists c. rewrite lookup_take_lt by lia. done.
  - rewrite skipn_firstn_comm. done.
Qed.

(** ** Slices *)

Lemma str_slice_ok s a b :
  a ≤ b → is_char_boundary s a = true → is_char_boundary s b = true →
  str_slice s a b = Ok (slice a b s).
Proof.
  intros Hab Ha Hb. unfold str_slice. apply Nat.leb_le in Hab. by rewrite Hab, Ha, Hb.
Qed.

(** ** Lossy decoding *)

Lemma lossy_char ch r :
  char_enc ch = true → from_utf8_lossy (ch ++ r) = ch ++ from_utf8_lossy r.
Proof.
  intros (c & t & -> & Hw & Hc & Hs)%char_enc_inv.
  assert (Hr := lead_width_range _ _ Hw).
  destruct t as [|c1 [|c2 [|c3 [|]]]]; cbn [app length] in *; try lia;
    cbn [from_utf8_lossy]; rewrite Hw; simpl in Hc; bool_prop.
  - done.
  - by bool_rewrite.
  - destruct Hs as [Hs|(? & ? & ? & Hs)]; [simpl in Hs; lia|]. simplify_eq. by bool_rewrite.
  - destruct Hs as [Hs|(? & ? & ? & Hs)]; [simpl in Hs; lia|].
    simplify_eq. by bool_rewrite.
Qed.

Lemma lossy_valid_id s : utf8_valid s = true → from_utf8_lossy s = s.
Proof.
  revert s. apply utf8_valid_ind; [done|]. intros ch r Hch _ IH. by rewrite lossy_char, IH.
Qed.

Lemma replacement_char_enc : char_enc replacement_char = true.
Proof. by vm_compute. Qed.

(** A string starts with an encoded character, or its lossy decoding with the
    replacement character. *)
Lemma lossy_step c r :
  (∃ ch r', c :: r = ch ++ r' ∧ char_enc ch = true) ∨
  ∃ r', from_utf8_lossy (c :: r) = replacement_char ++ from_utf8_lossy r' ∧
        length r' < length (c :: r).
Proof.
  destruct (utf8_valid (c :: r)) eqn:Ev.
  { destruct (utf8_valid_inv _ Ev) as [|(ch & r' & ? & ? & _)]; [done|]. left. eauto. }
  cbn [from_utf8_lossy].
  destruct (lead_width c) as [[|[|[|[|[|w]]]]]|] eqn:E;
    try (right; exists r; simpl; split; [done|lia]).
  - left. exists [c], r. split; [done|]. unfold char_enc.
    by rewrite bool_decide_eq_true_2.
  - destruct r as [|c1 r]; [right; exists []; simpl; split; [done|lia]|].
    destruct (is_cont c1) eqn:E1; [|right; exists (c1 :: r); split; [done|simpl; lia]].
    left. exists [c; c1], r. split; [done|]. unfold char_enc.
    rewrite bool_decide_eq_true_2 by done. simpl. by rewrite E1.
  - destruct r as [|c1 r]; [right; exists []; simpl; split; [done|lia]|].
    destruct (second_ok c c1) eqn:E1; [|right; exists (c1 :: r); split; [done|simpl; lia]].
    destruct r as [|c2 r]; [right; exists []; simpl; split; [done|lia]|].
    destruct (is_cont c2) eqn:E2; [|right; exists (c2 :: r); split; [done|simpl; lia]].
    left. exists [c; c1; c2], r. split; [done|]. unfold char_enc.
    rewrite bool_decide_eq_true_2 by done. simpl.
    by rewrite E1, E2, (second_ok_cont _ _ E1).
  - destruct r as [|c1 r]; [right; exists []; simpl; split; [done|lia]|].
    destruct (second_ok c c1) eqn:E1; [|right; exists (c1 :: r); split; [done|simpl; lia]].
    destruct r as [|c2 r]; [right; exists []; simpl; split; [done|lia]|].
    destruct (is_cont c2) eqn:E2; [|right; exists (c2 :: r); split; [done|simpl; lia]].
    destruct r as [|c3 r]; [right; exists []; simpl; split; [done|lia]|].
    destruct (is_cont c3) eqn:E3; [|right; exists (c3 :: r); split; [done|simpl; lia]].
    left. exists [c; c1; c2; c3], r. split; [done|]. unfold char_enc.
    rewrite bool_decide_eq_true_2 by done. simpl.
    by rewrite E1, E2, E3, (second_ok_cont _ _ E1).
Qed.

Lemma lossy_valid s : utf8_valid (from_utf8_lossy s) = true.
Proof.
  induction s as [s IH] using (induction_ltof1 _ (@length ascii)); unfold ltof in IH.
  destruct s as [|c r]; [done|].
  destruct (lossy_step c r) as [(ch & r' & E & Hch)|(r' & E & Hlt)].
  - rewrite E, lossy_char, utf8_valid_char by done. apply IH.
    rewrite E, length_app. destruct (char_enc_inv _ Hch) as (? & ? & -> & _). simpl. lia.
  - rewrite E, utf8_valid_char by apply replacement_char_enc. by apply IH.
Qed.
#[export] Hint Resolve lossy_valid boundary_length : ways.

(** ** Trimming *)

(** What is trimmed from the front is a prefix. *)
Lemma trim_start_suffix s : ∃ w, s = w ++ trim_start s.
Proof.
  exists (concat (take_while is_whitespace (chars s))). unfold trim_start.
  rewrite <- concat_app, take_while_drop_while. by rewrite concat_chars.
Qed.

Lemma trim_start_le s : length (trim_start s) ≤ length s.
Proof. destruct (trim_start_suffix s) as [w E]. rewrite E at 2. rewrite length_app. lia. Qed.

Lemma trim_start_matches_suffix c s :
  is_ascii c = true → ∃ w, s = w ++ trim_start_matches c s ∧ forallb is_ascii w = true.
Proof.
  intros Hc. exists (take_while (Ascii.eqb c) s). unfold trim_start_matches.
  rewrite take_while_drop_while. split; [done|].
  pose proof (take_while_forallb (Ascii.eqb c) s) as H.
  rewrite forallb_forall in *. intros d Hd%H. by apply Ascii.eqb_eq in Hd as <-.
Qed.

Lemma whitespace_head ch : is_whitespace ch = true → ∃ c t, ch = c :: t ∧ is_cont c = false.
Proof.
  intros H%bool_decide_eq_true.
  assert (Hall : forallb (λ ch, match ch with c :: _ => negb (is_cont c) | [] => false end)
                   whitespace_chars = true) by (vm_compute; reflexivity).
  rewrite forallb_forall in Hall. apply list_elem_of_In in H.
  specialize (Hall _ H). destruct ch as [|c t]; [done|]. apply negb_true_iff in Hall. eauto.
Qed.

(** A string that starts with [c] once trimmed starts on a character. *)
Lemma trim_start_first s c t :
  trim_start s = c :: t → is_ascii c = true → ∃ d r, s = d :: r ∧ is_cont d = false.
Proof.
  intros Ht Hc. pose proof (concat_chars s) as E. unfold trim_start in Ht.
  destruct (chars s) as [|ch rest]; [done|]. cbn [drop_while] in Ht.
  destruct (is_whitespace ch) eqn:Ew.
  - destruct (whitespace_head _ Ew) as (d & u & -> & Hd). simpl in E. subst s. eauto.
  - rewrite E in Ht. subst s. eauto using ascii_not_cont.
Qed.

(** ** Valid strings *)

Lemma utf8_valid_ascii s : forallb is_ascii s = true → utf8_valid s = true.
Proof.
  induction s as [|c s IH]; [done|]. cbn [forallb]. intros [Hc Hs]%andb_prop.
  rewrite utf8_valid_cons, (proj2 (lead_width_1 c) Hc). by apply IH.
Qed.

Lemma utf8_valid_concat s t : utf8_valid s = true → utf8_valid t = true → utf8_valid (s ++ t) = true.
Proof. intros ??. by rewrite utf8_valid_app. Qed.

(** A valid string starts on a character. *)
Lemma utf8_valid_head c s : utf8_valid (c :: s) = true → is_cont c = false.
Proof.
  rewrite utf8_valid_cons. destruct (lead_width c) eqn:E; [|done]. intros _.
  by eapply lead_width_not_cont.
Qed.

(** The end of a prefix is a boundary when what follows is valid. *)
Lemma boundary_app s t : utf8_valid t = true → is_char_boundary (s ++ t) (length s) = true.
Proof.
  intros Ht. apply boundary_spec. destruct t as [|c t].
  - right; left. by rewrite app_nil_r.
  - right; right. exists c. rewrite lookup_app_r by lia. rewrite Nat.sub_diag.
    split; [done|by eapply utf8_valid_head].
Qed.

Lemma str_eqb_eq a b : str_eqb a b = true ↔ a = b.
Proof. apply bool_decide_eq_true. Qed.

Lemma str_eqb_neq a b : str_eqb a b = false ↔ a ≠ b.
Proof. apply bool_decide_eq_false. Qed.

Lemma mem_str_spec a l : mem_str a l = true ↔ a ∈ l.
Proof. apply bool_decide_eq_true. Qed.

(** ** Numbers *)

Lemma digits_val_app s t :
  digits_val (s ++ t) = fold_left (λ acc c, acc * 10 + digit_val c)%N t (digits_val s).
Proof. unfold digits_val. by rewrite fold_left_app. Qed.

Lemma digits_val_snoc s c : digits_val (s ++ [c]) = (digits_val s * 10 + digit_val c)%N.
Proof. by rewrite digits_val_app. Qed.

Lemma pretty_N_char_digit x :
  (x < 10)%N → is_digit (pretty_N_char x) = true ∧ digit_val (pretty_N_char x) = x.
Proof.
  intros H. assert (x = 0 ∨ x = 1 ∨ x = 2 ∨ x = 3 ∨ x = 4 ∨ x = 5 ∨ x = 6 ∨ x = 7 ∨ x = 8 ∨ x = 9)%N
    as Hx by lia. repeat destruct Hx as [->|Hx]; try done. by subst.
Qed.

Lemma pretty_N_go_digits x s :
  ∃ d, lit (pretty_N_go x s) = d ++ lit s ∧ forallb is_digit d = true ∧ digits_val d = x ∧
       ((0 < x)%N → d ≠ []).
Proof.
  revert s. induction (N.lt_wf_0 x) as [x _ IH]; intros s.
  destruct (decide (x = 0)%N) as [->|Hx]; [by exists []|].
  rewrite pretty_N_go_step by lia.
  destruct (IH (x `div` 10)%N ltac:(apply N.div_lt; lia) (String (pretty_N_char (x `mod` 10)) s))
    as (d & Hd & Hdig & Hval & _).
  destruct (pretty_N_char_digit (x `mod` 10)) as [Hc1 Hc2]; [apply N.mod_lt; lia|].
  exists (d ++ [pretty_N_char (x `mod` 10)]). split_and!.
  - rewrite Hd. simpl. by rewrite <- app_assoc.
  - rewrite forallb_app, Hdig. simpl. by rewrite Hc1.
  - rewrite digits_val_snoc, Hval, Hc2. pose proof (N.div_mod x 10). lia.
  - intros _. by destruct d.
Qed.

(** What [show_N] prints is digits that read back. *)
Lemma show_N_digits n :
  forallb is_digit (show_N n) = true ∧ digits_val (show_N n) = n ∧ show_N n ≠ [].
Proof.
  unfold show_N, pretty, pretty_N. case_decide as E; [by subst|].
  destruct (pretty_N_go_digits n "") as (d & Hd & ? & ? & Hne). rewrite Hd.
  change (lit "") with (@nil ascii). rewrite app_nil_r. split_and!; [done..|apply Hne; lia].
Qed.

Lemma digits_val_zeros k s : digits_val (replicate k "0"%char ++ s) = digits_val s.
Proof.
  rewrite digits_val_app. unfold digits_val at 2. f_equal.
  induction k as [|k IH]; [done|]. by rewrite replicate_S_end, digits_val_snoc, IH.
Qed.

Lemma show_pad_digits w n :
  forallb is_digit (show_pad w n) = true ∧ digits_val (show_pad w n) = n ∧ show_pad w n ≠ [].
Proof.
  destruct (show_N_digits n) as (Hd & Hv & Hne). unfold show_pad. split_and!.
  - rewrite forallb_app, Hd, andb_true_r. by induction (w - _).
  - by rewrite digits_val_zeros.
  - by destruct (replicate _ _), (show_N n).
Qed.

Lemma digit_not_plus d : forallb is_digit d = true → strip_prefix ["+"%char] d = None ∨ d = [].
Proof.
  destruct d as [|c d]; [by right|]. cbn [forallb strip_prefix]. intros [Hc _]%andb_prop. left.
  destruct ("+"%char =?a c) eqn:E; [|done]. by apply Ascii.eqb_eq in E as <-.
Qed.

Lemma parse_digits max d :
  forallb is_digit d = true → d ≠ [] → (digits_val d ≤ max)%N →
  parse_unsigned max d = Some (digits_val d).
Proof.
  intros Hd Hne Hle. unfold parse_unsigned.
  destruct (digit_not_plus d Hd) as [->|?]; [|done].
  destruct d as [|c d]; [done|]. rewrite Hd, (proj2 (N.leb_le _ _)) by done. done.
Qed.

(** ** ASCII text *)

Lemma char_width_ascii c : is_ascii c = true → char_width c = 1.
Proof.
  unfold is_ascii, char_width. intros H%N.ltb_lt.
  rewrite (proj2 (N.ltb_lt _ _)), (proj2 (N.ltb_lt _ _)) by lia. done.
Qed.

Lemma chars_ascii s : forallb is_ascii s = true → chars s = (λ c, [c]) <$> s.
Proof.
  induction s as [|c s IH]; [done|]. cbn [forallb]. intros [Hc Hs]%andb_prop.
  rewrite chars_cons, char_width_ascii by done. by rewrite IH.
Qed.

Lemma drop_while_none {A} (p : A → bool) l : forallb (λ x, negb (p x)) l = true → drop_while p l = l.
Proof. destruct l as [|x l]; simpl; [done|]. intros [H%negb_true_iff _]%andb_prop. by rewrite H. Qed.

Lemma forallb_reverse {A} (p : A → bool) l : forallb p (reverse l) = forallb p l.
Proof.
  induction l as [|x l IH]; [done|]. rewrite reverse_cons, forallb_app, IH. simpl.
  rewrite andb_true_r. apply andb_comm.
Qed.

(** Text with no white space trims to itself. *)
Lemma trim_plain s :
  forallb (λ c, is_ascii c && negb (is_whitespace [c])) s = true → trim s = s.
Proof.
  intros H. assert (Ha : forallb is_ascii s = true).
  { rewrite forallb_forall in *. intros c Hc%H. by apply andb_prop in Hc as [? _]. }
  assert (Hw : forallb (λ ch, negb (is_whitespace ch)) (chars s) = true).
  { rewrite chars_ascii by done. rewrite forallb_forall in *.
    intros ch (c & <- & Hc)%in_map_iff. apply H in Hc. by apply andb_prop in Hc as [_ ?]. }
  assert (Hs : trim_start s = s).
  { unfold trim_start. rewrite drop_while_none by done. apply concat_chars. }
  unfold trim. rewrite Hs. unfold trim_end.
  rewrite drop_while_none, reverse_involutive by (by rewrite forallb_reverse).
  apply concat_chars.
Qed.

(** ** Prefixes and suffixes *)

Lemma strip_prefix_spec p s t : strip_prefix p s = Some t ↔ s = p ++ t.
Proof.
  revert s. induction p as [|a p IH]; intros [|d s]; simpl; try naive_solver.
  destruct (a =?a d) eqn:E.
  - apply Ascii.eqb_eq in E as ->. rewrite IH. naive_solver.
  - apply Ascii.eqb_neq in E. naive_solver.
Qed.

Lemma starts_with_spec p s : starts_with p s = true ↔ ∃ t, s = p ++ t.
Proof.
  unfold starts_with. destruct (strip_prefix p s) as [t|] eqn:E.
  - apply strip_prefix_spec in E. naive_solver.
  - split; [done|]. intros [t ?%strip_prefix_spec]. congruence.
Qed.

Lemma strip_suffix_spec p s t : strip_suffix p s = Some t ↔ s = t ++ p.
Proof.
  unfold strip_suffix. rewrite fmap_Some. split.
  - intros (r & Hr%strip_prefix_spec & ->).
    rewrite <- (reverse_involutive s), Hr, reverse_app, reverse_involutive. done.
  - intros ->. exists (reverse t). rewrite strip_prefix_spec, reverse_app.
    by rewrite reverse_involutive.
Qed.

Lemma strip_prefix_here p r : strip_prefix p (p ++ r) = Some r.
Proof. by apply strip_prefix_spec. Qed.

Lemma split_char_nonempty {A} (p : A → bool) l : split_on p l ≠ [].
Proof. destruct l as [|x l]; simpl; repeat case_match; done. Qed.

Lemma join_split_on c s : join [c] (split_char c s) = s.
Proof.
  unfold split_char. induction s as [|x s IH]; simpl; [done|].
  pose proof (split_char_nonempty (Ascii.eqb c) s) as Hne.
  destruct (split_on (Ascii.eqb c) s) as [|w ws]; [done|].
  destruct (c =?a x) eqn:E.
  - apply Ascii.eqb_eq in E as <-. simpl in *. by rewrite IH.
  - destruct ws; simpl in *; by rewrite IH.
Qed.
