(* ===== verification/ShellData.v ===== *)
(** * The describer's data types

    The enumerations and records of [tools/command-describer/src/lib.rs] and the
    token types of [lex.rs]. *)

From Stdlib Require Import Ascii.
From stdpp Require Import base tactics list numbers strings option.
From S2P Require Import Prelude RustStr.

(** A [Range<usize>]. *)
Record range := Range { r_start : nat; r_end : nat }.

#[export] Instance range_eq_dec : EqDecision range.
Proof. solve_decision. Defined.

(** What joins a segment to the one before it. *)
Module Connector.

Inductive t : Type :=
  | Start
  | Semicolon
  | And
  | Or
  | Pipe
  | Background
  | Newline
  | Subshell
  | CommandSubstitution
  | LoopBody
  | CommandString.

#[global] Instance eq_dec : EqDecision t.
Proof. solve_decision. Defined.

Definition as_str (c : t) : str :=
  match c with
  | Start => "start"
  | Semicolon => ";"
  | And => "&&"
  | Or => "||"
  | Pipe => "|"
  | Background => "&"
  | Newline => "newline"
  | Subshell => "subshell"
  | CommandSubstitution => "$()"
  | LoopBody => "do"
  | CommandString => "string"
  end.

End Connector.

(** What a segment does within the call. *)
Module Role.

Inductive t : Type :=
  | Navigation
  | Filter
  | Operative.

#[global] Instance eq_dec : EqDecision t.
Proof. solve_decision. Defined.

Definition as_str (r : t) : str :=
  match r with
  | Navigation => "navigation"
  | Filter => "filter"
  | Operative => "operative"
  end.

End Role.

(** The verb class of an operative segment, most consequential first. *)
Module Class.

Inductive t : Type :=
  | Publish
  | VcsWrite
  | Service
  | Package
  | BuildTest
  | FileWrite
  | VcsRead
  | Search
  | ReadInspect
  | Other.

#[global] Instance eq_dec : EqDecision t.
Proof. solve_decision. Defined.

(** [Class::ALL] *)
Definition ALL : list t :=
  [Publish; VcsWrite; Service; Package; BuildTest; FileWrite; VcsRead; Search;
   ReadInspect; Other].

(** The derived order: by declaration. *)
Definition rank (c : t) : nat :=
  match c with
  | Publish => 0
  | VcsWrite => 1
  | Service => 2
  | Package => 3
  | BuildTest => 4
  | FileWrite => 5
  | VcsRead => 6
  | Search => 7
  | ReadInspect => 8
  | Other => 9
  end.
Definition le (a b : t) : bool := rank a <=? rank b.
Definition min (a b : t) : t := if le a b then a else b.

Definition is_action (c : t) : bool := le c FileWrite.

Definition as_str (c : t) : str :=
  match c with
  | Publish => "publish"
  | VcsWrite => "vcs-write"
  | Service => "service"
  | Package => "package"
  | BuildTest => "build-test"
  | FileWrite => "file-write"
  | VcsRead => "vcs-read"
  | Search => "search"
  | ReadInspect => "read-inspect"
  | Other => "other"
  end.

End Class.

(** One simple command within a shell command string. *)
Record Segment := {
  sg_connector : Connector.t;
  sg_depth : nat;
  sg_role : Role.t;
  sg_program : option str;
  sg_subcommand : option str;
  sg_flags : list str;
  sg_class : option Class.t;
  sg_span : range;
  sg_text : str;
  sg_program_at : nat;
}.

Definition set_connector (c : Connector.t) (s : Segment) : Segment := {|
  sg_connector := c;
  sg_depth := sg_depth s;
  sg_role := sg_role s;
  sg_program := sg_program s;
  sg_subcommand := sg_subcommand s;
  sg_flags := sg_flags s;
  sg_class := sg_class s;
  sg_span := sg_span s;
  sg_text := sg_text s;
  sg_program_at := sg_program_at s;
|}.

Definition set_span (r : range) (s : Segment) : Segment := {|
  sg_connector := sg_connector s;
  sg_depth := sg_depth s;
  sg_role := sg_role s;
  sg_program := sg_program s;
  sg_subcommand := sg_subcommand s;
  sg_flags := sg_flags s;
  sg_class := sg_class s;
  sg_span := r;
  sg_text := sg_text s;
  sg_program_at := sg_program_at s;
|}.

Definition is_operative (s : Segment) : bool := bool_decide (sg_role s = Role.Operative).

(** [Segment::program_text]: the text from the program word on. *)
Definition program_text (s : Segment) : res str := str_from (sg_text s) (sg_program_at s).

(** [Segment::verb]: program, subcommand and flags, space-joined. *)
Definition verb (s : Segment) : str :=
  join " " (option_list (sg_program s) ++ option_list (sg_subcommand s) ++ sg_flags s).

(** ** Tokens *)

Module TokenKind.

Inductive t : Type :=
  | Word
  | RedirectOp
  | RedirectTarget.

#[global] Instance eq_dec : EqDecision t.
Proof. solve_decision. Defined.

End TokenKind.

Record Token := {
  tk_span : range;
  tk_value : str;
  tk_kind : TokenKind.t;
}.

Definition is_word_token (t : Token) : bool := bool_decide (tk_kind t = TokenKind.Word).

Record RawSegment := {
  rs_connector : Connector.t;
  rs_depth : nat;
  rs_tokens : list Token;
}.

Record Lexed := {
  lx_segments : list RawSegment;
  lx_cut : list range;
}.
