(* ===== verification/ShellTables.v ===== *)
(** * The describer's tables

    [tools/command-describer/src/tables.rs]: the lists the parser reads, the
    class rules with their conditions, and the lookups. *)

From Stdlib Require Import Ascii.
From stdpp Require Import base tactics list numbers strings option.
From S2P Require Import Prelude RustStr ShellData.

(** ** Lists *)

Definition NAVIGATION : list str := [
  "cd"; "pushd"; "popd"; "export"; "set"; "unset"; "source"; "."; "local"; "declare";
  "alias"; "trap"; "shift"; "echo"; "printf"; "true"; "false"; ":"; "sleep"; "wait";
  "read"; "exit"; "return"; "test"; "["; "[["; "umask"; "shopt"; "eval"; "type"; "hash";
  "ulimit"; "mkdir"; "break"; "continue"
].

Definition FILTERS : list str := [
  "head"; "tail"; "cut"; "sort"; "uniq"; "wc"; "jq"; "yq"; "grep"; "egrep"; "fgrep"; "rg";
  "awk"; "gawk"; "tr"; "column"; "nl"; "fold"; "paste"; "rev"; "fmt"; "less"; "more";
  "cat"; "comm"; "base64"; "od"; "xxd"; "md5sum"; "sha256sum"; "sha1sum"; "sed"; "tac";
  "expand"; "strings"; "bat"; "ugrep"; "cmp"; "diff"; "zcat"; "gzip"; "gunzip"; "iconv";
  "numfmt"; "shuf"; "split"; "sponge"
].

Definition WRAPPERS : list str := [
  "sudo"; "doas"; "env"; "nice"; "time"; "command"; "builtin"; "exec"; "nohup"; "xargs";
  "stdbuf"; "ionice"; "unbuffer"; "timeout"
].

Definition IN_SHELL_WRAPPERS : list str := [
  "time"; "builtin"
].

Definition SHELLS : list str := [
  "bash"; "sh"; "zsh"; "dash"; "ksh"
].

Definition SHELL_VALUE_OPTIONS : list ascii := ["o"; "O"]%char.

Definition SHELL_VALUE_LONG_OPTIONS : list str := [
  "--rcfile"; "--init-file"
].

Definition LEAD_KEYWORDS : list str := [
  "do"; "then"; "else"; "elif"; "if"; "while"; "until"; "{"; "!"
].

Definition SKIP_KEYWORDS : list str := [
  "for"; "case"; "select"; "done"; "fi"; "esac"; "}"; "in"
].

Definition SUBCOMMAND_DEPTH : list (str * nat) := [
  ("git", 1); ("gh", 2); ("cargo", 1); ("make", 1);
  ("docker", 1); ("podman", 1); ("systemctl", 1); ("tmux", 1);
  ("npm", 1); ("pnpm", 1); ("yarn", 1); ("pip", 1);
  ("pip3", 1); ("uv", 1); ("go", 1); ("kubectl", 1);
  ("ways", 2); ("adr", 1); ("doc", 1); ("attend", 2);
  ("attend-chat", 1); ("claude", 1); ("brew", 1); ("pacman", 0);
  ("yay", 0); ("apt", 1); ("rustup", 1); ("just", 1);
  ("glab", 2); ("journalctl", 0); ("gh-tasks", 1); ("ways-agent", 1);
  ("ways-audit", 1); ("ways-mcp", 1); ("mmaid", 1); ("busctl", 1);
  ("loginctl", 1); ("machinectl", 1); ("flatpak", 1); ("snap", 1);
  ("gcloud", 2); ("aws", 2)
].

Definition SECOND_WORD : list (str * list str) := [
  ("git", [
     "stash"; "worktree"; "remote"; "submodule"]);
  ("docker", [
     "compose"; "image"; "container"; "network"; "volume"; "system"; "buildx"; "context"]);
  ("podman", [
     "compose"; "image"; "container"; "network"; "volume"; "system"; "buildx"; "context"])
].

Definition VALUE_FLAGS : list (str * list str) := [
  ("sudo", [
     "-u"; "-g"; "-C"; "-D"; "-h"; "-p"; "-r"; "-t"; "-U"; "-T"; "--user"; "--group";
     "--chdir"]);
  ("doas", [
     "-u"; "-C"]);
  ("env", [
     "-u"; "-C"; "-S"; "--unset"; "--chdir"; "--split-string"]);
  ("nice", [
     "-n"; "--adjustment"]);
  ("ionice", [
     "-c"; "-n"; "-p"; "-P"; "-u"; "--class"; "--classdata"]);
  ("stdbuf", [
     "-i"; "-o"; "-e"; "--input"; "--output"; "--error"]);
  ("xargs", [
     "-I"; "-n"; "-P"; "-L"; "-d"; "-a"; "-E"; "-s"; "--max-args"; "--max-procs";
     "--delimiter"; "--arg-file"]);
  ("time", [
     "-f"; "-o"; "--format"; "--output"]);
  ("timeout", [
     "-s"; "-k"; "--signal"; "--kill-after"]);
  ("git", [
     "-C"; "-c"; "--git-dir"; "--work-tree"; "--namespace"]);
  ("gh", [
     "-R"; "--repo"; "-X"; "--method"]);
  ("make", [
     "-C"; "-f"; "-I"; "-o"; "-W"; "--directory"; "--file"; "--makefile"]);
  ("cargo", [
     "-p"; "--package"; "--manifest-path"; "--target"; "--bin"; "--example"; "--test";
     "--features"; "-F"; "-Z"]);
  ("docker", [
     "-H"; "--host"; "--context"; "-f"; "--file"; "-p"; "--project-name"]);
  ("podman", [
     "-H"; "--host"; "--context"; "-f"; "--file"; "-p"; "--project-name"]);
  ("kubectl", [
     "-n"; "--namespace"; "--context"; "--kubeconfig"]);
  ("npm", [
     "--prefix"; "-w"; "--workspace"]);
  ("pnpm", [
     "-C"; "--dir"; "--filter"; "-F"]);
  ("tmux", [
     "-L"; "-S"; "-f"]);
  ("systemctl", [
     "-H"; "-M"; "--host"; "--machine"])
].

Definition NUMERIC_VALUE_FLAGS : list (str * list str) := [
  ("make", [
     "-j"; "-l"; "--jobs"; "--load-average"]);
  ("cargo", [
     "-j"; "--jobs"])
].

(** ** Conditions *)

(** The input to a class rule: one segment from its program on. *)
Record ClassInput := {
  ci_program : str;
  ci_tokens : list str;
  ci_words : list str;
  ci_redirect : bool;
}.

Definition word (c : ClassInput) (i : nat) : str := default [] (ci_words c !! i).

#[warnings="-register-all"]
Inductive Cond : Type :=
  | Always
  | W0 (set : list str)
  | W1 (set : list str)
  | Has (set : list str)
  | HasPrefix (set : list str)
  | Redirect
  | WordsOver (n : nat)
  | Not (inner : Cond)
  | All (cs : list Cond)
  | Any (cs : list Cond)
  | Pred (f : ClassInput → bool).

Fixpoint eval (x : Cond) (c : ClassInput) : bool :=
  match x with
  | Always => true
  | W0 set => mem_str (word c 0) set
  | W1 set => mem_str (word c 1) set
  | Has set => existsb (λ t, mem_str t set) (ci_tokens c)
  | HasPrefix set => existsb (λ t, existsb (λ p, starts_with p t) set) (ci_tokens c)
  | Redirect => ci_redirect c
  | WordsOver n => n <? length (ci_words c)
  | Not inner => negb (eval inner c)
  | All cs => forallb (λ x, eval x c) cs
  | Any cs => existsb (λ x, eval x c) cs
  | Pred f => f c
  end.

Record ClassRule := {
  cr_programs : list str;
  cr_when : Cond;
  cr_class : Class.t;
}.

(** ** Program lists of the rules *)

Definition SERVICE : list str := [
  "systemctl"; "kill"; "pkill"; "killall"; "tmux"; "screen"; "docker"; "podman";
  "launchctl"; "nohup"; "setsid"; "journalctl"; "loginctl"; "busctl"; "machinectl"; "ps";
  "pgrep"; "lsof"; "fuser"; "ss"; "systemd-run"; "kmscon"; "swaymsg"; "hyprctl";
  "qemu-system-x86_64"; "virsh"; "reboot"; "shutdown"
].

Definition PACKAGE : list str := [
  "pacman"; "yay"; "paru"; "apt"; "apt-get"; "brew"; "pip"; "pip3"; "pipx"; "npm"; "pnpm";
  "yarn"; "uv"; "rustup"; "flatpak"; "snap"; "dnf"; "makepkg"; "go"
].

Definition BUILD_TEST : list str := [
  "cargo"; "make"; "pytest"; "ctest"; "cmake"; "ninja"; "meson"; "gcc"; "cc"; "clang";
  "rustc"; "tsc"; "jest"; "vitest"; "bats"; "shellcheck"; "clippy-driver"; "just"; "bun";
  "deno"; "node"; "mvn"; "gradle"; "dotnet"; "msbuild"; "zig"; "luac"; "busted"; "tox";
  "nox"; "mypy"; "ruff"; "eslint"; "prettier"; "bash-test"
].

Definition SEARCH : list str := [
  "grep"; "rg"; "ag"; "ack"; "fd"; "find"; "locate"; "ugrep"; "fzf"; "git-grep"
].

Definition FILE_WRITE : list str := [
  "tee"; "cp"; "mv"; "rm"; "mkdir"; "touch"; "chmod"; "chown"; "ln"; "install"; "rsync";
  "tar"; "unzip"; "patch"; "truncate"; "dd"; "rmdir"; "trash"; "shred"
].

Definition READ_INSPECT : list str := [
  "cat"; "head"; "tail"; "less"; "more"; "bat"; "ls"; "lsd"; "eza"; "tree"; "wc"; "awk";
  "sed"; "jq"; "yq"; "stat"; "file"; "diff"; "cmp"; "readlink"; "realpath"; "du"; "df";
  "which"; "type"; "whereis"; "nl"; "sort"; "uniq"; "cut"; "tr"; "column"; "od"; "xxd";
  "hexdump"; "strings"; "md5sum"; "sha256sum"; "date"; "env"; "printenv"; "uname"; "id";
  "whoami"; "hostname"; "free"; "uptime"; "lscpu"; "lsblk"; "ip"; "pwd"; "basename";
  "dirname"; "fc-list"; "fc-match"; "identify"; "pdfinfo"; "ldd"; "nm"; "objdump";
  "readelf"; "base64"; "comm"; "paste"; "tac"; "rev"; "fold"; "fmt"; "expand"; "look";
  "getent"; "locale"; "lspci"; "lsusb"; "dmesg"; "ldconfig"; "pkg-config"; "man"; "tldr";
  "git-log"; "zcat"; "gzip"
].

(** The last component of a path. *)
Definition basename (w : str) : str := List.last (split_char "/"%char w) w.

(** ** Predicates too specific for the combinators *)

(** [find … -exec rm {} \;] and the like. *)
Definition find_exec_writes (c : ClassInput) : bool :=
  existsb
    (λ w, mem_str (fst w) ["-exec"; "-execdir"; "-ok"; "-okdir"] &&
          mem_str (basename (snd w)) FILE_WRITE)
    (windows2 (ci_tokens c)).

Section rules.
Context {U : Unicode}.

(** [pacman -S…] (not [-Ss]/[-Si]), [-R…] or [-U…]. *)
Definition pacman_write (t : str) : bool :=
  let word_tail s := forallb (λ ch, is_alphanumeric ch || str_eqb ch "_") (chars s) in
  match strip_prefix "-" t with
  | Some (first :: tail) =>
    if first =?a "S"%char then negb (contains_char "s"%char tail || contains_char "i"%char tail)
    else if (first =?a "R"%char) || (first =?a "U"%char) then word_tail tail
    else false
  | _ => false
  end.
Definition pacman_writes (c : ClassInput) : bool := existsb pacman_write (ci_tokens c).

Definition rule (programs : list str) (when : Cond) (class : Class.t) : ClassRule := {|
  cr_programs := programs;
  cr_when := when;
  cr_class := class;
|}.

(** The class rules, in order; the first that matches decides. *)
Definition CLASS_RULES : list ClassRule := [
  rule ["docker"; "podman"] (Any [W0 ["push"]; All [W0 ["image"; "manifest"; "buildx"]; W1
    ["push"]]]) Class.Publish;
  rule ["npm"; "pnpm"; "yarn"] (W0 ["publish"]) Class.Publish;
  rule ["cargo"] (W0 ["publish"]) Class.Publish;
  rule ["gh"] (All [W0 ["pr"; "issue"; "release"; "repo"; "label"]; W1 ["create"; "merge";
    "comment"; "edit"; "close"; "reopen"; "review"; "ready"; "delete"; "lock";
    "develop"]]) Class.Publish;
  rule ["gh"] (Any [All [W0 ["release"]; W1 ["upload"]]; All [W0 ["secret"; "variable"];
    W1 ["set"; "delete"]]; All [W0 ["gist"]; W1 ["create"; "edit"; "delete"]]])
    Class.Publish;
  rule ["gh"] (All [W0 ["api"]; Any [All [Has ["-X"; "--method"]; Has ["POST"; "PATCH";
    "PUT"; "DELETE"; "post"; "patch"; "put"; "delete"]]; Has ["-f"; "-F"; "--field";
    "--raw-field"; "--input"]]]) Class.Publish;
  rule ["gh"] (All [W0 ["workflow"; "run"]; W1 ["run"; "rerun"; "cancel"]]) Class.Publish;
  rule ["gh"] (Always) Class.VcsRead;
  rule ["git"] (W0 ["push"]) Class.Publish;
  rule ["git"] (Any [All [W0 ["tag"]; Any [Has ["-l"; "--list"]; Not (WordsOver 1)]]; All
    [W0 ["worktree"]; W1 ["list"]]; All [W0 ["stash"]; W1 ["list"; "show"]]; All [W0
    ["remote"]; W1 [""; "get-url"; "show"]]; All [W0 ["config"]; Not (Any [Has ["--add";
    "--unset"; "--global"]; WordsOver 2])]]) Class.VcsRead;
  rule ["git"] (W0 ["commit"; "checkout"; "switch"; "merge"; "rebase"; "reset"; "stash";
    "tag"; "add"; "rm"; "mv"; "worktree"; "cherry-pick"; "revert"; "pull"; "restore";
    "clean"; "am"; "apply"; "init"; "clone"; "config"; "submodule"; "remote"; "gc";
    "prune"]) Class.VcsWrite;
  rule ["git"] (All [W0 ["branch"]; Has ["-d"; "-D"; "-m"; "-M"; "--delete"; "-f"]])
    Class.VcsWrite;
  rule ["git"] (W0 ["grep"]) Class.Search;
  rule ["git"] (Always) Class.VcsRead;
  rule ["ps"; "pgrep"; "lsof"; "ss"; "journalctl"; "fuser"] (Always) Class.ReadInspect;
  rule ["systemctl"] (W0 ["status"; "show"; "list-units"; "is-active"; "is-enabled";
    "cat"; "list-timers"]) Class.ReadInspect;
  rule ["tmux"] (W0 ["ls"; "list-sessions"; "list-windows"; "capture-pane";
    "display-message"; "has-session"; "list-panes"]) Class.ReadInspect;
  rule ["docker"; "podman"] (W0 ["ps"; "images"; "logs"; "inspect"]) Class.ReadInspect;
  rule SERVICE (Always) Class.Service;
  rule ["kubectl"] (W0 ["apply"; "delete"; "create"; "patch"; "replace"; "scale";
    "rollout"]) Class.Service;
  rule ["command"] (Always) Class.ReadInspect;
  rule ["npm"; "pnpm"; "yarn"] (W0 ["test"; "run"; "build"; "exec"; "start"; "lint"])
    Class.BuildTest;
  rule ["go"] (W0 ["test"; "build"; "run"; "vet"]) Class.BuildTest;
  rule ["go"] (Not (W0 ["install"; "get"; "mod"])) Class.ReadInspect;
  rule ["pacman"; "yay"; "paru"] (Not (Pred pacman_writes)) Class.ReadInspect;
  rule ["pip"; "pip3"; "npm"; "brew"; "apt"; "uv"] (W0 ["list"; "show"; "search"; "info";
    "view"; "outdated"; "freeze"]) Class.ReadInspect;
  rule PACKAGE (Always) Class.Package;
  rule ["cargo"] (W0 ["install"; "add"; "update"; "remove"; "uninstall"]) Class.Package;
  rule ["node"] (Not (Has ["--test"])) Class.Other;
  rule BUILD_TEST (Always) Class.BuildTest;
  rule ["find"] (Any [Has ["-delete"]; Pred find_exec_writes]) Class.FileWrite;
  rule SEARCH (Always) Class.Search;
  rule ["sed"] (HasPrefix ["-i"; "--in-place"]) Class.FileWrite;
  rule ["tar"] (Has ["-t"; "-tf"; "-tzf"; "tf"; "--list"]) Class.ReadInspect;
  rule FILE_WRITE (Always) Class.FileWrite;
  rule [] (Redirect) Class.FileWrite;
  rule READ_INSPECT (Always) Class.ReadInspect;
  rule ["adr"] (W0 ["new"; "set"; "accept"; "archive"; "rename"; "consider"; "index"])
    Class.FileWrite;
  rule ["ways"] (W0 ["corpus"]) Class.BuildTest;
  rule ["ways"] (W0 ["manage"; "init"]) Class.Package;
  rule ["attend"] (All [W0 ["message"; "channel"]; W1 ["send"; "reply"; "join"; "add"]])
    Class.Publish
].

(** The class of an operative segment: the first matching rule's class. *)
Definition rule_matches (input : ClassInput) (r : ClassRule) : bool :=
  (bool_decide (cr_programs r = []) || mem_str (ci_program input) (cr_programs r)) &&
  eval (cr_when r) input.
Definition classify (input : ClassInput) : Class.t :=
  match find (rule_matches input) CLASS_RULES with
  | Some r => cr_class r
  | None => Class.Other
  end.

End rules.

(** ** Lookups *)

Definition subcommand_depth (program : str) : option nat :=
  snd <$> find (λ p, str_eqb (fst p) program) SUBCOMMAND_DEPTH.

Definition listed (table : list (str * list str)) (program item : str) : bool :=
  match find (λ p, str_eqb (fst p) program) table with
  | Some (_, items) => mem_str item items
  | None => false
  end.

Definition takes_value (program flag : str) : bool := listed VALUE_FLAGS program flag.
Definition takes_numeric_value (program flag : str) : bool :=
  listed NUMERIC_VALUE_FLAGS program flag.
Definition takes_second_word (program first : str) : bool := listed SECOND_WORD program first.
