(* ===== verification/ShellLex.v ===== *)
(** * The shell lexer

    [tools/command-describer/src/lex.rs]. The lexer's mutable state is the
    record [Lexer], a list in progress the record [List_]. The loops of [list],
    [word] and [double_quoted] call one another; they are the fields of [calls],
    each body is a definition over the calls it makes, and [lexer] ties the knot
    on fuel. Indexing past the end of the source and unsigned subtraction below
    zero give [Panicked]. *)

From Stdlib Require Import Ascii.
From stdpp Require Import base tactics list numbers strings option.
From S2P Require Import Prelude RustStr ShellData ShellTables.

Definition MAX_DEPTH : nat := 32.

Module Term.

Inductive t : Type :=
  | Eof
  | Paren
  | Backtick.

#[global] Instance eq_dec : EqDecision t.
Proof. solve_decision. Defined.

End Term.

Record Heredoc := {
  hd_delim : str;
  hd_strip_tabs : bool;
}.

Record Lexer := {
  lx_pos : nat;
  lx_heredocs : list Heredoc;
  lx_excluded : list range;
}.

Definition set_pos (p : nat) (st : Lexer) : Lexer :=
  {| lx_pos := p; lx_heredocs := lx_heredocs st; lx_excluded := lx_excluded st |}.
Definition advance (n : nat) (st : Lexer) : Lexer := set_pos (lx_pos st + n) st.
Definition push_heredoc (h : Heredoc) (st : Lexer) : Lexer :=
  {| lx_pos := lx_pos st; lx_heredocs := lx_heredocs st ++ [h]; lx_excluded := lx_excluded st |}.

(** ** One list's in-progress segment *)

Record List_ := {
  ls_depth : nat;
  ls_out : list RawSegment;
  ls_cur : RawSegment;
  ls_nested : list RawSegment;
  ls_redirect : option str;
  ls_dbracket : bool;
  ls_case_pattern : bool;
}.

Definition List_new (depth : nat) (first : Connector.t) : List_ := {|
  ls_depth := depth;
  ls_out := [];
  ls_cur := {| rs_connector := first; rs_depth := depth; rs_tokens := [] |};
  ls_nested := [];
  ls_redirect := None;
  ls_dbracket := false;
  ls_case_pattern := false;
|}.

Definition cur_tokens (l : List_) : list Token := rs_tokens (ls_cur l).

Definition set_out (out : list RawSegment) (l : List_) : List_ := {|
  ls_depth := ls_depth l; ls_out := out; ls_cur := ls_cur l; ls_nested := ls_nested l;
  ls_redirect := ls_redirect l; ls_dbracket := ls_dbracket l;
  ls_case_pattern := ls_case_pattern l;
|}.
Definition set_tokens (ts : list Token) (l : List_) : List_ := {|
  ls_depth := ls_depth l; ls_out := ls_out l;
  ls_cur := {| rs_connector := rs_connector (ls_cur l); rs_depth := rs_depth (ls_cur l);
               rs_tokens := ts |};
  ls_nested := ls_nested l; ls_redirect := ls_redirect l; ls_dbracket := ls_dbracket l;
  ls_case_pattern := ls_case_pattern l;
|}.
Definition push_token (t : Token) (l : List_) : List_ := set_tokens (cur_tokens l ++ [t]) l.
Definition extend_nested (segs : list RawSegment) (l : List_) : List_ := {|
  ls_depth := ls_depth l; ls_out := ls_out l; ls_cur := ls_cur l;
  ls_nested := ls_nested l ++ segs;
  ls_redirect := ls_redirect l; ls_dbracket := ls_dbracket l;
  ls_case_pattern := ls_case_pattern l;
|}.
Definition set_redirect (r : option str) (l : List_) : List_ := {|
  ls_depth := ls_depth l; ls_out := ls_out l; ls_cur := ls_cur l; ls_nested := ls_nested l;
  ls_redirect := r; ls_dbracket := ls_dbracket l; ls_case_pattern := ls_case_pattern l;
|}.
Definition set_dbracket (d : bool) (l : List_) : List_ := {|
  ls_depth := ls_depth l; ls_out := ls_out l; ls_cur := ls_cur l; ls_nested := ls_nested l;
  ls_redirect := ls_redirect l; ls_dbracket := d; ls_case_pattern := ls_case_pattern l;
|}.
Definition set_case_pattern (p : bool) (l : List_) : List_ := {|
  ls_depth := ls_depth l; ls_out := ls_out l; ls_cur := ls_cur l; ls_nested := ls_nested l;
  ls_redirect := ls_redirect l; ls_dbracket := ls_dbracket l; ls_case_pattern := p;
|}.

(** [List::flush]: end the current segment; the next one starts with [next]. *)
Definition flush (next : Connector.t) (l : List_) : List_ := {|
  ls_depth := ls_depth l;
  ls_out := ls_out l ++ match cur_tokens l with [] => [] | _ => [ls_cur l] end ++ ls_nested l;
  ls_cur := {| rs_connector := next; rs_depth := ls_depth l; rs_tokens := [] |};
  ls_nested := [];
  ls_redirect := None;
  ls_dbracket := false;
  ls_case_pattern := match cur_tokens l with
                     | first :: _ => str_eqb (tk_value first) "case"
                     | [] => ls_case_pattern l
                     end;
|}.

Definition in_case_pattern (l : List_) : bool :=
  match cur_tokens l with
  | t :: _ =>
    if str_eqb (tk_value t) "esac" then false
    else if str_eqb (tk_value t) "case" then true
    else ls_case_pattern l
  | [] => ls_case_pattern l
  end.

Definition only_prefix (l : List_) : bool :=
  let timed := match cur_tokens l with
               | t :: _ => str_eqb (tk_value t) "time"
               | [] => false
               end in
  forallb
    (λ t, let v := tk_value t in
          is_word_token t &&
          (mem_str v LEAD_KEYWORDS || str_eqb v "time" ||
           (timed && starts_with "-" v) ||
           ((2 <? length v) && ends_with "()" v)))
    (cur_tokens l).

Definition finish (l : List_) : list RawSegment := ls_out (flush Connector.Semicolon l).

(** ** The lexer *)

Section lexer.
Context (b : str).

Definition at_ (i : nat) : option ascii := b !! i.
Definition peek (st : Lexer) (ahead : nat) : option ascii := at_ (lx_pos st + ahead).
Definition peek_is (st : Lexer) (ahead : nat) (c : ascii) : bool :=
  match peek st ahead with Some d => d =?a c | None => false end.

(** [&self.b[x..y]] and [&self.b[x..]] *)
Definition bytes (x y : nat) : res str :=
  if (x <=? y) && (y <=? length b) then Ok (slice x y b) else Panicked.
Definition bytes_from (x : nat) : res str := bytes x (length b).

Definition lex_starts_with (st : Lexer) (s : str) : res bool :=
  starts_with s <$> bytes_from (lx_pos st).

(** The end (exclusive) of the run of bytes [p] holds of, from [i]. *)
Definition run_end (p : ascii → bool) (i : nat) : nat := i + length (take_while p (drop i b)).

Definition word_token (start stop : nat) (value : str) : Token :=
  {| tk_span := Range start stop; tk_value := value; tk_kind := TokenKind.Word |}.

(** [skip_balanced], on the bytes [s] from offset [i] on. *)
Fixpoint skip_balanced_go (open close : ascii) (single_quotes : bool)
    (s : str) (i depth : nat) (quote : option ascii) : nat :=
  match s with
  | [] => length b
  | c :: s' =>
    match quote with
    | Some q =>
      if (c =?a bslash) && (q =?a dquote) then
        match s' with
        | [] => length b
        | _ :: s'' => skip_balanced_go open close single_quotes s'' (i + 2) depth quote
        end
      else skip_balanced_go open close single_quotes s' (i + 1) depth
             (if c =?a q then None else quote)
    | None =>
      if c =?a bslash then
        match s' with
        | [] => length b
        | _ :: s'' => skip_balanced_go open close single_quotes s'' (i + 2) depth None
        end
      else if (c =?a dquote) || ((c =?a squote) && single_quotes) then
        skip_balanced_go open close single_quotes s' (i + 1) depth (Some c)
      else if c =?a open then
        skip_balanced_go open close single_quotes s' (i + 1) (depth + 1) None
      else if c =?a close then
        if depth - 1 =? 0 then i + 1
        else skip_balanced_go open close single_quotes s' (i + 1) (depth - 1) None
      else skip_balanced_go open close single_quotes s' (i + 1) depth None
    end
  end.
Definition skip_balanced (start : nat) (open close : ascii) (single_quotes : bool) : nat :=
  skip_balanced_go open close single_quotes (drop start b) start 0 None.

(** A redirection operator, taking an adjacent fd number with it. *)
Definition OPS : list str :=
  ["&>>"; "&>"; "<<<"; "<<-"; "<<"; "<>"; "<&"; "<"; ">>"; ">&"; ">|"; ">"].

Definition is_fd (fd : str) : bool :=
  (negb (str_eqb fd []) && forallb is_digit fd) || (starts_with "{" fd && ends_with "}" fd).

Definition redirect (l : List_) (st : Lexer) : res (List_ * Lexer) :=
  let '(start, l) :=
    match list.last (cur_tokens l) with
    | Some t =>
      if is_word_token t && (r_end (tk_span t) =? lx_pos st) && is_fd (tk_value t)
      then (r_start (tk_span t), set_tokens (removelast (cur_tokens l)) l)
      else (lx_pos st, l)
    | None => (lx_pos st, l)
    end in
  rest ← bytes_from (lx_pos st);
  let op := default ">" (find (λ op, starts_with op rest) OPS) in
  let st := advance (length op) st in
  let t := {| tk_span := Range start (lx_pos st); tk_value := op;
              tk_kind := TokenKind.RedirectOp |} in
  Ok (set_redirect (Some op) (push_token t l), st).

(** ** Heredoc bodies *)

(** The end of the body of [doc], reading lines from [line_start]. *)
Fixpoint heredoc_end (fuel : nat) (doc : Heredoc) (line_start : nat) : res nat :=
  match fuel with
  | 0 => NoFuel
  | S fuel =>
    if length b <=? line_start then Ok (length b)
    else
      let line_end := run_end (λ c, negb (c =?a nl)) line_start in
      raw ← bytes line_start line_end;
      let line := from_utf8_lossy raw in
      let line := if hd_strip_tabs doc then trim_start_matches tab line else line in
      if str_eqb (trim line) (hd_delim doc) then Ok (Nat.min (line_end + 1) (length b))
      else
        let trimmed := trim_start line in
        let lead := length line - length trimmed in
        match strip_prefix (hd_delim doc) trimmed with
        | Some after =>
          if starts_with ")" (trim_start after) then
            let shown := length line in
            _ ← check (shown <=? length raw);
            Ok (line_start + (length raw - shown) + lead + length (hd_delim doc))
          else heredoc_end fuel doc (line_end + 1)
        | None => heredoc_end fuel doc (line_end + 1)
        end
  end.

(** Read the bodies queued on the line just ended, and record each as excluded. *)
Fixpoint heredoc_bodies_go (docs : list Heredoc) (st : Lexer) : res Lexer :=
  match docs with
  | [] => Ok st
  | doc :: docs =>
    let start := lx_pos st in
    stop ← heredoc_end (S (length b)) doc start;
    heredoc_bodies_go docs
      {| lx_pos := stop; lx_heredocs := lx_heredocs st;
         lx_excluded := lx_excluded st ++ [Range start stop] |}
  end.
Definition heredoc_bodies (st : Lexer) : res Lexer :=
  heredoc_bodies_go (lx_heredocs st)
    {| lx_pos := lx_pos st; lx_heredocs := []; lx_excluded := lx_excluded st |}.

(** ** Escapes *)

Definition escape (val : str) (st : Lexer) : str * Lexer :=
  match peek st 1 with
  | Some c => if c =?a nl then (val, advance 2 st) else (val ++ [c], advance 2 st)
  | None => (val, advance 1 st)
  end.

(** The loop over an ANSI-C string [$'…'], on the bytes [s] from offset [i]. *)
Fixpoint ansi_c (s : str) (i : nat) (val : str) : nat * str :=
  match s with
  | [] => (i, val)
  | c :: s' =>
    if c =?a squote then (i + 1, val)
    else if negb (c =?a bslash) then ansi_c s' (i + 1) (val ++ [c])
    else
      match s' with
      | [] => (i + 2, val ++ [bslash])
      | e :: s'' =>
        let out :=
          if e =?a "n"%char then [nl]
          else if e =?a "t"%char then [tab]
          else if e =?a "r"%char then [cr]
          else if (e =?a bslash) || (e =?a squote) || (e =?a dquote) || (e =?a "?"%char) then [e]
          else [bslash; e] in
        ansi_c s'' (i + 2) (val ++ out)
      end
  end.

(** ** The calls the loops make to one another *)

Record calls := {
  call_list : List_ → Term.t → Lexer → res (list RawSegment * Lexer);
  call_word : nat → List_ → Term.t → str → Lexer → res (List_ * str * Lexer);
  call_dquote : List_ → Term.t → str → Lexer → res (List_ * str * Lexer);
}.

Section bodies.
Context (self : calls).

(** Parse a nested list after its opener, or skip it past the depth cap. *)
Definition sub_list (depth : nat) (first : Connector.t) (term : Term.t) (st : Lexer)
    : res (list RawSegment * Lexer) :=
  if depth + 1 <? MAX_DEPTH then call_list self (List_new (depth + 1) first) term st
  else
    match term with
    | Term.Paren =>
      _ ← check (1 <=? lx_pos st);
      Ok ([], set_pos (skip_balanced (lx_pos st - 1) "("%char ")"%char true) st)
    | Term.Backtick =>
      rest ← bytes_from (lx_pos st);
      let p := match position (Ascii.eqb btick) rest with
               | Some i => lx_pos st + i + 1
               | None => length b
               end in
      Ok ([], set_pos p st)
    | Term.Eof => Ok ([], set_pos (length b) st)
    end.

Definition backtick (l : List_) (val : str) (st : Lexer) : res (List_ * str * Lexer) :=
  let start := lx_pos st in
  '(inner, st) ← sub_list (ls_depth l) Connector.CommandSubstitution Term.Backtick
                   (advance 1 st);
  raw ← bytes start (lx_pos st);
  Ok (extend_nested inner l, val ++ raw, st).

Definition dollar (l : List_) (val : str) (in_dquote : bool) (st : Lexer)
    : res (List_ * str * Lexer) :=
  let start := lx_pos st in
  let keep (l : List_) (st : Lexer) : res (List_ * str * Lexer) :=
    raw ← bytes start (lx_pos st); Ok (l, val ++ raw, st) in
  let plain := Ok (l, val ++ ["$"%char], advance 1 st) in
  match peek st 1 with
  | None => plain
  | Some c =>
    if c =?a "("%char then
      if peek_is st 2 "("%char then
        keep l (set_pos (skip_balanced (start + 1) "("%char ")"%char (negb in_dquote)) st)
      else
        '(inner, st) ← sub_list (ls_depth l) Connector.CommandSubstitution Term.Paren
                         (advance 2 st);
        keep (extend_nested inner l) st
    else if c =?a "{"%char then
      keep l (set_pos (skip_balanced (start + 1) "{"%char "}"%char (negb in_dquote)) st)
    else if ((c =?a squote) || (c =?a dquote)) && in_dquote then plain
    else if c =?a squote then
      let '(p, val) := ansi_c (drop (start + 2) b) (start + 2) val in
      Ok (l, val, set_pos (Nat.min p (length b)) st)
    else if c =?a dquote then Ok (l, val, advance 1 st)
    else plain
  end.

(** The loop of [double_quoted], after its opening quote. *)
Definition double_quoted_body (l : List_) (term : Term.t) (val : str) (st : Lexer)
    : res (List_ * str * Lexer) :=
  match peek st 0 with
  | None => Ok (l, val, st)
  | Some c =>
    if c =?a dquote then Ok (l, val, advance 1 st)
    else if c =?a bslash then
      match peek st 1 with
      | Some n =>
        if n =?a nl then call_dquote self l term val (advance 2 st)
        else if (n =?a "$"%char) || (n =?a btick) || (n =?a dquote) || (n =?a bslash) then
          call_dquote self l term (val ++ [n]) (advance 2 st)
        else call_dquote self l term (val ++ [bslash]) (advance 1 st)
      | None => call_dquote self l term (val ++ [bslash]) (advance 1 st)
      end
    else if c =?a "$"%char then
      '(l, val, st) ← dollar l val true st; call_dquote self l term val st
    else if c =?a btick then
      if bool_decide (term = Term.Backtick) then Ok (l, val, st)
      else '(l, val, st) ← backtick l val st; call_dquote self l term val st
    else call_dquote self l term (val ++ [c]) (advance 1 st)
  end.
Definition double_quoted (l : List_) (term : Term.t) (val : str) (st : Lexer)
    : res (List_ * str * Lexer) :=
  call_dquote self l term val (advance 1 st).

(** The bytes that end a word. *)
Definition ends_word (c : ascii) : bool :=
  existsb (Ascii.eqb c) [" "%char; tab; cr; nl; ";"%char; "&"%char; "|"%char; ")"%char].

(** The bytes of a word's value after which a [(] stays in the word. *)
Definition opens_in_word (prev : option ascii) : bool :=
  match prev with
  | Some p => existsb (Ascii.eqb p) ["="; "@"; "?"; "*"; "+"; "!"]%char
  | None => false
  end.

(** The loop of [word], which began at [start]. *)
Definition word_body (start : nat) (l : List_) (term : Term.t) (val : str) (st : Lexer)
    : res (List_ * str * Lexer) :=
  match peek st 0 with
  | None => Ok (l, val, st)
  | Some c =>
    if ends_word c then Ok (l, val, st)
    else if (c =?a "<"%char) || (c =?a ">"%char) then
      if (lx_pos st =? start) && peek_is st 1 "("%char then
        '(inner, st) ← sub_list (ls_depth l) Connector.CommandSubstitution Term.Paren
                         (advance 2 st);
        raw ← bytes start (lx_pos st);
        call_word self start (extend_nested inner l) term (val ++ raw) st
      else Ok (l, val, st)
    else if c =?a "("%char then
      if opens_in_word (list.last val) then
        let stop := skip_balanced (lx_pos st) "("%char ")"%char true in
        raw ← bytes (lx_pos st) stop;
        call_word self start l term (val ++ raw) (set_pos stop st)
      else Ok (l, val, st)
    else if c =?a btick then
      if bool_decide (term = Term.Backtick) then Ok (l, val, st)
      else '(l, val, st) ← backtick l val st; call_word self start l term val st
    else if c =?a bslash then
      let '(val, st) := escape val st in call_word self start l term val st
    else if c =?a squote then
      rest ← bytes_from (lx_pos st + 1);
      let stop := match position (Ascii.eqb squote) rest with
                  | Some i => lx_pos st + 1 + i
                  | None => length b
                  end in
      raw ← bytes (lx_pos st + 1) stop;
      call_word self start l term (val ++ raw) (set_pos (Nat.min (stop + 1) (length b)) st)
    else if c =?a dquote then
      '(l, val, st) ← double_quoted l term val st; call_word self start l term val st
    else if c =?a "$"%char then
      '(l, val, st) ← dollar l val false st; call_word self start l term val st
    else call_word self start l term (val ++ [c]) (advance 1 st)
  end.

(** Only an unquoted [[[] or []]] opens or closes a test. *)
Definition update_dbracket (raw : str) (l : List_) : List_ :=
  if str_eqb raw "[[" && forallb (λ t, mem_str (tk_value t) LEAD_KEYWORDS) (cur_tokens l)
  then set_dbracket true l
  else if str_eqb raw "]]" then set_dbracket false l
  else l.

(** One word, with any substitutions inside it parsed into [nested]. *)
Definition word_ (l : List_) (term : Term.t) (st : Lexer) : res (List_ * Lexer) :=
  let start := lx_pos st in
  '(l, val, st) ← call_word self start l term [] st;
  if lx_pos st =? start then Ok (l, advance 1 st)
  else
    let value := from_utf8_lossy val in
    let redirect := ls_redirect l in
    let l := set_redirect None l in
    let kind := match redirect with
                | Some _ => TokenKind.RedirectTarget
                | None => TokenKind.Word
                end in
    let st := match redirect with
              | Some op =>
                if str_eqb op "<<" || str_eqb op "<<-"
                then push_heredoc {| hd_delim := value; hd_strip_tabs := str_eqb op "<<-" |} st
                else st
              | None => st
              end in
    raw ← bytes start (lx_pos st);
    let l := match kind with
             | TokenKind.Word => update_dbracket raw l
             | _ => l
             end in
    Ok (push_token {| tk_span := Range start (lx_pos st); tk_value := value; tk_kind := kind |} l,
        st).

(** [(] between words. *)
Definition open_paren (l : List_) (st : Lexer) : res (List_ * Lexer) :=
  if in_case_pattern l then Ok (l, advance 1 st)
  else if negb (only_prefix l) then
    let start := lx_pos st in
    let stop := skip_balanced start "("%char ")"%char true in
    raw ← bytes start stop;
    let raw := from_utf8_lossy raw in
    let st := set_pos stop st in
    match list.last (cur_tokens l) with
    | Some t =>
      if (r_end (tk_span t) =? start) || str_eqb raw "()" then
        let t' := {| tk_span := Range (r_start (tk_span t)) stop;
                     tk_value := tk_value t ++ raw; tk_kind := tk_kind t |} in
        Ok (set_tokens (removelast (cur_tokens l) ++ [t']) l, st)
      else Ok (push_token (word_token start stop raw) l, st)
    | None => Ok (push_token (word_token start stop raw) l, st)
    end
  else if peek_is st 1 "("%char then
    let start := lx_pos st in
    let stop := skip_balanced start "("%char ")"%char true in
    raw ← bytes start stop;
    Ok (push_token (word_token start stop (from_utf8_lossy raw)) l, set_pos stop st)
  else
    let l := set_tokens [] l in
    '(inner, st) ← sub_list (ls_depth l) Connector.Subshell Term.Paren (advance 1 st);
    Ok (set_out (ls_out l ++ inner) l, st).

(** The bytes read as words inside [[[ … ]]]. *)
Definition dbracket_byte (c : ascii) : bool :=
  existsb (Ascii.eqb c) ["&"; "|"; "<"; ">"; "("; ")"]%char.

(** The loop of [list]: segments until [term] (consumed) or the end. *)
Definition list_body (l : List_) (term : Term.t) (st : Lexer) : res (list RawSegment * Lexer) :=
  match peek st 0 with
  | None => Ok (finish l, st)
  | Some c =>
    if (c =?a " "%char) || (c =?a tab) || (c =?a cr) then call_list self l term (advance 1 st)
    else if (c =?a bslash) && peek_is st 1 nl then call_list self l term (advance 2 st)
    else if c =?a nl then
      let l := if only_prefix l then l else flush Connector.Newline l in
      st ← heredoc_bodies (advance 1 st);
      call_list self l term st
    else if c =?a "#"%char then
      call_list self l term (set_pos (run_end (λ c, negb (c =?a nl)) (lx_pos st)) st)
    else if dbracket_byte c && ls_dbracket l then
      let start := lx_pos st in
      let stop := run_end dbracket_byte start in
      raw ← bytes start stop;
      call_list self (push_token (word_token start stop (from_utf8_lossy raw)) l) term
        (set_pos stop st)
    else if c =?a ";"%char then
      rest ← bytes_from (lx_pos st);
      let n := match find (λ op, starts_with op rest) [";;&"; ";;"; ";&"] with
               | Some op => length op
               | None => 1
               end in
      let l := flush Connector.Semicolon l in
      let l := if 1 <? n then set_case_pattern true l else l in
      call_list self l term (advance n st)
    else if c =?a "&"%char then
      and ← lex_starts_with st "&&";
      redir ← lex_starts_with st "&>";
      if (and : bool) then call_list self (flush Connector.And l) term (advance 2 st)
      else if (redir : bool) then '(l, st) ← redirect l st; call_list self l term st
      else call_list self (flush Connector.Background l) term (advance 1 st)
    else if c =?a "|"%char then
      or ← lex_starts_with st "||";
      if in_case_pattern l && negb or then
        call_list self (push_token (word_token (lx_pos st) (lx_pos st + 1) "|") l) term
          (advance 1 st)
      else if (or : bool) then call_list self (flush Connector.Or l) term (advance 2 st)
      else
        both ← lex_starts_with st "|&";
        call_list self (flush Connector.Pipe l) term (advance (if (both : bool) then 2 else 1) st)
    else if (c =?a "<"%char) || (c =?a ">"%char) then
      if peek_is st 1 "("%char then '(l, st) ← word_ l term st; call_list self l term st
      else '(l, st) ← redirect l st; call_list self l term st
    else if c =?a "("%char then '(l, st) ← open_paren l st; call_list self l term st
    else if c =?a ")"%char then
      let st := advance 1 st in
      if in_case_pattern l then
        let l := set_case_pattern false (set_tokens [] l) in
        call_list self (flush Connector.Semicolon l) term st
      else if bool_decide (term = Term.Paren) then Ok (finish l, st)
      else call_list self (flush Connector.Semicolon l) term st
    else if (c =?a btick) && bool_decide (term = Term.Backtick) then Ok (finish l, advance 1 st)
    else '(l, st) ← word_ l term st; call_list self l term st
  end.

End bodies.

(** The knot, on fuel: each call spends one unit. *)
Fixpoint lexer (fuel : nat) : calls :=
  match fuel with
  | 0 => {| call_list _ _ _ := NoFuel; call_word _ _ _ _ _ := NoFuel;
            call_dquote _ _ _ _ := NoFuel |}
  | S fuel =>
    let self := lexer fuel in
    {| call_list := list_body self;
       call_word := word_body self;
       call_dquote := double_quoted_body self |}
  end.

(** Three units for each byte left, and the entry. *)
Definition lex_fuel : nat := 3 * length b + 3.

End lexer.

(** [lex]: [src] as a list at nesting [depth]. *)
Definition lex (src : str) (depth : nat) : res Lexed :=
  '(segments, st) ←
    call_list (lexer src (lex_fuel src)) (List_new depth Connector.Start) Term.Eof
      {| lx_pos := 0; lx_heredocs := []; lx_excluded := [] |};
  Ok {| lx_segments := segments; lx_cut := lx_excluded st |}.
