(* ===== verification/ShellLexFacts.v ===== *)
(** * The lexer never fails

    Every call of the lexer returns: the fuel [lex] gives is enough, no index or
    slice is out of range, and the spans it gives are ordered, inside the source
    and on character boundaries. The proofs follow the definitions of [ShellLex]:
    one lemma per body, under the assumption [calls_ok] on the calls it makes, and
    one induction on fuel. *)

From Stdlib Require Import Ascii.
From stdpp Require Import base tactics list numbers strings option.
From S2P Require Import Prelude RustStr RustStrFacts ShellData ShellTables ShellLex.

(** ** Well-formed tokens, segments and states *)

(** A token's span is not empty and lies on boundaries; its value is a string. *)
Definition tok_ok (b : str) (t : Token) : Prop :=
  r_start (tk_span t) < r_end (tk_span t) ∧
  is_char_boundary b (r_start (tk_span t)) = true ∧
  is_char_boundary b (r_end (tk_span t)) = true ∧
  utf8_valid (tk_value t) = true.

(** The tokens follow one another from [lo] to [hi]. *)
Fixpoint chain (b : str) (lo : nat) (ts : list Token) (hi : nat) : Prop :=
  match ts with
  | [] => lo ≤ hi
  | t :: ts => lo ≤ r_start (tk_span t) ∧ tok_ok b t ∧ chain b (r_end (tk_span t)) ts hi
  end.

(** The excluded ranges follow one another from [lo] to [hi], on boundaries. *)
Fixpoint ranges_ok (b : str) (lo : nat) (rs : list range) (hi : nat) : Prop :=
  match rs with
  | [] => lo ≤ hi
  | r :: rs =>
    lo ≤ r_start r ≤ r_end r ∧ is_char_boundary b (r_start r) = true ∧
    is_char_boundary b (r_end r) = true ∧ ranges_ok b (r_end r) rs hi
  end.

(** A segment of a list at depth [d], read up to [hi]: it has words, and a deeper
    one is within the depth cap. *)
Definition seg_ok (b : str) (hi d : nat) (s : RawSegment) : Prop :=
  rs_tokens s ≠ [] ∧ chain b 0 (rs_tokens s) hi ∧ d ≤ rs_depth s ∧
  (rs_depth s = d ∨ rs_depth s < MAX_DEPTH).

(** A list in progress: tokens read up to [ht], segments up to [hs]. *)
Definition list_ok (b : str) (ht hs : nat) (l : List_) : Prop :=
  chain b 0 (cur_tokens l) ht ∧ rs_depth (ls_cur l) = ls_depth l ∧
  Forall (seg_ok b hs (ls_depth l)) (ls_out l) ∧
  Forall (seg_ok b hs (ls_depth l)) (ls_nested l).

Definition st_ok (b : str) (st : Lexer) : Prop :=
  lx_pos st ≤ length b ∧ ranges_ok b 0 (lx_excluded st) (lx_pos st).

(** ** Chains *)

Lemma chain_le b lo ts hi : chain b lo ts hi → lo ≤ hi.
Proof.
  revert lo. induction ts as [|t ts IH]; simpl; intros lo; [done|].
  intros (? & (? & _) & ?%IH). lia.
Qed.

Lemma chain_mono b lo ts hi hi' : chain b lo ts hi → hi ≤ hi' → chain b lo ts hi'.
Proof.
  revert lo. induction ts as [|t ts IH]; simpl; intros lo; [lia|]. naive_solver.
Qed.

Lemma chain_snoc b lo ts t hi :
  chain b lo (ts ++ [t]) hi ↔
  chain b lo ts (r_start (tk_span t)) ∧ tok_ok b t ∧ r_end (tk_span t) ≤ hi.
Proof.
  revert lo. induction ts as [|u ts IH]; simpl; intros lo; [naive_solver|].
  rewrite IH. naive_solver.
Qed.

Lemma ranges_le b lo rs hi : ranges_ok b lo rs hi → lo ≤ hi.
Proof.
  revert lo. induction rs as [|r rs IH]; simpl; intros lo; [done|].
  intros (? & _ & _ & ?%IH). lia.
Qed.

Lemma ranges_mono b lo rs hi hi' : ranges_ok b lo rs hi → hi ≤ hi' → ranges_ok b lo rs hi'.
Proof.
  revert lo. induction rs as [|r rs IH]; simpl; intros lo; [lia|]. naive_solver.
Qed.

Lemma ranges_snoc b lo rs r hi :
  ranges_ok b lo (rs ++ [r]) hi ↔
  ranges_ok b lo rs (r_start r) ∧ r_start r ≤ r_end r ≤ hi ∧
  is_char_boundary b (r_start r) = true ∧ is_char_boundary b (r_end r) = true.
Proof.
  revert lo. induction rs as [|u rs IH]; simpl; intros lo; [naive_solver lia|].
  rewrite IH. naive_solver.
Qed.

Lemma seg_ok_mono b hi hi' d s : seg_ok b hi d s → hi ≤ hi' → seg_ok b hi' d s.
Proof. intros (? & ? & ?) ?. split_and!; eauto using chain_mono; tauto. Qed.

Lemma segs_mono b hi hi' d ss : Forall (seg_ok b hi d) ss → hi ≤ hi' → Forall (seg_ok b hi' d) ss.
Proof. intros H ?. eapply Forall_impl; [|exact H]. eauto using seg_ok_mono. Qed.

(** A segment of a nested list is one of the enclosing list. *)
Lemma segs_up b hi d ss :
  d + 1 < MAX_DEPTH → Forall (seg_ok b hi (d + 1)) ss → Forall (seg_ok b hi d) ss.
Proof.
  intros Hd H. eapply Forall_impl; [|exact H]. intros s (? & ? & ? & ?).
  split_and!; [done..|lia|lia].
Qed.

Lemma list_ok_mono b ht hs ht' hs' l :
  list_ok b ht hs l → ht ≤ ht' → hs ≤ hs' → list_ok b ht' hs' l.
Proof. intros (? & ? & ? & ?) ??. split_and!; eauto using chain_mono, segs_mono. Qed.

Lemma st_ok_set b st p : st_ok b st → lx_pos st ≤ p ≤ length b → st_ok b (set_pos p st).
Proof. intros [? ?] ?. split; simpl; [lia|]. eapply ranges_mono; [done|lia]. Qed.

Lemma st_ok_push b st h : st_ok b st → st_ok b (push_heredoc h st).
Proof. done. Qed.

#[export] Hint Resolve segs_mono seg_ok_mono chain_mono ranges_mono : ways.

(** ** The steps of a list in progress *)

Lemma list_new_ok b hi d c : list_ok b hi hi (List_new d c).
Proof. split_and!; simpl; [lia|done|by constructor..]. Qed.

Lemma flush_ok b ht hs next l : list_ok b ht hs l → ht ≤ hs → list_ok b ht hs (flush next l).
Proof.
  intros (Hc & Hd & Ho & Hn) Hle. split_and!; simpl; [lia|done| |by constructor].
  apply Forall_app; split; [done|]. apply Forall_app; split; [|done].
  unfold cur_tokens in *. destruct (rs_tokens (ls_cur l)) as [|t ts] eqn:E; [by constructor|].
  constructor; [|by constructor]. split_and!; rewrite ?E; try done; try lia.
  eapply chain_mono; [exact Hc|lia].
Qed.

Lemma finish_ok b ht hs l :
  list_ok b ht hs l → ht ≤ hs → Forall (seg_ok b hs (ls_depth l)) (finish l).
Proof. intros H Hle. by destruct (flush_ok b ht hs Connector.Semicolon l H Hle) as (_ & _ & ? & _). Qed.

Lemma push_token_ok b ht hs t l :
  list_ok b ht hs l → ht ≤ r_start (tk_span t) → tok_ok b t →
  list_ok b (r_end (tk_span t)) hs (push_token t l).
Proof.
  intros (Hc & Hd & Ho & Hn) ? ?. split_and!; [|done..].
  unfold push_token, cur_tokens in *. simpl. apply chain_snoc. eauto with ways.
Qed.

Lemma clear_tokens_ok b ht hs l : list_ok b ht hs l → list_ok b ht hs (set_tokens [] l).
Proof. intros (Hc & Hd & Ho & Hn). split_and!; simpl; [lia|done..]. Qed.

Lemma update_dbracket_same raw l :
  cur_tokens (update_dbracket raw l) = cur_tokens l ∧
  rs_depth (ls_cur (update_dbracket raw l)) = rs_depth (ls_cur l) ∧
  ls_depth (update_dbracket raw l) = ls_depth l ∧
  ls_out (update_dbracket raw l) = ls_out l ∧
  ls_nested (update_dbracket raw l) = ls_nested l.
Proof. unfold update_dbracket. repeat case_match; done. Qed.

Lemma extend_nested_twice a c l : extend_nested c (extend_nested a l) = extend_nested (a ++ c) l.
Proof. unfold extend_nested. simpl. by rewrite app_assoc. Qed.

Lemma extend_nested_nil l : extend_nested [] l = l.
Proof. destruct l. unfold extend_nested. simpl. by rewrite app_nil_r. Qed.

Lemma extend_nested_ok b ht hs l inner :
  list_ok b ht hs l → Forall (seg_ok b hs (ls_depth l)) inner →
  list_ok b ht hs (extend_nested inner l).
Proof.
  intros (Hc & Hd & Ho & Hn) ?. split_and!; [done..|]. simpl. by apply Forall_app.
Qed.

Lemma chain_removelast b lo ts t hi :
  list.last ts = Some t → chain b lo ts hi →
  chain b lo (removelast ts) (r_start (tk_span t)) ∧ tok_ok b t ∧ r_end (tk_span t) ≤ hi.
Proof.
  intros [ts' ->]%last_Some Hc. apply chain_snoc in Hc.
  by rewrite removelast_last.
Qed.

(** ** Positions *)

Section lexer_facts.
Context (b : str).
Context (Hb : utf8_valid b = true).

Local Abbreviation n := (length b).
Local Abbreviation bd i := (is_char_boundary b i = true).
Local Abbreviation P st := (lx_pos st).

Lemma bytes_ok x y : x ≤ y ≤ n → bytes b x y = Ok (slice x y b).
Proof.
  intros [H1 H2]. unfold bytes. apply Nat.leb_le in H1, H2. by rewrite H1, H2.
Qed.

Lemma bytes_from_ok x : x ≤ n → bytes_from b x = Ok (drop x b).
Proof.
  intros H. unfold bytes_from. rewrite bytes_ok by lia. unfold slice.
  by rewrite take_ge by (rewrite length_drop; lia).
Qed.

Lemma peek_Some st k c : peek b st k = Some c → P st + k < n.
Proof. unfold peek, at_. apply lookup_lt_Some. Qed.

Lemma peek_is_spec st k c : peek_is b st k c = true ↔ peek b st k = Some c.
Proof.
  unfold peek_is. destruct (peek b st k) as [d|]; [|naive_solver].
  rewrite Ascii.eqb_eq. naive_solver.
Qed.

Lemma bd_next i c : b !! i = Some c → is_ascii c = true → bd (i + 1).
Proof. by apply boundary_after_ascii. Qed.

Lemma bd_at i c : b !! i = Some c → is_ascii c = true → bd i.
Proof. by apply boundary_ascii. Qed.

Lemma bd_n : bd n.
Proof. apply boundary_length. Qed.

(** The position after an ASCII prefix. *)

Lemma bd_after_prefix p i :
  starts_with p (drop i b) = true → forallb is_ascii p = true → 0 < length p →
  i + length p ≤ n ∧ bd (i + length p).
Proof.
  intros [t Ht]%starts_with_spec Hp Hlen.
  destruct (list.last p) as [c|] eqn:E; [|apply last_None in E; subst; simpl in *; lia].
  apply last_Some in E as [p' ->].
  assert (Hc : b !! (i + length p') = Some c).
  { rewrite <- lookup_drop, Ht, <- app_assoc, lookup_app_r by lia. by rewrite Nat.sub_diag. }
  assert (is_ascii c = true).
  { rewrite forallb_forall in Hp. apply Hp, in_or_app. right; by left. }
  rewrite length_app; simpl. rewrite Nat.add_assoc.
  apply lookup_lt_Some in Hc as ?. split; [lia|]. by eapply bd_next.
Qed.

Lemma run_end_range p i : i ≤ n → i ≤ run_end b p i ≤ n.
Proof.
  intros Hi. unfold run_end. split; [lia|].
  pose proof (f_equal length (take_while_drop_while p (drop i b))) as E.
  rewrite length_app, length_drop in E. lia.
Qed.

Lemma run_end_stop p i :
  i ≤ n → run_end b p i = n ∨ ∃ c, b !! run_end b p i = Some c ∧ p c = false.
Proof.
  intros Hi. unfold run_end.
  pose proof (take_while_drop_while p (drop i b)) as E.
  destruct (drop_while p (drop i b)) as [|c r] eqn:Ed.
  - left. rewrite app_nil_r in E. rewrite E, length_drop. lia.
  - right. exists c. split; [|by eapply drop_while_head].
    revert E. generalize (take_while p (drop i b)) as w. intros w E.
    rewrite <- lookup_drop, <- E, lookup_app_r by lia. by rewrite Nat.sub_diag.
Qed.

Lemma run_end_lookup p i j c :
  i ≤ j < run_end b p i → b !! j = Some c → p c = true.
Proof.
  unfold run_end. intros Hj Hc.
  pose proof (take_while_drop_while p (drop i b)) as E.
  pose proof (take_while_forallb p (drop i b)) as Hf.
  replace j with (i + (j - i)) in Hc by lia. revert Hj E Hf.
  generalize (take_while p (drop i b)) as w. intros w Hj E Hf.
  rewrite <- lookup_drop, <- E, lookup_app_l in Hc by lia.
  rewrite forallb_forall in Hf. apply Hf, list_elem_of_In.
  by eapply list_elem_of_lookup_2.
Qed.

(** ** [skip_balanced] *)

Lemma skip_balanced_go_spec open close sq s i depth quote :
  s = drop i b → i ≤ n →
  let r := skip_balanced_go b open close sq s i depth quote in
  i ≤ r ≤ n ∧ (i < n → i < r) ∧ (r = n ∨ ∃ j, r = j + 1 ∧ b !! j = Some close).
Proof.
  revert i depth quote.
  induction s as [s IH] using (induction_ltof1 _ (@length ascii)); unfold ltof in IH.
  intros i depth quote Hs Hi r. subst r.
  destruct s as [|c s]; cbn [skip_balanced_go]; [split_and!; try lia; by left|].
  assert (Hlt : i < n).
  { apply (f_equal length) in Hs. rewrite length_drop in Hs. simpl in Hs. lia. }
  assert (Hc : b !! i = Some c).
  { by rewrite <- (Nat.add_0_r i), <- lookup_drop, <- Hs. }
  assert (Hs1 : s = drop (i + 1) b).
  { rewrite (drop_S _ c) in Hs by done. simplify_eq. by rewrite Nat.add_1_r. }
  assert (Hone : ∀ d q, let r := skip_balanced_go b open close sq s (i + 1) d q in
    i ≤ r ≤ n ∧ (i < n → i < r) ∧ (r = n ∨ ∃ j, r = j + 1 ∧ b !! j = Some close)).
  { intros d q. destruct (IH s ltac:(simpl; lia) (i + 1) d q Hs1 ltac:(lia)) as (? & ? & ?).
    split_and!; [lia..|done]. }
  assert (Htwo : ∀ e s' d q, s = e :: s' →
    let r := skip_balanced_go b open close sq s' (i + 2) d q in
    i ≤ r ≤ n ∧ (i < n → i < r) ∧ (r = n ∨ ∃ j, r = j + 1 ∧ b !! j = Some close)).
  { intros e s' d q ->.
    assert (i + 1 < n).
    { apply (f_equal length) in Hs1. rewrite length_drop in Hs1. simpl in Hs1. lia. }
    destruct (IH s' ltac:(simpl; lia) (i + 2) d q) as (? & ? & ?); [|lia|].
    - replace (i + 2) with (i + 1 + 1) by lia. by rewrite <- drop_drop, <- Hs1.
    - split_and!; [lia..|done]. }
  destruct quote as [q|].
  - destruct ((c =?a bslash) && (q =?a dquote)); [|apply Hone].
    destruct s as [|e s']; [split_and!; [lia..|by left]|]. by eapply Htwo.
  - destruct (c =?a bslash).
    { destruct s as [|e s']; [split_and!; [lia..|by left]|]. by eapply Htwo. }
    destruct ((c =?a dquote) || _); [apply Hone|].
    destruct (c =?a open); [apply Hone|].
    destruct (c =?a close) eqn:Ec; [|apply Hone].
    destruct (depth - 1 =? 0); [|apply Hone].
    apply Ascii.eqb_eq in Ec as ->. split_and!; [lia..|]. right. by exists i.
Qed.

Lemma skip_balanced_ok start open close sq :
  start ≤ n → is_ascii close = true →
  let r := skip_balanced b start open close sq in
  start ≤ r ≤ n ∧ (start < n → start < r) ∧ bd r.
Proof.
  intros Hs Hc r. subst r. unfold skip_balanced.
  destruct (skip_balanced_go_spec open close sq (drop start b) start 0 None) as (? & ? & Hr);
    [done..|].
  split_and!; [lia|lia|done|].
  destruct Hr as [->|(j & -> & Hj)]; [apply bd_n|by eapply bd_next].
Qed.

End lexer_facts.
