(* ===== verification/ShellLexTotal.v ===== *)
(** * Every call of the lexer returns

    One lemma for each body of [ShellLex], under the assumption [calls_ok] on the
    calls it makes, and one induction on fuel. On a valid UTF-8 string the lexer
    runs out of neither fuel nor source, and what it gives is well-formed. *)

From Stdlib Require Import Ascii.
From stdpp Require Import base tactics list numbers strings option.
From S2P Require Import Prelude RustStr RustStrFacts ShellData ShellTables ShellLex ShellLexFacts.

Section lexer_total.
Context (b : str).
Context (Hb : utf8_valid b = true).

Local Abbreviation n := (length b).
Local Abbreviation bd i := (is_char_boundary b i = true).
Local Abbreviation P st := (lx_pos st).

(** The list [l'] and state [st'] a word's loop leaves: segments were nested and
    the position grew. *)
Definition grown (l : List_) (st : Lexer) (l' : List_) (st' : Lexer) : Prop :=
  ∃ inner, l' = extend_nested inner l ∧ Forall (seg_ok b (P st') (ls_depth l)) inner ∧
           st_ok b st' ∧ P st ≤ P st'.

Lemma grown_pos l st p : st_ok b st → P st ≤ p ≤ n → grown l st l (set_pos p st).
Proof.
  intros ??. exists []. rewrite extend_nested_nil. split_and!; [done|constructor| |simpl; lia].
  by apply st_ok_set.
Qed.

Lemma grown_refl l st : st_ok b st → grown l st l st.
Proof.
  intros ?. exists []. rewrite extend_nested_nil. split_and!; [done|constructor|done|lia].
Qed.

Lemma grown_advance l st k : st_ok b st → P st + k ≤ n → grown l st l (advance k st).
Proof. intros ??. apply grown_pos; [done|lia]. Qed.

Lemma grown_trans l st l' st' l'' st'' :
  grown l st l' st' → grown l' st' l'' st'' → grown l st l'' st''.
Proof.
  intros (i1 & -> & H1 & ? & ?) (i2 & -> & H2 & ? & ?).
  exists (i1 ++ i2). rewrite extend_nested_twice. split_and!; [done| |done|lia].
  simpl in H2. apply Forall_app; eauto using segs_mono.
Qed.

Lemma grown_extend l st st' inner :
  Forall (seg_ok b (P st') (ls_depth l)) inner → st_ok b st' → P st ≤ P st' →
  grown l st (extend_nested inner l) st'.
Proof. intros. by exists inner. Qed.

Lemma grown_st l st l' st' : grown l st l' st' → st_ok b st' ∧ P st ≤ P st'.
Proof. by intros (? & ? & ? & ? & ?). Qed.

Lemma grown_list l st l' st' ht hs :
  list_ok b ht hs l → hs ≤ P st' → grown l st l' st' → list_ok b ht (P st') l'.
Proof.
  intros Hl ? (inner & -> & Hi & _). apply extend_nested_ok; [|done].
  eapply list_ok_mono; [done|lia|done].
Qed.

(** ** What each call promises *)

Definition list_post (d : nat) (st : Lexer) (r : list RawSegment * Lexer) : Prop :=
  Forall (seg_ok b (P r.2) d) r.1 ∧ st_ok b r.2 ∧ P st ≤ P r.2 ∧ bd (P r.2).

Definition word_post (l : List_) (st : Lexer) (r : List_ * str * Lexer) : Prop :=
  grown l st r.1.1 r.2 ∧ bd (P r.2) ∧
  (P r.2 = P st → ∀ c, peek b st 0 = Some c → is_ascii c = true).

Definition dquote_post (l : List_) (st : Lexer) (r : List_ * str * Lexer) : Prop :=
  grown l st r.1.1 r.2.

Record calls_ok (f : nat) (self : calls) : Prop := {
  list_call_ok l term st :
    list_ok b (P st) (P st) l → st_ok b st → bd (P st) → 3 * (n - P st) + 3 ≤ f →
    sat (call_list self l term st) (list_post (ls_depth l) st);
  word_call_ok start l term val st :
    start ≤ P st → st_ok b st → 3 * (n - P st) + 2 ≤ f →
    sat (call_word self start l term val st) (word_post l st);
  dquote_call_ok l term val st :
    st_ok b st → 3 * (n - P st) + 1 ≤ f →
    sat (call_dquote self l term val st) (dquote_post l st);
}.

(** ** Nested lists *)

Section bodies.
Context (f : nat) (self : calls).
Context (Hself : calls_ok f self).

Lemma sub_list_ok d first term st :
  1 ≤ P st → st_ok b st → bd (P st) → 3 * (n - P st) + 3 ≤ f →
  sat (sub_list b self d first term st) (list_post d st).
Proof.
  intros H1 Hst Hbd Hf. pose proof (proj1 Hst) as Hn. unfold sub_list.
  destruct (d + 1 <? MAX_DEPTH) eqn:Ed; bool_prop.
  - eapply sat_mono; [eapply (list_call_ok _ _ Hself); [by apply list_new_ok|done..]|].
    intros [segs st'] (Hs & ? & ? & ?). split_and!; [|done..]. by apply segs_up.
  - destruct term.
    + simpl. split_and!; [constructor|by apply st_ok_set|done|apply bd_n].
    + apply sat_check; [by apply Nat.leb_le|].
      destruct (skip_balanced_ok b Hb (P st - 1) "("%char ")"%char true) as (? & ? & ?);
        [lia|done|].
      apply sat_ok. split_and!; [constructor|apply st_ok_set; [done|simpl; lia]|simpl; lia|done].
    + rewrite bytes_from_ok by done. cbn [mbind res_bind]. apply sat_ok.
      destruct (position _ _) as [i|] eqn:E; cbn [fst snd].
      * apply position_Some in E as (c & Hc & Heq%Ascii.eqb_eq). subst c.
        rewrite lookup_drop in Hc. apply lookup_lt_Some in Hc as ?.
        split_and!; [constructor|apply st_ok_set; [done|simpl; lia]|simpl; lia|].
        by eapply bd_next.
      * split_and!; [constructor|apply st_ok_set; [done|simpl; lia]|simpl; lia|apply bd_n].
Qed.

(** ** Substitutions *)

(** What a substitution leaves: strictly further on. *)
Definition further (l : List_) (st : Lexer) (r : List_ * str * Lexer) : Prop :=
  grown l st r.1.1 r.2 ∧ P st < P r.2.

Lemma sub_list_grown l first term st st0 (k : list RawSegment * Lexer → res (List_ * str * Lexer))
    (Q : List_ * str * Lexer → Prop) :
  1 ≤ P st → P st0 ≤ P st → st_ok b st → bd (P st) → 3 * (n - P st) + 3 ≤ f →
  (∀ inner st', grown l st0 (extend_nested inner l) st' → bd (P st') → P st ≤ P st' →
    sat (k (inner, st')) Q) →
  sat (sub_list b self (ls_depth l) first term st ≫= k) Q.
Proof.
  intros ????? Hk. eapply sat_bind_mono; [by apply sub_list_ok|].
  intros [inner st'] (Hi & ? & ? & ?). simpl in *. apply Hk; [|done..].
  apply grown_extend; [done..|lia].
Qed.

Lemma backtick_ok l val st :
  st_ok b st → peek b st 0 = Some btick → 3 * (n - P st) ≤ f →
  sat (backtick b self l val st) (further l st).
Proof.
  intros Hst Hp Hf. pose proof (peek_Some b st _ _ Hp) as Hlt. unfold backtick.
  apply sub_list_grown with (st0 := st); simpl; try lia.
  - apply st_ok_set; [done|lia].
  - unfold peek, at_ in Hp. rewrite Nat.add_0_r in Hp. by eapply bd_next.
  - intros inner st' Hg Hbd ?. destruct (grown_st _ _ _ _ Hg) as [[? _] ?].
    rewrite bytes_ok by lia. cbn [mbind res_bind]. apply sat_ok. split; [done|simpl; lia].
Qed.

Lemma ansi_c_le s i val : i ≤ (ansi_c s i val).1.
Proof.
  revert i val. induction s as [s IH] using (induction_ltof1 _ (@length ascii));
    unfold ltof in IH; intros i val.
  destruct s as [|c s]; cbn [ansi_c]; [done|].
  destruct (c =?a squote); [simpl; lia|].
  destruct (negb (c =?a bslash)).
  { specialize (IH s ltac:(simpl; lia) (i + 1) (val ++ [c])). lia. }
  destruct s as [|e s]; [simpl; lia|].
  match goal with |- _ ≤ (ansi_c _ _ ?v).1 => specialize (IH s ltac:(simpl; lia) (i + 2) v) end.
  lia.
Qed.

Lemma dollar_ok l val in_dquote st :
  st_ok b st → peek b st 0 = Some "$"%char → 3 * (n - P st) ≤ f →
  sat (dollar b self l val in_dquote st) (further l st).
Proof.
  intros Hst Hp Hf. pose proof (peek_Some b st _ _ Hp) as Hlt. unfold dollar.
  assert (Hadv : ∀ k v, P st + k ≤ n → 0 < k → further l st (l, v, advance k st)).
  { intros. split; [by apply grown_advance|simpl; lia]. }
  assert (Hpos : ∀ p v, P st < p ≤ n → further l st (l, v, set_pos p st)).
  { intros. split; [apply grown_pos; [done|simpl; lia]|simpl; lia]. }
  destruct (peek b st 1) as [c|] eqn:E1; [|apply sat_ok, Hadv; lia].
  apply peek_Some in E1 as Hlt1.
  assert (Hskip : ∀ open close sq, is_ascii close = true →
    P st + 1 < skip_balanced b (P st + 1) open close sq ≤ n).
  { intros open close sq Hc.
    destruct (skip_balanced_ok b Hb (P st + 1) open close sq) as (? & ? & ?); [lia|done|].
    lia. }
  destruct (c =?a "("%char) eqn:Ec.
  { apply Ascii.eqb_eq in Ec as ->. destruct (peek_is b st 2 "("%char).
    - rewrite bytes_ok by (specialize (Hskip "("%char ")"%char (negb in_dquote) eq_refl); simpl; lia).
      apply Hpos. specialize (Hskip "("%char ")"%char (negb in_dquote) eq_refl). lia.
    - apply sub_list_grown with (st0 := st); simpl; try lia.
      + apply st_ok_set; [done|lia].
      + replace (P st + 2) with (P st + 1 + 1) by lia. by eapply bd_next.
      + intros inner st' Hg Hbd ?. destruct (grown_st _ _ _ _ Hg) as [[? _] ?].
        rewrite bytes_ok by lia. cbn [mbind res_bind]. apply sat_ok. split; [done|simpl; lia]. }
  destruct (c =?a "{"%char).
  { rewrite bytes_ok by (specialize (Hskip "{"%char "}"%char (negb in_dquote) eq_refl); simpl; lia).
    apply Hpos. specialize (Hskip "{"%char "}"%char (negb in_dquote) eq_refl). lia. }
  destruct (_ && in_dquote); [apply sat_ok, Hadv; lia|].
  destruct (c =?a squote).
  { pose proof (ansi_c_le (drop (P st + 2) b) (P st + 2) val) as Ha.
    destruct (ansi_c _ _ _) as [p v]. apply sat_ok, Hpos. simpl in Ha. lia. }
  destruct (c =?a dquote); apply sat_ok, Hadv; lia.
Qed.

(** ** Words *)

(** Going on with a call after some growth. *)
Lemma dquote_then l st l' st' term val :
  grown l st l' st' → P st < P st' → 3 * (n - P st) + 1 ≤ S f →
  sat (call_dquote self l' term val st') (dquote_post l st).
Proof.
  intros Hg Hlt Hf. destruct (grown_st _ _ _ _ Hg) as [[Hn ?] _].
  eapply sat_mono; [apply (dquote_call_ok _ _ Hself); [done|lia]|].
  intros [[l'' v] st''] ?. by eapply grown_trans.
Qed.

Lemma word_then start l st l' st' term val :
  start ≤ P st → grown l st l' st' → P st < P st' → 3 * (n - P st) + 2 ≤ S f →
  sat (call_word self start l' term val st') (word_post l st).
Proof.
  intros Hs Hg Hlt Hf. destruct (grown_st _ _ _ _ Hg) as [[Hn ?] _].
  eapply sat_mono; [apply (word_call_ok _ _ Hself); [lia|done|lia]|].
  intros [[l'' v] st''] (Hg' & ? & _). simpl in *. split_and!; simpl; [by eapply grown_trans|done|].
  apply grown_st in Hg' as [_ ?]. lia.
Qed.

Lemma double_quoted_body_ok l term val st :
  st_ok b st → 3 * (n - P st) + 1 ≤ S f →
  sat (double_quoted_body b self l term val st) (dquote_post l st).
Proof.
  intros Hst Hf. unfold double_quoted_body.
  destruct (peek b st 0) as [c|] eqn:E0; [|by apply sat_ok, grown_refl].
  apply peek_Some in E0 as Hlt.
  assert (Hret : ∀ v, sat (Ok (l, v, advance 1 st)) (dquote_post l st)).
  { intros. apply sat_ok, grown_advance; [done|lia]. }
  assert (Hadv : ∀ k v, P st + k ≤ n → 0 < k →
    sat (call_dquote self l term v (advance k st)) (dquote_post l st)).
  { intros. apply dquote_then; [by apply grown_advance|simpl; lia|done]. }
  assert (Hthen : ∀ m, sat m (further l st) →
    sat ('(l, val, st) ← m; call_dquote self l term val st) (dquote_post l st)).
  { intros m Hm. eapply sat_bind_mono; [exact Hm|]. intros [[l' v] st'] [? ?].
    by apply dquote_then. }
  destruct (c =?a dquote); [apply Hret|].
  destruct (c =?a bslash).
  { destruct (peek b st 1) as [d|] eqn:E1; [|apply Hadv; lia].
    apply peek_Some in E1. repeat case_match; apply Hadv; lia. }
  destruct (c =?a "$"%char) eqn:Ed.
  { apply Ascii.eqb_eq in Ed as ->. apply Hthen, dollar_ok; [done..|lia]. }
  destruct (c =?a btick) eqn:Et; [|apply Hadv; lia].
  apply Ascii.eqb_eq in Et as ->. case_bool_decide; [by apply sat_ok, grown_refl|].
  apply Hthen, backtick_ok; [done..|lia].
Qed.

Lemma word_body_ok start l term val st :
  start ≤ P st → st_ok b st → 3 * (n - P st) + 2 ≤ S f →
  sat (word_body b self start l term val st) (word_post l st).
Proof.
  intros Hs Hst Hf. pose proof (proj1 Hst) as Hn. unfold word_body.
  destruct (peek b st 0) as [c|] eqn:E0.
  2: { apply sat_ok. split_and!; [by apply grown_refl| |congruence]. cbn [snd].
       unfold peek, at_ in E0. apply lookup_ge_None in E0.
       replace (P st) with n by lia. apply bd_n. }
  apply peek_Some in E0 as Hlt. rewrite Nat.add_0_r in Hlt.
  assert (Hat : b !! P st = Some c) by (by rewrite <- (Nat.add_0_r (P st))).
  assert (Hret : ∀ v, is_ascii c = true → sat (Ok (l, v, st)) (word_post l st)).
  { intros v Hc. apply sat_ok. split_and!; [by apply grown_refl|by eapply bd_at|].
    intros _ d Hd. congruence. }
  assert (Hpos : ∀ p v, P st < p ≤ n →
    sat (call_word self start l term v (set_pos p st)) (word_post l st)).
  { intros. apply word_then; [done|apply grown_pos; [done|lia]|simpl; lia|done]. }
  assert (Hthen : ∀ m, sat m (further l st) →
    sat ('(l, val, st) ← m; call_word self start l term val st) (word_post l st)).
  { intros m Hm. eapply sat_bind_mono; [exact Hm|]. intros [[l' v] st'] [? ?].
    by apply word_then. }
  destruct (ends_word c) eqn:Ew.
  { apply Hret. unfold ends_word in Ew. apply existsb_exists in Ew as (d & Hd & He).
    apply Ascii.eqb_eq in He as ->. simpl in Hd. naive_solver. }
  destruct ((c =?a "<"%char) || (c =?a ">"%char)) eqn:Er.
  { assert (is_ascii c = true).
    { apply orb_prop in Er as [->%Ascii.eqb_eq| ->%Ascii.eqb_eq]; done. }
    destruct ((P st =? start) && peek_is b st 1 "("%char) eqn:Ep; [|by apply Hret].
    bool_prop. match goal with H : peek_is _ _ _ _ = true |- _ =>
      apply peek_is_spec in H as Hp; apply peek_Some in Hp as Hlt1 end.
    apply sub_list_grown with (st0 := st); simpl; try lia.
    - apply st_ok_set; [done|lia].
    - replace (P st + 2) with (P st + 1 + 1) by lia. by eapply bd_next.
    - intros inner st' Hg Hbd ?. destruct (grown_st _ _ _ _ Hg) as [[? _] ?].
      rewrite bytes_ok by lia. cbn [mbind res_bind]. apply word_then; [lia|done|lia|done]. }
  destruct (c =?a "("%char) eqn:Eo.
  { apply Ascii.eqb_eq in Eo as ->. destruct (opens_in_word _); [|by apply Hret].
    destruct (skip_balanced_ok b Hb (P st) "("%char ")"%char true) as (? & ? & ?); [lia|done|].
    rewrite bytes_ok by lia. apply Hpos. lia. }
  destruct (c =?a btick) eqn:Et.
  { apply Ascii.eqb_eq in Et as ->. case_bool_decide; [by apply Hret|].
    apply Hthen, backtick_ok; [done..|lia]. }
  destruct (c =?a bslash).
  { unfold escape. destruct (peek b st 1) as [d|] eqn:E1; [|apply Hpos; lia].
    apply peek_Some in E1. destruct (d =?a nl); apply Hpos; lia. }
  destruct (c =?a squote).
  { rewrite bytes_from_ok by lia. cbn [mbind res_bind].
    destruct (position _ _) as [i|] eqn:Ei.
    - apply position_lt in Ei. rewrite length_drop in Ei.
      rewrite bytes_ok by lia. apply Hpos. lia.
    - rewrite bytes_ok by lia. apply Hpos. lia. }
  destruct (c =?a dquote).
  { unfold double_quoted. eapply sat_bind_mono.
    - apply (dquote_call_ok _ _ Hself); [apply st_ok_set; [done|lia]|simpl; lia].
    - intros [[l' v] st'] Hg. unfold dquote_post in Hg. cbn [fst snd] in Hg.
      apply grown_st in Hg as Hst'. simpl in Hst'.
      apply word_then; [lia| |lia|done].
      eapply grown_trans; [|exact Hg]. apply grown_advance; [done|lia]. }
  destruct (c =?a "$"%char) eqn:Ed; [|apply Hpos; lia].
  apply Ascii.eqb_eq in Ed as ->. apply Hthen, dollar_ok; [done..|lia].
Qed.

(** ** The steps of a list *)

(** A step of a list's loop: everything stays well-formed, further on. *)
Definition step_post (l : List_) (st : Lexer) (r : List_ * Lexer) : Prop :=
  list_ok b (P r.2) (P r.2) r.1 ∧ ls_depth r.1 = ls_depth l ∧ st_ok b r.2 ∧
  bd (P r.2) ∧ P st < P r.2.

(** Where a list's loop stands at the byte [c]. *)
Definition at_byte (l : List_) (st : Lexer) (c : ascii) : Prop :=
  list_ok b (P st) (P st) l ∧ st_ok b st ∧ bd (P st) ∧ b !! P st = Some c ∧
  3 * (n - P st) + 3 ≤ S f.

Lemma step_pos l st c l' p :
  at_byte l st c → list_ok b p p l' → ls_depth l' = ls_depth l → P st < p → bd p →
  step_post l st (l', set_pos p st).
Proof.
  intros (Hl & Hst & Hbd & Hc & Hf) Hl' Hd Hlt Hp. apply boundary_le in Hp as Hle.
  split_and!; simpl; [done|done|apply st_ok_set; [done|lia]|done|done].
Qed.

Lemma step_advance l st c l' :
  at_byte l st c → is_ascii c = true → list_ok b (P st) (P st) l' → ls_depth l' = ls_depth l →
  step_post l st (l', advance 1 st).
Proof.
  intros Ha Hc Hl' Hd. eapply step_pos; [done| |done|lia|].
  - eapply list_ok_mono; [done|lia|lia].
  - destruct Ha as (_ & _ & _ & Hat & _). by eapply bd_next.
Qed.

(** A new token from the loop's position to [stop]. *)
Lemma push_word_ok l st start stop v :
  list_ok b start (P st) l → start < stop → P st ≤ stop → bd start → bd stop →
  utf8_valid v = true → list_ok b stop stop (push_token (word_token start stop v) l).
Proof.
  intros Hl ?????. apply (push_token_ok b start); [|simpl; lia|by split_and!].
  eapply list_ok_mono; [done|lia|done].
Qed.

Lemma word_token_ok start stop v k :
  start < stop → bd start → bd stop → utf8_valid v = true →
  tok_ok b {| tk_span := Range start stop; tk_value := v; tk_kind := k |}.
Proof. by intros. Qed.

Lemma update_dbracket_ok ht hs raw l : list_ok b ht hs l → list_ok b ht hs (update_dbracket raw l).
Proof.
  destruct (update_dbracket_same raw l) as (E1 & E2 & E3 & E4 & E5).
  unfold list_ok. by rewrite E1, E2, E3, E4, E5.
Qed.

Lemma word_ok l term st c :
  at_byte l st c → sat (word_ b self l term st) (step_post l st).
Proof.
  intros Ha. pose proof Ha as (Hl & Hst & Hbd & Hc & Hf).
  apply lookup_lt_Some in Hc as Hlt. unfold word_.
  eapply sat_bind_mono; [apply (word_call_ok _ _ Hself); [done|done|lia]|].
  intros [[l1 val] st1] (Hg & Hbd1 & Hasc). cbn [fst snd] in *.
  destruct (grown_st _ _ _ _ Hg) as [Hst1 Hle].
  assert (Hl1 : list_ok b (P st) (P st1) l1) by (by eapply grown_list).
  assert (Hd1 : ls_depth l1 = ls_depth l) by (by destruct Hg as (? & -> & _)).
  destruct (P st1 =? P st) eqn:Ep; bool_prop.
  { apply sat_ok. split_and!; simpl; rewrite ?Ep; [eapply list_ok_mono; [done|lia|lia]|done| | |lia].
    - apply st_ok_set; [done|lia].
    - eapply bd_next; [done|done|]. apply Hasc; [done|]. unfold peek, at_. by rewrite Nat.add_0_r. }
  assert (Hfin : ∀ l2 st2 v k, list_ok b (P st) (P st1) l2 → ls_depth l2 = ls_depth l →
    st_ok b st2 → P st2 = P st1 → utf8_valid v = true →
    step_post l st (push_token {| tk_span := Range (P st) (P st2); tk_value := v; tk_kind := k |} l2,
                    st2)).
  { intros l2 st2 v k Hl2 Hd2 Hst2 E2 Hv. split_and!; simpl; [|done|done|by rewrite E2|lia].
    rewrite E2. refine (push_token_ok b (P st) (P st1) _ l2 _ _ _); [done|simpl; lia|].
    apply word_token_ok; [lia|done..]. }
  destruct Hst1 as [Hn1 Hr1].
  cbv zeta. destruct (ls_redirect l1) as [op|]; cbv beta iota.
  - assert (Hcase : P (if str_eqb op "<<" || str_eqb op "<<-"
                       then push_heredoc {| hd_delim := from_utf8_lossy val;
                                            hd_strip_tabs := str_eqb op "<<-" |} st1
                       else st1) = P st1) by (by case_match).
    rewrite bytes_ok by (rewrite Hcase; lia). cbn [mbind res_bind].
    apply sat_ok, Hfin; [done|done|by case_match|done|apply lossy_valid].
  - rewrite bytes_ok by lia. cbn [mbind res_bind].
    apply sat_ok, Hfin; [by apply update_dbracket_ok| |done|done|apply lossy_valid].
    by rewrite (proj1 (proj2 (proj2 (update_dbracket_same _ _)))).
Qed.

(** A [(] taken up to its [)]. *)
Lemma skip_paren_ok st c :
  b !! P st = Some c → let stop := skip_balanced b (P st) "("%char ")"%char true in
  P st < stop ≤ n ∧ bd stop.
Proof.
  intros Hc%lookup_lt_Some.
  destruct (skip_balanced_ok b Hb (P st) "("%char ")"%char true) as (? & ? & ?); [lia|done|].
  split; [lia|done].
Qed.

Lemma open_paren_ok l st :
  at_byte l st "("%char → sat (open_paren b self l st) (step_post l st).
Proof.
  intros Ha. pose proof Ha as (Hl & Hst & Hbd & Hc & Hf).
  destruct (skip_paren_ok st _ Hc) as [Hstop Hbs]. apply lookup_lt_Some in Hc as Hlt.
  unfold open_paren.
  set (stop := skip_balanced b (P st) "("%char ")"%char true) in *.
  assert (Hpush : ∀ raw, step_post l st
    (push_token (word_token (P st) stop (from_utf8_lossy raw)) l, set_pos stop st)).
  { intros raw. eapply step_pos; [done| |done|lia|done].
    eapply push_word_ok; [done|lia..|done|done|apply lossy_valid]. }
  destruct (in_case_pattern l); [by apply sat_ok; eapply step_advance|].
  destruct (only_prefix l); cbn [negb].
  - destruct (peek_is b st 1 "("%char).
    { rewrite bytes_ok by lia. apply sat_ok, Hpush. }
    eapply sat_bind_mono.
    + apply sub_list_ok; simpl; try lia; [apply st_ok_set; [done|lia]|by eapply bd_next].
    + intros [inner st'] (Hi & ? & ? & ?). simpl in *. apply sat_ok.
      destruct Hl as (_ & Hd & Ho & Hn).
      split_and!; cbn [fst snd]; [|done|done|done|lia].
      split_and!; simpl; [lia|done| |eapply segs_mono; [done|lia]].
      apply Forall_app. split; [eapply segs_mono; [done|lia]|done].
  - rewrite bytes_ok by lia. cbn [mbind res_bind].
    destruct (list.last (cur_tokens l)) as [t|] eqn:Et; [|apply sat_ok, Hpush].
    destruct (_ || _); [|apply sat_ok, Hpush]. apply sat_ok.
    eapply step_pos; [done| |done|lia|done].
    destruct Hl as (Hch & Hd & Ho & Hn).
    destruct (chain_removelast _ _ _ _ _ Et Hch) as (Hch' & (Hlt' & Hb1 & Hb2 & Hv) & Hend).
    split_and!; simpl; [|done|eapply segs_mono; [done|lia]..].
    apply chain_snoc. split_and!; simpl; try done.
    apply word_token_ok; [lia|done|done|]. apply utf8_valid_concat; [done|apply lossy_valid].
Qed.

(** The operator of a redirection, and where it ends. *)
Lemma redirect_op_ok st c :
  bd (P st) → b !! P st = Some c → is_ascii c = true →
  let op := default ">" (find (λ op, starts_with op (drop (P st) b)) OPS) in
  0 < length op ∧ bd (P st + length op) ∧ utf8_valid op = true.
Proof.
  intros Hbd Hc Ha. destruct (find _ OPS) as [op|] eqn:E; simpl.
  - apply find_Some in E as [Hin Hs].
    assert (Hall : forallb (λ op, forallb is_ascii op && (0 <? length op)) OPS = true) by done.
    rewrite forallb_forall in Hall. apply list_elem_of_In, Hall in Hin. bool_prop.
    split_and!; [done| |by apply utf8_valid_ascii]. by eapply bd_after_prefix.
  - split_and!; [lia|by eapply bd_next|done].
Qed.

Lemma redirect_ok l st c :
  at_byte l st c → is_ascii c = true → sat (redirect b l st) (step_post l st).
Proof.
  intros Ha Hasc. pose proof Ha as (Hl & Hst & Hbd & Hc & Hf).
  apply lookup_lt_Some in Hc as Hlt.
  destruct (redirect_op_ok st c Hbd Hc Hasc) as (Hlen & Hop & Hval).
  assert (Hfin : ∀ start l1 op, list_ok b start (P st) l1 → ls_depth l1 = ls_depth l →
    start ≤ P st → bd start → 0 < length op → bd (P st + length op) → utf8_valid op = true →
    step_post l st (set_redirect (Some op) (push_token
      {| tk_span := Range start (P (advance (length op) st)); tk_value := op;
         tk_kind := TokenKind.RedirectOp |} l1), advance (length op) st)).
  { intros start l1 op Hl1 Hd1 Hle Hs Hp Hbo Hvo. eapply step_pos; [done| |done|lia|done].
    pose proof (push_token_ok b start (P st) {| tk_span := Range start (P st + length op);
      tk_value := op; tk_kind := TokenKind.RedirectOp |} l1 Hl1) as Hpush.
    simpl in Hpush. eapply (list_ok_mono b _ _ _ _ (push_token _ _)); [apply Hpush|done|lia].
    - done.
    - apply word_token_ok; [lia|done..]. }
  unfold redirect. destruct (list.last (cur_tokens l)) as [t|] eqn:Et; [destruct (_ && is_fd _) eqn:E|].
  - bool_prop. rewrite bytes_from_ok by lia. apply sat_ok, Hfin; try done.
    + destruct Hl as (Hch & Hd & Ho & Hn).
      destruct (chain_removelast _ _ _ _ _ Et Hch) as (Hch' & _ & _). by split_and!.
    + destruct Hl as (Hch & _). destruct (chain_removelast _ _ _ _ _ Et Hch) as (_ & [? _] & _). lia.
    + destruct Hl as (Hch & _).
      by destruct (chain_removelast _ _ _ _ _ Et Hch) as (_ & (_ & ? & _) & _).
  - rewrite bytes_from_ok by lia. by apply sat_ok, Hfin.
  - rewrite bytes_from_ok by lia. by apply sat_ok, Hfin.
Qed.

(** ** Heredoc bodies *)

(** The end of a line: a newline, or the end of the source. *)
Lemma line_end_ok i : i ≤ n → bd (run_end b (λ c, negb (c =?a nl)) i) ∧
  (run_end b (λ c, negb (c =?a nl)) i < n → bd (run_end b (λ c, negb (c =?a nl)) i + 1)).
Proof.
  intros Hi. destruct (run_end_stop b (λ c, negb (c =?a nl)) i Hi) as [->|(c & Hc & Hn)].
  - split; [apply bd_n|lia].
  - bool_prop. apply Ascii.eqb_eq in Hn as ->. split; [by eapply bd_at|]. intros _. by eapply bd_next.
Qed.

(** The delimiter that closes a heredoc inside a substitution ends on a boundary
    of the line. *)
Lemma delim_end_ok i j w delim after c t :
  bd i → i ≤ j ≤ n → slice i j b = w ++ delim ++ after → trim_start after = c :: t →
  is_ascii c = true → i + length w + length delim ≤ j ∧ bd (i + length w + length delim).
Proof.
  intros Hi Hij Hs Ht Hc. destruct (trim_start_first _ _ _ Ht Hc) as (d & r & -> & Hd).
  assert (Hlen : length (slice i j b) = j - i) by (rewrite length_slice; lia).
  rewrite Hs, !length_app in Hlen. simpl in Hlen. split; [lia|].
  apply boundary_spec. right; right. exists d. split; [|done].
  rewrite <- Nat.add_assoc. rewrite <- (lookup_slice i j) by lia. rewrite Hs.
  rewrite lookup_app_r, lookup_app_r by lia.
  by replace (_ - _ - _) with 0 by lia.
Qed.

Lemma heredoc_end_ok fuel doc i :
  (i ≤ n → bd i) → n - i < fuel →
  sat (heredoc_end b fuel doc i) (λ stop, Nat.min i n ≤ stop ≤ n ∧ bd stop).
Proof.
  revert i. induction fuel as [|fuel IH]; intros i Hi Hf; [lia|]. cbn [heredoc_end].
  destruct (n <=? i) eqn:E; bool_prop; [apply sat_ok; split; [lia|apply bd_n]|].
  set (j := run_end b (λ c, negb (c =?a nl)) i).
  destruct (run_end_range b (λ c, negb (c =?a nl)) i) as [Hij Hjn]; [lia|]. fold j in Hij, Hjn.
  destruct (line_end_ok i) as [Hbj Hnext]; [lia|]. fold j in Hbj, Hnext.
  specialize (Hi ltac:(lia)).
  rewrite bytes_ok by lia. cbn [mbind res_bind]. cbv zeta.
  rewrite lossy_valid_id by (by apply valid_slice).
  set (raw := slice i j b).
  assert (Hline : ∃ w, raw = w ++ (if hd_strip_tabs doc then trim_start_matches tab raw else raw)).
  { destruct (hd_strip_tabs doc); [|by exists []].
    by destruct (trim_start_matches_suffix tab raw) as (w & ? & _); [done|exists w]. }
  set (line := if hd_strip_tabs doc then _ else _) in *. clearbody line. destruct Hline as [w1 E1].
  assert (Hrec : sat (heredoc_end b fuel doc (j + 1)) (λ stop, Nat.min i n ≤ stop ≤ n ∧ bd stop)).
  { eapply sat_mono; [apply IH; [intros; apply Hnext; lia|lia]|]. intros stop [? ?]. split; [lia|done]. }
  destruct (str_eqb _ _).
  { apply sat_ok. split; [lia|]. destruct (decide (j < n)).
    - rewrite Nat.min_l by lia. by apply Hnext.
    - rewrite Nat.min_r by lia. apply bd_n. }
  destruct (trim_start_suffix line) as [w2 E2].
  destruct (strip_prefix _ _) as [after|] eqn:Ed; [|exact Hrec].
  destruct (starts_with ")" (trim_start after)) eqn:Ep; [|exact Hrec].
  apply strip_prefix_spec in Ed. apply starts_with_spec in Ep as [t Et].
  assert (Eraw : raw = (w1 ++ w2) ++ hd_delim doc ++ after).
  { rewrite E1, E2 at 1. by rewrite Ed, <- !app_assoc. }
  destruct (delim_end_ok i j (w1 ++ w2) (hd_delim doc) after ")"%char t) as [Hle Hbd];
    [done..| |].
  - done.
  - apply (f_equal length) in E1 as L1, E2 as L2. rewrite length_app in L1, L2, Hle, Hbd.
    apply sat_check; [apply Nat.leb_le; lia|]. apply sat_ok.
    replace (_ + _ + _ + _) with (i + (length w1 + length w2) + length (hd_delim doc)) by lia.
    split; [lia|done].
Qed.

Lemma heredoc_bodies_go_ok docs st :
  st_ok b st → bd (P st) →
  sat (heredoc_bodies_go b docs st) (λ st', st_ok b st' ∧ bd (P st') ∧ P st ≤ P st').
Proof.
  revert st. induction docs as [|doc docs IH]; intros st [Hn Hr] Hbd; cbn [heredoc_bodies_go];
    [by apply sat_ok|].
  eapply sat_bind_mono; [apply heredoc_end_ok; [done|lia]|]. intros stop [Hs Hbs].
  rewrite Nat.min_l in Hs by lia.
  eapply sat_mono; [apply IH|].
  - split; simpl; [lia|]. apply ranges_snoc. simpl. split_and!; first [done|lia].
  - done.
  - simpl. intros st' (? & ? & ?). split_and!; [done..|lia].
Qed.

(** ** The loop of a list *)

(** Going on with the loop after a step. *)
Lemma list_then l st c l' st' term :
  at_byte l st c → step_post l st (l', st') →
  sat (call_list self l' term st') (list_post (ls_depth l) st).
Proof.
  intros (_ & Hst & _ & _ & Hf) (Hl' & Hd & Hst' & Hbd & Hlt). simpl in *.
  destruct Hst' as [Hn Hr].
  eapply sat_mono; [apply (list_call_ok _ _ Hself); [done|done|done|lia]|].
  intros [segs st''] (? & ? & ? & ?). simpl in *. rewrite Hd in *.
  split_and!; simpl; [done|done|lia|done].
Qed.

Lemma list_step l st c term (m : res (List_ * Lexer)) :
  at_byte l st c → sat m (step_post l st) →
  sat ('(l, st) ← m; call_list self l term st) (list_post (ls_depth l) st).
Proof.
  intros Ha Hm. eapply sat_bind_mono; [exact Hm|]. intros [l' st'] Hs. by eapply list_then.
Qed.

Lemma flush_same next l ht : list_ok b ht ht l → list_ok b ht ht (flush next l).
Proof. intros. by apply flush_ok. Qed.

Lemma finish_post l st st' :
  list_ok b (P st) (P st) l → st_ok b st' → P st ≤ P st' → bd (P st') →
  sat (Ok (finish l, st')) (list_post (ls_depth l) st).
Proof.
  intros Hl ???. apply sat_ok. split_and!; simpl; [|done..].
  eapply segs_mono; [by eapply finish_ok|done].
Qed.

(** The bytes an operator takes. *)
Lemma lex_starts_with_ok st p (k : bool → res (list RawSegment * Lexer)) Q :
  P st ≤ n → sat (k (starts_with p (drop (P st) b))) Q → sat (lex_starts_with b st p ≫= k) Q.
Proof. intros Hn Hk. unfold lex_starts_with. by rewrite bytes_from_ok by done. Qed.

(** A step of the loop over an operator: the list is flushed, or takes a token. *)
Lemma operator_then l st c l' term k :
  at_byte l st c → list_ok b (P st) (P st) l' → ls_depth l' = ls_depth l → 0 < k →
  bd (P st + k) → sat (call_list self l' term (advance k st)) (list_post (ls_depth l) st).
Proof.
  intros Ha Hl' Hd Hk Hbd. eapply list_then; [done|].
  eapply step_pos; [done|eapply list_ok_mono; [done|lia|lia]|done|lia|done].
Qed.

Lemma newline_ok l st term :
  at_byte l st nl →
  sat (st ← heredoc_bodies b (advance 1 st);
       call_list self (if only_prefix l then l else flush Connector.Newline l) term st)
    (list_post (ls_depth l) st).
Proof.
  intros Ha. pose proof Ha as (Hl & Hst & Hbd & Hc & Hf). apply lookup_lt_Some in Hc as Hlt.
  destruct Hst as [Hn Hr].
  eapply sat_bind_mono.
  { unfold heredoc_bodies. apply heredoc_bodies_go_ok.
    - split; simpl; [lia|]. eapply ranges_mono; [done|lia].
    - by eapply bd_next. }
  simpl. intros st' (Hst' & Hbd' & Hle). eapply list_then; [done|].
  split_and!; simpl; [|by case_match|done|done|lia].
  eapply list_ok_mono; [|instantiate (1 := P st); lia|instantiate (1 := P st); lia].
  case_match; [done|]. by apply flush_same.
Qed.

Lemma semicolon_ok l st term :
  at_byte l st ";"%char →
  let k := match find (λ op, starts_with op (drop (P st) b)) [";;&"; ";;"; ";&"] with
           | Some op => length op
           | None => 1
           end in
  let l' := flush Connector.Semicolon l in
  sat (call_list self (if 1 <? k then set_case_pattern true l' else l') term (advance k st))
    (list_post (ls_depth l) st).
Proof.
  intros Ha k l'. pose proof Ha as (Hl & Hst & Hbd & Hc & Hf).
  assert (Hk : 0 < k ∧ bd (P st + k)).
  { subst k. destruct (find _ _) as [op|] eqn:E; [|split; [lia|by eapply bd_next]].
    apply find_Some in E as [Hin Hs].
    assert (forallb is_ascii op = true ∧ 0 < length op) as [Ho Hl0].
    { apply list_elem_of_In in Hin. simpl in Hin.
      destruct Hin as [<-|[<-|[<-|[]]]]; (split; [done|simpl; lia]). }
    split; [done|]. by eapply bd_after_prefix. }
  destruct Hk. eapply operator_then; [done| |by case_match|done..].
  pose proof (flush_same Connector.Semicolon l (P st) Hl). by case_match.
Qed.

(** Two bytes known from a prefix test. *)
Lemma two_ok st x y :
  starts_with [x; y] (drop (P st) b) = true → is_ascii x && is_ascii y = true → bd (P st + 2).
Proof.
  intros Hs Ha. apply (bd_after_prefix b Hb [x; y]); [done| |simpl; lia].
  simpl. by rewrite andb_true_r.
Qed.

Lemma peek_two_ok st c : peek_is b st 1 c = true → is_ascii c = true → bd (P st + 2).
Proof.
  intros Hp%peek_is_spec Hc. replace (P st + 2) with (P st + 1 + 1) by lia. by eapply bd_next.
Qed.

Lemma amp_ok l st term :
  at_byte l st "&"%char →
  sat (and ← lex_starts_with b st "&&";
       redir ← lex_starts_with b st "&>";
       if (and : bool) then call_list self (flush Connector.And l) term (advance 2 st)
       else if (redir : bool) then '(l, st) ← redirect b l st; call_list self l term st
       else call_list self (flush Connector.Background l) term (advance 1 st))
    (list_post (ls_depth l) st).
Proof.
  intros Ha. pose proof Ha as (Hl & [Hn _] & Hbd & Hc & Hf).
  do 2 (apply lex_starts_with_ok; [done|]).
  destruct (starts_with "&&" _) eqn:E1.
  { eapply operator_then; [done|by apply flush_same|done|lia|]. exact (two_ok st _ _ E1 eq_refl). }
  destruct (starts_with "&>" _).
  { eapply list_step; [done|]. by eapply redirect_ok. }
  eapply operator_then; [done|by apply flush_same|done|lia|by eapply bd_next].
Qed.

Lemma pipe_ok l st term :
  at_byte l st "|"%char →
  sat (or ← lex_starts_with b st "||";
       if in_case_pattern l && negb or then
         call_list self (push_token (word_token (P st) (P st + 1) "|") l) term (advance 1 st)
       else if (or : bool) then call_list self (flush Connector.Or l) term (advance 2 st)
       else
         both ← lex_starts_with b st "|&";
         call_list self (flush Connector.Pipe l) term (advance (if (both : bool) then 2 else 1) st))
    (list_post (ls_depth l) st).
Proof.
  intros Ha. pose proof Ha as (Hl & [Hn _] & Hbd & Hc & Hf).
  assert (Hbd1 : bd (P st + 1)) by (by eapply bd_next).
  apply lex_starts_with_ok; [done|].
  destruct (in_case_pattern l && _).
  { eapply list_then; [done|]. eapply step_pos; [done| |done|lia|done].
    eapply push_word_ok; [done|lia..|done|done|done]. }
  destruct (starts_with "||" _) eqn:E1.
  { eapply operator_then; [done|by apply flush_same|done|lia|]. exact (two_ok st _ _ E1 eq_refl). }
  apply lex_starts_with_ok; [done|].
  destruct (starts_with "|&" _) eqn:E2;
    (eapply operator_then; [done|by apply flush_same|done|lia|]); [|done].
  exact (two_ok st _ _ E2 eq_refl).
Qed.

Lemma paren_ok l st term :
  at_byte l st ")"%char →
  sat (if in_case_pattern l then
         call_list self (flush Connector.Semicolon (set_case_pattern false (set_tokens [] l)))
           term (advance 1 st)
       else if bool_decide (term = Term.Paren) then Ok (finish l, advance 1 st)
       else call_list self (flush Connector.Semicolon l) term (advance 1 st))
    (list_post (ls_depth l) st).
Proof.
  intros Ha. pose proof Ha as (Hl & Hst & Hbd & Hc & Hf).
  apply lookup_lt_Some in Hc as Hlt.
  assert (Hbd1 : bd (P st + 1)) by (by eapply bd_next).
  destruct (in_case_pattern l).
  { eapply operator_then; [done| |done|lia|done]. apply flush_same.
    by apply (clear_tokens_ok b _ _ l). }
  case_bool_decide.
  - apply finish_post; [done|apply st_ok_set; [done|lia]|simpl; lia|done].
  - eapply operator_then; [done|by apply flush_same|done|lia|done].
Qed.

Lemma list_body_ok l term st :
  list_ok b (P st) (P st) l → st_ok b st → bd (P st) → 3 * (n - P st) + 3 ≤ S f →
  sat (list_body b self l term st) (list_post (ls_depth l) st).
Proof.
  intros Hl Hst Hbd Hf. unfold list_body.
  destruct (peek b st 0) as [c|] eqn:E0; [|by apply finish_post].
  assert (Hc : b !! P st = Some c) by (by rewrite <- (Nat.add_0_r (P st))).
  assert (Ha : at_byte l st c) by done. apply lookup_lt_Some in Hc as Hlt.
  assert (Hnext : ∀ k, 0 < k → bd (P st + k) →
    sat (call_list self l term (advance k st)) (list_post (ls_depth l) st)).
  { intros. by eapply operator_then. }
  destruct (_ || (c =?a cr)) eqn:Ews.
  { apply Hnext; [lia|]. eapply bd_next; [done..|].
    repeat (apply orb_prop in Ews as [Ews|Ews]); by apply Ascii.eqb_eq in Ews as ->. }
  destruct (_ && peek_is b st 1 nl) eqn:Econt.
  { bool_prop. apply Hnext; [lia|]. by eapply peek_two_ok. }
  destruct (c =?a nl) eqn:Enl; [apply Ascii.eqb_eq in Enl as ->; by apply newline_ok|].
  destruct (c =?a "#"%char) eqn:Ehash.
  { apply Ascii.eqb_eq in Ehash as ->. eapply list_then; [done|].
    destruct (line_end_ok (P st)) as [Hb1 _]; [lia|].
    destruct (run_end_range b (λ c, negb (c =?a nl)) (P st)) as [Hr _]; [lia|].
    eapply step_pos; [done| |done| |done]; [eapply list_ok_mono; [done|lia|lia]|].
    unfold run_end. rewrite (drop_S _ _ _ Hc). simpl. lia. }
  destruct (dbracket_byte c && ls_dbracket l) eqn:Edb.
  { bool_prop. assert (Hasc : ∀ d, dbracket_byte d = true → is_ascii d = true).
    { intros d (e & He & ->%Ascii.eqb_eq)%existsb_exists. simpl in He. naive_solver. }
    set (stop := run_end b dbracket_byte (P st)).
    assert (Hstop : P st < stop) by
      (unfold stop, run_end; rewrite (drop_S _ _ _ Hc); simpl; bool_rewrite; simpl; lia).
    destruct (run_end_range b dbracket_byte (P st)) as [_ Hr]; [lia|]. fold stop in Hr.
    assert (Hbs : bd stop).
    { destruct (lookup_lt_is_Some_2 b (stop - 1)) as [d Hd]; [lia|].
      replace stop with (stop - 1 + 1) by lia. eapply bd_next; [done..|].
      apply Hasc. eapply (run_end_lookup b dbracket_byte (P st)); [|done]. fold stop. lia. }
    rewrite bytes_ok by lia. cbn [mbind res_bind]. eapply list_then; [done|].
    eapply step_pos; [done| |done|lia|done].
    eapply push_word_ok; [done|lia..|done|done|apply lossy_valid]. }
  destruct (c =?a ";"%char) eqn:Es.
  { apply Ascii.eqb_eq in Es as ->. rewrite bytes_from_ok by lia. by apply semicolon_ok. }
  destruct (c =?a "&"%char) eqn:Eamp; [apply Ascii.eqb_eq in Eamp as ->; by apply amp_ok|].
  destruct (c =?a "|"%char) eqn:Epipe; [apply Ascii.eqb_eq in Epipe as ->; by apply pipe_ok|].
  destruct ((c =?a "<"%char) || (c =?a ">"%char)) eqn:Er.
  { assert (is_ascii c = true).
    { apply orb_prop in Er as [->%Ascii.eqb_eq| ->%Ascii.eqb_eq]; done. }
    destruct (peek_is b st 1 "("%char); (eapply list_step; [done|]);
      [by eapply word_ok|by eapply redirect_ok]. }
  destruct (c =?a "("%char) eqn:Eo.
  { apply Ascii.eqb_eq in Eo as ->. eapply list_step; [done|]. by apply open_paren_ok. }
  destruct (c =?a ")"%char) eqn:Ec; [apply Ascii.eqb_eq in Ec as ->; by apply paren_ok|].
  destruct (_ && bool_decide _) eqn:Et; [|eapply list_step; [done|]; by eapply word_ok].
  bool_prop. match goal with H : (c =?a btick) = true |- _ => apply Ascii.eqb_eq in H as -> end.
  apply finish_post; [done|apply st_ok_set; [done|lia]|simpl; lia|by eapply bd_next].
Qed.

End bodies.

(** ** The knot *)

Lemma lexer_ok f : calls_ok f (lexer b f).
Proof.
  induction f as [|f IH]; split; intros; try lia; simpl.
  - by eapply list_body_ok.
  - by eapply word_body_ok.
  - by eapply double_quoted_body_ok.
Qed.

End lexer_total.

(** What [lex] gives at depth [d]. *)
Definition lexed_ok (b : str) (d : nat) (lx : Lexed) : Prop :=
  Forall (seg_ok b (length b) d) (lx_segments lx) ∧ ranges_ok b 0 (lx_cut lx) (length b).

(** The lexer returns on every valid string. *)
Lemma lex_ok b d : utf8_valid b = true → sat (lex b d) (lexed_ok b d).
Proof.
  intros Hb. unfold lex. eapply sat_bind_mono.
  - eapply (list_call_ok b _ _ (lexer_ok b Hb _)); simpl.
    + apply list_new_ok.
    + split; simpl; lia.
    + apply boundary_0.
    + unfold lex_fuel. lia.
  - intros [segs st] (Hs & [Hn Hr] & _). simpl in *. apply sat_ok. split; simpl.
    + by eapply segs_mono.
    + by eapply ranges_mono.
Qed.
