(* ===== verification/ShellClassify.v ===== *)
(** * From a raw segment to a described one

    [tools/command-describer/src/classify.rs]: keywords stripped, the program
    resolved past assignments and wrappers, subcommand and flags read, role and
    class assigned from the tables. *)

From Stdlib Require Import Ascii.
From stdpp Require Import base tactics list numbers strings option.
From S2P Require Import Prelude RustStr ShellData ShellTables ShellLex.

(** ** Word shapes *)

Definition first_is (p : ascii → bool) (s : str) : bool :=
  match s with
  | c :: _ => p c
  | [] => false
  end.

Definition is_assignment (w : str) : bool :=
  match position (Ascii.eqb "="%char) w with
  | None => false
  | Some eq =>
    let name := default (take eq w) (strip_suffix "+" (take eq w)) in
    let ok c := (c =?a "_"%char) in
    first_is (λ c, is_alpha c || ok c) name &&
    forallb (λ c, is_alnum c || ok c) (tail name)
  end.

Definition is_duration (w : str) : bool :=
  let digits := match list.last w with
                | Some c => if existsb (Ascii.eqb c) ["s"; "m"; "h"; "d"]%char
                            then removelast w else w
                | None => w
                end in
  negb (str_eqb digits []) && forallb (λ c, is_digit c || (c =?a "."%char)) digits.

(** A program name: a letter, then letters, digits and [_.+-]. *)
Definition program_ok (p : str) : bool :=
  first_is is_alpha p &&
  forallb (λ c, is_alnum c || contains_char c "_.+-") (tail p).

(** A subcommand word: lowercase letter, then lowercase, digits and [-]. *)
Definition is_word (t : str) : bool :=
  first_is is_lower t &&
  forallb (λ c, is_lower c || is_digit c || (c =?a "-"%char)) (tail t).

(** ** Flags and their values *)

Definition flag_name (program t : str) : option str :=
  match strip_prefix "--" t with
  | Some long =>
    let name := take_while (λ c, negb (c =?a "="%char)) long in
    let ok := first_is is_alpha name &&
              forallb (λ c, is_alnum c || (c =?a "-"%char)) name in
    if ok then Some (take (2 + length name) t) else None
  | None =>
    match strip_prefix "-" t with
    | Some short =>
      if first_is is_alpha short && forallb is_alnum short then Some t else None
    | None =>
      if str_eqb program "cargo" && (1 <? length t) && starts_with "+" t then Some t else None
    end
  end.

(** getopt: the first value flag in a cluster takes the rest of the word, or
    the next word when it ends the cluster. *)
Fixpoint cluster_takes_next (program : str) (numeric : bool) (cs : list str) : bool :=
  match cs with
  | [] => false
  | c :: cs' =>
    let flag := "-" ++ c in
    let last := bool_decide (cs' = []) in
    if takes_value program flag then last
    else if takes_numeric_value program flag then last && numeric
    else cluster_takes_next program numeric cs'
  end.

Definition value_follows (program t : str) (next : option str) : bool :=
  match next with
  | None => false
  | Some next =>
    if starts_with "-" next then false
    else
      let numeric := parses_f64 next in
      if starts_with "--" t then
        negb (contains_char "="%char t) &&
        (takes_value program t || (takes_numeric_value program t && numeric))
      else
        match strip_prefix "-" t with
        | Some short => cluster_takes_next program numeric (chars short)
        | None => false
        end
  end.

(** The offset where the value written into a short cluster starts; [i] is the
    offset of [cs] in the cluster's word of [len] bytes. *)
Fixpoint attached_value (program : str) (len i : nat) (cs : list str) : option nat :=
  match cs with
  | [] => None
  | c :: cs' =>
    let stop := i + length c in
    if takes_value program ("-" ++ c) && (stop <? len) then Some stop
    else attached_value program len stop cs'
  end.

Definition split_flag_value (program t : str) : list str :=
  if starts_with "--" t then
    match split_once "="%char t with
    | Some (name, value) => [name; value]
    | None => [t]
    end
  else
    match strip_prefix "-" t with
    | Some short =>
      match attached_value program (length t) 1 (chars short) with
      | Some stop => [take stop t; drop stop t]
      | None => [t]
      end
    | None => [t]
    end.
Definition split_flag_values (program : str) (rest : list str) : list str :=
  concat (split_flag_value program <$> rest).

Fixpoint positional_words (program : str) (rest : list str) : list str :=
  match rest with
  | [] => []
  | t :: r =>
    if starts_with "-" t then
      match r with
      | n :: r' => if value_follows program t (Some n) then positional_words program r'
                   else positional_words program r
      | [] => []
      end
    else t :: positional_words program r
  end.

Definition sed_in_place (rest : list str) : bool :=
  existsb (λ t, starts_with "-i" t || starts_with "--in-place" t) rest.

(** The loop of [subcommand_and_flags]: [want] words to keep, [words] and
    [flags] kept so far. *)
Fixpoint subcommand_go (program : str) (depth : option nat) (rest : list str)
    (want : nat) (words flags : list str) : list str * list str :=
  match rest with
  | [] => (words, flags)
  | t :: r =>
    match flag_name program t with
    | Some name =>
      let flags := flags ++ [name] in
      match r with
      | n :: r' =>
        if value_follows program t (Some n)
        then subcommand_go program depth r' want words flags
        else subcommand_go program depth r want words flags
      | [] => (words, flags)
      end
    | None =>
      if str_eqb program "make" && is_assignment t then
        subcommand_go program depth r want words flags
      else if (length words <? want) && is_word t then
        let words := words ++ [t] in
        let want := if (length words =? 1) && takes_second_word program t then 2 else want in
        subcommand_go program depth r want words flags
      else
        let want := match depth with Some _ => length words | None => want end in
        subcommand_go program depth r want words flags
    end
  end.

Definition subcommand_and_flags (program : str) (rest : list str) : list str * list str :=
  let depth := subcommand_depth program in
  let '(words, flags) := subcommand_go program depth rest (default 0 depth) [] [] in
  let words :=
    if mem_str program ["python"; "python3"] then
      match position (λ t, str_eqb t "-m") (take_while (starts_with "-") rest) with
      | Some m => match rest !! (m + 1) with
                  | Some module => [module]
                  | None => words
                  end
      | None => words
      end
    else words in
  (words, flags).

(** ** The program *)

(** The index of the program, from index [i] on. [wrapper] is the wrapper
    whose flags, durations and assignments are being skipped. *)
Fixpoint program_index_go (wrapper : option str) (words : list str) (i : nat) : nat :=
  match words with
  | [] => i
  | t :: r =>
    let resolve (_ : unit) :=
      let w := basename t in
      if negb (mem_str w WRAPPERS) then i
      else if str_eqb w "command" &&
              match r with n :: _ => mem_str n ["-v"; "-V"] | [] => false end
      then i
      else program_index_go (Some w) r (i + 1) in
    match wrapper with
    | None => resolve tt
    | Some w =>
      if starts_with "-" t then
        match r with
        | n :: r' => if value_follows w t (Some n) then program_index_go wrapper r' (i + 2)
                     else program_index_go wrapper r (i + 1)
        | [] => i + 1
        end
      else if is_duration t || is_assignment t then program_index_go wrapper r (i + 1)
      else resolve tt
    end
  end.

Definition program_index (words : list str) : nat :=
  let n := length (take_while is_assignment words) in
  program_index_go None (drop n words) n.

(** ** Redirections *)

Definition is_stream_target (target : str) : bool :=
  mem_str target ["/dev/null"; "/dev/stdout"; "/dev/stderr"; "/dev/tty"] ||
  starts_with "/dev/fd/" target.

Definition writes_file (tokens : list Token) : bool :=
  existsb
    (λ w, bool_decide (tk_kind (fst w) = TokenKind.RedirectOp) &&
          mem_str (tk_value (fst w)) [">"; ">>"; ">|"; "&>"; "&>>"] &&
          negb (is_stream_target (tk_value (snd w))))
    (windows2 tokens).

(** ** Keywords *)

Fixpoint strip_keywords_go (connector : Connector.t) (tokens : list Token)
    : Connector.t * list Token :=
  match tokens with
  | [] => (connector, [])
  | t :: r =>
    if negb (is_word_token t) then (connector, tokens)
    else
      let v := tk_value t in
      if mem_str v LEAD_KEYWORDS then
        strip_keywords_go (if str_eqb v "do" then Connector.LoopBody else connector) r
      else if str_eqb v "function" then
        match r with
        | [] => (connector, [])
        | _ :: r2 =>
          match r2 with
          | p :: r3 => if str_eqb (tk_value p) "()" then strip_keywords_go connector r3
                       else strip_keywords_go connector r2
          | [] => (connector, [])
          end
        end
      else if (2 <? length v) && ends_with "()" v then strip_keywords_go connector r
      else (connector, tokens)
  end.

Definition strip_keywords (connector : Connector.t) (tokens : list Token)
    : option (Connector.t * list Token) :=
  let '(connector, rest) := strip_keywords_go connector tokens in
  match rest with
  | [] => None
  | t :: _ =>
    if is_word_token t && mem_str (tk_value t) SKIP_KEYWORDS then None
    else Some (connector, rest)
  end.

(** ** Text *)

(** [cut], from source position [p] on. *)
Fixpoint cut_go (src : str) (p stop : nat) (excluded : list range) : res str :=
  match excluded with
  | [] => str_slice src p stop
  | r :: rs =>
    if (r_end r <=? p) || (stop <=? r_start r) then cut_go src p stop rs
    else
      piece ← str_slice src p (Nat.max (r_start r) p);
      rest ← cut_go src (Nat.min (r_end r) stop) stop rs;
      Ok (piece ++ rest)
  end.
Definition cut (src : str) (span : range) (excluded : list range) : res str :=
  cut_go src (r_start span) (r_end span) excluded.

Definition cut_before (pos : nat) (span : range) (excluded : list range) : nat :=
  sum_list ((λ r, let a := Nat.max (r_start r) (r_start span) in
                  let e := Nat.min (r_end r) pos in
                  if a <? e then e - a else 0) <$> excluded).

Definition text_offset (pos : nat) (span : range) (excluded : list range) : res nat :=
  _ ← check ((r_start span <=? pos) && (cut_before pos span excluded <=? pos - r_start span));
  Ok (pos - r_start span - cut_before pos span excluded).

(** ** Command strings *)

(** The shell's options: whether [-c] is among them, and the first operand.
    [skip] counts the words an option before takes as its value. *)
Fixpoint shell_operand (skip : nat) (dash_c : bool) (args : list Token) : option Token :=
  match args with
  | [] => None
  | a :: r =>
    match skip with
    | S k => shell_operand k dash_c r
    | 0 =>
      let v := tk_value a in
      if str_eqb v "--" || str_eqb v "-" then if dash_c then head r else None
      else if starts_with "--" v then
        shell_operand (if mem_str v SHELL_VALUE_LONG_OPTIONS then 1 else 0) dash_c r
      else
        match v with
        | c :: ((_ :: _) as cluster) =>
          if (c =?a "-"%char) || (c =?a "+"%char) then
            shell_operand
              (length (List.filter (λ o, existsb (Ascii.eqb o) SHELL_VALUE_OPTIONS) cluster))
              (dash_c || ((c =?a "-"%char) && contains_char "c"%char cluster)) r
          else if dash_c then Some a else None
        | _ => if dash_c then Some a else None
        end
    end
  end.

Definition command_string (program : str) (args : list Token) : option (list Token) :=
  if str_eqb program "eval" then
    let args := match args with
                | t :: r => if str_eqb (tk_value t) "--" then r else args
                | [] => args
                end in
    match args with
    | [] => None
    | _ => Some args
    end
  else if negb (mem_str program SHELLS) then None
  else (λ t, [t]) <$> shell_operand 0 false args.

(** ** The segment *)

Section build.
Context {U : Unicode}.

(** The role of a segment that names the program [program]. *)
Definition role_of (connector : Connector.t) (program : str) (rest : list str)
    (wrapped redirect : bool) : Role.t :=
  if redirect then Role.Operative
  else if mem_str program NAVIGATION && negb wrapped then Role.Navigation
  else if bool_decide (connector = Connector.Pipe) && mem_str program FILTERS &&
          negb (str_eqb program "sed" && sed_in_place rest) then Role.Filter
  else Role.Operative.

(** A navigation program behind a wrapper that starts a process. *)
Definition is_wrapped (before : list str) : bool :=
  existsb (λ w, mem_str (basename w) WRAPPERS && negb (mem_str (basename w) IN_SHELL_WRAPPERS))
    before.

Definition class_of (program : str) (rest : list str) (redirect : bool) : Class.t :=
  let class := classify {|
    ci_program := program;
    ci_tokens := split_flag_values program rest;
    ci_words := positional_words program rest;
    ci_redirect := redirect;
  |} in
  if redirect then Class.min class Class.FileWrite else class.

(** The program the words resolve to: its index and its base name. *)
Definition resolve_program (words : list str) : option (nat * str) :=
  let at_ := program_index words in
  w ← words !! at_;
  if program_ok (basename w) then Some (at_, basename w) else None.

Definition build (src : str) (excluded : list range) (raw : RawSegment)
    : res (option (Segment * option (list Token))) :=
  match strip_keywords (rs_connector raw) (rs_tokens raw) with
  | None => Ok None
  | Some (connector, tokens) =>
    match head tokens, list.last tokens with
    | Some first, Some last =>
      let span := Range (r_start (tk_span first)) (r_end (tk_span last)) in
      text ← cut src span excluded;
      let word_tokens := List.filter is_word_token tokens in
      let words := tk_value <$> word_tokens in
      let redirect := writes_file tokens in
      match resolve_program words with
      | None =>
        Ok (Some ({|
          sg_connector := connector;
          sg_depth := rs_depth raw;
          sg_role := if redirect then Role.Operative else Role.Navigation;
          sg_program := None;
          sg_subcommand := None;
          sg_flags := [];
          sg_class := if redirect then Some Class.FileWrite else None;
          sg_span := span;
          sg_text := text;
          sg_program_at := 0;
        |}, None))
      | Some (at_, program) =>
        start ← match word_tokens !! at_ with
                | Some t => Ok (r_start (tk_span t))
                | None => Panicked
                end;
        program_at ← text_offset start span excluded;
        let rest := drop (at_ + 1) words in
        let '(subcommand, flags) := subcommand_and_flags program rest in
        let role := role_of connector program rest (is_wrapped (take at_ words)) redirect in
        Ok (Some ({|
          sg_connector := connector;
          sg_depth := rs_depth raw;
          sg_role := role;
          sg_program := Some program;
          sg_subcommand := if bool_decide (subcommand = []) then None
                           else Some (join " " subcommand);
          sg_flags := flags;
          sg_class := if bool_decide (role = Role.Operative)
                      then Some (class_of program rest redirect) else None;
          sg_span := span;
          sg_text := text;
          sg_program_at := program_at;
        |}, command_string program (drop (at_ + 1) word_tokens)))
      end
    | _, _ => Ok None
    end
  end.

End build.
