(* ===== verification/ShellParse.v ===== *)
(** * Command strings and the parse

    [tools/command-describer/src/command_string.rs]: the string [eval] or
    [bash -c] runs, with the map of its offsets back to the source; and
    [parse], [expand] and [command_string] of [lib.rs]. A command string is
    parsed one level deeper, and [MAX_DEPTH] bounds the levels: [parse_at] runs
    on the levels left. *)

From Stdlib Require Import Ascii.
From stdpp Require Import base tactics list numbers strings option.
From S2P Require Import Prelude RustStr ShellData ShellTables ShellLex ShellClassify.

(** ** The command string *)

Module CommandString.

Record Word := {
  w_at : nat;
  w_len : nat;
  w_span : range;
  w_verbatim : option nat;
}.

Record t := {
  text : str;
  words : list Word;
}.

(** The raw text is the value inside one pair of the quotes [q]. *)
Definition quoted_by (q : ascii) (raw value : str) : bool :=
  match strip_prefix [q] raw with
  | Some r => match strip_suffix [q] r with
              | Some inner => str_eqb inner value
              | None => false
              end
  | None => false
  end.

Definition verbatim (raw : str) (w : Token) : option nat :=
  if str_eqb raw (tk_value w) then Some (r_start (tk_span w))
  else if quoted_by squote raw (tk_value w) || quoted_by dquote raw (tk_value w)
  then Some (r_start (tk_span w) + 1)
  else None.

(** The loop of [new]: [first] for the first word, [text] so far. *)
Fixpoint new_go (src : str) (first : bool) (ws : list Token) (text : str) (out : list Word)
    : res t :=
  match ws with
  | [] => Ok {| text := text; words := out |}
  | w :: ws =>
    let text := if first then text else text ++ " " in
    raw ← str_slice src (r_start (tk_span w)) (r_end (tk_span w));
    let word := {| w_at := length text; w_len := length (tk_value w);
                   w_span := tk_span w; w_verbatim := verbatim raw w |} in
    new_go src false ws (text ++ tk_value w) (out ++ [word])
  end.
Definition new (src : str) (ws : list Token) : res t := new_go src true ws [] [].

(** The source span of a span in [text]. *)
Definition source_span (s : t) (r : range) : res range :=
  let first := default 0 (rposition (λ w, w_at w <=? r_start r) (words s)) in
  _ ← check (1 <=? length (words s));
  let last := default (length (words s) - 1)
                (position (λ w, r_end r <=? w_at w + w_len w) (words s)) in
  match words s !! first, words s !! last with
  | Some a, Some b =>
    match w_verbatim a, w_verbatim b with
    | Some sa, Some sb =>
      _ ← check (w_at a <=? r_start r);
      Ok (Range (sa + Nat.min (r_start r - w_at a) (w_len a))
                (sb + Nat.min (r_end r - w_at b) (w_len b)))
    | _, _ => Ok (Range (r_start (w_span a)) (r_end (w_span b)))
    end
  | _, _ => Panicked
  end.

End CommandString.

(** ** The parse *)

(** [filter_map] and [map] over calls that may panic. *)
Fixpoint res_omap {A B} (f : A → res (option B)) (l : list A) : res (list B) :=
  match l with
  | [] => Ok []
  | x :: l =>
    y ← f x;
    ys ← res_omap f l;
    Ok (option_list y ++ ys)
  end.

Fixpoint res_map {A B} (f : A → res B) (l : list A) : res (list B) :=
  match l with
  | [] => Ok []
  | x :: l =>
    y ← f x;
    ys ← res_map f l;
    Ok (y :: ys)
  end.

(** [swap_remove(i)]: the last element takes the place of the one removed. *)
Definition swap_remove {A} (i : nat) (l : list A) : list A :=
  match list.last l with
  | Some z => removelast (<[i := z]> l)
  | None => []
  end.

(** The loop of [retain]: the segments of a substitution in the string that the
    outer shell's own copies, [copies], already describe are dropped.
    [substitution] is the depth of the substitution being read. *)
Fixpoint drop_copies (substitution : option nat) (copies : list str) (inner : list Segment)
    : list Segment :=
  match inner with
  | [] => []
  | s :: inner =>
    let substitution :=
      match substitution with
      | Some k =>
        if (sg_depth s <? k) ||
           ((sg_depth s =? k) &&
            (bool_decide (sg_connector s = Connector.Subshell) ||
             bool_decide (sg_connector s = Connector.CommandString)))
        then None else Some k
      | None => None
      end in
    let substitution :=
      match substitution with
      | None => if bool_decide (sg_connector s = Connector.CommandSubstitution)
                then Some (sg_depth s) else None
      | some => some
      end in
    let copy := match substitution with
                | Some _ => position (λ c, str_eqb c (sg_text s)) copies
                | None => None
                end in
    match copy with
    | Some i => drop_copies substitution (swap_remove i copies) inner
    | None => s :: drop_copies substitution copies inner
    end
  end.

(** Whether [s] lies inside one of [words]. *)
Definition inside_words (words : list Token) (s : Segment) : bool :=
  existsb (λ w, (r_start (tk_span w) <=? r_start (sg_span s)) &&
                (r_end (sg_span s) <=? r_end (tk_span w))) words.

(** The first segment of a command string is joined to nothing before it. *)
Definition mark_first (inner : list Segment) : list Segment :=
  match inner with
  | first :: rest =>
    (if bool_decide (sg_connector first = Connector.Start)
     then set_connector Connector.CommandString first else first) :: rest
  | [] => []
  end.

(** The segments the lexer emits right after one of span [span] at depth [at_]
    for its substitutions: deeper and inside it. *)
Definition nested_in (at_ : nat) (span : range) (p : Segment * option (list Token)) : bool :=
  (at_ <? sg_depth (fst p)) && (r_start span <=? r_start (sg_span (fst p))) &&
  (r_end (sg_span (fst p)) <=? r_end span).

Section expand.
Context (parse_at : str → nat → res (list Segment)).
Context (command : str).

Definition command_string_segments (words : list Token) (at_ : nat) (nested : list Segment)
    : res (list Segment) :=
  string ← CommandString.new command words;
  let copies := sg_text <$> List.filter (inside_words words) nested in
  inner ← parse_at (CommandString.text string) (at_ + 1);
  let inner := mark_first (drop_copies None copies inner) in
  res_map
    (λ s, r ← CommandString.source_span string (sg_span s); Ok (set_span r s))
    inner.

(** The built segments in order, each command string's segments after the
    segment that runs it and the substitutions nested in its words. *)
Fixpoint expand (fuel : nat) (built : list (Segment * option (list Token)))
    : res (list Segment) :=
  match fuel with
  | 0 => NoFuel
  | S fuel =>
    match built with
    | [] => Ok []
    | (segment, None) :: rest =>
      out ← expand fuel rest;
      Ok (segment :: out)
    | (segment, Some words) :: rest =>
      let at_ := sg_depth segment in
      let span := sg_span segment in
      nested ← expand fuel (take_while (nested_in at_ span) rest);
      inner ← (if at_ + 1 <? MAX_DEPTH then command_string_segments words at_ nested
               else Ok []);
      out ← expand fuel (drop_while (nested_in at_ span) rest);
      Ok (segment :: nested ++ inner ++ out)
    end
  end.

End expand.

Section parse.
Context {U : Unicode}.

(** [parse_at] with [levels] levels of nesting left. *)
Fixpoint parse_at (levels : nat) (command : str) (depth : nat) : res (list Segment) :=
  match levels with
  | 0 => NoFuel
  | S levels =>
    lexed ← lex command depth;
    built ← res_omap (build command (lx_cut lexed)) (lx_segments lexed);
    expand (parse_at levels) command (S (length built)) built
  end.

(** [parse]: a shell command string into its ordered segments. *)
Definition parse (command : str) : res (list Segment) := parse_at (S MAX_DEPTH) command 0.

End parse.
