(* ===== verification/ShellParseFacts.v ===== *)
(** * The parse never fails

    On every valid UTF-8 string [parse] returns: the text of a segment is cut on
    character boundaries, the program word's offset is inside it, a command
    string's spans map back into the source, and the levels [parse] starts with
    are enough. *)

From Stdlib Require Import Ascii.
From stdpp Require Import base tactics list numbers strings option.
From S2P Require Import Prelude RustStr RustStrFacts ShellData ShellTables ShellLex ShellLexFacts ShellLexTotal ShellClassify ShellParse.

(** ** Sublists of tokens *)

Lemma chain_lo b lo lo' ts hi : lo ≤ lo' → chain b lo' ts hi → chain b lo ts hi.
Proof. destruct ts; simpl; [lia|]. intros ? (? & ?). split; [lia|done]. Qed.

Lemma chain_sublist b lo ts ts' hi : sublist ts' ts → chain b lo ts hi → chain b lo ts' hi.
Proof.
  intros Hs. revert lo. induction Hs as [|t ts' ts Hs IH|t ts' ts Hs IH]; simpl; intros lo; [done|..].
  - intros (? & ? & ?). auto.
  - intros (? & (Hlt & _) & ?). apply IH. eapply chain_lo; [|done]. lia.
Qed.

Lemma sublist_filter {A} (p : A → bool) l : sublist (List.filter p l) l.
Proof. induction l as [|x l IH]; simpl; [constructor|]. case_match; by constructor. Qed.

Lemma strip_keywords_go_sublist m c ts :
  length ts ≤ m → sublist (strip_keywords_go c ts).2 ts.
Proof.
  revert c ts. induction m as [|m IH]; intros c [|t ts] Hm; simpl in Hm;
    [done|lia|done|]. cbn [strip_keywords_go].
  assert (Hr : ∀ c, sublist (strip_keywords_go c ts).2 (t :: ts)).
  { intros. apply sublist_cons, IH. lia. }
  repeat case_match; cbn [snd]; try reflexivity; try apply Hr; try apply sublist_nil_l.
  all: subst; simpl in Hm; repeat first [apply IH; simpl; lia | apply sublist_cons].
Qed.

Lemma strip_keywords_sublist c ts c' ts' :
  strip_keywords c ts = Some (c', ts') → sublist ts' ts ∧ ts' ≠ [].
Proof.
  pose proof (strip_keywords_go_sublist (length ts) c ts ltac:(done)) as Hgo.
  unfold strip_keywords. destruct (strip_keywords_go c ts) as [c0 [|t r]]; [done|].
  case_match; [done|]. intros [= <- <-]. done.
Qed.

(** ** The text of a segment *)

Section cut.
Context (src : str).
Context (Hsrc : utf8_valid src = true).
Local Abbreviation bd i := (is_char_boundary src i = true).

(** What [cut] keeps of the source from [p] to [e]. *)
Fixpoint kept (p e : nat) (rs : list range) : str :=
  match rs with
  | [] => slice p e src
  | r :: rs =>
    if (r_end r <=? p) || (e <=? r_start r) then kept p e rs
    else slice p (Nat.max (r_start r) p) src ++ kept (Nat.min (r_end r) e) e rs
  end.

Lemma bd_max p q : bd p → bd q → bd (Nat.max p q).
Proof. intros. by destruct (Nat.max_spec p q) as [[_ ->]|[_ ->]]. Qed.
Lemma bd_min p q : bd p → bd q → bd (Nat.min p q).
Proof. intros. by destruct (Nat.min_spec p q) as [[_ ->]|[_ ->]]. Qed.

Lemma cut_go_kept lo hi p e rs :
  ranges_ok src lo rs hi → p ≤ e → bd p → bd e →
  cut_go src p e rs = Ok (kept p e rs) ∧ utf8_valid (kept p e rs) = true.
Proof.
  revert lo p. induction rs as [|r rs IH]; simpl; intros lo p Hr Hp Hbp Hbe.
  { rewrite str_slice_ok by done. split; [done|by apply valid_slice]. }
  destruct Hr as (? & Hs & Ht & Hr).
  destruct ((r_end r <=? p) || (e <=? r_start r)) eqn:E; [by eapply IH|].
  bool_prop. rewrite str_slice_ok by (auto using bd_max with lia). cbn [mbind res_bind].
  destruct (IH (r_end r) (Nat.min (r_end r) e)) as [-> ?]; [done|lia|by apply bd_min|done|].
  split; [done|]. apply utf8_valid_concat; [|done]. apply valid_slice; auto using bd_max with lia.
Qed.

Lemma kept_empty p rs : kept p p rs = [].
Proof.
  induction rs as [|r rs IH]; simpl; [by apply slice_nil|].
  destruct ((r_end r <=? p) || (p <=? r_start r)) eqn:E; [done|]. bool_prop.
  rewrite slice_nil by lia. by replace (Nat.min (r_end r) p) with p by lia.
Qed.

(** Ranges from [lo] on leave what is before. *)
Lemma kept_before lo hi p e rs : ranges_ok src lo rs hi → p ≤ e ≤ lo → kept p e rs = slice p e src.
Proof.
  revert lo. induction rs as [|r rs IH]; simpl; intros lo; [done|].
  intros (? & _ & _ & Hr) ?. destruct (e <=? r_start r) eqn:E; bool_prop; [|lia].
  rewrite orb_true_r. eapply IH; [done|lia].
Qed.

Lemma kept_split lo hi p q e rs :
  ranges_ok src lo rs hi → p ≤ q ≤ e → kept p e rs = kept p q rs ++ kept q e rs.
Proof.
  revert lo p. induction rs as [|r rs IH]; simpl; intros lo p Hr Hpq; [by rewrite slice_app_adj|].
  destruct Hr as (Hrange & _ & _ & Hr).
  destruct (r_end r <=? p) eqn:E1; bool_prop; simpl.
  { rewrite (proj2 (Nat.leb_le (r_end r) q)) by lia. simpl. by eapply IH. }
  destruct (e <=? r_start r) eqn:E2; bool_prop; simpl.
  { rewrite (proj2 (Nat.leb_le q (r_start r))) by lia. rewrite orb_true_r. by eapply IH. }
  destruct (q <=? r_start r) eqn:E3; bool_prop; simpl.
  - rewrite (kept_before (r_end r) hi p q) by (done || lia).
    destruct (r_end r <=? q) eqn:E4; bool_prop; simpl.
    + replace (r_end r) with q in * by lia. replace (r_start r) with q by lia.
      f_equal; [f_equal; lia|f_equal; lia].
    + rewrite app_assoc. f_equal. rewrite slice_app_adj by lia. f_equal; lia.
  - rewrite <- app_assoc. f_equal.
    destruct (r_end r <=? q) eqn:E4; bool_prop; simpl.
    + replace (Nat.min (r_end r) e) with (r_end r) by lia.
      replace (Nat.min (r_end r) q) with (r_end r) by lia. eapply IH; [done|lia].
    + replace (Nat.min (r_end r) q) with q by lia. rewrite kept_empty. simpl.
      by rewrite slice_nil by lia.
Qed.

Lemma cut_before_cons q span r rs :
  cut_before q span (r :: rs) =
  (if Nat.max (r_start r) (r_start span) <? Nat.min (r_end r) q
   then Nat.min (r_end r) q - Nat.max (r_start r) (r_start span) else 0) +
  cut_before q span rs.
Proof. done. Qed.

Lemma cut_before_start lo hi p p' q r0 rs :
  ranges_ok src lo rs hi → p ≤ lo → p' ≤ lo →
  cut_before q (Range p r0) rs = cut_before q (Range p' r0) rs.
Proof.
  revert lo. induction rs as [|r rs IH]; simpl; intros lo; [done|].
  intros (? & _ & _ & Hr) ??. rewrite !cut_before_cons. simpl. rewrite (IH (r_end r)) by (done || lia).
  by replace (Nat.max (r_start r) p) with (Nat.max (r_start r) p') by lia.
Qed.

(** What is cut before [q] is what the text up to [q] lacks. *)
Lemma kept_length lo hi p q e rs :
  ranges_ok src lo rs hi → p ≤ q ≤ length src →
  length (kept p q rs) + cut_before q (Range p e) rs = q - p.
Proof.
  revert lo p. induction rs as [|r rs IH]; simpl; intros lo p Hr Hpq.
  { unfold cut_before. simpl. rewrite length_slice. lia. }
  destruct Hr as (Hrange & _ & _ & Hr). rewrite cut_before_cons. cbn [r_start].
  destruct ((r_end r <=? p) || (q <=? r_start r)) eqn:E.
  - specialize (IH _ p Hr ltac:(lia)).
    assert ((Nat.max (r_start r) p <? Nat.min (r_end r) q) = false) as ->; [|lia].
    apply orb_prop in E. apply Nat.ltb_ge. destruct E; bool_prop; lia.
  - bool_prop. specialize (IH _ (Nat.min (r_end r) q) Hr ltac:(lia)).
    rewrite (cut_before_start (r_end r) hi p (Nat.min (r_end r) q)) by (done || lia).
    rewrite length_app, length_slice.
    destruct (Nat.max (r_start r) p <? Nat.min (r_end r) q) eqn:E2; bool_prop; lia.
Qed.

(** The text of a span splits at every position inside it, and [text_offset]
    gives where. *)
Lemma text_offset_ok hi pos span rs :
  ranges_ok src 0 rs hi → r_start span ≤ pos ≤ r_end span →
  bd (r_start span) → bd pos → bd (r_end span) →
  ∃ before after,
    cut src span rs = Ok (before ++ after) ∧
    cut src (Range pos (r_end span)) rs = Ok after ∧
    text_offset pos span rs = Ok (length before) ∧ utf8_valid after = true ∧
    utf8_valid before = true.
Proof.
  destruct span as [s e]; simpl. intros Hr Hp Hbs Hbp Hbe.
  exists (kept s pos rs), (kept pos e rs).
  destruct (cut_go_kept 0 hi s e rs) as [Hc _]; [done|lia|done..|].
  destruct (cut_go_kept 0 hi pos e rs) as [Hc2 Hv]; [done|lia|done..|].
  destruct (cut_go_kept 0 hi s pos rs) as [_ Hv2]; [done|lia|done..|].
  apply boundary_le in Hbp as Hn.
  pose proof (kept_length 0 hi s pos e rs Hr ltac:(lia)) as Hlen.
  unfold cut, text_offset. cbn [r_start r_end].
  rewrite Hc, Hc2, <- (kept_split 0 hi s pos e rs) by (done || lia).
  split_and!; [done..| |done|done].
  rewrite (proj2 (Nat.leb_le s pos)), (proj2 (Nat.leb_le (cut_before _ _ _) _)) by lia.
  simpl. f_equal. lia.
Qed.

End cut.

(** ** Segments *)

(** A segment of a list at depth [d] of the source [src]. *)
Record segment_ok (src : str) (d : nat) (s : Segment) : Prop := {
  so_span_le : r_start (sg_span s) ≤ r_end (sg_span s);
  so_span_start : is_char_boundary src (r_start (sg_span s)) = true;
  so_span_end : is_char_boundary src (r_end (sg_span s)) = true;
  so_depth : d ≤ sg_depth s ∧ (sg_depth s = d ∨ sg_depth s < MAX_DEPTH);
  so_text : utf8_valid (sg_text s) = true;
  so_program_at : is_char_boundary (sg_text s) (sg_program_at s) = true;
  so_class : is_Some (sg_class s) ↔ sg_role s = Role.Operative;
  so_program : ∀ p, sg_program s = Some p → program_ok p = true;
  so_no_program : sg_program s = None →
    sg_subcommand s = None ∧ sg_flags s = [] ∧ sg_program_at s = 0;
}.

(** The words of a command string: at least one, in order. *)
Definition words_ok (src : str) (ws : list Token) : Prop :=
  ws ≠ [] ∧ chain src 0 ws (length src).

Definition built_ok (src : str) (d : nat) (p : Segment * option (list Token)) : Prop :=
  segment_ok src d p.1 ∧ (∀ ws, p.2 = Some ws → words_ok src ws).

Lemma chain_member b lo ts hi t : chain b lo ts hi → t ∈ ts →
  lo ≤ r_start (tk_span t) ∧ tok_ok b t ∧ r_end (tk_span t) ≤ hi.
Proof.
  revert lo. induction ts as [|u ts IH]; simpl; intros lo; [by intros _ ?%elem_of_nil|].
  intros (? & Hu & Hc) [->|Ht]%elem_of_cons.
  - split_and!; [done..|]. by eapply chain_le.
  - destruct (IH _ Hc Ht) as (? & ? & ?). destruct Hu as [? _]. split_and!; [lia|done|done].
Qed.

Lemma shell_operand_member skip dash args t :
  shell_operand skip dash args = Some t → t ∈ args.
Proof.
  revert skip dash. induction args as [|a r IH]; cbn [shell_operand]; intros skip dash; [done|].
  assert (Hr : ∀ skip dash, shell_operand skip dash r = Some t → t ∈ a :: r).
  { intros ?? H. right. by eapply IH. }
  destruct skip as [|k]; [|apply Hr].
  repeat case_match; try apply Hr; try done; intros; simplify_eq; try by left.
  all: right; destruct r; simplify_eq/=; by left.
Qed.

Lemma command_string_ok src program args ws :
  command_string program args = Some ws → chain src 0 args (length src) → words_ok src ws.
Proof.
  unfold command_string. intros H Hc. destruct (str_eqb program "eval").
  - assert (Hs : sublist ws args ∧ ws ≠ []).
    { repeat case_match; simplify_eq; (split; [|done]); try reflexivity.
      apply sublist_cons. reflexivity. }
    destruct Hs as [Hs ?]. split; [done|]. by eapply chain_sublist.
  - destruct (negb _); [done|]. apply fmap_Some in H as (t & Ht & ->).
    apply shell_operand_member in Ht.
    destruct (chain_member _ _ _ _ _ Hc Ht) as (? & ? & ?). by split.
Qed.

Section build.
Context {U : Unicode}.

Lemma resolve_program_Some words at_ p :
  resolve_program words = Some (at_, p) →
  ∃ w, words !! at_ = Some w ∧ p = basename w ∧ program_ok p = true.
Proof.
  unfold resolve_program. intros H. apply bind_Some in H as (w & Hw & H).
  case_match; [|done]. simplify_eq. eauto.
Qed.

(** The span of a non-empty chain. *)
Lemma chain_span b hi ts t0 t1 :
  chain b 0 ts hi → head ts = Some t0 → list.last ts = Some t1 →
  r_start (tk_span t0) < r_end (tk_span t1) ∧ tok_ok b t0 ∧ tok_ok b t1 ∧ r_end (tk_span t1) ≤ hi ∧
  ∀ t, t ∈ ts → r_start (tk_span t0) ≤ r_start (tk_span t) ∧
                r_end (tk_span t) ≤ r_end (tk_span t1).
Proof.
  intros Hc Hh [ts' E]%last_Some. destruct ts as [|u ts]; simplify_eq/=.
  destruct Hc as (_ & Ht0 & Hc).
  assert (Hall : chain b (r_start (tk_span t0)) (ts' ++ [t1]) (r_end (tk_span t1))).
  { rewrite <- E. simpl. split_and!; [lia|done|].
    destruct ts' as [|v ts']; simplify_eq/=; [lia|].
    apply chain_snoc in Hc as (? & ? & ?). apply chain_snoc. split_and!; [done..|lia]. }
  apply chain_snoc in Hall as Hall2. destruct Hall2 as (Hle%chain_le & Ht1 & _).
  destruct Ht1 as [? ?]. split_and!; [lia|done|done| |].
  - assert (Hm : t1 ∈ t0 :: ts) by (rewrite E; apply elem_of_app; right; by left).
    eapply (chain_member b 0); [|exact Hm]. simpl. split_and!; [lia|done..].
  - intros t Ht. rewrite E in Ht. destruct (chain_member _ _ _ _ _ Hall Ht) as (? & ? & ?). lia.
Qed.

Lemma build_ok src d excluded raw :
  utf8_valid src = true → ranges_ok src 0 excluded (length src) →
  seg_ok src (length src) d raw →
  sat (build src excluded raw) (λ o, ∀ p, o = Some p → built_ok src d p).
Proof.
  intros Hsrc Hex (_ & Hch & Hdepth). unfold build.
  destruct (strip_keywords _ _) as [[c tokens]|] eqn:Es; [|by apply sat_ok].
  apply strip_keywords_sublist in Es as [Hsub Hne].
  pose proof (chain_sublist _ _ _ _ _ Hsub Hch) as Hts. clear Hsub.
  destruct (head tokens) as [t0|] eqn:Eh; [|by apply sat_ok].
  destruct (list.last tokens) as [t1|] eqn:El; [|by apply sat_ok].
  destruct (chain_span _ _ _ _ _ Hts Eh El) as (Hlt & (_ & Hb0 & _) & (_ & _ & Hb1 & _) & _ & Hin).
  set (span := Range _ _).
  destruct (text_offset_ok src Hsrc _ (r_start span) span excluded Hex) as
    (bef0 & aft0 & Hcut & _ & _ & Hv0 & Hv0'); [simpl; lia|done..|].
  rewrite Hcut. cbn [mbind res_bind]. cbv zeta.
  assert (Htext : utf8_valid (bef0 ++ aft0) = true) by (by apply utf8_valid_concat).
  destruct (resolve_program _) as [[at_ program]|] eqn:Er.
  - apply resolve_program_Some in Er as (w & Hw & Hp & Hpok).
    apply list_lookup_fmap_Some in Hw as (t & -> & Ht). rewrite Ht. cbn [mbind res_bind].
    assert (Hmem : t ∈ tokens).
    { eapply elem_of_sublist; [|apply sublist_filter]. by eapply list_elem_of_lookup_2. }
    destruct (chain_member _ _ _ _ _ Hts Hmem) as (_ & (Htlt & Htb & _) & _).
    destruct (Hin t Hmem) as [Hin1 Hin2].
    destruct (text_offset_ok src Hsrc _ (r_start (tk_span t)) span excluded Hex) as
      (bef & aft & Hcut2 & _ & Hoff & Hv & Hv'); [simpl; lia|done..|].
    rewrite Hcut in Hcut2. injection Hcut2 as Heq.
    rewrite Hoff. cbn [mbind res_bind].
    destruct (subcommand_and_flags _ _) as [sub flags]. apply sat_ok.
    intros p [= <-]. split.
    + split; cbn; try done; try lia.
      * rewrite Heq. by apply boundary_app.
      * case_bool_decide; split; naive_solver.
      * by intros ? [= <-].
    + intros ws Hws. eapply command_string_ok; [exact Hws|].
      eapply chain_sublist; [apply sublist_drop|].
      eapply chain_sublist; [apply sublist_filter|done].
  - apply sat_ok. intros p [= <-]. split; [|done].
    split; cbn; try done; try lia.
    destruct (writes_file tokens); split; naive_solver.
Qed.

End build.
