(* ===== verification/ShellParseTotal.v ===== *)
(** * Command strings map back, and the parse returns

    The layout of a command string's words, the spans [source_span] maps back, the
    expansion of the built segments, and the theorems about [parse]. *)

From Stdlib Require Import Ascii.
From stdpp Require Import base tactics list numbers strings option.
From S2P Require Import Prelude RustStr RustStrFacts ShellData ShellTables ShellLex ShellLexFacts ShellLexTotal ShellClassify ShellParse ShellParseFacts.

(** ** The words of a command string *)

Section command_string.
Context (src : str).
Context (Hsrc : utf8_valid src = true).
Local Abbreviation bd i := (is_char_boundary src i = true).

(** The source holds the value [v] of [w] as written, from [sa] on. *)
Definition verbatim_at (w : CommandString.Word) (v : str) (sa : nat) : Prop :=
  r_start (CommandString.w_span w) ≤ sa ∧
  sa + length v ≤ r_end (CommandString.w_span w) ∧
  bd sa ∧ bd (sa + length v) ∧ slice sa (sa + length v) src = v.

(** A word of a command string with value [v]. *)
Record word_ok (w : CommandString.Word) (v : str) : Prop := {
  wo_len : CommandString.w_len w = length v;
  wo_valid : utf8_valid v = true;
  wo_span : r_start (CommandString.w_span w) < r_end (CommandString.w_span w);
  wo_start : bd (r_start (CommandString.w_span w));
  wo_end : bd (r_end (CommandString.w_span w));
  wo_verbatim sa : CommandString.w_verbatim w = Some sa → verbatim_at w v sa;
}.

(** The words [ws] lie one space apart in [text], which starts at offset [p] of the
    string; their spans follow [lo]. *)
Fixpoint laid (lo p : nat) (first : bool) (text : str) (ws : list CommandString.Word) : Prop :=
  match ws with
  | [] => text = []
  | w :: ws =>
    ∃ v rest, text = (if first then [] else " ") ++ v ++ rest ∧
      CommandString.w_at w = p + (if first then 0 else 1) ∧ word_ok w v ∧
      lo ≤ r_start (CommandString.w_span w) ∧
      laid (r_end (CommandString.w_span w)) (CommandString.w_at w + length v) false rest ws
  end.

Lemma slice_slice {A} a b c d (l : list A) :
  c ≤ d → a + d ≤ b → slice c d (slice a b l) = slice (a + c) (a + d) l.
Proof.
  intros. unfold slice. rewrite skipn_firstn_comm, drop_drop, take_take.
  f_equal; lia.
Qed.

Lemma quoted_verbatim w q :
  is_ascii q = true → tok_ok src w →
  CommandString.quoted_by q (slice (r_start (tk_span w)) (r_end (tk_span w)) src)
    (tk_value w) = true →
  let sa := r_start (tk_span w) + 1 in
  sa + length (tk_value w) ≤ r_end (tk_span w) ∧ bd sa ∧
  bd (sa + length (tk_value w)) ∧ slice sa (sa + length (tk_value w)) src = tk_value w.
Proof.
  intros Hq (Hlt & Hb0 & Hb1 & Hv) Hby sa. unfold CommandString.quoted_by in Hby.
  destruct (strip_prefix _ _) as [r|] eqn:E1; [|done]. apply strip_prefix_spec in E1.
  destruct (strip_suffix _ r) as [inner|] eqn:E2; [|done]. apply strip_suffix_spec in E2.
  apply str_eqb_eq in Hby. subst r inner.
  set (s := r_start (tk_span w)) in *. set (e := r_end (tk_span w)) in *.
  apply boundary_le in Hb1 as Hn.
  assert (Hlen : e - s = length (tk_value w) + 2).
  { apply (f_equal length) in E1. rewrite length_slice, !length_app in E1. simpl in E1. lia. }
  assert (Hat : ∀ i, i < e - s → src !! (s + i) = ([q] ++ tk_value w ++ [q]) !! i).
  { intros i Hi. by rewrite <- E1, lookup_slice. }
  assert (Hfirst : src !! s = Some q) by (rewrite <- (Nat.add_0_r s), Hat by lia; done).
  assert (Hlast : src !! (sa + length (tk_value w)) = Some q).
  { subst sa. replace (s + 1 + length (tk_value w)) with (s + (1 + length (tk_value w))) by lia.
    rewrite Hat by lia. simpl. rewrite lookup_app_r by lia. by rewrite Nat.sub_diag. }
  split_and!; [subst sa; lia|by eapply boundary_after_ascii|by eapply boundary_ascii|].
  replace sa with (s + 1) by done.
  rewrite <- (Nat.add_assoc s 1), <- (slice_slice s e) by lia. rewrite E1.
  unfold slice. simpl. rewrite drop_0, Nat.sub_0_r. by rewrite take_app_length.
Qed.

Lemma verbatim_ok w p :
  tok_ok src w →
  let raw := slice (r_start (tk_span w)) (r_end (tk_span w)) src in
  word_ok {| CommandString.w_at := p; CommandString.w_len := length (tk_value w);
             CommandString.w_span := tk_span w;
             CommandString.w_verbatim := CommandString.verbatim raw w |} (tk_value w).
Proof.
  intros Hw raw. pose proof Hw as (Hlt & Hb0 & Hb1 & Hv). apply boundary_le in Hb1 as Hn.
  split; simpl; try done. unfold CommandString.verbatim. intros sa.
  destruct (str_eqb raw (tk_value w)) eqn:E.
  - intros [= <-]. apply str_eqb_eq in E. unfold verbatim_at. simpl.
    assert (Hl : length (tk_value w) = r_end (tk_span w) - r_start (tk_span w)).
    { rewrite <- E. subst raw. rewrite length_slice. lia. }
    rewrite Hl. replace (r_start (tk_span w) + _) with (r_end (tk_span w)) by lia.
    split_and!; [lia..|done|done|done].
  - destruct (_ || _) eqn:Eq; [|done]. intros [= <-].
    apply orb_prop in Eq as [Eq|Eq]; apply quoted_verbatim in Eq; try done;
      destruct Eq as (? & ? & ? & ?); split_and!; simpl; first [done|lia].
Qed.

Lemma new_go_ok first ws text out lo hi :
  chain src lo ws hi → utf8_valid text = true →
  sat (CommandString.new_go src first ws text out) (λ cs,
    ∃ t ws', CommandString.text cs = text ++ t ∧ CommandString.words cs = out ++ ws' ∧
             length ws' = length ws ∧ utf8_valid t = true ∧
             laid lo (length text) first t ws').
Proof.
  revert first text out lo. induction ws as [|w ws IH]; intros first text out lo Hc Hv.
  { apply sat_ok. exists [], []. by rewrite !app_nil_r. }
  destruct Hc as (Hlo & Hw & Hc). cbn [CommandString.new_go].
  pose proof Hw as (Hlt & Hb0 & Hb1 & Hval).
  rewrite str_slice_ok by (done || lia). cbn [mbind res_bind].
  assert (Hsep : utf8_valid (if first then text else text ++ " ") = true)
    by (destruct first; [done|by apply utf8_valid_concat]).
  set (sep := if first then text else _) in *.
  eapply sat_mono; [apply (IH false (sep ++ tk_value w) _ _ Hc); by apply utf8_valid_concat|].
  intros cs (t & ws' & Ht & Hws & Hl & Hvt & Hlaid). simpl in Ht, Hws.
  rewrite <- app_assoc in Hws.
  eexists ((if first then [] else " ") ++ tk_value w ++ t), (_ :: ws').
  split_and!; [|exact Hws|simpl; lia| |].
  - rewrite Ht. subst sep. destruct first; simpl; by rewrite <- ?app_assoc.
  - apply utf8_valid_concat; [by destruct first|by apply utf8_valid_concat].
  - simpl. exists (tk_value w), t. split_and!; [done| |by apply verbatim_ok|done|].
    + subst sep. destruct first; [lia|]. rewrite length_app. done.
    + by rewrite length_app in Hlaid.
Qed.

Lemma new_ok ws :
  words_ok src ws →
  sat (CommandString.new src ws) (λ cs,
    utf8_valid (CommandString.text cs) = true ∧ CommandString.words cs ≠ [] ∧
    laid 0 0 true (CommandString.text cs) (CommandString.words cs)).
Proof.
  intros [Hne Hc]. eapply sat_mono; [by apply (new_go_ok true ws [] [] 0 _ Hc)|].
  intros cs (t & ws' & -> & -> & Hl & Hv & Hlaid). simpl. split_and!; [done| |done].
  intros ->. by destruct ws.
Qed.

(** ** Mapping spans back *)

Lemma laid_word lo p first text ws i w :
  laid lo p first text ws → ws !! i = Some w →
  ∃ v, word_ok w v ∧ p ≤ CommandString.w_at w ∧ lo ≤ r_start (CommandString.w_span w) ∧
       CommandString.w_at w + length v ≤ p + length text ∧
       slice (CommandString.w_at w - p) (CommandString.w_at w - p + length v) text = v.
Proof.
  revert lo p first text i. induction ws as [|u ws IH]; simpl; intros lo p first text i; [done|].
  intros (v & rest & -> & Hat & Hu & Hlo & Hl) Hi.
  assert (Hsep : length (if first then [] else lit " ") = if first then 0 else 1)
    by (by destruct first).
  destruct i as [|i]; simplify_eq/=.
  - exists v. split_and!; [done|lia|done|rewrite !length_app; lia|].
    unfold slice. rewrite drop_app_ge by lia. rewrite Hsep, Hat.
    replace (_ - _ - _) with 0 by lia. rewrite drop_0.
    replace (_ + length v - _) with (length v) by lia. by rewrite take_app_length.
  - destruct (IH _ _ _ _ _ Hl Hi) as (v' & Hw & ? & ? & ? & Hs). exists v'.
    pose proof (wo_span _ _ Hu).
    split_and!; [done|lia|lia|rewrite !length_app; lia|].
    etransitivity; [|exact Hs]. unfold slice.
    rewrite drop_app_ge, drop_app_ge, Hsep by lia. f_equal; [lia|f_equal; lia].
Qed.

Lemma laid_order lo p first text ws i j a c :
  laid lo p first text ws → ws !! i = Some a → ws !! j = Some c → i < j →
  CommandString.w_at a + CommandString.w_len a < CommandString.w_at c ∧
  r_end (CommandString.w_span a) ≤ r_start (CommandString.w_span c).
Proof.
  revert lo p first text i j. induction ws as [|u ws IH]; simpl; intros lo p first text i j; [done|].
  intros (v & rest & -> & Hat & Hu & Hlo & Hl) Hi Hj Hij.
  destruct j as [|j]; [lia|]. destruct i as [|i]; simplify_eq/=.
  - rewrite (wo_len _ _ Hu). destruct ws as [|x ws]; [done|].
    assert (Hx : CommandString.w_at x = CommandString.w_at a + length v + 1)
      by (destruct Hl as (? & ? & _ & ? & _); done).
    destruct (laid_word _ _ _ _ _ _ _ Hl Hj) as (v' & _ & Hle & ? & _). split; [|done].
    destruct j as [|j]; simplify_eq/=; [lia|].
    destruct Hl as (v2 & rest2 & _ & _ & _ & _ & Hl).
    destruct (laid_word _ _ _ _ _ _ _ Hl Hj) as (? & _ & ? & _). lia.
  - eapply IH; [done..|lia].
Qed.

Lemma laid_last lo p first text ws z :
  laid lo p first text ws → list.last ws = Some z →
  CommandString.w_at z + CommandString.w_len z = p + length text.
Proof.
  revert lo p first text. induction ws as [|u ws IH]; intros lo p first text; [done|].
  intros (v & rest & -> & Hat & Hu & Hlo & Hl) Hz.
  assert (Hsep : length (if first then [] else lit " ") = if first then 0 else 1)
    by (by destruct first).
  rewrite !length_app, Hsep. destruct ws as [|x ws].
  - simplify_eq/=. rewrite (wo_len _ _ Hu). lia.
  - rewrite (IH _ _ _ _ Hl Hz). lia.
Qed.

(** A boundary inside a slice. *)
Lemma boundary_slice s a e k :
  is_char_boundary s k = true → a ≤ k ≤ e → e ≤ length s →
  is_char_boundary (slice a e s) (k - a) = true.
Proof.
  intros Hk Hak He. apply boundary_spec in Hk as Hk'. apply boundary_spec.
  rewrite length_slice. destruct (decide (k = e)) as [->|]; [right; left; lia|].
  destruct (decide (k = a)) as [->|]; [left; lia|].
  destruct Hk' as [->|[->|(c & Hc & Hn)]]; [lia|lia|].
  right; right. exists c. rewrite lookup_slice by lia. by replace (a + (k - a)) with k by lia.
Qed.

Lemma verbatim_boundary w v sa k :
  verbatim_at w v sa → is_char_boundary v k = true → k ≤ length v → bd (sa + k).
Proof.
  intros (_ & _ & H0 & H1 & Hs) Hk Hle. apply boundary_spec in Hk as [->|[->|(c & Hc & Hn)]].
  - by rewrite Nat.add_0_r.
  - done.
  - apply boundary_spec. right; right. exists c. split; [|done].
    rewrite <- Hs, lookup_slice in Hc; [done|]. apply lookup_lt_Some in Hc.
    rewrite length_slice in Hc. lia.
Qed.

(** A position of the string, in the word [w]: where it is in the source. *)
Lemma word_position lo p first text ws i w v sa k :
  laid lo p first text ws → p = 0 → ws !! i = Some w → word_ok w v → verbatim_at w v sa →
  slice (CommandString.w_at w) (CommandString.w_at w + length v) text = v →
  CommandString.w_at w + length v ≤ length text →
  is_char_boundary text k = true →
  bd (sa + Nat.min (k - CommandString.w_at w) (CommandString.w_len w)).
Proof.
  intros Hl -> Hi Hw Hv Hs Hle Hk. rewrite (wo_len _ _ Hw).
  eapply verbatim_boundary; [done| |lia].
  destruct (decide (k ≤ CommandString.w_at w)).
  { replace (Nat.min _ _) with 0 by lia. apply boundary_0. }
  destruct (decide (CommandString.w_at w + length v ≤ k)).
  { rewrite Nat.min_r by lia. apply boundary_length. }
  rewrite Nat.min_l by lia. rewrite <- Hs. apply boundary_slice; [done|lia|done].
Qed.

(** The words [source_span] picks for a span of the string. *)
Lemma source_span_words cs r :
  CommandString.words cs ≠ [] → laid 0 0 true (CommandString.text cs) (CommandString.words cs) →
  r_start r ≤ r_end r ≤ length (CommandString.text cs) →
  ∃ i j a c,
    rposition (λ w, CommandString.w_at w <=? r_start r) (CommandString.words cs) = Some i ∧
    position (λ w, r_end r <=? CommandString.w_at w + CommandString.w_len w)
      (CommandString.words cs) = Some j ∧
    CommandString.words cs !! i = Some a ∧ CommandString.words cs !! j = Some c ∧
    CommandString.w_at a ≤ r_start r ∧
    r_end r ≤ CommandString.w_at c + CommandString.w_len c ∧ i ≤ j.
Proof.
  intros Hne Hl Hr.
  destruct (CommandString.words cs) as [|w0 ws] eqn:Ews; [done|]. rewrite <- Ews in *.
  assert (Hw0 : w0 ∈ CommandString.words cs) by (rewrite Ews; by left).
  destruct (rposition_exists (λ w, CommandString.w_at w <=? r_start r) _ _ Hw0) as [i Hi].
  { rewrite Ews in Hl. destruct Hl as (? & ? & _ & -> & _). apply Nat.leb_le. lia. }
  destruct (list.last (CommandString.words cs)) as [z|] eqn:Ez.
  2: { apply last_None in Ez. rewrite Ez in Ews. done. }
  destruct (position_exists
    (λ w, r_end r <=? CommandString.w_at w + CommandString.w_len w) (CommandString.words cs) z)
    as [j Hj].
  { apply list_elem_of_lookup_2 with (i := pred (length (CommandString.words cs))).
    by rewrite <- last_lookup. }
  { rewrite (laid_last _ _ _ _ _ _ Hl Ez). apply Nat.leb_le. lia. }
  apply rposition_Some in Hi as Ha. destruct Ha as (a & Ha & Hla).
  apply position_Some in Hj as Hc. destruct Hc as (c & Hc & Hlc). bool_prop.
  exists i, j, a, c. split_and!; try done.
  destruct (decide (i ≤ j)); [done|].
  destruct (laid_order _ _ _ _ _ j i c a Hl Hc Ha) as [? _]; lia.
Qed.

Lemma source_span_ok cs r :
  CommandString.words cs ≠ [] → laid 0 0 true (CommandString.text cs) (CommandString.words cs) →
  r_start r ≤ r_end r → is_char_boundary (CommandString.text cs) (r_start r) = true →
  is_char_boundary (CommandString.text cs) (r_end r) = true →
  sat (CommandString.source_span cs r) (λ r', r_start r' ≤ r_end r' ∧ bd (r_start r') ∧ bd (r_end r')).
Proof.
  intros Hne Hl Hr Hb0 Hb1. apply boundary_le in Hb1 as Hn.
  destruct (source_span_words cs r Hne Hl ltac:(lia)) as (i & j & a & c & Hi & Hj & Ha & Hc & Hla & Hlc & Hij).
  unfold CommandString.source_span. rewrite Hi, Hj.
  change (default 0 (Some i)) with i. change (default _ (Some j)) with j. apply sat_check.
  { apply Nat.leb_le. destruct (CommandString.words cs); [done|simpl; lia]. }
  rewrite Ha, Hc.
  destruct (laid_word _ _ _ _ _ _ _ Hl Ha) as (va & Hwa & _ & _ & Hea & Hsa).
  destruct (laid_word _ _ _ _ _ _ _ Hl Hc) as (vc & Hwc & _ & _ & Hec & Hsc).
  rewrite Nat.sub_0_r in Hsa, Hsc.
  assert (Hspans : i = j ∧ a = c ∨ r_end (CommandString.w_span a) ≤ r_start (CommandString.w_span c)).
  { destruct (decide (i = j)) as [->|]; [left; split; [done|congruence]|right].
    eapply (laid_order _ _ _ _ _ i j); [done..|lia]. }
  pose proof (wo_span _ _ Hwa) as Hspa. pose proof (wo_span _ _ Hwc) as Hspc.
  assert (Hwide : sat (Ok (Range (r_start (CommandString.w_span a)) (r_end (CommandString.w_span c))))
    (λ r', r_start r' ≤ r_end r' ∧ bd (r_start r') ∧ bd (r_end r'))).
  { apply sat_ok. split_and!; simpl; [|by eapply wo_start|by eapply wo_end].
    destruct Hspans as [[_ ->]|?]; lia. }
  destruct (CommandString.w_verbatim a) as [sa|] eqn:Ea; [|exact Hwide].
  destruct (CommandString.w_verbatim c) as [sc|] eqn:Ec; [|exact Hwide].
  apply (wo_verbatim _ _ Hwa) in Ea as Hva. apply (wo_verbatim _ _ Hwc) in Ec as Hvc.
  apply sat_check; [by apply Nat.leb_le|]. apply sat_ok. split_and!; simpl.
  - destruct Hspans as [[_ ->]|?].
    + simplify_eq. lia.
    + destruct Hva as (_ & ? & _), Hvc as (? & _). rewrite (wo_len _ _ Hwa). lia.
  - by eapply (word_position 0 0 true _ _ i a va).
  - by eapply (word_position 0 0 true _ _ j c vc).
Qed.

End command_string.

(** ** The expansion of the built segments *)

Lemma drop_copies_sublist sub copies inner : sublist (drop_copies sub copies inner) inner.
Proof.
  revert sub copies. induction inner as [|s inner IH]; intros sub copies; [done|].
  cbn [drop_copies]. cbv zeta. case_match; [apply sublist_cons|apply sublist_skip]; apply IH.
Qed.

Lemma Forall_sublist {A} (Q : A → Prop) l l' : sublist l' l → Forall Q l → Forall Q l'.
Proof.
  induction 1 as [|x l' l Hs IH|x l' l Hs IH]; [done|..];
    inversion_clear 1; auto.
Qed.

Lemma sat_res_map {A B} (f : A → res B) l (Q : A → Prop) (R : B → Prop) :
  Forall Q l → (∀ x, Q x → sat (f x) R) → sat (res_map f l) (Forall R).
Proof.
  intros H Hf. induction H as [|x l Hx Hl IH]; cbn [res_map]; [apply sat_ok; constructor|].
  eapply sat_bind_mono; [by apply Hf|]. intros y Hy.
  eapply sat_bind_mono; [exact IH|]. intros ys Hys. apply sat_ok. by constructor.
Qed.

Lemma sat_res_omap {A B} (f : A → res (option B)) l (Q : A → Prop) (R : B → Prop) :
  Forall Q l → (∀ x, Q x → sat (f x) (λ o, ∀ y, o = Some y → R y)) →
  sat (res_omap f l) (Forall R).
Proof.
  intros H Hf. induction H as [|x l Hx Hl IH]; cbn [res_omap]; [apply sat_ok; constructor|].
  eapply sat_bind_mono; [by apply Hf|]. intros o Ho.
  eapply sat_bind_mono; [exact IH|]. intros ys Hys. apply sat_ok.
  destruct o as [y|]; simpl; [constructor; auto|done].
Qed.

Lemma set_connector_ok src d c s : segment_ok src d s → segment_ok src d (set_connector c s).
Proof. intros []. by split. Qed.

(** A segment of a command string, seen in the source. *)
Lemma set_span_ok src text d d' r s :
  segment_ok text (d' + 1) s → d ≤ d' → d' + 1 < MAX_DEPTH →
  r_start r ≤ r_end r → is_char_boundary src (r_start r) = true →
  is_char_boundary src (r_end r) = true → segment_ok src d (set_span r s).
Proof. intros [] ?????. split; simpl; try done. lia. Qed.

Lemma mark_first_ok src d inner :
  Forall (segment_ok src d) inner → Forall (segment_ok src d) (mark_first inner).
Proof.
  intros [|s inner' Hs Hi]; simpl; constructor; [|done].
  case_bool_decide; [by apply set_connector_ok|done].
Qed.

Section expand.
Context (parse_at : str → nat → res (list Segment)).
Context (command : str) (d : nat).
Context (Hcommand : utf8_valid command = true).
Context (Hparse : ∀ text at_, utf8_valid text = true → d ≤ at_ → at_ + 1 < MAX_DEPTH →
  sat (parse_at text (at_ + 1)) (Forall (segment_ok text (at_ + 1)))).

Lemma command_string_segments_ok ws at_ nested :
  words_ok command ws → d ≤ at_ → at_ + 1 < MAX_DEPTH →
  sat (command_string_segments parse_at command ws at_ nested) (Forall (segment_ok command d)).
Proof.
  intros Hws Hd Hmax. unfold command_string_segments.
  eapply sat_bind_mono; [by apply new_ok|]. intros cs (Hv & Hne & Hlaid).
  eapply sat_bind_mono; [by apply Hparse|]. intros inner Hinner. cbv zeta.
  eapply sat_res_map.
  - eapply mark_first_ok, Forall_sublist; [apply drop_copies_sublist|exact Hinner].
  - intros s Hs. pose proof Hs as []. eapply sat_bind_mono; [by apply source_span_ok|].
    intros r (? & ? & ?). apply sat_ok.
    by apply (set_span_ok command (CommandString.text cs) d at_).
Qed.

Lemma expand_ok fuel built :
  length built < fuel → Forall (built_ok command d) built →
  sat (expand parse_at command fuel built) (Forall (segment_ok command d)).
Proof.
  revert built. induction fuel as [|fuel IH]; intros built Hf Hb; [lia|].
  destruct Hb as [|[s [ws|]] rest [Hs Hws] Hrest]; cbn [expand]; [apply sat_ok; constructor| |].
  - simpl in Hf.
    assert (Hlen : length (take_while (nested_in (sg_depth s) (sg_span s)) rest) +
                   length (drop_while (nested_in (sg_depth s) (sg_span s)) rest) = length rest)
      by (by rewrite <- length_app, take_while_drop_while).
    rewrite <- (take_while_drop_while (nested_in (sg_depth s) (sg_span s))) in Hrest.
    apply Forall_app in Hrest as [Hn Hr].
    eapply sat_bind_mono; [apply IH; [lia|done]|]. intros nested Hnested.
    assert (Hinner : sat (if sg_depth s + 1 <? MAX_DEPTH
      then command_string_segments parse_at command ws (sg_depth s) nested else Ok [])
      (Forall (segment_ok command d))).
    { destruct (sg_depth s + 1 <? MAX_DEPTH) eqn:E; [|apply sat_ok; constructor]. bool_prop.
      apply command_string_segments_ok; [by apply Hws| |done].
      exact (proj1 (so_depth _ _ _ Hs)). }
    eapply sat_bind_mono; [exact Hinner|]. intros inner Hi.
    eapply sat_bind_mono; [apply IH; [lia|done]|]. intros out Hout.
    apply sat_ok. constructor; [done|]. by repeat apply Forall_app_2.
  - eapply sat_bind_mono; [apply IH; [simpl in Hf; lia|done]|]. intros out Hout.
    apply sat_ok. by constructor.
Qed.

End expand.

(** ** The parse *)

Section parse.
Context {U : Unicode}.

Lemma parse_at_ok levels command d :
  utf8_valid command = true → MAX_DEPTH < levels + d → 0 < levels →
  sat (parse_at levels command d) (Forall (segment_ok command d)).
Proof.
  revert command d. induction levels as [|levels IH]; intros command d Hv Hl Hpos; [lia|].
  cbn [parse_at]. eapply sat_bind_mono; [by apply lex_ok|]. intros lx [Hsegs Hex].
  eapply sat_bind_mono.
  { eapply sat_res_omap; [exact Hsegs|]. intros raw Hraw. by apply build_ok. }
  intros built Hbuilt. apply expand_ok; [done| |lia|done].
  intros text at_ Ht Hd Hmax. apply IH; [done|lia|lia].
Qed.

Lemma parse_ok command :
  utf8_valid command = true → sat (parse command) (Forall (segment_ok command 0)).
Proof. intros Hv. unfold parse. apply parse_at_ok; [exact Hv|lia|lia]. Qed.

End parse.
