(* ===== verification/ShellSpec.v ===== *)
(** * What the shell parser promises

    The properties of the lexer, the cut text, the command strings and the parse,
    with their witnesses. *)

From Stdlib Require Import Ascii.
From stdpp Require Import base tactics list numbers strings option.
From S2P Require Import Prelude RustStr RustStrFacts ShellData ShellTables ShellLex ShellLexFacts ShellLexTotal ShellClassify ShellParse ShellParseFacts ShellParseTotal.

(** ** Specifications *)

(** The positions of [p, e) outside every range of [rs], in order. *)
Definition outside (rs : list range) (i : nat) : bool :=
  forallb (λ r, (i <? r_start r) || (r_end r <=? i)) rs.
Definition selected (src : str) (p e : nat) (rs : list range) : str :=
  omap (λ i, if outside rs i then src !! i else None) (seq p (e - p)).

(** A string as one single-quoted shell word: a quote in it leaves the quotes, is
    escaped, and enters them again. *)
Fixpoint quoted (pieces : list str) : str :=
  match pieces with
  | [] => [squote; squote]
  | [w] => [squote] ++ w ++ [squote]
  | w :: ws => [squote] ++ w ++ [squote; bslash; squote] ++ quoted ws
  end.
Definition sh_quote (s : str) : str := quoted (split_char squote s).

(** ** The cut text *)

Lemma selected_nil src p e : e ≤ length src → selected src p e [] = slice p e src.
Proof.
  unfold selected, slice. simpl. intros He.
  remember (e - p) as k eqn:Ek. revert p Ek. induction k as [|k IH]; intros p Ek; [done|].
  destruct (lookup_lt_is_Some_2 src p) as [c Hc]; [lia|].
  simpl. rewrite Hc. rewrite (drop_S _ c p) by done. simpl. f_equal. apply IH. lia.
Qed.

Lemma selected_app src p q e rs :
  p ≤ q ≤ e → selected src p e rs = selected src p q rs ++ selected src q e rs.
Proof.
  intros H. unfold selected. rewrite <- omap_app. f_equal.
  replace (e - p) with ((q - p) + (e - q)) by lia. rewrite seq_app. by replace (p + (q - p)) with q by lia.
Qed.

Lemma selected_ext src p e rs rs' :
  (∀ i, p ≤ i < e → outside rs i = outside rs' i) → selected src p e rs = selected src p e rs'.
Proof.
  intros H. unfold selected. apply list_omap_ext. apply Forall_Forall2_diag, Forall_seq.
  intros i Hi. rewrite H by lia. done.
Qed.

Lemma selected_none src p e rs :
  (∀ i, p ≤ i < e → outside rs i = false) → selected src p e rs = [].
Proof.
  intros H. unfold selected.
  assert (Hall : ∀ i, i ∈ seq p (e - p) → outside rs i = false)
    by (intros i Hi%elem_of_seq; apply H; lia).
  revert Hall. generalize (seq p (e - p)). induction l as [|i l IH]; simpl; intros Hall; [done|].
  rewrite (Hall i) by (by left). apply IH. intros. apply Hall. by right.
Qed.

Lemma outside_before src lo hi rs i : ranges_ok src lo rs hi → i < lo → outside rs i = true.
Proof.
  revert lo. induction rs as [|r rs IH]; simpl; intros lo; [done|].
  intros (? & _ & _ & Hr) Hi. rewrite (proj2 (Nat.ltb_lt i (r_start r))) by lia.
  simpl. eapply IH; [done|lia].
Qed.

Lemma kept_selected src lo hi p e rs :
  ranges_ok src lo rs hi → p ≤ e ≤ length src → kept src p e rs = selected src p e rs.
Proof.
  revert lo p. induction rs as [|r rs IH]; intros lo p Hr Hp; [by rewrite selected_nil by lia|].
  destruct Hr as (Hrange & _ & _ & Hr). cbn [kept].
  assert (Hcons : ∀ i, outside (r :: rs) i = ((i <? r_start r) || (r_end r <=? i)) && outside rs i)
    by done.
  destruct ((r_end r <=? p) || (e <=? r_start r)) eqn:E.
  - rewrite (IH _ _ Hr) by lia. apply selected_ext. intros i Hi. rewrite Hcons.
    assert (((i <? r_start r) || (r_end r <=? i)) = true) as ->; [|done].
    apply orb_true_iff. apply orb_prop in E. rewrite Nat.ltb_lt, Nat.leb_le.
    destruct E; bool_prop; lia.
  - bool_prop. rewrite (selected_app src p (Nat.max (r_start r) p) e) by lia.
    rewrite (selected_app src (Nat.max (r_start r) p) (Nat.min (r_end r) e) e) by lia.
    rewrite (selected_none src _ (Nat.min (r_end r) e)).
    1: rewrite (IH _ _ Hr) by lia; f_equal; cbn [app]; [|apply selected_ext].
    + rewrite <- selected_nil by lia. apply selected_ext. intros i Hi. rewrite Hcons.
      rewrite (proj2 (Nat.ltb_lt i (r_start r))) by lia.
      by rewrite (outside_before _ _ _ _ _ Hr) by lia.
    + intros i Hi. rewrite Hcons. rewrite (proj2 (Nat.leb_le (r_end r) i)) by lia.
      by rewrite orb_true_r.
    + intros i Hi. rewrite Hcons.
      assert (((i <? r_start r) || (r_end r <=? i)) = false) as ->; [|done].
      apply orb_false_iff. rewrite Nat.ltb_ge, Nat.leb_gt. lia.
Qed.

(** ** Single quotes *)

Lemma quoted_head ps : ∃ r, quoted ps = squote :: r.
Proof. destruct ps as [|w [|]]; eauto. Qed.

Lemma quoted_cons w w2 ps :
  quoted (w :: w2 :: ps) = [squote] ++ w ++ [squote; bslash; squote] ++ quoted (w2 :: ps).
Proof. done. Qed.

Lemma position_in_app {A} (p : A → bool) w c r :
  forallb (λ x, negb (p x)) w = true → p c = true → position p (w ++ c :: r) = Some (length w).
Proof.
  induction w as [|x w IH]; simpl; intros Hw Hc; [by rewrite Hc|].
  apply andb_prop in Hw as [Hx%negb_true_iff Hw]. by rewrite Hx, IH.
Qed.

(** One quoted piece at the loop's position. *)
Lemma word_quote_step b f start l term val st w r :
  drop (lx_pos st) b = squote :: w ++ squote :: r →
  forallb (λ c, negb (squote =?a c)) w = true →
  call_word (lexer b (S f)) start l term val st =
  call_word (lexer b f) start l term (val ++ w) (set_pos (lx_pos st + length w + 2) st).
Proof.
  intros Hd Hw. cbn [lexer call_word]. unfold word_body, peek, at_.
  assert (Hlen : lx_pos st + length w + 2 ≤ length b).
  { apply (f_equal length) in Hd. rewrite length_drop in Hd. simpl in Hd.
    rewrite length_app in Hd. simpl in Hd. lia. }
  rewrite <- lookup_drop, Hd. cbn [lookup list_lookup].
  assert (Hrest : drop (lx_pos st + 1) b = w ++ squote :: r).
  { rewrite <- drop_drop, Hd. done. }
  cbn [ends_word existsb Ascii.eqb Bool.eqb orb squote btick bslash].
  rewrite bytes_from_ok by lia. cbn [mbind res_bind]. rewrite Hrest.
  rewrite position_in_app by done. cbn beta iota.
  rewrite bytes_ok by lia. cbn [mbind res_bind].
  assert (Hs : slice (lx_pos st + 1) (lx_pos st + 1 + length w) b = w).
  { unfold slice. rewrite Hrest. replace (_ - _) with (length w) by lia. apply take_app_length. }
  rewrite Hs, Nat.min_l by lia. do 2 f_equal. lia.
Qed.

(** An escaped quote at the loop's position. *)
Lemma word_escape_step b f start l term val st r :
  drop (lx_pos st) b = bslash :: squote :: r →
  call_word (lexer b (S f)) start l term val st =
  call_word (lexer b f) start l term (val ++ [squote]) (advance 2 st).
Proof.
  intros Hd. cbn [lexer call_word]. unfold word_body, escape, peek, at_.
  rewrite <- !lookup_drop, Hd. done.
Qed.

Lemma word_end_step b f start l term val st :
  length b ≤ lx_pos st → call_word (lexer b (S f)) start l term val st = Ok (l, val, st).
Proof.
  intros H. cbn [lexer call_word]. unfold word_body, peek, at_.
  by rewrite lookup_ge_None_2 by lia.
Qed.

(** The loop over a quoted string reads back its pieces. *)
Lemma word_quoted b ps f start l term val st :
  ps ≠ [] → drop (lx_pos st) b = quoted ps →
  Forall (λ w, forallb (λ c, negb (squote =?a c)) w = true) ps → 2 * length ps ≤ f →
  call_word (lexer b (S f)) start l term val st =
  Ok (l, val ++ join [squote] ps, set_pos (length b) st).
Proof.
  intros Hne. revert f val st. induction ps as [|w ps IH]; intros f val st Hd Hps Hf; [done|].
  inversion Hps as [|? ? Hw Hps']; subst.
  assert (Hlen : length b = lx_pos st + length (quoted (w :: ps))).
  { rewrite <- Hd, length_drop. destruct (quoted_head (w :: ps)) as [r Hr].
    apply (f_equal length) in Hd. rewrite Hr, length_drop in Hd. simpl in Hd. lia. }
  destruct ps as [|w2 ps].
  - cbn [quoted] in Hd, Hlen. rewrite !length_app in Hlen. simpl in Hlen, Hf.
    rewrite (word_quote_step _ _ _ _ _ _ _ w []) by done. destruct f as [|f]; [lia|].
    rewrite word_end_step by (simpl; lia). cbn [join]. do 2 f_equal.
    rewrite Hlen. f_equal. lia.
  - rewrite quoted_cons in Hd. simpl in Hf.
    rewrite (word_quote_step _ _ _ _ _ _ _ w (bslash :: squote :: quoted (w2 :: ps))) by done.
    destruct f as [|f]; [lia|].
    assert (Hd2 : drop (lx_pos st + length w + 2) b = bslash :: squote :: quoted (w2 :: ps)).
    { rewrite <- Nat.add_assoc, <- drop_drop, Hd.
      replace (length w + 2) with (length ([squote] ++ w ++ [squote])) by (rewrite !length_app; simpl; lia).
      replace ([squote] ++ w ++ [squote; bslash; squote] ++ quoted (w2 :: ps)) with
        (([squote] ++ w ++ [squote]) ++ bslash :: squote :: quoted (w2 :: ps))
        by (by rewrite <- !app_assoc).
      apply drop_app_length. }
    rewrite (word_escape_step b f start l term (val ++ w)
      (set_pos (lx_pos st + length w + 2) st) _ Hd2). destruct f as [|f]; [lia|].
    rewrite IH; [|done| |done|simpl; lia].
    + cbn [join]. by rewrite <- !app_assoc.
    + simpl. rewrite <- drop_drop, Hd2. done.
Qed.


Lemma split_on_clean {A} (p : A → bool) l :
  Forall (λ w, forallb (λ c, negb (p c)) w = true) (split_on p l).
Proof.
  induction l as [|x l IH]; simpl; [by repeat constructor|].
  destruct (p x) eqn:E; [by constructor|].
  destruct (split_on p l) as [|w ws]; [repeat constructor; simpl; by rewrite E|].
  inversion_clear IH. constructor; [|done]. simpl. by rewrite E.
Qed.


Lemma list_squote_step b self l term st :
  peek b st 0 = Some squote →
  list_body b self l term st = ('(l, st) ← word_ b self l term st; call_list self l term st).
Proof. intros Hc. unfold list_body. by rewrite Hc. Qed.

(** The lexer reads a quoted string as one word with the string as its value. *)
Lemma lex_quoted ps d :
  ps ≠ [] → Forall (λ w, forallb (λ c, negb (squote =?a c)) w = true) ps →
  lex (quoted ps) d = Ok {|
    lx_segments := [{| rs_connector := Connector.Start; rs_depth := d;
      rs_tokens := [word_token 0 (length (quoted ps)) (from_utf8_lossy (join [squote] ps))] |}];
    lx_cut := [];
  |}.
Proof.
  intros Hne Hps. set (b := quoted ps).
  assert (Hlen : 2 * length ps ≤ length b).
  { subst b. clear. induction ps as [|w [|w2 ps] IH]; [simpl; lia|simpl; rewrite length_app; simpl; lia|].
    rewrite quoted_cons, !length_app. simpl (length _) in IH |- *. lia. }
  assert (Hpos : 0 < length b) by (destruct ps; [done|simpl in *; lia]).
  destruct (quoted_head ps) as [r Hr]. fold b in Hr.
  unfold lex, lex_fuel.
  replace (3 * length b + 3) with (S (S (S (3 * length b)))) by lia.
  set (st0 := {| lx_pos := 0; lx_heredocs := []; lx_excluded := [] |}).
  assert (Hword : call_word (lexer b (S (S (3 * length b)))) 0 (List_new d Connector.Start) Term.Eof [] st0 =
    Ok (List_new d Connector.Start, join [squote] ps, set_pos (length b) st0)).
  { apply (word_quoted b ps); [done|by rewrite drop_0|done|lia]. }
  assert (Hend : ∀ l, call_list (lexer b (S (S (3 * length b)))) l Term.Eof (set_pos (length b) st0) =
    Ok (finish l, set_pos (length b) st0)).
  { intros l. cbn [lexer call_list]. unfold list_body, peek, at_. simpl.
    by rewrite lookup_ge_None_2 by lia. }
  cbn [lexer call_list]. rewrite list_squote_step by (unfold peek, at_; simpl; by rewrite Hr).
  unfold word_. cbn [lx_pos st0].
  change {| call_list := _; call_word := _; call_dquote := _ |} with (lexer b (S (S (3 * length b)))).
  rewrite Hword. cbn [mbind res_bind lx_pos set_pos]. rewrite (proj2 (Nat.eqb_neq (length b) 0)) by lia.
  cbn [ls_redirect List_new]. change (lx_pos (set_pos (length b) st0)) with (length b).
  rewrite bytes_ok by lia. cbn [mbind res_bind].
  rewrite Hend. cbn [mbind res_bind]. unfold slice. rewrite drop_0, Nat.sub_0_r, firstn_all, Hr.
  done.
Qed.

(** ** The properties *)

Section properties.
Context {U : Unicode}.

(** C2: [parse] returns on every valid string: the lexer's fuel, the levels of
    command strings and the bounds of every index and slice suffice. Each segment's
    span lies in the command, on character boundaries; its nesting stays under
    [MAX_DEPTH]; its program word's offset is a boundary of its text; it has a class
    exactly when it is operative; and without a program it has neither subcommand
    nor flags. *)
Theorem parse_total (command : str) :
  utf8_valid command = true →
  ∃ segs, parse command = Ok segs ∧
          Forall (λ s, segment_ok command 0 s ∧ sg_depth s < MAX_DEPTH) segs.
Proof.
  intros Hv. destruct (sat_inv _ _ (parse_ok command Hv)) as (segs & Hp & Hs).
  exists segs. split; [exact Hp|]. eapply Forall_impl; [|exact Hs]. intros s Hok. split; [done|].
  pose proof (so_depth _ _ _ Hok) as [_ [->|?]]; [unfold MAX_DEPTH; lia|done].
Qed.

(** C19: the slices a caller takes of a parse never panic: the source over a
    segment's span ([&command[s.span]]) and [Segment::program_text]. *)
Theorem parsed_slices (command : str) :
  utf8_valid command = true →
  sat (parse command) (Forall (λ s,
    ∃ source text, str_slice command (r_start (sg_span s)) (r_end (sg_span s)) = Ok source ∧
                   program_text s = Ok text ∧ utf8_valid source = true)).
Proof.
  intros Hv.
  eapply sat_mono; [exact (parse_ok command Hv)|].
  intros segs Hs. eapply Forall_impl; [|exact Hs]. intros s [].
  eexists _, _. split_and!; [by apply str_slice_ok| |by apply valid_slice].
  unfold program_text, str_from. apply str_slice_ok; [|done|apply boundary_length].
  by apply boundary_le.
Qed.

(** C20: the lexer returns on every valid string, at every depth: the words of a
    segment follow one another without overlap, on character boundaries, with valid
    values; a segment has at least one word; and the heredoc bodies are in order. *)
Theorem lex_total (src : str) (depth : nat) :
  utf8_valid src = true → ∃ lexed, lex src depth = Ok lexed ∧ lexed_ok src depth lexed.
Proof. intros Hv. by apply sat_inv, lex_ok. Qed.

(** C23: [lex] undoes single quoting: any string, its quotes escaped and the whole
    quoted, is one word that spans the source and whose value is the string. *)
Theorem lex_sh_quote (s : str) (depth : nat) :
  utf8_valid s = true →
  lex (sh_quote s) depth = Ok {|
    lx_segments := [{| rs_connector := Connector.Start; rs_depth := depth;
                       rs_tokens := [word_token 0 (length (sh_quote s)) s] |}];
    lx_cut := [];
  |}.
Proof.
  intros Hv. unfold sh_quote. rewrite lex_quoted.
  - by rewrite join_split_on, lossy_valid_id.
  - apply split_char_nonempty.
  - apply split_on_clean.
Qed.

(** C26: [cut] is the source over the span without the positions of the heredoc
    bodies: the loop over the excluded ranges agrees with selecting each position
    that lies outside them all. *)
Theorem cut_selected (src : str) (span : range) (excluded : list range) :
  utf8_valid src = true → ranges_ok src 0 excluded (length src) →
  r_start span ≤ r_end span → is_char_boundary src (r_start span) = true →
  is_char_boundary src (r_end span) = true →
  cut src span excluded = Ok (selected src (r_start span) (r_end span) excluded).
Proof.
  intros Hv Hr Hle Hb0 Hb1. apply boundary_le in Hb1 as ?.
  destruct (cut_go_kept src Hv 0 _ (r_start span) (r_end span) excluded Hr) as [Hc _]; [done..|].
  unfold cut. rewrite Hc. f_equal. by eapply kept_selected.
Qed.

(** C22: the program text of a segment built from the lexer's words is the source
    from its program word on, with the heredoc bodies cut; the program is that
    word's base name. *)
Theorem program_text_from_word (src : str) (d : nat) lexed raw segment ws program :
  utf8_valid src = true → lex src d = Ok lexed → raw ∈ lx_segments lexed →
  build src (lx_cut lexed) raw = Ok (Some (segment, ws)) → sg_program segment = Some program →
  ∃ t, t ∈ rs_tokens raw ∧ is_word_token t = true ∧ program = basename (tk_value t) ∧
       program_text segment =
       cut src (Range (r_start (tk_span t)) (r_end (sg_span segment))) (lx_cut lexed).
Proof.
  intros Hv Hlex Hraw. pose proof (lex_ok src d Hv) as Hok. rewrite Hlex in Hok.
  destruct Hok as [Hsegs Hex]. rewrite Forall_forall in Hsegs.
  destruct (Hsegs raw) as (_ & Hch & _); [by apply list_elem_of_In|].
  unfold build. destruct (strip_keywords _ _) as [[c tokens]|] eqn:Es; [|done].
  apply strip_keywords_sublist in Es as [Hsub Hne].
  pose proof (chain_sublist _ _ _ _ _ Hsub Hch) as Hts.
  destruct (head tokens) as [t0|] eqn:Eh; [|done].
  destruct (list.last tokens) as [t1|] eqn:El; [|done].
  destruct (chain_span _ _ _ _ _ Hts Eh El) as (Hlt & (_ & Hb0 & _) & (_ & _ & Hb1 & _) & _ & Hin).
  rewrite bind_ok. intros (text & Hcut & H) Hprog. cbv zeta in H.
  destruct (resolve_program _) as [[at_ p]|] eqn:Er; [|by simplify_eq/=].
  apply resolve_program_Some in Er as (w & Hw & Hp & _).
  apply list_lookup_fmap_Some in Hw as (t & -> & Ht). rewrite Ht in H. cbn [mbind res_bind] in H.
  assert (Hmem : t ∈ List.filter is_word_token tokens) by (by eapply list_elem_of_lookup_2).
  apply list_elem_of_In, filter_In in Hmem as [Hmem%list_elem_of_In Hword].
  destruct (chain_member _ _ _ _ _ Hts Hmem) as (_ & (Htlt & Htb & _) & _).
  destruct (Hin t Hmem) as [Hin1 Hin2].
  destruct (text_offset_ok src Hv _ (r_start (tk_span t))
    (Range (r_start (tk_span t0)) (r_end (tk_span t1))) _ Hex) as
    (bef & aft & Hcut2 & Hcut3 & Hoff & Hva & Hvb); [simpl; lia|done..|].
  rewrite Hoff in H. cbn [mbind res_bind] in H.
  destruct (subcommand_and_flags _ _) as [sub flags]. rewrite Hcut in Hcut2. simplify_eq/=.
  exists t. split_and!; [by eapply elem_of_sublist|done|done|].
  rewrite Hcut3. unfold program_text, str_from. cbn [sg_text sg_program_at].
  rewrite str_slice_ok; [|rewrite length_app; lia|by apply boundary_app|apply boundary_length].
  unfold slice. rewrite drop_app_length. by rewrite take_ge by (rewrite length_app; lia).
Qed.

(** C21: inside a word the source holds as written, [source_span] is exact: the
    source over the mapped span is the string over the span. *)
Theorem source_span_exact (src : str) ws cs k w sa r :
  utf8_valid src = true → words_ok src ws → CommandString.new src ws = Ok cs →
  CommandString.words cs !! k = Some w → CommandString.w_verbatim w = Some sa →
  CommandString.w_at w ≤ r_start r ≤ r_end r →
  r_end r ≤ CommandString.w_at w + CommandString.w_len w →
  ∃ r', CommandString.source_span cs r = Ok r' ∧
        slice (r_start r') (r_end r') src = slice (r_start r) (r_end r) (CommandString.text cs).
Proof.
  intros Hv Hws Hnew Hk Hsa Hr Hend. pose proof (new_ok src Hv ws Hws) as Hok.
  rewrite Hnew in Hok. destruct Hok as (_ & Hne & Hl).
  destruct (laid_word _ _ _ _ _ _ _ _ Hl Hk) as (v & Hw & _ & _ & Hle & Hs).
  rewrite Nat.sub_0_r in Hs. pose proof (wo_len _ _ _ Hw) as Hlen.
  destruct (source_span_words src cs r Hne Hl ltac:(lia)) as (i & j & a & c & Hi & Hj & Ha & Hc & _ & _ & Hij).
  assert (k ≤ i) by (eapply rposition_last; [exact Hi|exact Hk|apply Nat.leb_le; lia]).
  assert (j ≤ k) by (eapply position_first; [exact Hj|exact Hk|apply Nat.leb_le; lia]).
  assert (i = k ∧ j = k) as [-> ->] by lia. simplify_eq.
  unfold CommandString.source_span. rewrite Hi, Hj.
  change (default 0 (Some k)) with k. change (default _ (Some k)) with k.
  rewrite Hk, Hsa. unfold check. rewrite (proj2 (Nat.leb_le (CommandString.w_at w) _)) by lia.
  rewrite (proj2 (Nat.leb_le 1 _)) by (destruct (CommandString.words cs); [done|simpl; lia]).
  eexists. split; [done|]. cbn [r_start r_end].
  destruct (wo_verbatim _ _ _ Hw _ Hsa) as (_ & _ & _ & _ & Hsrc).
  rewrite !Nat.min_l by lia.
  rewrite <- (slice_slice sa (sa + length v)) by lia. rewrite Hsrc, <- Hs.
  rewrite slice_slice by lia. f_equal; lia.
Qed.

End properties.

(** ** Witnesses *)

(** [eval] over a quoted string with a substitution in it. *)
Definition sample_command : str := "cd src && eval 'grep -r x . | wc -l' > /tmp/out".
Definition sample_heredoc : str := "cat <<EOF && ls" ++ [nl] ++ "body" ++ [nl] ++ "EOF" ++ [nl].

Lemma parse_total_witness :
  ∃ segs, parse sample_command = Ok segs ∧
          Forall (λ s, segment_ok sample_command 0 s ∧ sg_depth s < MAX_DEPTH) segs.
Proof. apply (parse_total sample_command). vm_compute. reflexivity. Defined.

Lemma parsed_slices_witness :
  sat (parse sample_command) (Forall (λ s,
    ∃ source text,
      str_slice sample_command (r_start (sg_span s)) (r_end (sg_span s)) = Ok source ∧
      program_text s = Ok text ∧ utf8_valid source = true)).
Proof. apply (parsed_slices sample_command). vm_compute. reflexivity. Defined.

Lemma lex_total_witness : ∃ lexed, lex sample_heredoc 0 = Ok lexed ∧ lexed_ok sample_heredoc 0 lexed.
Proof. apply (lex_total sample_heredoc 0). vm_compute. reflexivity. Defined.

Lemma lex_sh_quote_witness :
  lex (sh_quote "it's a [[ 'test'") 0 = Ok {|
    lx_segments := [{| rs_connector := Connector.Start; rs_depth := 0;
                       rs_tokens := [word_token 0 27 "it's a [[ 'test'"] |}];
    lx_cut := [];
  |}.
Proof. apply (lex_sh_quote "it's a [[ 'test'" 0). vm_compute. reflexivity. Defined.

Lemma cut_selected_witness :
  cut sample_heredoc (Range 0 20) [Range 16 25] =
  Ok (selected sample_heredoc 0 20 [Range 16 25]).
Proof.
  apply (cut_selected sample_heredoc (Range 0 20) [Range 16 25]); try (vm_compute; reflexivity).
  - split_and!; simpl; [lia|lia|vm_compute; reflexivity|vm_compute; reflexivity|].
    apply Nat.leb_le. vm_compute. reflexivity.
  - simpl. lia.
Defined.

(** The one segment of [FOO=1 sudo /usr/bin/git log]. *)
Definition sample_git : str := "FOO=1 sudo /usr/bin/git log".
Definition sample_git_raw : RawSegment := {|
  rs_connector := Connector.Start; rs_depth := 0;
  rs_tokens := [word_token 0 5 "FOO=1"; word_token 6 10 "sudo";
                word_token 11 23 "/usr/bin/git"; word_token 24 27 "log"];
|}.
Definition sample_git_segment : Segment := {|
  sg_connector := Connector.Start; sg_depth := 0; sg_role := Role.Operative;
  sg_program := Some (lit "git"); sg_subcommand := Some (lit "log"); sg_flags := [];
  sg_class := Some Class.VcsRead; sg_span := Range 0 27; sg_text := sample_git;
  sg_program_at := 11;
|}.

Lemma program_text_from_word_witness :
  ∃ t, t ∈ rs_tokens sample_git_raw ∧ is_word_token t = true ∧ "git" = basename (tk_value t) ∧
       program_text sample_git_segment =
       cut sample_git (Range (r_start (tk_span t)) (r_end (sg_span sample_git_segment))) [].
Proof.
  apply (program_text_from_word sample_git 0 {| lx_segments := [sample_git_raw]; lx_cut := [] |}
    sample_git_raw sample_git_segment None "git"); try (vm_compute; reflexivity).
  simpl. apply list_elem_of_singleton. reflexivity.
Defined.

(** [eval 'ls -l' x]: the span of [ls -l] in the string. *)
Definition sample_eval : str := "eval 'ls -l' x".
Definition sample_eval_words : list Token := [word_token 5 12 "ls -l"; word_token 13 14 "x"].
Definition sample_eval_word : CommandString.Word := {|
  CommandString.w_at := 0; CommandString.w_len := 5; CommandString.w_span := Range 5 12;
  CommandString.w_verbatim := Some 6 |}.
Definition sample_eval_string : CommandString.t := {|
  CommandString.text := "ls -l x";
  CommandString.words := [sample_eval_word;
    {| CommandString.w_at := 6; CommandString.w_len := 1; CommandString.w_span := Range 13 14;
       CommandString.w_verbatim := Some 13 |}];
|}.

Lemma source_span_exact_witness :
  ∃ r', CommandString.source_span sample_eval_string (Range 0 5) = Ok r' ∧
        slice (r_start r') (r_end r') sample_eval =
        slice 0 5 (CommandString.text sample_eval_string).
Proof.
  apply (source_span_exact sample_eval sample_eval_words sample_eval_string 0 sample_eval_word 6
    (Range 0 5)); try (vm_compute; reflexivity).
  - split; [discriminate|]. simpl. split_and!; try (vm_compute; reflexivity); try lia.
    all: repeat split; try (vm_compute; reflexivity); simpl; lia.
  - simpl. lia.
Defined.

(** After a subshell that ends a pipeline, a newline keeps the list's connector:
    [grep] starts a command of its own, and is read as a filter of the pipeline. *)
Example newline_after_subshell_keeps_pipe :
  (segs ← parse ("a | (b)" ++ [nl] ++ "grep x");
   Ok (map (λ s, (sg_program s, sg_connector s, sg_role s)) segs)) =
  Ok [(Some (lit "a"), Connector.Start, Role.Operative);
      (Some (lit "b"), Connector.Subshell, Role.Operative);
      (Some (lit "grep"), Connector.Pipe, Role.Filter)].
Proof. vm_compute. reflexivity. Qed.
