(* ===== verification/ShellVerdictSpec.v ===== *)
(** * What a segment says of its command

    Roles and classes agree, a write to a file is never taken for navigation or a
    filter, the verb is the flags and the leading words of the arguments without the
    values the flags take, and the parse loses no command the lexer found. *)

From Stdlib Require Import Ascii.
From stdpp Require Import base tactics list numbers strings option.
From S2P Require Import Prelude RustStr RustStrFacts ShellData ShellTables ShellLex ShellClassify ShellParse.

Section verdict.
Context {U : Unicode}.

(** ** What the parse keeps of what the builder gives *)

Section kept.
Context (P : Segment → Prop).
Context (P_build : ∀ src cut raw s cs, build src cut raw = Ok (Some (s, cs)) → P s).
Context (P_span : ∀ r s, P s → P (set_span r s)).
Context (P_first : ∀ s, sg_connector s = Connector.Start → P s →
                    P (set_connector Connector.CommandString s)).

Lemma drop_copies_forall k copies inner : Forall P inner → Forall P (drop_copies k copies inner).
Proof.
  intros H. revert k copies. induction H as [|s inner Hs H IH]; intros k copies; [constructor|].
  cbn [drop_copies]. cbv zeta. case_match; [apply IH|]. constructor; [done|apply IH].
Qed.

Lemma mark_first_forall inner : Forall P inner → Forall P (mark_first inner).
Proof.
  intros H. destruct H as [|s inner Hs H]; [constructor|]. cbn [mark_first].
  case_bool_decide; constructor; auto.
Qed.

Lemma res_map_span_forall string l out :
  res_map (λ s, r ← CommandString.source_span string (sg_span s); Ok (set_span r s)) l = Ok out →
  Forall P l → Forall P out.
Proof.
  revert out. induction l as [|s l IH]; intros out Hr H; [by injection Hr as <-|].
  cbn [res_map] in Hr. apply bind_ok in Hr as (s' & Hs' & Hr).
  apply bind_ok in Hr as (out' & Hout & [= <-]). apply bind_ok in Hs' as (r & _ & [= <-]).
  inversion_clear H. constructor; auto.
Qed.

Section expand.
Context (rec : str → nat → res (list Segment)) (command : str).
Context (rec_ok : ∀ c d segs, rec c d = Ok segs → Forall P segs).

Lemma expand_forall fuel built out :
  expand rec command fuel built = Ok out → Forall (λ b, P (fst b)) built → Forall P out.
Proof.
  revert built out. induction fuel as [|fuel IH]; intros built out He Hb; [done|].
  destruct built as [|[s [words|]] rest]; cbn [expand] in He.
  - by injection He as <-.
  - inversion_clear Hb as [|? ? Hs Hrest]. cbv zeta in He.
    apply bind_ok in He as (nested & Hn & He). apply bind_ok in He as (inner & Hi & He).
    apply bind_ok in He as (out' & Ho & [= <-]).
    rewrite <- (take_while_drop_while (nested_in (sg_depth s) (sg_span s)) rest) in Hrest.
    apply Forall_app in Hrest as [Ht Hd]. apply IH in Hn; [|done]. apply IH in Ho; [|done].
    constructor; [done|]. apply Forall_app. split; [done|]. apply Forall_app. split; [|done].
    destruct (sg_depth s + 1 <? MAX_DEPTH); [|by injection Hi as <-].
    unfold command_string_segments in Hi. apply bind_ok in Hi as (string & _ & Hi).
    apply bind_ok in Hi as (segs & Hr & Hi). eapply res_map_span_forall; [exact Hi|].
    apply mark_first_forall, drop_copies_forall. by eapply rec_ok.
  - inversion_clear Hb as [|? ? Hs Hrest]. apply bind_ok in He as (out' & Ho & [= <-]).
    constructor; [done|]. by eapply IH.
Qed.

End expand.

Lemma built_forall src cut raws built :
  res_omap (build src cut) raws = Ok built → Forall (λ b, P (fst b)) built.
Proof.
  revert built. induction raws as [|raw raws IH]; intros built Hr; [by injection Hr as <-|].
  cbn [res_omap] in Hr. apply bind_ok in Hr as (b & Hb & Hr).
  apply bind_ok in Hr as (built' & Hbuilt & [= <-]).
  destruct b as [[s cs]|]; [|by apply IH]. constructor; [by eapply P_build|by apply IH].
Qed.

Lemma parse_at_forall levels command depth segs :
  parse_at levels command depth = Ok segs → Forall P segs.
Proof.
  revert command depth segs. induction levels as [|levels IH]; intros command depth segs Hp; [done|].
  cbn [parse_at] in Hp. apply bind_ok in Hp as (lexed & _ & Hp).
  apply bind_ok in Hp as (built & Hb & Hp). eapply expand_forall; [exact IH|exact Hp|].
  by eapply built_forall.
Qed.

Lemma parse_forall command segs : parse command = Ok segs → Forall P segs.
Proof. apply parse_at_forall. Qed.

End kept.

(** ** Roles and classes *)

(** What a reader of segments relies on. *)
Record coherent (s : Segment) : Prop := {
  ch_class : is_Some (sg_class s) ↔ sg_role s = Role.Operative;
  ch_program : ∀ p, sg_program s = Some p → program_ok p = true;
  ch_bare : sg_program s = None → sg_subcommand s = None ∧ sg_flags s = [] ∧ sg_role s ≠ Role.Filter;
  ch_filter : sg_role s = Role.Filter → sg_connector s = Connector.Pipe ∧
    ∃ p, sg_program s = Some p ∧ mem_str p FILTERS = true;
  ch_navigation : sg_role s = Role.Navigation →
    ∀ p, sg_program s = Some p → mem_str p NAVIGATION = true;
}.

Lemma role_of_cases connector program rest wrapped redirect :
  (role_of connector program rest wrapped redirect = Role.Filter →
   connector = Connector.Pipe ∧ mem_str program FILTERS = true) ∧
  (role_of connector program rest wrapped redirect = Role.Navigation →
   mem_str program NAVIGATION = true) ∧
  (redirect = true → role_of connector program rest wrapped redirect = Role.Operative).
Proof.
  unfold role_of. destruct redirect; [done|].
  destruct (mem_str program NAVIGATION && negb wrapped) eqn:E1;
    [apply andb_prop in E1 as [E1 _]; done|].
  destruct (bool_decide (connector = Connector.Pipe) && _ && _) eqn:E2; [|done].
  apply andb_prop in E2 as [[E2%bool_decide_eq_true E3]%andb_prop _]. done.
Qed.

(** The cases of the builder: the stripped tokens, and the segment with a program or
    without. *)
Lemma build_cases src excluded raw s cs :
  build src excluded raw = Ok (Some (s, cs)) →
  ∃ connector tokens, strip_keywords (rs_connector raw) (rs_tokens raw) = Some (connector, tokens) ∧
    let words := tk_value <$> List.filter is_word_token tokens in
    let redirect := writes_file tokens in
    sg_connector s = connector ∧
    match resolve_program words with
    | None => sg_program s = None ∧ sg_subcommand s = None ∧ sg_flags s = [] ∧
        sg_role s = (if redirect then Role.Operative else Role.Navigation) ∧
        sg_class s = (if redirect then Some Class.FileWrite else None)
    | Some (i, program) =>
        let rest := drop (i + 1) words in
        sg_program s = Some program ∧
        sg_subcommand s = (let words := fst (subcommand_and_flags program rest) in
                           if bool_decide (words = []) then None else Some (join " " words)) ∧
        sg_flags s = snd (subcommand_and_flags program rest) ∧
        sg_role s = role_of connector program rest (is_wrapped (take i words)) redirect ∧
        sg_class s = (if bool_decide (sg_role s = Role.Operative)
                      then Some (class_of program rest redirect) else None)
    end.
Proof.
  unfold build. destruct (strip_keywords _ _) as [[connector tokens]|]; [|done].
  destruct (head tokens) as [first|]; [|done]. destruct (list.last tokens) as [last|]; [|done].
  cbv zeta. intros H. apply bind_ok in H as (txt & _ & H). exists connector, tokens. split; [done|].
  destruct (resolve_program _) as [[i program]|]; [|by injection H as <- <-].
  apply bind_ok in H as (start & _ & H). apply bind_ok in H as (off & _ & H).
  destruct (subcommand_and_flags _ _) as [words flags]. by injection H as <- <-.
Qed.

Lemma resolve_program_ok words i program : resolve_program words = Some (i, program) → program_ok program = true.
Proof.
  unfold resolve_program. intros (w & _ & H)%bind_Some. by destruct (program_ok (basename w)) eqn:E; simplify_eq.
Qed.

Lemma build_coherent src excluded raw s cs : build src excluded raw = Ok (Some (s, cs)) → coherent s.
Proof.
  intros H. apply build_cases in H as (connector & tokens & _ & Hconn & H). cbv zeta in H.
  destruct (resolve_program _) as [[i program]|] eqn:Er.
  - destruct H as (Hp & _ & _ & Hrole & Hclass).
    destruct (role_of_cases connector program (drop (i + 1) (tk_value <$> List.filter is_word_token tokens))
      (is_wrapped (take i (tk_value <$> List.filter is_word_token tokens))) (writes_file tokens)) as (Hf & Hn & _).
    rewrite <- Hrole in Hf, Hn. split; rewrite ?Hp.
    + rewrite Hclass. case_bool_decide; split; try done.
    + intros p [= <-]. by eapply resolve_program_ok.
    + done.
    + intros [? ?]%Hf. split; [congruence|by exists program].
    + intros ?%Hn p [= <-]. done.
  - destruct H as (Hp & Hsub & Hflags & Hrole & Hclass). split; rewrite ?Hp, ?Hrole; try done.
    + rewrite Hclass. destruct (writes_file tokens); split; try done.
    + intros _. split_and!; try done. by destruct (writes_file tokens).
    + by destruct (writes_file tokens).
Qed.

(** C14: every segment of a parse is coherent: it has a class exactly when it is operative,
    its program is a program name, a filter is a known filter on the right of a pipe,
    and navigation runs a navigation program or none. *)
Theorem parse_coherent (command : str) (segs : list Segment) :
  parse command = Ok segs → Forall coherent segs.
Proof.
  apply parse_forall; [exact build_coherent| |].
  - intros r s [H1 H2 H3 H4 H5]. by split.
  - intros s Hs [H1 H2 H3 H4 H5]. split; try done. intros [Hc _]%H4. congruence.
Qed.

(** C13: a command that writes a file says so: a segment whose tokens redirect output to a
    file is operative, and its class is a file write or more consequential, whatever
    program it runs. *)
Theorem redirect_is_action (src : str) (excluded : list range) (raw : RawSegment)
    (connector : Connector.t) (tokens : list Token) (s : Segment) cs :
  strip_keywords (rs_connector raw) (rs_tokens raw) = Some (connector, tokens) →
  writes_file tokens = true →
  build src excluded raw = Ok (Some (s, cs)) →
  sg_role s = Role.Operative ∧ ∃ c, sg_class s = Some c ∧ Class.is_action c = true.
Proof.
  intros Hk Hw H. apply build_cases in H as (connector' & tokens' & Hk' & _ & H).
  rewrite Hk in Hk'. simplify_eq. cbv zeta in H. rewrite Hw in H.
  destruct (resolve_program _) as [[i program]|].
  - destruct H as (_ & _ & _ & Hrole & Hclass).
    assert (Ho : sg_role s = Role.Operative).
    { rewrite Hrole. by apply (proj2 (proj2 (role_of_cases _ _ _ _ true))). }
    split; [done|]. rewrite Hclass, bool_decide_eq_true_2 by done. eexists. split; [done|].
    unfold class_of, Class.min. destruct (Class.le _ Class.FileWrite) eqn:E; [exact E|done].
  - destruct H as (_ & _ & _ & Hrole & Hclass). split; [done|]. rewrite Hclass. by eexists.
Qed.

(** ** The verb *)

(** A flag without its value: dashes, letters and digits. *)
Definition plain_flag (f : str) : bool :=
  starts_with "-" f && forallb (λ c, is_alnum c || (c =?a "-"%char)) f.

Lemma strip_prefix_app p s r : strip_prefix p s = Some r → s = p ++ r.
Proof.
  revert s. induction p as [|a p IH]; intros [|b s]; simpl; try by intros [= ->].
  destruct (a =?a b) eqn:E; [|done]. apply Ascii.eqb_eq in E as ->. by intros ->%IH.
Qed.

Lemma take_while_prefix {A} (p : A → bool) l : take (length (take_while p l)) l = take_while p l.
Proof. induction l as [|x l IH]; [done|]. simpl. destruct (p x); [simpl; by rewrite IH|done]. Qed.

(** A flag is named by dashes, letters and digits, but for Cargo's toolchain. *)
Lemma flag_name_shape program t f :
  flag_name program t = Some f →
  plain_flag f = true ∨ (program = "cargo" ∧ starts_with "+" f = true).
Proof.
  unfold flag_name. destruct (strip_prefix "--" t) as [long|] eqn:E1.
  - apply strip_prefix_app in E1 as ->.
    destruct (first_is _ _ && forallb _ _) eqn:E; [|done]. apply andb_prop in E as [_ E].
    intros [= <-]. left. change (take (2 + length _) (lit "--" ++ long)) with
      ("-"%char :: "-"%char :: take (length (take_while (λ c, negb (c =?a "="%char)) long)) long).
    rewrite take_while_prefix. unfold plain_flag. simpl. exact E.
  - destruct (strip_prefix "-" t) as [short|] eqn:E2.
    + apply strip_prefix_app in E2 as ->.
      destruct (first_is _ _ && forallb _ _) eqn:E; [|done]. apply andb_prop in E as [_ E].
      intros [= <-]. left. unfold plain_flag. simpl. rewrite forallb_forall in *.
      intros c Hin%E. by rewrite Hin.
    + destruct (str_eqb program "cargo" && _ && _) eqn:E; [|done].
      apply andb_prop in E as [[E _]%andb_prop E3]. apply str_eqb_eq in E.
      intros [= <-]. by right.
Qed.

(** The arguments less the words their flags take as values. *)
Fixpoint without_values (program : str) (rest : list str) : list str :=
  match rest with
  | [] => []
  | t :: r =>
    t :: match flag_name program t, r with
         | Some _, n :: r' =>
           if value_follows program t (Some n) then without_values program r'
           else without_values program r
         | _, _ => without_values program r
         end
  end.

(** The operands: no flag, and no variable [make] is told to set. *)
Definition operand (program t : str) : bool :=
  negb (bool_decide (is_Some (flag_name program t))) &&
  negb (str_eqb program "make" && is_assignment t).
Definition operands (program : str) (rest : list str) : list str :=
  List.filter (operand program) (without_values program rest).

(** How many words of a subcommand a program has, given the first. *)
Definition subcommand_length (program : str) (ops : list str) : nat :=
  match subcommand_depth program, ops with
  | Some (S d), w :: _ => if takes_second_word program w then 2 else S d
  | Some d, _ => d
  | None, _ => 0
  end.

(** The leading words among the operands, [n] at most. *)
Definition leading_words (n : nat) (ops : list str) : list str := take n (take_while is_word ops).

(** What the loop has still to read once it holds [words] and wants [want] of them. *)
Definition words_left (program : str) (want : nat) (words ops : list str) : list str :=
  match words with
  | [] =>
    leading_words (match want, ops with
                   | S d, w :: _ => if takes_second_word program w then 2 else S d
                   | _, _ => want
                   end) ops
  | _ => leading_words (want - length words) ops
  end.

Lemma subcommand_go_flags program depth rest want words flags :
  snd (subcommand_go program depth rest want words flags) =
  flags ++ omap (flag_name program) (without_values program rest).
Proof.
  revert want words flags. induction rest as [rest IH] using (induction_ltof1 _ (@length str)).
  unfold ltof in IH. intros want words flags. destruct rest as [|t rest]; [by rewrite app_nil_r|].
  cbn [subcommand_go without_values omap list_omap]. destruct (flag_name program t) as [name|] eqn:En.
  - destruct rest as [|n rest]; [done|].
    case_match; (rewrite IH by (simpl; lia)); by rewrite <- app_assoc.
  - repeat case_match; apply IH; simpl; lia.
Qed.

Lemma leading_words_skip n w ops : is_word w = false → leading_words n (w :: ops) = [].
Proof. unfold leading_words. simpl. intros ->. by destruct n. Qed.

(** A program without subcommands wants no word, ever. *)
Lemma subcommand_go_none program rest flags :
  fst (subcommand_go program None rest 0 [] flags) = [].
Proof.
  revert flags. induction rest as [rest IH] using (induction_ltof1 _ (@length str)).
  unfold ltof in IH. intros flags. destruct rest as [|t rest]; [done|]. cbn [subcommand_go].
  destruct (flag_name program t) as [name|].
  - cbv zeta. destruct rest as [|n rest]; [done|]. case_match; apply IH; simpl; lia.
  - simpl. case_match; apply IH; simpl; lia.
Qed.

(** Once the words wanted are read, none is added. *)
Lemma subcommand_go_full program d rest words flags :
  fst (subcommand_go program (Some d) rest (length words) words flags) = words.
Proof.
  revert flags. induction rest as [rest IH] using (induction_ltof1 _ (@length str)).
  unfold ltof in IH. intros flags. destruct rest as [|t rest]; [done|]. cbn [subcommand_go].
  destruct (flag_name program t) as [name|].
  - cbv zeta. destruct rest as [|n rest]; [done|]. case_match; apply IH; simpl; lia.
  - rewrite Nat.ltb_irrefl. simpl. case_match; apply IH; simpl; lia.
Qed.

Lemma subcommand_go_words program d rest want words flags :
  length words ≤ want →
  fst (subcommand_go program (Some d) rest want words flags) =
  words ++ words_left program want words (operands program rest).
Proof.
  revert want words flags. induction rest as [rest IH] using (induction_ltof1 _ (@length str)).
  unfold ltof in IH. intros want words flags Hle. destruct rest as [|t rest].
  { unfold operands, words_left, leading_words. simpl.
    destruct words; [|by rewrite take_nil, app_nil_r]. by destruct want. }
  cbn [subcommand_go without_values]. unfold operands. cbn [without_values List.filter].
  unfold operand at 1. destruct (flag_name program t) as [name|] eqn:En.
  { rewrite bool_decide_eq_true_2 by by eexists. cbv zeta. destruct rest as [|n rest].
    - unfold words_left, leading_words. simpl. destruct words; [by destruct want|].
      by rewrite take_nil, app_nil_r.
    - case_match; apply IH; simpl; try done; lia. }
  rewrite bool_decide_eq_false_2 by (intros [? [=]]). cbn [negb andb].
  destruct (str_eqb program "make" && is_assignment t); cbn [negb].
  { apply IH; [simpl; lia|done]. }
  fold (operands program rest).
  destruct ((length words <? want) && is_word t) eqn:E.
  - apply andb_prop in E as [Hlt%Nat.ltb_lt Hw]. cbv zeta.
    rewrite length_app. cbn [length]. destruct words as [|w0 words].
    + destruct want as [|want]; [simpl in Hlt; lia|]. cbn [app length Nat.add Nat.eqb andb].
      destruct (takes_second_word program t) eqn:Es; (rewrite IH by (simpl; lia));
        unfold words_left, leading_words; cbn [take_while app]; rewrite Hw, ?Es; simpl;
        by rewrite ?Nat.sub_0_r.
    + replace (_ =? 1) with false by (symmetry; apply Nat.eqb_neq; simpl; lia).
      cbn [andb]. rewrite IH by (rewrite ?length_app; simpl in *; lia). rewrite <- app_assoc. f_equal.
      unfold words_left. destruct ((w0 :: words) ++ [t]) eqn:Ea; [done|]. rewrite <- Ea.
      unfold leading_words. cbn [take_while]. rewrite Hw, length_app. cbn [length] in *.
      replace (want - S (length words)) with (S (want - (S (length words) + 1))) by lia. done.
  - rewrite subcommand_go_full. unfold words_left.
    apply andb_false_iff in E as [Hlt%Nat.ltb_ge|Hw].
    + destruct words as [|w0 words]; simpl in *.
      * replace want with 0 by lia. done.
      * replace (want - S (length words)) with 0 by lia. unfold leading_words. simpl. by rewrite app_nil_r.
    + rewrite !(leading_words_skip _ t) by done. destruct words; by rewrite ?app_nil_r.
Qed.

(** The module of [python -m]: the word after [-m] among the leading flags. *)
Definition python_module (program : str) (rest : list str) : option str :=
  if mem_str program ["python"; "python3"] then
    m ← position (λ t, str_eqb t "-m") (take_while (starts_with "-") rest); rest !! (m + 1)
  else None.

(** C16: what enters the verb, for every program. The flags are the names of the flags among
    the arguments, in order and without the words they take as values: a long flag
    without its [=value], a short one as it is written (a value written into it, as in
    [-j4], included), of dashes, letters and digits, or Cargo's [+toolchain]. The
    subcommand is the module of [python -m], or the leading plain words of the
    operands, as many as the program has; no other argument is in it. *)
Theorem verb_reads_flags_and_words (program : str) (rest : list str) :
  let '(words, flags) := subcommand_and_flags program rest in
  flags = omap (flag_name program) (without_values program rest) ∧
  Forall (λ f, plain_flag f = true ∨ (program = "cargo" ∧ starts_with "+" f = true)) flags ∧
  words = match python_module program rest with
          | Some module => [module]
          | None => leading_words (subcommand_length program (operands program rest)) (operands program rest)
          end.
Proof.
  unfold subcommand_and_flags. cbv zeta.
  pose proof (subcommand_go_flags program (subcommand_depth program) rest
    (default 0 (subcommand_depth program)) [] []) as Hf.
  assert (Hw : fst (subcommand_go program (subcommand_depth program) rest
      (default 0 (subcommand_depth program)) [] []) =
      leading_words (subcommand_length program (operands program rest)) (operands program rest)).
  { unfold subcommand_length. destruct (subcommand_depth program) as [d|]; [|by rewrite subcommand_go_none].
    simpl. rewrite subcommand_go_words by (simpl; lia). simpl.
    destruct d, (operands program rest); done. }
  destruct (subcommand_go _ _ _ _ _ _) as [words flags]. simpl in Hf, Hw. subst flags words.
  split; [done|]. split.
  - apply Forall_forall. intros f Hin. apply list_elem_of_In, list_elem_of_omap in Hin as (t & _ & Ht).
    by eapply flag_name_shape.
  - unfold python_module. destruct (mem_str _ _); [|done].
    destruct (position _ _) as [m|]; simpl; [|done]. by destruct (rest !! (m + 1)).
Qed.

(** ** No command is lost *)

Lemma expand_keeps rec command fuel built out :
  expand rec command fuel built = Ok out → sublist (fst <$> built) out.
Proof.
  revert built out. induction fuel as [|fuel IH]; intros built out He; [done|].
  destruct built as [|[s [words|]] rest]; cbn [expand] in He.
  - by injection He as <-.
  - cbv zeta in He. apply bind_ok in He as (nested & Hn & He).
    apply bind_ok in He as (inner & _ & He). apply bind_ok in He as (out' & Ho & [= <-]).
    rewrite fmap_cons. apply sublist_skip.
    rewrite <- (take_while_drop_while (nested_in (sg_depth s) (sg_span s)) rest), fmap_app.
    apply sublist_app; [by apply IH|]. apply sublist_inserts_l. by apply IH.
  - apply bind_ok in He as (out' & Ho & [= <-]). rewrite fmap_cons. by apply sublist_skip, IH.
Qed.

(** C15: the parse loses no command: the segments of every simple command the lexer found
    are all in the result, unchanged and in the order of the source; what it adds
    comes from command strings. *)
Theorem parse_keeps_commands (command : str) (segs : list Segment) :
  parse command = Ok segs →
  ∃ lexed built, lex command 0 = Ok lexed ∧
    res_omap (build command (lx_cut lexed)) (lx_segments lexed) = Ok built ∧
    sublist (fst <$> built) segs ∧
    (Forall (λ b, snd b = None) built → segs = fst <$> built).
Proof.
  unfold parse. cbn [parse_at]. intros H. apply bind_ok in H as (lexed & Hl & H).
  apply bind_ok in H as (built & Hb & H). exists lexed, built.
  split_and!; [done|done|by eapply expand_keeps|]. revert H. generalize (S (length built)). clear Hb.
  intros fuel H Hn. revert fuel segs H. induction Hn as [|[s o] built Ho Hn IH]; intros [|fuel] segs He; try done.
  - by injection He as <-.
  - simpl in Ho. subst o. cbn [expand] in He. apply bind_ok in He as (out & Hout & [= <-]).
    rewrite fmap_cons. f_equal. by eapply IH.
Qed.

End verdict.

(** ** The properties at work *)

Definition sample : str := "cd /src && git log -n 5 | grep 'fix' > out.txt; sh -c 'rm -rf x'".
Definition sample_segments : list Segment := match parse sample with Ok segs => segs | _ => [] end.

Lemma parse_coherent_witness :
  parse sample = Ok sample_segments ∧ Forall coherent sample_segments ∧
  sg_role <$> sample_segments =
    [Role.Navigation; Role.Operative; Role.Operative; Role.Operative; Role.Operative].
Proof.
  split; [vm_compute; reflexivity|]. split; [|vm_compute; reflexivity].
  apply (parse_coherent sample). vm_compute. reflexivity.
Defined.

(** The tokens of the [grep] of the sample, redirected to a file. *)
Definition grep_raw : RawSegment :=
  match lex sample 0 with
  | Ok l => match lx_segments l with
            | _ :: _ :: raw :: _ => raw
            | _ => {| rs_connector := Connector.Start; rs_depth := 0; rs_tokens := [] |}
            end
  | _ => {| rs_connector := Connector.Start; rs_depth := 0; rs_tokens := [] |}
  end.
Definition grep_segment : Segment := {|
  sg_connector := Connector.Pipe; sg_depth := 0; sg_role := Role.Operative;
  sg_program := Some (lit "grep"); sg_subcommand := None; sg_flags := [];
  sg_class := Some Class.FileWrite; sg_span := Range 26 46;
  sg_text := "grep 'fix' > out.txt"; sg_program_at := 0;
|}.

Lemma redirect_is_action_witness :
  build sample [] grep_raw = Ok (Some (grep_segment, None)) ∧
  sg_role grep_segment = Role.Operative ∧
  ∃ c, sg_class grep_segment = Some c ∧ Class.is_action c = true.
Proof.
  assert (H : build sample [] grep_raw = Ok (Some (grep_segment, None))) by (vm_compute; reflexivity).
  split; [exact H|].
  apply (redirect_is_action sample [] grep_raw Connector.Pipe (rs_tokens grep_raw) grep_segment None);
    [vm_compute; reflexivity|vm_compute; reflexivity|exact H].
Defined.

Lemma parse_keeps_commands_witness :
  parse sample = Ok sample_segments ∧
  ∃ lexed built, lex sample 0 = Ok lexed ∧
    res_omap (build sample (lx_cut lexed)) (lx_segments lexed) = Ok built ∧
    sublist (fst <$> built) sample_segments.
Proof.
  split; [vm_compute; reflexivity|].
  destruct (parse_keeps_commands sample sample_segments) as (lexed & built & H1 & H2 & H3 & _);
    [vm_compute; reflexivity|].
  exists lexed, built. split; [exact H1|]. split; [exact H2|exact H3].
Defined.

(** A push: the values of its flags, and what it pushes, stay out of the verb. *)
Example push_verb :
  subcommand_and_flags "git" ["push"; "--force"; "--repo=secret"; "-o"; "ci.skip"; "origin"] =
    (["push"], ["--force"; "--repo"; "-o"])%s.
Proof. vm_compute. reflexivity. Qed.
