(* ===== verification/ShellDescribe.v ===== *)
(** * Descriptions

    [tools/command-describer/src/describe.rs]: the page summaries, the
    description of each segment, and the block the judge reads. The summaries'
    [HashMap] is a [gmap]. *)

From Stdlib Require Import Ascii.
From stdpp Require Import base tactics list numbers strings option gmap.
From S2P Require Import Prelude RustStr ShellData.

Section describe.
Context {U : Unicode}.

(** ** Summaries *)

Record Summaries := {
  pages : gmap str str;
}.

(** The first sentence of a description line, whitespace collapsed, without its
    closing period. *)
Definition first_sentence (line : str) : str :=
  let line := join " " (split_whitespace line) in
  let first := match str_find ". " line with
               | Some i => take i line
               | None => line
               end in
  trim (trim_end_matches "."%char first).

(** One line of a [summaries.tsv]. *)
Definition summary_line (l : str) : option (str * str) :=
  if starts_with "#" l then None
  else
    '(page, line) ← split_once tab l;
    let summary := first_sentence line in
    if negb (str_eqb page []) && negb (str_eqb summary []) then Some (page, summary) else None.

(** [Summaries::parse]: collected in order, so a later line of a page wins. *)
Definition parse_summaries (text : str) : Summaries :=
  {| pages := fold_left (λ m p, <[fst p := snd p]> m) (omap summary_line (lines text)) ∅ |}.

Definition len (s : Summaries) : nat := size (pages s).
Definition is_empty (s : Summaries) : bool := len s =? 0.

(** The page name for a program and [words] of its subcommand. *)
Definition page_name (program : str) (words : list str) : str :=
  to_lowercase (join "-" (program :: words)).

(** The pages from [k] words down to none. *)
Fixpoint lookup_from (s : Summaries) (program : str) (words : list str) (k : nat) : option str :=
  match pages s !! page_name program (take k words) with
  | Some page => Some page
  | None => match k with
            | 0 => None
            | S k => lookup_from s program words k
            end
  end.

(** [Summaries::lookup]: at most the first two subcommand words are used. *)
Definition lookup (s : Summaries) (program : str) (subcommand : option str) : option str :=
  let words := match subcommand with
               | Some sub => take 2 (split_whitespace sub)
               | None => []
               end in
  lookup_from s program words (length words).

(** ** Described segments *)

Record Described := {
  ds_segment : Segment;
  ds_label : str;
  ds_summary : option str;
}.

Definition text (d : Described) : str :=
  match ds_summary d with
  | Some s => format [ds_label d; " ("; s; ")"]
  | None => ds_label d
  end.

Definition describe_segment (data : Summaries) (seg : Segment) : Described :=
  let label := join " " (option_list (sg_program seg) ++ option_list (sg_subcommand seg)) in
  {|
    ds_segment := seg;
    ds_label := if str_eqb label [] then "?" else label;
    ds_summary :=
      match sg_role seg, sg_program seg with
      | Role.Operative, Some p => lookup data p (sg_subcommand seg)
      | Role.Filter, Some p => lookup data p None
      | _, _ => None
      end;
  |}.

Definition describe (segments : list Segment) (data : Summaries) : list Described :=
  describe_segment data <$> segments.

(** ** The block *)

(** [v.resize(n, x)] *)
Definition resize {A} (n : nat) (x : A) (v : list A) : list A :=
  take n v ++ replicate (n - length v) x.

Record Block := {
  bk_lines : list str;
  bk_open : list (option nat);
  bk_subshell : list bool;
}.

Definition inline (d : Described) : option str :=
  match sg_connector (ds_segment d) with
  | Connector.Pipe => Some " | "
  | Connector.Or => Some " || "
  | _ => None
  end.

(** The body of the loop, for one described segment. *)
Definition block_step (k : Block) (d : Described) : Block :=
  let depth := sg_depth (ds_segment d) in
  let navigation := bool_decide (sg_role (ds_segment d) = Role.Navigation) in
  let in_subshell :=
    match sg_connector (ds_segment d) with
    | Connector.Subshell => true
    | Connector.CommandSubstitution | Connector.CommandString => false
    | _ => default false (bk_subshell k !! depth)
    end in
  let subshell := resize depth false (take depth (bk_subshell k)) ++ [in_subshell] in
  let starts_line :=
    let lines := if navigation then bk_lines k else bk_lines k ++ [text d] in
    let line := if navigation then None else Some (length lines - 1) in
    let open := resize (depth + 1) None (take depth (bk_open k)) in
    let open := <[depth := line]> open in
    let open := if in_subshell && (0 <? depth) then <[depth - 1 := line]> open else open in
    {| bk_lines := lines; bk_open := open; bk_subshell := subshell |} in
  match inline d with
  | Some sym =>
    if navigation then
      {| bk_lines := bk_lines k; bk_open := bk_open k; bk_subshell := subshell |}
    else
      match mjoin (bk_open k !! depth) with
      | Some line =>
        {| bk_lines := alter (λ l, l ++ sym ++ text d) line (bk_lines k);
           bk_open := bk_open k; bk_subshell := subshell |}
      | None => starts_line
      end
  | None => starts_line
  end.

Definition block_lines (ds : list Described) : list str :=
  bk_lines (fold_left block_step ds {| bk_lines := []; bk_open := []; bk_subshell := [] |}).

Definition described_block (description : str) (segments : list Segment) (data : Summaries)
    : str :=
  join [nl]
    (format ["About to run: "; join " " (split_whitespace description)] ::
     block_lines (describe segments data)).

End describe.
