(* ===== verification/ShellDescribeSpec.v ===== *)
(** * What a description promises

    A lookup gives the most specific page, and the block the judge reads is that of a
    reference that finds each segment's line among the segments before it, in place of
    the loop's vectors per depth: so every segment that is not navigation is shown once,
    and the lines come in order. *)

From Stdlib Require Import Ascii.
From stdpp Require Import base tactics list numbers strings option gmap.
From S2P Require Import Prelude RustStr RustStrFacts ShellData ShellDescribe.

Section describe.
Context {U : Unicode}.

(** ** Lookup *)

Lemma lookup_from_spec s program words k page :
  lookup_from s program words k = Some page ↔
  ∃ j, j ≤ k ∧ pages s !! page_name program (take j words) = Some page ∧
    ∀ i, j < i ≤ k → pages s !! page_name program (take i words) = None.
Proof.
  revert page. induction k as [|k IH]; intros page; cbn [lookup_from].
  all: destruct (pages s !! page_name program (take _ words)) as [p|] eqn:E.
  - split; [intros [= ->]; exists 0; split_and!; [lia|done|lia]|].
    intros (j & Hj & Hp & _). assert (j = 0) as -> by lia. congruence.
  - split; [done|]. intros (j & Hj & Hp & _). assert (j = 0) as -> by lia. congruence.
  - split; [intros [= ->]; exists (S k); split_and!; [lia|done|lia]|].
    intros (j & Hj & Hp & Hn). destruct (decide (j = S k)) as [->|Hne]; [congruence|].
    rewrite Hn in E by lia. done.
  - rewrite IH. split; intros (j & Hj & Hp & Hn).
    + exists j. split_and!; [lia|done|]. intros i Hi. destruct (decide (i = S k)) as [->|]; [done|].
      apply Hn. lia.
    + destruct (decide (j = S k)) as [->|Hne]; [congruence|].
      exists j. split_and!; [lia|done|]. intros i Hi. apply Hn. lia.
Qed.

(** C18: a lookup gives the most specific page: of the pages named by the program and its
    first subcommand words, at most two, the one with the most words; none where none
    is held. *)
Theorem lookup_most_specific (s : Summaries) (program sub page : str) :
  let words := take 2 (split_whitespace sub) in
  lookup s program (Some sub) = Some page ↔
  ∃ k, k ≤ length words ∧ pages s !! page_name program (take k words) = Some page ∧
    ∀ j, k < j ≤ length words → pages s !! page_name program (take j words) = None.
Proof. cbv zeta. apply lookup_from_spec. Qed.

(** ** The block *)

(** Not navigation: it shows in the block. *)
Definition shows (d : Described) : bool := negb (bool_decide (sg_role (ds_segment d) = Role.Navigation)).

(** A segment joined to the ones before it on its line. *)
Definition joined (d : Described) : str := default [] (inline d) ++ text d.

(** A line of the block: the text of its first segment, the others joined. *)
Definition line_of (g : list Described) : str :=
  match g with
  | [] => []
  | d :: ds => text d ++ concat (joined <$> ds)
  end.

Lemma line_of_snoc g d : g ≠ [] → line_of (g ++ [d]) = line_of g ++ joined d.
Proof.
  destruct g as [|d0 g]; [done|]. intros _. cbn [line_of app].
  rewrite fmap_app, concat_app. cbn [fmap list_fmap concat]. by rewrite app_nil_r, app_assoc.
Qed.

(** ** The reference block

    A list of segments here is the part of a call before a segment, the latest first; a
    segment is named by its position, the number of segments before it, and a line by the
    position of its first segment. *)
Implicit Types (L : list Described).

Definition depth_of (d : Described) : nat := sg_depth (ds_segment d).

(** Whether the list of a segment is a subshell's, where [inherited] holds for the list
    around it. *)
Definition in_subshell (d : Described) (inherited : bool) : bool :=
  match sg_connector (ds_segment d) with
  | Connector.Subshell => true
  | Connector.CommandSubstitution | Connector.CommandString => false
  | _ => inherited
  end.

(** Whether the list left open at depth [k] is a subshell's: the latest segment at [k]
    says, unless one above it closed the list. *)
Fixpoint subshell_at (k : nat) L : bool :=
  match L with
  | [] => false
  | d :: L =>
    if depth_of d <? k then false
    else if depth_of d =? k then in_subshell d (subshell_at k L)
    else subshell_at k L
  end.

(** Whether a segment begins a line or ends one, where [t] is the line it could join: all
    but those joined by [|] or [||] do, and of these one that shows with nothing to join. *)
Definition starts (d : Described) (t : option nat) : bool :=
  match inline d with
  | None => true
  | Some _ => shows d && bool_decide (t = None)
  end.

(** The line a segment at depth [k] would join: that of the latest segment that began or
    ended a line at [k], or of the last one in a subshell just below; none past a segment
    above [k]. *)
Fixpoint target (k : nat) L : option nat :=
  match L with
  | [] => None
  | d :: L =>
    if starts d (target (depth_of d) L) then
      if depth_of d <? k then None
      else if (depth_of d =? k) ||
              ((depth_of d =? S k) && in_subshell d (subshell_at (depth_of d) L))
      then if shows d then Some (length L) else None
      else target k L
    else target k L
  end.

(** The line a segment is on: navigation on none, one joined by [|] or [||] on its target,
    and any other on its own. *)
Definition line_at (d : Described) L : option nat :=
  if shows d then
    match inline d, target (depth_of d) L with
    | Some _, Some p => Some p
    | _, _ => Some (length L)
    end
  else None.

(** The segments on line [p], and the lines, each in the order of the call. *)
Fixpoint members (p : nat) L : list Described :=
  match L with
  | [] => []
  | d :: L => members p L ++ (if bool_decide (line_at d L = Some p) then [d] else [])
  end.
Fixpoint firsts L : list nat :=
  match L with
  | [] => []
  | d :: L => firsts L ++ (if bool_decide (line_at d L = Some (length L)) then [length L] else [])
  end.

(** The lines of a block, each a list of segments. *)
Definition grouped (ds : list Described) : list (list Described) :=
  (λ p, members p (reverse ds)) <$> firsts (reverse ds).

(** ** Lines of the reference *)

Lemma line_at_spec d L p :
  line_at d L = Some p →
  shows d = true ∧ ((starts d (target (depth_of d) L) = true ∧ p = length L) ∨
    (is_Some (inline d) ∧ starts d (target (depth_of d) L) = false ∧ target (depth_of d) L = Some p)).
Proof.
  unfold line_at, starts. destruct (shows d); [|done]. intros H. split; [done|].
  destruct (inline d) as [sym|], (target (depth_of d) L) as [q|] eqn:E; simplify_eq/=; try by left.
  right. split_and!; by try eexists.
Qed.

Lemma line_at_starts d L :
  starts d (target (depth_of d) L) = true → line_at d L = if shows d then Some (length L) else None.
Proof.
  unfold line_at, starts. destruct (shows d); [|done].
  by destruct (inline d), (target (depth_of d) L).
Qed.

Lemma firsts_mono d L p : p ∈ firsts L → p ∈ firsts (d :: L).
Proof. intros H. simpl. by apply elem_of_app; left. Qed.

Lemma target_first k L p : target k L = Some p → p ∈ firsts L.
Proof.
  revert k. induction L as [|d L IH]; intros k; [done|]. cbn [target].
  destruct (starts _ _) eqn:Es; [|by intros ?%IH%(firsts_mono d)].
  destruct (depth_of d <? k); [done|].
  destruct (_ || _); [|by intros ?%IH%(firsts_mono d)].
  destruct (shows d) eqn:Eh; [|done]. intros [= <-]. simpl.
  rewrite line_at_starts, Eh, bool_decide_eq_true_2 by done. apply elem_of_app. right. by left.
Qed.

Lemma firsts_lt L : Forall (λ p, p < length L) (firsts L).
Proof.
  induction L as [|d L IH]; simpl; [constructor|]. apply Forall_app. split.
  - eapply Forall_impl; [exact IH|]. simpl. lia.
  - case_bool_decide; [constructor; [lia|constructor]|constructor].
Qed.

Lemma first_lt p L : p ∈ firsts L → p < length L.
Proof.
  intros Hp%list_elem_of_In. pose proof (firsts_lt L) as Hl. rewrite List.Forall_forall in Hl. by apply Hl.
Qed.

Lemma not_first L : length L ∉ firsts L.
Proof. intros H%first_lt. lia. Qed.

Lemma firsts_NoDup L : NoDup (firsts L).
Proof.
  induction L as [|d L IH]; simpl; [constructor|]. apply NoDup_app. split_and!; [done| |].
  - intros p Hp. case_bool_decide; [|apply not_elem_of_nil]. rewrite list_elem_of_singleton.
    intros ->. by apply not_first in Hp.
  - case_bool_decide; [apply NoDup_singleton|constructor].
Qed.

Lemma line_at_first d L p : line_at d L = Some p → p ∈ firsts L ∨ p = length L.
Proof. intros [_ [[_ ->]|(_ & _ & H)]]%line_at_spec; [by right|left; by eapply target_first]. Qed.

Lemma members_none p L : length L ≤ p → members p L = [].
Proof.
  induction L as [|d L IH]; [done|]. simpl. intros Hp. rewrite IH by lia.
  case_bool_decide as Hl; [|done]. exfalso.
  apply line_at_first in Hl as [Hl%first_lt|Hl]; lia.
Qed.

(** A line of the reference begins with its first segment, and the others are joined. *)
Lemma members_of_first p L :
  p ∈ firsts L → ∃ d ds, members p L = d :: ds ∧ Forall (λ d, is_Some (inline d)) ds.
Proof.
  induction L as [|d L IH]; simpl; [by intros ?%not_elem_of_nil|].
  intros [Hp|Hp]%elem_of_app.
  - destruct (IH Hp) as (d0 & ds & -> & Hds). case_bool_decide as Hl; [|rewrite app_nil_r; eauto].
    exists d0, (ds ++ [d]). split; [done|]. apply Forall_app. split; [done|]. repeat constructor.
    apply line_at_spec in Hl as [_ [[_ ->]|(Hi & _)]]; [|done].
    exfalso. by apply not_first in Hp.
  - revert Hp. case_bool_decide as Hl; [|by intros ?%not_elem_of_nil].
    intros ->%list_elem_of_singleton. rewrite members_none, bool_decide_eq_true_2 by done. by exists d, [].
Qed.

Lemma members_sublist p L : sublist (members p L) (reverse L).
Proof.
  induction L as [|d L IH]; [done|]. simpl. rewrite reverse_cons.
  apply sublist_app; [done|]. case_bool_decide; [done|apply sublist_nil_l].
Qed.

(** A segment that begins no line leaves the lines, but for its own. *)
Lemma members_fmap_join d L p :
  p ∈ firsts L → line_at d L = Some p →
  concat ((λ q, members q (d :: L)) <$> firsts L) ≡ₚ concat ((λ q, members q L) <$> firsts L) ++ [d].
Proof.
  intros Hp Hl. pose proof (firsts_NoDup L) as Hnd. cbn [members]. rewrite Hl.
  induction (firsts L) as [|q qs IH]; [by apply not_elem_of_nil in Hp|].
  inversion_clear Hnd as [|? ? Hq Hqs]. cbn [fmap list_fmap concat].
  case_bool_decide as E.
  - injection E as <-. rewrite <- !app_assoc. apply Permutation_app_head.
    assert (Hsame : (λ q, members q L ++ (if bool_decide (Some p = Some q) then [d] else [])) <$> qs =
                    (λ q, members q L) <$> qs).
    { apply list_fmap_ext. intros i q Hi%list_elem_of_lookup_2.
      rewrite bool_decide_eq_false_2 by (by intros [= <-]). apply app_nil_r. }
    rewrite Hsame. apply Permutation_app_comm.
  - rewrite app_nil_r, <- app_assoc. apply Permutation_app_head, IH; [|done].
    apply elem_of_cons in Hp as [->|Hp]; done.
Qed.

Lemma members_fmap_other d L :
  (∀ q, q ∈ firsts L → line_at d L ≠ Some q) →
  (λ q, members q (d :: L)) <$> firsts L = (λ q, members q L) <$> firsts L.
Proof.
  intros H. apply list_fmap_ext. intros i q Hi%list_elem_of_lookup_2. simpl.
  rewrite bool_decide_eq_false_2 by (by apply H). apply app_nil_r.
Qed.

(** The groups after one more segment. *)
Lemma groups_step d L :
  let groups L := (λ p, members p L) <$> firsts L in
  (line_at d L = None ∧ shows d = false ∧ groups (d :: L) = groups L) ∨
  (line_at d L = Some (length L) ∧ shows d = true ∧ groups (d :: L) = groups L ++ [[d]]) ∨
  (∃ p, line_at d L = Some p ∧ shows d = true ∧ p ∈ firsts L ∧ firsts (d :: L) = firsts L).
Proof.
  cbv zeta. destruct (line_at d L) as [p|] eqn:El.
  - right. pose proof El as [Hs _]%line_at_spec. destruct (decide (p = length L)) as [->|Hp].
    + left. split_and!; [done..|]. cbn [firsts]. rewrite El, bool_decide_eq_true_2, fmap_app by done.
      rewrite members_fmap_other by (rewrite El; intros q Hq [= <-]; by apply not_first in Hq). f_equal.
      simpl. by rewrite El, members_none, bool_decide_eq_true_2.
    + right. exists p. split_and!; [done..| |].
      * by apply line_at_first in El as [?|?].
      * simpl. rewrite El, bool_decide_eq_false_2 by congruence. apply app_nil_r.
  - left. split_and!; [done| |].
    + revert El. unfold line_at. destruct (shows d); [|done]. by repeat case_match.
    + cbn [firsts]. rewrite El, bool_decide_eq_false_2, app_nil_r by done.
      apply members_fmap_other. by rewrite El.
Qed.

Lemma groups_all L :
  concat ((λ p, members p L) <$> firsts L) ≡ₚ List.filter shows (reverse L).
Proof.
  induction L as [|d L IH]; [done|]. rewrite reverse_cons, List.filter_app. simpl (List.filter _ [d]).
  destruct (groups_step d L) as [(_ & -> & ->)|[(_ & -> & ->)|(p & Hl & -> & Hp & ->)]].
  - by rewrite app_nil_r.
  - rewrite concat_app. simpl. by rewrite IH.
  - rewrite members_fmap_join by done. by rewrite IH.
Qed.

Lemma groups_heads L : sublist (omap head ((λ p, members p L) <$> firsts L)) (reverse L).
Proof.
  induction L as [|d L IH]; [done|]. rewrite reverse_cons.
  destruct (groups_step d L) as [(_ & _ & ->)|[(_ & _ & ->)|(p & Hl & _ & Hp & ->)]].
  - by apply sublist_inserts_r.
  - rewrite omap_app. by apply sublist_app.
  - assert (He : omap head ((λ p, members p (d :: L)) <$> firsts L) =
                 omap head ((λ p, members p L) <$> firsts L)); [|rewrite He; by apply sublist_inserts_r].
    assert (Hin : Forall (λ q, q ∈ firsts L) (firsts L)) by (by apply Forall_forall).
    revert Hin. generalize (firsts L) at 2 3 4 as qs. induction qs as [|q qs IHq]; [done|].
    intros [Hq Hqs]%Forall_cons. cbn [fmap list_fmap omap list_omap]. rewrite IHq by done.
    destruct (members_of_first q L Hq) as (d0 & ds & Hm & _). cbn [members]. by rewrite Hm.
Qed.

(** ** The block is the reference's *)


Lemma resize_lookup {A} n (x : A) v j :
  resize n x (take n v) !! j = if decide (j < n) then Some (default x (v !! j)) else None.
Proof.
  unfold resize. rewrite take_take, Nat.min_id. case_decide as Hj.
  - destruct (decide (j < length v)) as [Hv|Hv].
    + rewrite lookup_app_l by (rewrite length_take; lia). rewrite lookup_take_lt by done.
      by destruct (lookup_lt_is_Some_2 v j Hv) as [y ->].
    + rewrite lookup_app_r by (rewrite length_take; lia). rewrite (lookup_ge_None_2 v j) by lia.
      apply lookup_replicate_2. rewrite !length_take. lia.
  - apply lookup_ge_None_2. rewrite length_app, length_replicate, !length_take. lia.
Qed.

(** What the loop keeps per depth after a segment that begins or ends a line. *)
Lemma open_lookup (open : list (option nat)) depth line (b : bool) j :
  let open' := <[depth := line]> (resize (depth + 1) None (take depth open)) in
  mjoin ((if b && (0 <? depth) then <[depth - 1 := line]> open' else open') !! j) =
  if depth <? j then None
  else if (depth =? j) || ((depth =? S j) && b) then line else mjoin (open !! j).
Proof.
  cbv zeta. set (open' := <[depth := line]> _).
  assert (Hlen : length open' = depth + 1).
  { subst open'. rewrite length_insert. unfold resize.
    rewrite length_app, length_replicate, !length_take. lia. }
  assert (Ho : mjoin (open' !! j) =
    if depth <? j then None else if depth =? j then line else mjoin (open !! j)).
  { destruct (depth <? j) eqn:E1; bool_prop; [by rewrite lookup_ge_None_2 by lia|].
    subst open'. destruct (depth =? j) eqn:E2; bool_prop.
    - subst j. rewrite list_lookup_insert_eq; [done|]. rewrite length_insert in Hlen. lia.
    - rewrite list_lookup_insert_ne by done. unfold resize.
      rewrite take_take, Nat.min_r by lia.
      destruct (decide (j < length open)) as [Hv|Hv].
      + rewrite lookup_app_l by (rewrite length_take; lia). by rewrite lookup_take_lt by lia.
      + rewrite lookup_app_r by (rewrite length_take; lia). rewrite (lookup_ge_None_2 open j) by lia.
        rewrite lookup_replicate_2; [done|]. rewrite length_take. lia. }
  destruct (b && (0 <? depth)) eqn:Eb.
  - apply andb_prop in Eb as [-> Ed]. bool_prop. rewrite andb_true_r.
    destruct (decide (j = depth - 1)) as [->|Hj].
    + rewrite list_lookup_insert_eq by lia.
      rewrite (proj2 (Nat.ltb_ge _ _)) by lia. replace (S (depth - 1)) with depth by lia.
      by rewrite Nat.eqb_refl, orb_true_r.
    + rewrite list_lookup_insert_ne by done. rewrite Ho.
      replace (depth =? S j) with false by (symmetry; apply Nat.eqb_neq; lia). by rewrite orb_false_r.
  - rewrite Ho. apply andb_false_iff in Eb as [->|Eb]; [by rewrite andb_false_r, orb_false_r|].
    bool_prop. assert (depth = 0) as -> by lia. by rewrite orb_false_r.
Qed.

(** The parts of a step of the loop. *)
Definition block_open (k : Block) (d : Described) (inside : bool) : list (option nat) :=
  let line := if shows d then Some (length (bk_lines k)) else None in
  let open := <[depth_of d := line]> (resize (depth_of d + 1) None (take (depth_of d) (bk_open k))) in
  if inside && (0 <? depth_of d) then <[depth_of d - 1 := line]> open else open.

Lemma block_step_cases k d :
  let inside := in_subshell d (default false (bk_subshell k !! depth_of d)) in
  let subshell := resize (depth_of d) false (take (depth_of d) (bk_subshell k)) ++ [inside] in
  block_step k d =
  if starts d (mjoin (bk_open k !! depth_of d)) then
    {| bk_lines := if shows d then bk_lines k ++ [text d] else bk_lines k;
       bk_open := block_open k d inside; bk_subshell := subshell |}
  else
    {| bk_lines := match mjoin (bk_open k !! depth_of d) with
                   | Some i => if shows d then alter (λ l, l ++ joined d) i (bk_lines k) else bk_lines k
                   | None => bk_lines k
                   end;
       bk_open := bk_open k; bk_subshell := subshell |}.
Proof.
  cbv zeta. unfold block_step, starts, shows, block_open, in_subshell, joined, depth_of, shows.
  destruct (bool_decide (sg_role (ds_segment d) = Role.Navigation)); simpl;
    destruct (inline d) as [sym|]; simpl; rewrite ?length_app; simpl;
    rewrite ?Nat.add_sub; try done; by destruct (mjoin _).
Qed.

Lemma subshell_step L d sub j :
  (∀ j, default false (sub !! j) = subshell_at j L) →
  default false ((resize (depth_of d) false (take (depth_of d) sub) ++
    [in_subshell d (default false (sub !! depth_of d))]) !! j) = subshell_at j (d :: L).
Proof.
  intros H. cbn [subshell_at].
  assert (Hlen : length (resize (depth_of d) false (take (depth_of d) sub)) = depth_of d).
  { unfold resize. rewrite length_app, length_replicate, !length_take. lia. }
  destruct (depth_of d <? j) eqn:E1; bool_prop.
  - rewrite lookup_ge_None_2; [done|]. rewrite length_app. simpl. lia.
  - destruct (depth_of d =? j) eqn:E2; bool_prop.
    + subst j. rewrite list_lookup_middle by done. simpl. by rewrite H.
    + rewrite lookup_app_l, resize_lookup, decide_True by lia. simpl. apply H.
Qed.

(** A line of the loop is one of the reference, named by its place among them. *)
Definition same_line L (i p : option nat) : Prop :=
  match i, p with
  | Some i, Some p => firsts L !! i = Some p
  | None, None => True
  | _, _ => False
  end.

Lemma same_line_mono d L i p : same_line L i p → same_line (d :: L) i p.
Proof. destruct i, p; try done. simpl. apply lookup_app_l_Some. Qed.

(** The lines so far are the reference's, and what the loop keeps per depth is what the
    reference finds. *)
Record block_ok L (k : Block) : Prop := {
  bo_lines : bk_lines k = line_of <$> ((λ p, members p L) <$> firsts L);
  bo_open : ∀ j, same_line L (mjoin (bk_open k !! j)) (target j L);
  bo_subshell : ∀ j, default false (bk_subshell k !! j) = subshell_at j L;
}.

Lemma open_step L k d inside j :
  (∀ j, same_line L (mjoin (bk_open k !! j)) (target j L)) → length (bk_lines k) = length (firsts L) →
  starts d (target (depth_of d) L) = true → inside = in_subshell d (subshell_at (depth_of d) L) →
  same_line (d :: L) (mjoin (block_open k d inside !! j)) (target j (d :: L)).
Proof.
  intros Ho Hlen Es ->. unfold block_open. cbv zeta. rewrite open_lookup. cbn [target]. rewrite Es.
  destruct (depth_of d <? j); [done|].
  destruct (_ || _); [|by apply same_line_mono].
  apply line_at_starts in Es. destruct (shows d); [|done]. simpl.
  by rewrite Es, bool_decide_eq_true_2, Hlen, list_lookup_middle.
Qed.

Lemma joined_lines L d i p :
  line_at d L = Some p → firsts L !! i = Some p →
  alter (λ l, l ++ joined d) i (line_of <$> ((λ p, members p L) <$> firsts L)) =
  line_of <$> ((λ p, members p (d :: L)) <$> firsts L).
Proof.
  intros Hp Hi. apply list_eq. intros j. rewrite !list_lookup_fmap. destruct (decide (j = i)) as [->|Hji].
  - rewrite list_lookup_alter_eq, !list_lookup_fmap, Hi. simpl.
    rewrite Hp, bool_decide_eq_true_2, line_of_snoc; [done| |done].
    destruct (members_of_first p L) as (d0 & ds & -> & _); [by eapply list_elem_of_lookup_2|done].
  - rewrite list_lookup_alter_ne, !list_lookup_fmap by done.
    destruct (firsts L !! j) as [q|] eqn:Ej; [|done]. simpl. rewrite Hp, bool_decide_eq_false_2, app_nil_r; [done|].
    intros [= <-]. apply Hji. exact (NoDup_lookup _ _ _ _ (firsts_NoDup L) Ej Hi).
Qed.

Lemma block_step_ok L k d : block_ok L k → block_ok (d :: L) (block_step k d).
Proof.
  intros [Hl Ho Hs]. pose proof (Ho (depth_of d)) as Hod.
  assert (Hst : starts d (mjoin (bk_open k !! depth_of d)) = starts d (target (depth_of d) L)).
  { unfold starts. by destruct (inline d), (mjoin (bk_open k !! depth_of d)), (target (depth_of d) L). }
  assert (Hlen : length (bk_lines k) = length (firsts L)) by by rewrite Hl, !length_fmap.
  rewrite block_step_cases, Hst. clear Hst. cbv zeta.
  split; [|intros j|intros j; destruct (starts _ _); by apply subshell_step];
    destruct (starts d (target (depth_of d) L)) eqn:Es; cbn [bk_lines bk_open].
  - apply line_at_starts in Es.
    destruct (groups_step d L) as [(_ & Hh & Hg)|[(_ & Hh & Hg)|(p & Hp & Hh & Hin & _)]]; rewrite Hh in *.
    + by rewrite Hg.
    + rewrite Hg, fmap_app, Hl. simpl. by rewrite app_nil_r.
    + rewrite Es in Hp. injection Hp as <-. by apply not_first in Hin.
  - destruct (groups_step d L) as [(_ & Hh & Hg)|[(Hp & _)|(p & Hp & Hh & Hin & Hf)]].
    + rewrite Hg, Hh. by destruct (mjoin _).
    + apply line_at_spec in Hp as [_ [[Es' _]|(_ & _ & Ht%target_first%not_first)]]; [congruence|done].
    + pose proof (line_at_spec _ _ _ Hp) as [_ [[Es' _]|(_ & _ & Ht)]]; [congruence|].
      rewrite Ht in Hod. destruct (mjoin (bk_open k !! depth_of d)) as [i|]; [|done].
      rewrite Hh, Hf, Hl. exact (joined_lines L d i p Hp Hod).
  - apply open_step; [done..|]. by rewrite Hs.
  - cbn [target]. rewrite Es. by apply same_line_mono.
Qed.

Lemma block_lines_grouped (ds : list Described) : block_lines ds = line_of <$> grouped ds.
Proof.
  assert (H : ∀ l L k, block_ok L k → block_ok (reverse l ++ L) (fold_left block_step l k)).
  { induction l as [|d l IH]; intros L k Hk; [done|]. rewrite reverse_cons, <- app_assoc.
    by apply IH, block_step_ok. }
  destruct (H ds [] {| bk_lines := []; bk_open := []; bk_subshell := [] |}) as [Hl _ _]; [done|].
  by rewrite app_nil_r in Hl.
Qed.

(** C17: the described block is the head and the lines of the reference ([grouped]), in its
    order: a segment joined with [|] or [||] is on the line of the latest segment that
    began or ended one at its depth, or in a subshell just below, and every other begins
    one. So each segment that is not navigation is shown exactly once, the lines come in
    the order of their first segments, and each line is a part of the command in order,
    begun by one segment and continued by joined ones. *)
Theorem block_shows_all (description : str) (segments : list Segment) (data : Summaries) :
  let ds := describe segments data in
  described_block description segments data =
    join [nl] (format ["About to run: "; join " " (split_whitespace description)] ::
               (line_of <$> grouped ds)) ∧
  concat (grouped ds) ≡ₚ List.filter shows ds ∧
  sublist (omap head (grouped ds)) ds ∧
  Forall (λ g, g ≠ [] ∧ sublist g ds ∧ Forall (λ d, is_Some (inline d)) (tail g)) (grouped ds).
Proof.
  cbv zeta. set (ds := describe segments data).
  pose proof (groups_all (reverse ds)) as Ha. pose proof (groups_heads (reverse ds)) as Hh.
  rewrite reverse_involutive in Ha, Hh. split_and!; [|done|done|].
  - unfold described_block. by rewrite block_lines_grouped.
  - unfold grouped. apply Forall_fmap, Forall_forall. intros p Hp. simpl. split_and!.
    + destruct (members_of_first p _ Hp) as (d & g & -> & _). done.
    + rewrite <- (reverse_involutive ds) at 2. apply members_sublist.
    + destruct (members_of_first p _ Hp) as (d & g & -> & Hg). done.
Qed.

End describe.
