(* ===== verification/Float64.v ===== *)
(** * 64-bit floats

    Rust's [f64] as the Standard Library's [spec_float] at precision 53 and
    exponent range 1024: the same values and the same rounding to nearest even.
    [{:.k}] prints the exact value rounded half to even at [k] decimals. *)

From Stdlib Require Import Ascii ZArith Floats.SpecFloat.
From stdpp Require Import base tactics list numbers strings option.
From S2P Require Import Prelude RustStr.

Abbreviation f64 := spec_float.

Definition f64_add : f64 → f64 → f64 := SFadd 53 1024.
Definition f64_mul : f64 → f64 → f64 := SFmul 53 1024.
Definition f64_div : f64 → f64 → f64 := SFdiv 53 1024.

(** [n as f64] for an unsigned [n]. *)
Definition f64_of_N (n : N) : f64 := binary_normalize 53 1024 (Z.of_N n) 0 false.

(** A decimal literal, [num / den] with both exact: the quotient rounds once, as the
    literal does. *)
Definition f64_lit (num den : N) : f64 := f64_div (f64_of_N num) (f64_of_N den).

Definition f64_zero : f64 := S754_zero false.
Definition f64_1e6 : f64 := f64_of_N 1000000.

(** [a >= b] and [a == b], false on a NaN. *)
Definition f64_ge (a b : f64) : bool := SFleb b a.
Definition f64_eqb (a b : f64) : bool := SFeqb a b.

#[export] Instance f64_eq_dec : EqDecision f64.
Proof. solve_decision. Defined.

(** [x.floor() as u64]: saturating, and zero on a NaN. *)
Definition f64_floor_u64 (x : f64) : N :=
  match x with
  | S754_finite false m e =>
    N.min u64_max (match e with
                   | Z0 => N.pos m
                   | Zpos p => N.shiftl (N.pos m) (N.pos p)
                   | Zneg p => N.shiftr (N.pos m) (N.pos p)
                   end)
  | S754_infinity false => u64_max
  | _ => 0%N
  end.

(** [n / d] to the nearest integer, a tie to the even one. *)
Definition div_half_even (n d : N) : N :=
  let q := (n / d)%N in
  match (2 * (n mod d) ?= d)%N with
  | Lt => q
  | Gt => (q + 1)%N
  | Eq => if N.even q then q else (q + 1)%N
  end.

(** [m * 2^e] at [k] decimals, as an integer number of [10^-k]. *)
Definition scaled (k : nat) (m : positive) (e : Z) : N :=
  let n := (N.pos m * 10 ^ N.of_nat k)%N in
  match e with
  | Z0 => n
  | Zpos p => N.shiftl n (N.pos p)
  | Zneg p => div_half_even n (N.shiftl 1 (N.pos p))
  end.

Definition show_fixed (k : nat) (n : N) : str :=
  match k with
  | 0 => show_N n
  | _ => show_N (n / 10 ^ N.of_nat k) ++ "." ++ show_pad k (n mod 10 ^ N.of_nat k)
  end.

(** [format!("{x:.k}")] *)
Definition f64_fixed (k : nat) (x : f64) : str :=
  let sign (s : bool) : str := if s then "-" else [] in
  match x with
  | S754_nan => "NaN"
  | S754_infinity s => sign s ++ "inf"
  | S754_zero s => sign s ++ show_fixed k 0
  | S754_finite s m e => sign s ++ show_fixed k (scaled k m e)
  end.

Example fixed_tie_to_even :
  (f64_fixed 2 (f64_lit 1 8), f64_fixed 1 (f64_lit 3 4), f64_fixed 2 (f64_lit 1005 1000)) =
  (lit "0.12", lit "0.8", lit "1.00").
Proof. reflexivity. Qed.
