(* ===== verification/KeepwarmBase.v ===== *)
(** * Keepwarm: prices, durations, files and readings

    The part of [tools/sensor-keepwarm/src/lib.rs] before the state: the price
    table, what the lines print, the arm file and the ledger with the keepalive
    policy's part of it ([policy.rs]), the reading of a transcript, and the wake
    gate's judgment of it. A file is modelled by the value it holds. *)

From Stdlib Require Import Ascii ZArith Floats.SpecFloat.
From stdpp Require Import base tactics list numbers strings option.
From S2P Require Import Prelude RustStr Float64.

Definition TTL_SECS : N := 60 * 60.
Definition PING_AFTER_SECS : N := 50 * 60.
Definition AUTO_WARM_SECS : N := 3 * 60 * 60.
Definition DEFAULT_WINDOW_SECS : N := 6 * 60 * 60.
Definition BIG_TOKENS : N := 50000.
Definition MISS_FLOOR_TOKENS : N := 20000.
Definition GATE_MARGIN_SECS : N := 120.
Definition TTL_5M_SECS : N := 5 * 60.

(** ** Prices *)

Record Price := {
  pr_read : f64;
  pr_write_1h : f64;
  pr_output : f64;
}.

Definition price (read write_1h output : f64) : Price :=
  {| pr_read := read; pr_write_1h := write_1h; pr_output := output |}.

Definition PRICES : list (str * Price) := [
  (lit "fable-5-1", price (f64_lit 25 100) (f64_of_N 20) (f64_of_N 50));
  (lit "fable-5", price (f64_of_N 1) (f64_of_N 20) (f64_of_N 50));
  (lit "opus-5", price (f64_lit 5 10) (f64_of_N 10) (f64_of_N 25));
  (lit "opus-4", price (f64_lit 5 10) (f64_of_N 10) (f64_of_N 25));
  (lit "sonnet-5", price (f64_lit 2 10) (f64_of_N 4) (f64_of_N 10));
  (lit "sonnet", price (f64_lit 3 10) (f64_of_N 6) (f64_of_N 15));
  (lit "haiku-5", price (f64_lit 1 100) (f64_lit 2 10) (f64_lit 5 10));
  (lit "haiku", price (f64_lit 1 10) (f64_of_N 2) (f64_of_N 5))
].

Section prices.
Context {U : Unicode}.

Definition price_of (model : str) : option Price :=
  let m := map (λ c, if (c =?a "."%char) || (c =?a " "%char) then "-"%char else c)
               (to_lowercase model) in
  snd <$> find (λ row, contains (fst row) m) PRICES.

End prices.

Definition fmt_usd (usd : option f64) : str :=
  match usd with
  | None => "n/a"
  | Some u => if f64_ge u (f64_of_N 100) then format ["$"; f64_fixed 0 u]
              else format ["$"; f64_fixed 2 u]
  end.

Definition fmt_tok (n : N) : str :=
  if (1000000 <=? n)%N then format [f64_fixed 1 (f64_div (f64_of_N n) f64_1e6); "M"]
  else if (1000 <=? n)%N then format [show_N (u64_add n 500 / 1000); "k"]
  else show_N n.

Definition fmt_duration (secs : N) : str :=
  let total := (u64_add secs 30 / 60)%N in
  let h := (total / 60)%N in
  let m := (total mod 60)%N in
  if (48 <=? h)%N then format [show_N (h / 24); "d "; show_N (h mod 24); "h"]
  else if (0 <? h)%N then format [show_N h; "h"; show_pad 2 m; "m"]
  else format [show_N m; "m"].

Definition parse_duration (text : str) : option N :=
  let t := trim text in
  match t with
  | [] => None
  | _ =>
    '(hours, rest) ← match split_once "h"%char t with
                     | Some (h, rest) =>
                       n ← parse_unsigned u64_max h; Some (Some n, rest)
                     | None => Some (None, t)
                     end;
    minutes ← match rest with
              | [] => Some None
              | _ => r ← strip_suffix "m" rest;
                     n ← parse_unsigned u64_max r; Some (Some n)
              end;
    match hours, minutes with
    | None, None => None
    | _, _ => Some (u64_add (u64_mul (default 0 hours) 3600) (u64_mul (default 0 minutes) 60))%N
    end
  end.

(** ** The arm file and the ledger *)

Record ArmFile := {
  af_deadline : N;
  af_armed_at : N;
  af_window_secs : N;
  af_auto : bool;
}.

Record Miss := {
  ms_at : N;
  ms_tokens : N;
  ms_usd : option f64;
}.

Record PingRecord := {
  pg_at : N;
  pg_read : N;
  pg_write : N;
  pg_usd : option f64;
  pg_warm : bool;
}.

Module SkillSeen.

Inductive t : Type :=
  | Listed
  | Missing
  | Unread.

#[global] Instance eq_dec : EqDecision t.
Proof. solve_decision. Defined.

End SkillSeen.

(** [policy::Policy]: the keepalive policy's part of the ledger. *)
Record Policy := {
  po_count : N;
  po_operator_at : option N;
  po_stretch_from : option N;
  po_wrapped_at : option N;
  po_stopped : option str;
  po_wrap_outcome : option str;
  po_gate : option str;
  po_pending : bool;
  po_spent_usd : f64;
  po_after_count : N;
  po_compact_focus : option str;
  po_compacted_at : option N;
  po_compact_failed : option str;
  po_skill_seen : option SkillSeen.t;
  po_old_host : bool;
}.

Definition Policy_default : Policy := {|
  po_count := 0; po_operator_at := None; po_stretch_from := None; po_wrapped_at := None;
  po_stopped := None; po_wrap_outcome := None; po_gate := None; po_pending := false;
  po_spent_usd := f64_zero; po_after_count := 0; po_compact_focus := None;
  po_compacted_at := None; po_compact_failed := None; po_skill_seen := None;
  po_old_host := false;
|}.

Record Cursor := {
  cu_last_seen_at : N;
  cu_ctx : N;
  cu_model : str;
  cu_deadline : N;
}.

Record Ledger := {
  le_misses : list Miss;
  le_last_ping : option PingRecord;
  le_stopped : option str;
  le_pinged_at : option N;
  le_updated_at : N;
  le_cursor : option Cursor;
  le_policy : Policy;
}.

Definition Ledger_default : Ledger := {|
  le_misses := []; le_last_ping := None; le_stopped := None; le_pinged_at := None;
  le_updated_at := 0; le_cursor := None; le_policy := Policy_default;
|}.

#[export] Instance Price_eq_dec : EqDecision Price.
Proof. solve_decision. Defined.
#[export] Instance PingRecord_eq_dec : EqDecision PingRecord.
Proof. solve_decision. Defined.

(** ** Readings *)

Record UsageEntry := {
  ue_at_epoch : N;
  ue_model : str;
  ue_input : N;
  ue_cache_read : N;
  ue_cache_creation : N;
  ue_output : N;
  ue_tier : str;
}.

(** [UsageEntry::context] and [UsageEntry::ttl_secs] *)
Definition context (u : UsageEntry) : N :=
  u64_add (u64_add (ue_input u) (ue_cache_read u)) (ue_cache_creation u).
Definition ttl_secs (u : UsageEntry) : N :=
  if str_eqb (ue_tier u) "5m" then TTL_5M_SECS else TTL_SECS.

Record Reading := {
  rd_tokens_used : N;
  rd_model : str;
  rd_method : str;
  rd_usage_tail : list UsageEntry;
}.

Definition last_entry (r : Reading) : option UsageEntry := list.last (rd_usage_tail r).

(** [Reading::last_at] *)
Definition last_at (r : Reading) : N :=
  match last_entry r with Some u => ue_at_epoch u | None => 0%N end.

Definition cache_lapsed (reading : option Reading) (now : N) : bool :=
  match r ← reading; last_entry r with
  | Some last =>
    if (0 <? ue_at_epoch last)%N
    then (ttl_secs last - GATE_MARGIN_SECS <=? now - ue_at_epoch last)%N
    else true
  | None => true
  end.

Definition wake_gate_lapsed (reading : option Reading) (now : N) : bool :=
  match reading with
  | Some r =>
    match rd_usage_tail r with
    | [] => if str_eqb (rd_method r) "api" then cache_lapsed reading now else false
    | _ => cache_lapsed reading now
    end
  | None => cache_lapsed reading now
  end.

(** [session_cache_lapsed]: [transcript] is whether the session has one, and
    [reading] what [ways context] gave. *)
Definition session_cache_lapsed (transcript : bool) (reading : option Reading) (now : N) : bool :=
  if transcript then wake_gate_lapsed reading now else false.
