(* ===== verification/KeepwarmWindows.v ===== *)
(** * The keepalive windows

    [tools/sensor-keepwarm/src/windows.rs]: entries [<days> <HH:MM>-<HH:MM>], their
    parser, and whether a time falls inside one. The time zones are the [jiff]
    crate's: the class [Jiff] is what the code relies on. *)

From Stdlib Require Import Ascii ZArith.
From stdpp Require Import base tactics list numbers strings option.
From S2P Require Import Prelude RustStr.

(** ** Time zones *)

Record Civil := {
  cv_year : Z;
  cv_month : N;
  cv_day : N;
  cv_weekday : N;
  cv_hour : N;
  cv_minute : N;
}.

(** What the crate gives: a zone by name, the host's zone (UTC where the host has
    none), and the civil time of an epoch second in a zone, absent out of range.
    The weekday counts from Monday 0. *)
Class Jiff := {
  TimeZone : Type;
  tz_get : str → option TimeZone;
  tz_system : TimeZone;
  civil_of : TimeZone → Z → option Civil;
  civil_ok tz e c : civil_of tz e = Some c →
    (cv_weekday c < 7 ∧ cv_hour c < 24 ∧ cv_minute c < 60)%N;
}.

(** [epoch as i64] *)
Definition as_i64 (n : N) : Z :=
  if (n <? 9223372036854775808)%N then Z.of_N n else (Z.of_N n - 18446744073709551616)%Z.

(** ** One window *)

Module Window.

Record t := {
  wi_days : N;
  wi_start : N;
  wi_end : N;
  wi_text : str;
}.

(** The minute [m] of weekday [day] is inside. *)
Definition contains (w : t) (day m : N) : bool :=
  let on d := negb (N.land (wi_days w) (N.shiftl 1 d) =? 0)%N in
  if (wi_start w <? wi_end w)%N then
    on day && (wi_start w <=? m)%N && (m <? wi_end w)%N
  else
    (on day && (wi_start w <=? m)%N) || (on ((day + 6) mod 7)%N && (m <? wi_end w)%N).

End Window.

Definition DAYS : list str := ["mon"; "tue"; "wed"; "thu"; "fri"; "sat"; "sun"].
Definition DEFAULT_WINDOW : str := "daily 00:00-24:00".

Definition day_index (s : str) : option N :=
  N.of_nat <$> position (λ d, str_eqb d (to_ascii_lowercase s)) DAYS.

(** The loop of [parse_days] from day [d] to day [b]: at most seven days. *)
Fixpoint days_mask (fuel : nat) (d b mask : N) : res N :=
  match fuel with
  | 0 => NoFuel
  | S fuel =>
    let mask := N.lor mask (N.shiftl 1 d) in
    if (d =? b)%N then Ok mask else days_mask fuel ((d + 1) mod 7)%N b mask
  end.

Definition bad_day (a : str) : str :=
  format ["`"; a; "` is not a day (Mon to Sun, or daily)"].

(** A parse gives the value or the reason it is refused. *)
Definition parse_days (s : str) : res (N + str) :=
  if eq_ignore_ascii_case s "daily" then Ok (inl 127%N)
  else
    let '(a, b) := match split_once "-"%char s with
                   | Some ab => ab
                   | None => (s, s)
                   end in
    match day_index a with
    | None => Ok (inr (bad_day a))
    | Some ai =>
      match day_index b with
      | None => Ok (inr (bad_day b))
      | Some bi => mask ← days_mask 7 ai bi 0; Ok (inl mask)
      end
    end.

Definition u16_max : N := 65535.

Definition parse_time (s : str) (is_end : bool) : N + str :=
  let bad := inr (format ["`"; s; "` is not a time (HH:MM)"]) in
  match split_once ":"%char s with
  | None => bad
  | Some (h, m) =>
    if (length h =? 0) || (2 <? length h) || negb (length m =? 2) then bad
    else
      match parse_unsigned u16_max h with
      | None => bad
      | Some h =>
        match parse_unsigned u16_max m with
        | None => bad
        | Some m =>
          if (59 <? m)%N then bad
          else
            let t := (h * 60 + m)%N in
            if (t =? 1440)%N then
              if is_end then inl t else inr (lit "24:00 only closes a window")
            else if (1440 <? t)%N then bad
            else inl t
        end
      end
  end.

Definition parse_window (text : str) : res (Window.t + str) :=
  let t := split_whitespace text in
  match t with
  | [days; span] =>
    days ← parse_days days;
    match days with
    | inr why => Ok (inr why)
    | inl days =>
      match split_once "-"%char span with
      | None => Ok (inr (lit "the times are `<HH:MM>-<HH:MM>`"))
      | Some (a, b) =>
        match parse_time a false with
        | inr why => Ok (inr why)
        | inl start =>
          match parse_time b true with
          | inr why => Ok (inr why)
          | inl stop =>
            if (start =? stop)%N then
              Ok (inr (lit "the window is empty: its end is its start"))
            else Ok (inl {| Window.wi_days := days; Window.wi_start := start; Window.wi_end := stop;
                            Window.wi_text := join " " t |})
          end
        end
      end
    end
  | _ => Ok (inr (lit "an entry is `<days> <HH:MM>-<HH:MM>`"))
  end.

(** ** The windows in force *)

Module Windows.

Section windows.
Context {J : Jiff}.

Record t := {
  ws_list : list Window.t;
  ws_dropped : list (str * str);
  ws_tz : TimeZone;
  ws_bad_zone : option str;
}.

Definition zone_of (name : str) : TimeZone * option str :=
  let name := trim name in
  match name with
  | [] => (tz_system, None)
  | _ =>
    match tz_get name with
    | Some tz => (tz, None)
    | None => (tz_system, Some name)
    end
  end.

Fixpoint parse_entries (entries : list str) : res (list Window.t * list (str * str)) :=
  match entries with
  | [] => Ok ([], [])
  | e :: entries =>
    r ← parse_window e;
    '(list, dropped) ← parse_entries entries;
    match r with
    | inl w => Ok (w :: list, dropped)
    | inr why => Ok (list, (e, why) :: dropped)
    end
  end.

Definition parse (entries : list str) (zone : str) : res t :=
  '(list, dropped) ← parse_entries entries;
  let '(tz, bad_zone) := zone_of zone in
  Ok {| ws_list := list; ws_dropped := dropped; ws_tz := tz; ws_bad_zone := bad_zone |}.

(** [Windows::civil]: weekday and minute of the day. *)
Definition civil (w : t) (epoch : N) : option (N * N) :=
  c ← civil_of (ws_tz w) (as_i64 epoch);
  Some (cv_weekday c, cv_hour c * 60 + cv_minute c)%N.

Definition contains (w : t) (epoch : N) : bool :=
  match civil w epoch with
  | None => false
  | Some (day, m) => existsb (λ w, Window.contains w day m) (ws_list w)
  end.

Definition hm (w : t) (epoch : N) : str :=
  match civil_of (ws_tz w) (as_i64 epoch) with
  | Some c => format [show_pad 2 (cv_hour c); ":"; show_pad 2 (cv_minute c)]
  | None => "--:--"
  end.

(** A signed number padded to [w] bytes, the sign included. *)
Definition show_pad_Z (w : nat) (z : Z) : str :=
  if (z <? 0)%Z then "-" ++ show_pad (w - 1) (Z.to_N (- z)) else show_pad w (Z.to_N z).

Definition date (w : t) (epoch : N) : str :=
  match civil_of (ws_tz w) (as_i64 epoch) with
  | Some c => format [show_pad_Z 4 (cv_year c); "-"; show_pad 2 (cv_month c); "-";
                      show_pad 2 (cv_day c)]
  | None => "0000-00-00"
  end.

Definition describe (w : t) : str :=
  match ws_list w with
  | [] => "none"
  | l => join ", " (Window.wi_text <$> l)
  end.

End windows.

End Windows.
