(* ===== verification/Keepwarm.v ===== *)
(** * The keepwarm state and its step

    [tools/sensor-keepwarm/src/lib.rs] from [State] on: one poll's decision
    ([step_with]), the ledger it leaves, settling it on disk, the two callers
    ([check_once] and the sensor's [poll_with]) and the status card. A method of
    [&mut self] gives the new state beside its result. The disk of a session is its
    arm file and its ledger; a write the system refuses leaves it as it was. *)

From Stdlib Require Import Ascii ZArith Floats.SpecFloat.
From stdpp Require Import base tactics list numbers strings option.
From S2P Require Import Prelude RustStr Float64 KeepwarmBase.

(** ** State *)

Record State := {
  st_deadline : N;
  st_baselined : bool;
  st_last_seen_at : N;
  st_ctx : N;
  st_model : str;
  st_pinged_at : option N;
  st_misses : list Miss;
  st_last_ping : option PingRecord;
  st_stopped : option str;
  st_policy : Policy;
}.

Definition State_default : State := {|
  st_deadline := 0; st_baselined := false; st_last_seen_at := 0; st_ctx := 0; st_model := [];
  st_pinged_at := None; st_misses := []; st_last_ping := None; st_stopped := None;
  st_policy := Policy_default;
|}.

(** The idle clock: where the last step left the transcript. *)
Definition set_clock (base : bool) (at_ ctx : N) (model : str) (s : State) : State := {|
  st_deadline := st_deadline s; st_baselined := base; st_last_seen_at := at_; st_ctx := ctx;
  st_model := model; st_pinged_at := st_pinged_at s; st_misses := st_misses s;
  st_last_ping := st_last_ping s; st_stopped := st_stopped s; st_policy := st_policy s;
|}.
(** The arm: deadline, wake in flight and stop. *)
Definition set_arm (deadline : N) (pinged : option N) (stopped : option str) (s : State) : State := {|
  st_deadline := deadline; st_baselined := st_baselined s; st_last_seen_at := st_last_seen_at s;
  st_ctx := st_ctx s; st_model := st_model s; st_pinged_at := pinged;
  st_misses := st_misses s; st_last_ping := st_last_ping s; st_stopped := stopped;
  st_policy := st_policy s;
|}.
Definition set_pinged (p : option N) (s : State) : State :=
  set_arm (st_deadline s) p (st_stopped s) s.
Definition set_deadline (d : N) (s : State) : State :=
  set_arm d (st_pinged_at s) (st_stopped s) s.
Definition set_ctx (c : N) (s : State) : State :=
  set_clock (st_baselined s) (st_last_seen_at s) c (st_model s) s.
Definition set_model (m : str) (s : State) : State :=
  set_clock (st_baselined s) (st_last_seen_at s) (st_ctx s) m s.
(** The scores: misses and the last wake's verdict. *)
Definition set_scores (misses : list Miss) (ping : option PingRecord) (s : State) : State := {|
  st_deadline := st_deadline s; st_baselined := st_baselined s;
  st_last_seen_at := st_last_seen_at s; st_ctx := st_ctx s; st_model := st_model s;
  st_pinged_at := st_pinged_at s; st_misses := misses; st_last_ping := ping;
  st_stopped := st_stopped s; st_policy := st_policy s;
|}.
Definition set_policy (p : Policy) (s : State) : State := {|
  st_deadline := st_deadline s; st_baselined := st_baselined s;
  st_last_seen_at := st_last_seen_at s; st_ctx := st_ctx s; st_model := st_model s;
  st_pinged_at := st_pinged_at s; st_misses := st_misses s; st_last_ping := st_last_ping s;
  st_stopped := st_stopped s; st_policy := p;
|}.

(** What one poll decided. *)
Record Outcome := {
  oc_observations : list (f64 * str);
  oc_logs : list str;
  oc_arm_write : option N;
  oc_auto_arm : bool;
  oc_changed : bool;
}.

Definition Outcome_default : Outcome := {|
  oc_observations := []; oc_logs := []; oc_arm_write := None; oc_auto_arm := false;
  oc_changed := false;
|}.

Definition set_changed (o : Outcome) : Outcome := {|
  oc_observations := oc_observations o; oc_logs := oc_logs o; oc_arm_write := oc_arm_write o;
  oc_auto_arm := oc_auto_arm o; oc_changed := true;
|}.
Definition log (line : str) (o : Outcome) : Outcome := {|
  oc_observations := oc_observations o; oc_logs := oc_logs o ++ [line];
  oc_arm_write := oc_arm_write o; oc_auto_arm := oc_auto_arm o; oc_changed := oc_changed o;
|}.
Definition set_arm_write (d : N) (o : Outcome) : Outcome := {|
  oc_observations := oc_observations o; oc_logs := oc_logs o; oc_arm_write := Some d;
  oc_auto_arm := oc_auto_arm o; oc_changed := oc_changed o;
|}.
Definition set_auto_arm (o : Outcome) : Outcome := {|
  oc_observations := oc_observations o; oc_logs := oc_logs o; oc_arm_write := oc_arm_write o;
  oc_auto_arm := true; oc_changed := oc_changed o;
|}.
Definition observe (v : f64) (line : str) (o : Outcome) : Outcome := {|
  oc_observations := oc_observations o ++ [(v, line)]; oc_logs := oc_logs o;
  oc_arm_write := oc_arm_write o; oc_auto_arm := oc_auto_arm o; oc_changed := oc_changed o;
|}.

Definition from_ledger (ledger : option Ledger) : State :=
  match ledger with
  | Some l => {|
      st_deadline := 0; st_baselined := false; st_last_seen_at := 0; st_ctx := 0;
      st_model := []; st_pinged_at := le_pinged_at l; st_misses := le_misses l;
      st_last_ping := le_last_ping l; st_stopped := le_stopped l; st_policy := le_policy l;
    |}
  | None => State_default
  end.

Definition resume (ledger : option Ledger) : State :=
  let cursor := l ← ledger; le_cursor l in
  let s := from_ledger ledger in
  match cursor with
  | Some c => set_deadline (cu_deadline c)
                (set_clock true (cu_last_seen_at c) (cu_ctx c) (cu_model c) s)
  | None => s
  end.

Definition is_cold (s : State) (now : N) : bool :=
  (0 <? st_last_seen_at s)%N && (TTL_SECS <=? now - st_last_seen_at s)%N.

(** [State::ledger] *)
Definition ledger (s : State) (now : N) : Ledger := {|
  le_misses := st_misses s;
  le_last_ping := st_last_ping s;
  le_stopped := st_stopped s;
  le_pinged_at := st_pinged_at s;
  le_updated_at := now;
  le_policy := st_policy s;
  le_cursor := if st_baselined s then
      Some {| cu_last_seen_at := st_last_seen_at s; cu_ctx := st_ctx s;
              cu_model := st_model s; cu_deadline := st_deadline s |}
    else None;
|}.

Definition wake_line (idle ttl ctx : N) : str :=
  format ["keepwarm: "; fmt_duration idle; " idle, the prompt cache lapses in ";
          fmt_duration (ttl - idle); " on "; fmt_tok ctx;
          " tokens. Reply with one word and no tools."].

(** ** The step *)

(** A step's state and what it has decided so far. *)
Definition Stepped : Type := State * Outcome.

Definition disarm (why : option str) '((s, o) : Stepped) : Stepped :=
  (set_arm 0 None why s, set_changed (set_arm_write 0 o)).

(** The arm file is the operator's word. *)
Definition sync_arm (file_deadline now : N) (s : State) : Stepped :=
  if (file_deadline =? st_deadline s)%N then (s, Outcome_default)
  else
    let pinged := if (now <? file_deadline)%N then st_pinged_at s else None in
    (set_arm file_deadline pinged None s, set_changed Outcome_default).

Section step.
Context {U : Unicode}.

Definition cold_usd (s : State) : option f64 :=
  (λ p, f64_div (f64_mul (f64_of_N (st_ctx s)) (pr_write_1h p)) f64_1e6) <$> price_of (st_model s).
Definition warm_usd (s : State) : option f64 :=
  (λ p, f64_div (f64_mul (f64_of_N (st_ctx s)) (pr_read p)) f64_1e6) <$> price_of (st_model s).

(** The first step: the clock starts at the transcript as it is. *)
Definition baseline (reading : Reading) (now : N) '((s, o) : Stepped) : Stepped :=
  let s := set_clock true (last_at reading) (rd_tokens_used reading) (rd_model reading) s in
  let '(s, o) :=
    match st_pinged_at s with
    | Some p => if (p <=? st_last_seen_at s)%N then (set_pinged None s, set_changed o) else (s, o)
    | None => (s, o)
    end in
  (s, log (format ["baseline: "; fmt_tok (st_ctx s); " tokens, last request ";
                   fmt_duration (now - st_last_seen_at s); " ago, ";
                   if (now <? st_deadline s)%N
                   then format ["armed for "; fmt_duration (st_deadline s - now)]
                   else "off"]) o).

(** Whether [entry] rewrote the prefix of a context of [prior] tokens. *)
Definition rewrote (prior : N) (entry : UsageEntry) : bool :=
  (MISS_FLOOR_TOKENS <? prior)%N && (prior / 2 <=? ue_cache_creation entry)%N &&
  (ue_cache_read entry <? prior / 2)%N.

(** A paid cold write: scored, and armed against where [auto_arm] allows. *)
Definition score_miss (auto_arm : bool) (now : N) (entry : UsageEntry) '((s, o) : Stepped)
    : Stepped :=
  let usd := (λ p, f64_div (f64_mul (f64_of_N (ue_cache_creation entry)) (pr_write_1h p)) f64_1e6)
               <$> price_of (st_model s) in
  let s := set_scores
    (st_misses s ++ [{| ms_at := ue_at_epoch entry; ms_tokens := ue_cache_creation entry;
                        ms_usd := usd |}]) (st_last_ping s) s in
  let o := set_changed o in
  let line := format ["cold write of "; fmt_tok (ue_cache_creation entry); " tokens paid (";
                      fmt_usd usd; ")"] in
  let until := u64_add (ue_at_epoch entry) AUTO_WARM_SECS in
  if auto_arm && (BIG_TOKENS <=? context entry)%N && (now <? until)%N && (st_deadline s <? until)%N
  then
    (set_arm until (st_pinged_at s) None s,
     log (line ++ format [", keeping the cache warm for "; fmt_duration (until - now);
                          " so it is not paid again today"])
       (set_auto_arm (set_arm_write until o)))
  else (s, log line o).

(** The verdict of a wake, from the first request after it. *)
Definition score_ping (prior : N) (entry : UsageEntry) '((s, o) : Stepped) : Stepped :=
  match st_pinged_at s with
  | Some pinged =>
    if (pinged <=? ue_at_epoch entry)%N then
      let warm := (0 <? prior)%N && (prior / 2 <=? ue_cache_read entry)%N in
      let usd := (λ p,
        f64_div
          (f64_add
            (f64_add
              (f64_add (f64_mul (f64_of_N (ue_cache_read entry)) (pr_read p))
                       (f64_mul (f64_of_N (ue_cache_creation entry)) (pr_write_1h p)))
              (f64_div (f64_mul (f64_of_N (ue_input entry)) (pr_write_1h p)) (f64_of_N 2)))
            (f64_mul (f64_of_N (ue_output entry)) (pr_output p)))
          f64_1e6) <$> price_of (st_model s) in
      let s := set_pinged None (set_scores (st_misses s)
        (Some {| pg_at := ue_at_epoch entry; pg_read := ue_cache_read entry;
                 pg_write := ue_cache_creation entry; pg_usd := usd; pg_warm := warm |}) s) in
      let o := set_changed o in
      if warm then
        (s, log (format ["wake read "; fmt_tok (ue_cache_read entry); " tokens from cache (";
                         fmt_usd usd; ")"]) o)
      else
        let why := format ["the wake read "; fmt_tok (ue_cache_read entry); " and wrote ";
                           fmt_tok (ue_cache_creation entry); " tokens ("; fmt_usd usd;
                           "), the cache was already gone"] in
        disarm (Some why) (s, log (format ["stopped: "; why]) o)
    else (s, o)
  | None => (s, o)
  end.

(** One new request of the transcript. *)
Definition score_entry (auto_arm : bool) (now : N) '((s, o) : Stepped) (entry : UsageEntry)
    : Stepped :=
  let prior := st_ctx s in
  let s := match ue_model entry with [] => s | m => set_model m s end in
  let so := if rewrote prior entry then score_miss auto_arm now entry (s, o) else (s, o) in
  let '(s, o) := score_ping prior entry so in
  (set_clock (st_baselined s) (ue_at_epoch entry) (context entry) (st_model s) s, o).

Definition window_end (now : N) '((s, o) : Stepped) : Stepped :=
  if (0 <? st_deadline s)%N && (st_deadline s <=? now)%N
  then disarm None (s, log "window ended" o) else (s, o).

(** A wake that produced no turn. *)
Definition wake_unanswered (now : N) '((s, o) : Stepped) : Stepped :=
  match st_pinged_at s with
  | Some pinged =>
    if (TTL_SECS - PING_AFTER_SECS <? now - pinged)%N then
      let why := lit "the wake produced no turn within ten minutes" in
      disarm (Some why) (s, log (format ["stopped: "; why]) o)
    else (s, o)
  | None => (s, o)
  end.

(** The wake, or the stop where its time has passed. *)
Definition wake (now : N) '((s, o) : Stepped) : Stepped :=
  if (now <? st_deadline s)%N && negb (bool_decide (is_Some (st_pinged_at s))) &&
     (0 <? st_last_seen_at s)%N
  then
    let idle := (now - st_last_seen_at s)%N in
    if (TTL_SECS <=? idle)%N then
      let why := format ["the cache lapsed "; fmt_duration (idle - TTL_SECS);
                         " ago, before a wake could fire"] in
      disarm (Some why) (s, log (format ["stopped: "; why]) o)
    else if (PING_AFTER_SECS <=? idle)%N && (BIG_TOKENS <=? st_ctx s)%N then
      (set_pinged (Some now) s,
       observe (f64_of_N 3) (wake_line idle TTL_SECS (st_ctx s)) (set_changed o))
    else (s, o)
  else (s, o).

Definition file_deadline (arm : option ArmFile) : N :=
  match arm with Some a => af_deadline a | None => 0%N end.

(** The requests past the clock, and the state after scoring them. *)
Definition score (auto_arm : bool) (reading : Reading) (now : N) '((s, o) : Stepped) : Stepped :=
  let cutoff := st_last_seen_at s in
  let '(s, o) := fold_left (score_entry auto_arm now)
    (List.filter (λ u, (cutoff <? ue_at_epoch u)%N) (rd_usage_tail reading)) (s, o) in
  if (0 <? rd_tokens_used reading)%N then (set_ctx (rd_tokens_used reading) s, o) else (s, o).

Definition step_with (s : State) (reading : Reading) (arm : option ArmFile) (now : N)
    (auto_arm : bool) : Stepped :=
  let so := sync_arm (file_deadline arm) now s in
  if negb (st_baselined (fst so)) then baseline reading now so
  else wake now (wake_unanswered now (window_end now (score auto_arm reading now so))).

Definition step (s : State) (reading : Reading) (arm : option ArmFile) (now : N) : Stepped :=
  step_with s reading arm now true.

(** ** The card *)

Definition card_state (reading : Reading) (arm : option ArmFile) (ledger : option Ledger) : State :=
  let l := default Ledger_default ledger in {|
    st_baselined := true;
    st_last_seen_at := last_at reading;
    st_ctx := rd_tokens_used reading;
    st_model := rd_model reading;
    st_deadline := file_deadline arm;
    st_misses := le_misses l;
    st_last_ping := le_last_ping l;
    st_stopped := le_stopped l;
    st_pinged_at := le_pinged_at l;
    st_policy := le_policy l;
  |}.

Definition keepwarm_text (s : State) (now : N) : str :=
  if (now <? st_deadline s)%N then
    let next :=
      match st_pinged_at s with
      | Some _ => lit " · waiting for the wake's turn"
      | None =>
        if (0 <? st_last_seen_at s)%N then
          format [" · wake in "; fmt_duration (u64_add (st_last_seen_at s) PING_AFTER_SECS - now)]
        else []
      end in
    let last :=
      match st_last_ping s with
      | Some p => format [" · last wake read "; fmt_tok (pg_read p); " "; fmt_usd (pg_usd p)]
      | None => []
      end in
    format ["armed, "; fmt_duration (st_deadline s - now); " left"; next; last]
  else
    match st_stopped s with
    | Some why => format ["stopped, "; why]
    | None => format ["not armed (attend keepwarm on arms it for ";
                      fmt_duration DEFAULT_WINDOW_SECS; ")"]
    end.

(** What the misses cost, summed in order. *)
Definition paid (misses : list Miss) : f64 :=
  fold_left f64_add (omap ms_usd misses) f64_zero.

Definition card (reading : Reading) (arm : option ArmFile) (ledger : option Ledger) (now : N)
    : list str :=
  let s := card_state reading arm ledger in
  [format ["model       "; match st_model s with [] => lit "not seen yet" | m => m end];
   if (st_last_seen_at s =? 0)%N then lit "state       no request yet this session"
   else if is_cold s now then
     format ["state       COLD, last request "; fmt_duration (u64_sub now (st_last_seen_at s)); " ago"]
   else
     format ["state       warm, ";
             fmt_duration (u64_sub (u64_add (st_last_seen_at s) TTL_SECS) now); " left"];
   format ["context     "; show_N (st_ctx s); " tokens"];
   format ["cold cost   "; fmt_usd (cold_usd s); " to re-write it (warm turn ";
           fmt_usd (warm_usd s); ")"];
   format ["keepwarm    "; keepwarm_text s now]] ++
  match price_of (st_model s) with
  | Some p =>
    let pings := f64_floor_u64 (f64_div (pr_write_1h p) (pr_read p)) in
    [format ["break-even  up to "; show_N pings;
             " wakes at the read rate cost one cold write, about ";
             fmt_duration (u64_mul pings PING_AFTER_SECS); " of idle at one wake per ";
             fmt_duration PING_AFTER_SECS]]
  | None => []
  end ++
  [format ["session     "; show_N (N.of_nat (length (st_misses s))); " cold write";
           if length (st_misses s) =? 1 then [] else lit "s"; " paid, ";
           fmt_usd (Some (paid (st_misses s)))]].

(** ** Settling a step *)

Record Disk := {
  dk_arm : option ArmFile;
  dk_ledger : option Ledger;
}.

(** Which writes the system takes. *)
Record Writes := {
  wr_arm : bool;
  wr_ledger : bool;
}.

Definition write_arm (ok : bool) (a : ArmFile) (d : Disk) : Disk :=
  if ok then {| dk_arm := Some a; dk_ledger := dk_ledger d |} else d.
Definition write_ledger (ok : bool) (l : Ledger) (d : Disk) : Disk :=
  if ok then {| dk_arm := dk_arm d; dk_ledger := Some l |} else d.

(** [settle]: [arm_before] is the arm file the step started from; [disk] the files as
    they are now. *)
Definition settle (w : Writes) (s : State) (arm_before : option ArmFile) (out : Outcome) (now : N)
    (disk : Disk) : Disk :=
  let disk :=
    match oc_arm_write out with
    | Some deadline =>
      if (file_deadline (dk_arm disk) =? file_deadline arm_before)%N then
        write_arm (wr_arm w)
          {| af_deadline := deadline; af_armed_at := now; af_window_secs := deadline - now;
             af_auto := oc_auto_arm out && (0 <? deadline)%N |} disk
      else disk
    | None => disk
    end in
  if oc_changed out then write_ledger (wr_ledger w) (ledger s now) disk else disk.

(** [check_once]: one judgment from the files; [read_context] is what
    [ways context] gave, and [during] what others do to the disk while it steps. *)
Definition check_once (w : Writes) (read_context : option Reading) (now : N) (during : Disk → Disk)
    (disk : Disk) : option str * Disk :=
  match read_context with
  | None => (None, disk)
  | Some reading =>
    let arm := dk_arm disk in
    let '(s, out) := step (resume (dk_ledger disk)) reading arm now in
    let out := set_changed out in
    (snd <$> head (oc_observations out), settle w s arm out now (during disk))
  end.

(** [KeepwarmSensor::poll_with]: the sensor's state in memory beside the files. *)
Definition poll_with (w : Writes) (s : State) (reading : Reading) (now : N) (during : Disk → Disk)
    (disk : Disk) : list (f64 * str) * State * Disk :=
  let policy := match dk_ledger disk with Some l => le_policy l | None => Policy_default end in
  let arm := dk_arm disk in
  let '(s, out) := step (set_policy policy s) reading arm now in
  (oc_observations out, s, settle w s arm out now (during disk)).

End step.
