(* ===== verification/KeepwarmFacts.v ===== *)
(** * Facts about the keepwarm step

    What each phase of [step_with] changes, phase by phase, and the consequences the
    properties of [KeepwarmSpec] share. *)

From Stdlib Require Import Ascii ZArith Floats.SpecFloat.
From stdpp Require Import base tactics list numbers strings option.
From S2P Require Import Prelude RustStr RustStrFacts Float64 KeepwarmBase Keepwarm.

Section facts.
Context {U : Unicode}.
Implicit Types (s : State) (o : Outcome) (so : Stepped).

(** What no phase of a scored step touches. *)
Definition kept_parts (so so' : Stepped) : Prop :=
  st_policy (fst so') = st_policy (fst so) ∧
  st_baselined (fst so') = st_baselined (fst so).

#[local] Instance kept_parts_preorder : PreOrder kept_parts.
Proof. split; [done|]. intros x y z [H1 H2] [H3 H4]. split; congruence. Qed.

(** A phase that leaves the clock and emits nothing. *)
Definition quiet (so so' : Stepped) : Prop :=
  kept_parts so so' ∧ oc_observations (snd so') = oc_observations (snd so).

#[local] Instance quiet_preorder : PreOrder quiet.
Proof.
  split; [by split|]. intros x y z [H1 H2] [H3 H4]. split; [by etransitivity|congruence].
Qed.

Ltac phase := repeat case_match; simplify_eq/=; done.

Lemma disarm_quiet why so : quiet so (disarm why so).
Proof. by destruct so. Qed.

Lemma sync_arm_quiet d now s : quiet (s, Outcome_default) (sync_arm d now s).
Proof. unfold sync_arm. by case_match. Qed.

Lemma score_miss_quiet a now e so : quiet so (score_miss a now e so).
Proof. destruct so as [s o]. unfold score_miss. by case_match. Qed.

Lemma score_ping_quiet p e so : quiet so (score_ping p e so).
Proof. destruct so as [s o]. unfold score_ping. repeat case_match; done. Qed.

Lemma score_entry_quiet a now so e : quiet so (score_entry a now so e).
Proof.
  destruct so as [s o]. unfold score_entry.
  set (s1 := match ue_model e with [] => s | _ => _ end).
  assert (H1 : quiet (s, o) (s1, o)) by (subst s1; by case_match).
  set (so2 := if rewrote _ e then _ else _).
  assert (H2 : quiet (s1, o) so2).
  { subst so2. case_match; [apply score_miss_quiet|done]. }
  pose proof (score_ping_quiet (st_ctx s) e so2) as H3.
  destruct (score_ping _ _ _) as [s3 o3].
  etransitivity; [exact H1|]. etransitivity; [exact H2|]. etransitivity; [exact H3|]. done.
Qed.

Lemma score_quiet a r now so : quiet so (score a r now so).
Proof.
  destruct so as [s o]. unfold score.
  set (l := List.filter _ _). clearbody l.
  assert (H : quiet (s, o) (fold_left (score_entry a now) l (s, o))).
  { generalize (s, o). induction l as [|e l IH]; intros so; [done|].
    simpl. etransitivity; [apply score_entry_quiet|apply IH]. }
  destruct (fold_left _ _ _) as [s1 o1]. case_match; [|done]. etransitivity; [exact H|]. done.
Qed.

Lemma window_end_quiet now so : quiet so (window_end now so).
Proof. destruct so as [s o]. unfold window_end. by case_match. Qed.

Lemma wake_unanswered_quiet now so : quiet so (wake_unanswered now so).
Proof. destruct so as [s o]. unfold wake_unanswered. repeat case_match; done. Qed.

(** The state the wake is decided from. *)
Definition scored (s : State) (r : Reading) (arm : option ArmFile) (now : N) (a : bool) : Stepped :=
  wake_unanswered now (window_end now (score a r now (sync_arm (file_deadline arm) now s))).

Lemma scored_quiet s r arm now a : quiet (s, Outcome_default) (scored s r arm now a).
Proof.
  unfold scored. etransitivity; [apply sync_arm_quiet|].
  etransitivity; [apply score_quiet|]. etransitivity; [apply window_end_quiet|].
  apply wake_unanswered_quiet.
Qed.

Lemma sync_arm_baselined d now s : st_baselined (fst (sync_arm d now s)) = st_baselined s.
Proof. unfold sync_arm. by case_match. Qed.

Lemma step_with_scored s r arm now a :
  st_baselined s = true → step_with s r arm now a = wake now (scored s r arm now a).
Proof. intros H. unfold step_with. by rewrite sync_arm_baselined, H. Qed.

Lemma step_with_baseline s r arm now a :
  st_baselined s = false →
  step_with s r arm now a = baseline r now (sync_arm (file_deadline arm) now s).
Proof. intros H. unfold step_with. by rewrite sync_arm_baselined, H. Qed.

Lemma baseline_parts r now so :
  st_policy (fst (baseline r now so)) = st_policy (fst so) ∧
  st_baselined (fst (baseline r now so)) = true ∧
  oc_observations (snd (baseline r now so)) = oc_observations (snd so).
Proof. destruct so as [s o]. unfold baseline. repeat case_match; simplify_eq/=; done. Qed.

Lemma wake_parts now so : kept_parts so (wake now so).
Proof. destruct so as [s o]. unfold wake. repeat case_match; done. Qed.

(** Every step keeps the policy's marks and leaves the clock running. *)
Lemma step_with_parts s r arm now a :
  st_policy (fst (step_with s r arm now a)) = st_policy s ∧
  st_baselined (fst (step_with s r arm now a)) = true.
Proof.
  destruct (st_baselined s) eqn:E.
  - rewrite step_with_scored by done.
    destruct (wake_parts now (scored s r arm now a)) as [-> ->].
    by destruct (scored_quiet s r arm now a) as [[-> ->] _].
  - rewrite step_with_baseline by done.
    destruct (baseline_parts r now (sync_arm (file_deadline arm) now s)) as (-> & -> & _).
    by destruct (sync_arm_quiet (file_deadline arm) now s) as [[-> _] _].
Qed.

(** When the last phase wakes: an open window, no wake in flight, fifty idle minutes
    and not the whole hour, on a large context. *)
Definition wakes (s : State) (now : N) : bool :=
  (now <? st_deadline s)%N && negb (bool_decide (is_Some (st_pinged_at s))) &&
  (0 <? st_last_seen_at s)%N &&
  (PING_AFTER_SECS <=? now - st_last_seen_at s)%N &&
  (now - st_last_seen_at s <? TTL_SECS)%N && (BIG_TOKENS <=? st_ctx s)%N.

Lemma wake_spec now s o :
  wake now (s, o) =
  if wakes s now then
    (set_pinged (Some now) s,
     observe (f64_of_N 3) (wake_line (now - st_last_seen_at s) TTL_SECS (st_ctx s)) (set_changed o))
  else if (now <? st_deadline s)%N && negb (bool_decide (is_Some (st_pinged_at s))) &&
          (0 <? st_last_seen_at s)%N && (TTL_SECS <=? now - st_last_seen_at s)%N
  then
    let why := format ["the cache lapsed "; fmt_duration (now - st_last_seen_at s - TTL_SECS);
                       " ago, before a wake could fire"] in
    disarm (Some why) (s, log (format ["stopped: "; why]) o)
  else (s, o).
Proof.
  unfold wake, wakes.
  destruct ((now <? st_deadline s)%N && _ && _); simpl; [|done].
  destruct (TTL_SECS <=? now - st_last_seen_at s)%N eqn:E1.
  - rewrite (proj2 (N.ltb_ge _ _)) by (by apply N.leb_le). by rewrite andb_false_r.
  - rewrite (proj2 (N.ltb_lt _ _)) by (by apply N.leb_gt). by rewrite andb_true_r.
Qed.

Lemma step_with_observations s r arm now a :
  st_baselined s = true →
  oc_observations (snd (step_with s r arm now a)) =
  let s1 := fst (scored s r arm now a) in
  if wakes s1 now then [(f64_of_N 3, wake_line (now - st_last_seen_at s1) TTL_SECS (st_ctx s1))]
  else [].
Proof.
  intros E. rewrite step_with_scored by done.
  destruct (scored_quiet s r arm now a) as [_ Ho].
  destruct (scored s r arm now a) as [s1 o1]. simpl in Ho. rewrite wake_spec. simpl.
  destruct (wakes s1 now); simpl; [by rewrite Ho|]. by case_match.
Qed.

Lemma step_with_baseline_observations s r arm now a :
  st_baselined s = false → oc_observations (snd (step_with s r arm now a)) = [].
Proof.
  intros E. rewrite step_with_baseline by done.
  destruct (baseline_parts r now (sync_arm (file_deadline arm) now s)) as (_ & _ & ->).
  by destruct (sync_arm_quiet (file_deadline arm) now s) as [_ ->].
Qed.

(** A wake leaves itself in flight. *)
Lemma step_with_wake s r arm now a v line rest :
  oc_observations (snd (step_with s r arm now a)) = (v, line) :: rest →
  st_baselined s = true ∧ rest = [] ∧
  let s1 := fst (scored s r arm now a) in
  wakes s1 now = true ∧ v = f64_of_N 3 ∧
  line = wake_line (now - st_last_seen_at s1) TTL_SECS (st_ctx s1) ∧
  fst (step_with s r arm now a) = set_pinged (Some now) s1.
Proof.
  intros H. destruct (st_baselined s) eqn:E.
  2: { rewrite step_with_baseline_observations in H by done. done. }
  pose proof H as H2. rewrite step_with_observations in H2 by done.
  split; [done|]. cbv zeta in *. rewrite step_with_scored by done.
  destruct (scored s r arm now a) as [s1 o1]. rewrite wake_spec. simpl in *.
  destruct (wakes s1 now) eqn:Ew; [|done]. simplify_eq. done.
Qed.

(** ** The arm *)

Lemma file_deadline_write ok a d :
  file_deadline (dk_arm (write_arm ok a d)) = if ok then af_deadline a else file_deadline (dk_arm d).
Proof. by destruct ok. Qed.

Lemma settle_arm w s arm o now disk :
  file_deadline (dk_arm (settle w s arm o now disk)) =
  match oc_arm_write o with
  | Some d => if wr_arm w && (file_deadline (dk_arm disk) =? file_deadline arm)%N then d
              else file_deadline (dk_arm disk)
  | None => file_deadline (dk_arm disk)
  end.
Proof.
  unfold settle.
  assert (Hl : ∀ ok l dk, dk_arm (write_ledger ok l dk) = dk_arm dk) by (by intros []).
  destruct (oc_changed o); rewrite ?Hl; destruct (oc_arm_write o) as [d|]; try done;
    destruct (_ =? _)%N; rewrite ?andb_true_r, ?andb_false_r; try done;
    by destruct (wr_arm w).
Qed.

Lemma settle_ledger w s arm o now disk :
  dk_ledger (settle w s arm o now disk) =
  if oc_changed o && wr_ledger w then Some (ledger s now) else dk_ledger disk.
Proof.
  unfold settle, write_ledger, write_arm. repeat (case_match; simplify_eq/=); done.
Qed.

Lemma resume_ledger s now : st_baselined s = true → resume (Some (ledger s now)) = s.
Proof. destruct s; simpl. by intros ->. Qed.

(** The deadline a step leaves is the one it writes, or the file's. *)
Definition arm_synced (arm : option ArmFile) (so : Stepped) : Prop :=
  st_deadline (fst so) =
  match oc_arm_write (snd so) with Some w => w | None => file_deadline arm end.

Lemma score_entry_synced arm a now so e : arm_synced arm so → arm_synced arm (score_entry a now so e).
Proof.
  destruct so as [s o]. unfold score_entry. intros H.
  set (s1 := match ue_model e with [] => s | _ => _ end).
  assert (H1 : arm_synced arm (s1, o)) by (subst s1; by case_match).
  set (so2 := if rewrote _ e then _ else _).
  assert (H2 : arm_synced arm so2).
  { subst so2. case_match; [|done]. unfold score_miss. by case_match. }
  clearbody so2. clear H H1. destruct so2 as [s2 o2].
  assert (H3 : arm_synced arm (score_ping (st_ctx s) e (s2, o2))).
  { unfold score_ping. repeat case_match; done. }
  destruct (score_ping _ _ _). done.
Qed.

Lemma score_synced arm a r now so : arm_synced arm so → arm_synced arm (score a r now so).
Proof.
  destruct so as [s o]. unfold score. set (l := List.filter _ _). clearbody l. intros H.
  assert (H1 : arm_synced arm (fold_left (score_entry a now) l (s, o))).
  { revert H. generalize (s, o). induction l as [|e l IH]; intros so H; [done|].
    simpl. by apply IH, score_entry_synced. }
  destruct (fold_left _ _ _). by case_match.
Qed.

Lemma step_with_deadline s r arm now a : arm_synced arm (step_with s r arm now a).
Proof.
  assert (H0 : arm_synced arm (sync_arm (file_deadline arm) now s)).
  { unfold sync_arm. destruct (_ =? _)%N eqn:E; [|done]. bool_prop. done. }
  unfold step_with. destruct (negb _).
  - destruct (sync_arm _ _ _) as [s1 o1]. unfold baseline. repeat (case_match; simplify_eq/=); done.
  - apply (score_synced arm a r now) in H0. destruct (score _ _ _ _) as [s1 o1].
    assert (H1 : arm_synced arm (window_end now (s1, o1))) by (unfold window_end; by case_match).
    destruct (window_end _ _) as [s2 o2].
    assert (H2 : arm_synced arm (wake_unanswered now (s2, o2)))
      by (unfold wake_unanswered; repeat case_match; done).
    destruct (wake_unanswered _ _) as [s3 o3]. unfold wake. repeat case_match; done.
Qed.

(** Without new requests a step scores nothing. *)
Lemma score_nothing a r now s o :
  Forall (λ u, (ue_at_epoch u ≤ st_last_seen_at s)%N) (rd_usage_tail r) →
  score a r now (s, o) =
  (if (0 <? rd_tokens_used r)%N then set_ctx (rd_tokens_used r) s else s, o).
Proof.
  intros H. unfold score.
  assert (List.filter (λ u, (st_last_seen_at s <? ue_at_epoch u)%N) (rd_usage_tail r) = []) as ->.
  { induction H as [|u l Hu Hl IH]; simpl; [done|]. by rewrite (proj2 (N.ltb_ge _ _)). }
  simpl. by case_match.
Qed.

(** A wake in flight, or a closed window, with nothing new to score. *)
Definition wake_spent (s : State) : Prop :=
  st_baselined s = true ∧ (is_Some (st_pinged_at s) ∨ st_deadline s = 0%N).

Lemma wakes_spent s now : is_Some (st_pinged_at s) ∨ st_deadline s = 0%N → wakes s now = false.
Proof.
  intros [Hp|Hd]; unfold wakes.
  - rewrite bool_decide_eq_true_2 by done. by rewrite andb_false_r.
  - rewrite Hd. by destruct now.
Qed.

(** What a quiet step leaves of the arm: the deadline kept, or the window closed. *)
Definition arm_after (arm : option ArmFile) (so : Stepped) : Prop :=
  (oc_arm_write (snd so) = None ∧ st_deadline (fst so) = file_deadline arm ∧
   is_Some (st_pinged_at (fst so))) ∨
  (st_deadline (fst so) = 0%N ∧
   (oc_arm_write (snd so) = Some 0%N ∨
    (oc_arm_write (snd so) = None ∧ file_deadline arm = 0%N))).

Lemma window_end_after arm now so : arm_after arm so → arm_after arm (window_end now so).
Proof.
  destruct so as [s o]. unfold window_end. intros H. case_match; [|done].
  right. simpl. by split; [|left].
Qed.

Lemma wake_unanswered_after arm now so : arm_after arm so → arm_after arm (wake_unanswered now so).
Proof.
  destruct so as [s o]. unfold wake_unanswered. intros H. repeat case_match; try done.
  right. simpl. by split; [|left].
Qed.

Lemma spent_step s r arm now a :
  wake_spent s → st_deadline s = file_deadline arm →
  Forall (λ u, (ue_at_epoch u ≤ st_last_seen_at s)%N) (rd_usage_tail r) →
  oc_observations (snd (step_with s r arm now a)) = [] ∧
  arm_after arm (step_with s r arm now a) ∧
  wake_spent (fst (step_with s r arm now a)) ∧
  st_last_seen_at (fst (step_with s r arm now a)) = st_last_seen_at s.
Proof.
  intros [Hb Hsp] Hd Hr.
  assert (Hsync : sync_arm (file_deadline arm) now s = (s, Outcome_default)).
  { unfold sync_arm. by rewrite Hd, N.eqb_refl. }
  assert (Hscore : arm_after arm (score a r now (s, Outcome_default))).
  { rewrite score_nothing by done. destruct Hsp as [Hp|Hz].
    - left. simpl. split_and!; [done|by case_match|by case_match].
    - right. simpl. split; [by case_match|]. right. by rewrite <- Hd. }
  assert (Hafter : arm_after arm (scored s r arm now a)).
  { unfold scored. rewrite Hsync. by apply wake_unanswered_after, window_end_after. }
  assert (Hseen : st_last_seen_at (fst (scored s r arm now a)) = st_last_seen_at s).
  { unfold scored. rewrite Hsync, score_nothing by done.
    unfold window_end, wake_unanswered. repeat (case_match; simplify_eq/=); done. }
  destruct (scored_quiet s r arm now a) as [[_ Hb1] Ho].
  rewrite step_with_scored by done.
  destruct (scored s r arm now a) as [s1 o1]. simpl in Hb1, Ho, Hseen.
  assert (Hsp1 : is_Some (st_pinged_at s1) ∨ st_deadline s1 = 0%N).
  { destruct Hafter as [(_ & _ & ?)|[? _]]; [by left|by right]. }
  rewrite wake_spec, wakes_spent by done.
  assert (((now <? st_deadline s1)%N && negb (bool_decide (is_Some (st_pinged_at s1)))) = false) as ->.
  { destruct Hsp1 as [Hp|Hz]; [by rewrite bool_decide_eq_true_2, andb_false_r by done|].
    rewrite Hz. by destruct now. }
  cbn [andb fst snd]. split; [exact Ho|]. split; [exact Hafter|].
  split; [split; [congruence|exact Hsp1]|exact Hseen].
Qed.

(** ** A step that may not arm *)

(** It closes a window, or leaves the arm file as it is. *)
Definition closing (so : Stepped) : Prop :=
  (oc_arm_write (snd so) = None ∨ oc_arm_write (snd so) = Some 0%N) ∧
  oc_auto_arm (snd so) = false.

Lemma score_entry_closing now so e : closing so → closing (score_entry false now so e).
Proof.
  destruct so as [s o]. unfold score_entry. intros H.
  set (s1 := match ue_model e with [] => s | _ => _ end).
  set (so2 := if rewrote _ e then _ else _).
  assert (H2 : closing so2) by (subst so2; by case_match).
  destruct so2 as [s2 o2].
  assert (H3 : closing (score_ping (st_ctx s) e (s2, o2))).
  { unfold score_ping. repeat case_match; try done. split; [by right|by destruct H2]. }
  by destruct (score_ping _ _ _).
Qed.

Lemma score_closing r now so : closing so → closing (score false r now so).
Proof.
  destruct so as [s o]. unfold score. set (l := List.filter _ _). clearbody l. intros H.
  assert (H1 : closing (fold_left (score_entry false now) l (s, o))).
  { revert H. generalize (s, o). induction l as [|e l IH]; intros so H; [done|].
    simpl. by apply IH, score_entry_closing. }
  destruct (fold_left _ _ _). by case_match.
Qed.

Lemma tail_closing now so : closing so → closing (wake now (wake_unanswered now (window_end now so))).
Proof.
  assert (Hd : ∀ why s o, oc_auto_arm o = false → closing (disarm why (s, o))) by (split; [by right|done]).
  destruct so as [s o]. intros H.
  assert (H1 : closing (window_end now (s, o))).
  { unfold window_end. case_match; [|done]. apply Hd. by destruct H. }
  destruct (window_end _ _) as [s1 o1].
  assert (H2 : closing (wake_unanswered now (s1, o1))).
  { unfold wake_unanswered. repeat case_match; try done. apply Hd. by destruct H1. }
  destruct (wake_unanswered _ _) as [s2 o2].
  unfold wake. repeat case_match; try done. apply Hd. by destruct H2.
Qed.

Lemma step_with_closing s r arm now : closing (step_with s r arm now false).
Proof.
  assert (H0 : closing (sync_arm (file_deadline arm) now s))
    by (unfold sync_arm; case_match; split; try done; by left).
  unfold step_with. destruct (negb _).
  - destruct (sync_arm _ _ _) as [s1 o1]. unfold baseline. repeat (case_match; simplify_eq/=); done.
  - by apply tail_closing, score_closing.
Qed.

(** ** The wake in flight *)

(** Where it comes from: the step's own, or one that still waits for its turn. *)
Lemma step_with_pinged s r arm now a t :
  st_baselined s = true → (∀ t, st_pinged_at s = Some t → (t ≤ now)%N) →
  st_pinged_at (fst (step_with s r arm now a)) = Some t →
  (t ≤ now ≤ t + (TTL_SECS - PING_AFTER_SECS))%N.
Proof.
  intros Hb Hp. rewrite step_with_scored by done.
  set (past := λ so : Stepped, ∀ t, st_pinged_at (fst so) = Some t → (t ≤ now)%N).
  assert (Hs : ∀ e so, past so → past (score_entry a now so e)).
  { intros e [s0 o0] H. unfold score_entry.
    set (s1 := match ue_model e with [] => s0 | _ => _ end).
    assert (H1 : past (s1, o0)) by (subst s1; by case_match).
    set (so2 := if rewrote _ e then _ else _).
    assert (H2 : past so2) by (subst so2; unfold score_miss; by repeat case_match).
    destruct so2 as [s2 o2].
    assert (H3 : past (score_ping (st_ctx s0) e (s2, o2)))
      by (unfold score_ping; repeat case_match; try done; by intros ? ?).
    by destruct (score_ping _ _ _). }
  assert (H0 : past (sync_arm (file_deadline arm) now s))
    by (unfold sync_arm; repeat case_match; try done; intros ? ?; simplify_eq/=; by apply Hp).
  unfold scored. assert (H1 : past (score a r now (sync_arm (file_deadline arm) now s))).
  { destruct (sync_arm _ _ _) as [s1 o1]. unfold score. set (l := List.filter _ _). clearbody l.
    assert (H1 : past (fold_left (score_entry a now) l (s1, o1))).
    { revert H0. generalize (s1, o1). induction l as [|e l IH]; intros so H; [done|]. apply IH, Hs, H. }
    destruct (fold_left _ _ _). by case_match. }
  destruct (score _ _ _ _) as [s1 o1].
  assert (H2 : past (window_end now (s1, o1))) by (unfold window_end; case_match; [by intros ? ?|done]).
  destruct (window_end _ _) as [s2 o2].
  assert (H3 : ∀ t, st_pinged_at (fst (wake_unanswered now (s2, o2))) = Some t →
    (t ≤ now ≤ t + (TTL_SECS - PING_AFTER_SECS))%N).
  { intros u. unfold wake_unanswered. destruct (st_pinged_at s2) as [p|] eqn:Ep; simpl; [|congruence].
    destruct (_ <? now - p)%N eqn:El; simpl; [done|]. rewrite Ep. intros [= ->].
    pose proof (H2 u Ep) as Hle. bool_prop. simpl in Hle. lia. }
  destruct (wake_unanswered _ _) as [s3 o3]. unfold wake.
  repeat case_match; simpl; intros Ht; simplify_eq; try done; try (by apply H3).
  unfold TTL_SECS, PING_AFTER_SECS. lia.
Qed.

(** ** A wake in flight *)

(** The wake of [p] is in flight, or the window is closed. *)
Definition in_flight (p : N) (so : Stepped) : Prop :=
  st_pinged_at (fst so) = Some p ∨ (st_pinged_at (fst so) = None ∧ st_deadline (fst so) = 0%N).

Lemma score_entry_flight a now e p so :
  (ue_at_epoch e < p)%N → st_pinged_at (fst so) = Some p →
  st_pinged_at (fst (score_entry a now so e)) = Some p.
Proof.
  destruct so as [s o]. intros Hlt Hp. unfold score_entry.
  set (s1 := match ue_model e with [] => s | _ => _ end).
  assert (H1 : st_pinged_at s1 = Some p) by (subst s1; by case_match).
  set (so2 := if rewrote _ e then _ else _).
  assert (H2 : st_pinged_at (fst so2) = Some p)
    by (subst so2; unfold score_miss; by repeat case_match).
  destruct so2 as [s2 o2]. unfold score_ping. simpl in H2. rewrite H2, (proj2 (N.leb_gt p _) Hlt). done.
Qed.

Lemma score_flight a r now p so :
  Forall (λ e, (st_last_seen_at (fst so) < ue_at_epoch e)%N → (ue_at_epoch e < p)%N) (rd_usage_tail r) →
  st_pinged_at (fst so) = Some p → st_pinged_at (fst (score a r now so)) = Some p.
Proof.
  destruct so as [s o]. intros Hr Hp. unfold score. set (l := List.filter _ _).
  assert (Hl : Forall (λ e, (ue_at_epoch e < p)%N) l).
  { rewrite Forall_forall in *. intros e He. subst l. apply filter_In in He as [Hin Hlt].
    apply Hr; [done|]. by apply N.ltb_lt. }
  clearbody l.
  assert (H : st_pinged_at (fst (fold_left (score_entry a now) l (s, o))) = Some p).
  { revert Hp. change s with (fst (s, o)) at 1. generalize (s, o) as so.
    induction Hl as [|e l He _ IH]; intros so Hp; [done|]. by apply IH, score_entry_flight. }
  destruct (fold_left _ _ _). by case_match.
Qed.

(** Short of a new request since it went out, or of the operator closing the window, no
    phase before the last takes a wake out of flight and leaves a window open. *)
Lemma scored_flight s r arm now a p :
  st_pinged_at s = Some p → (file_deadline arm = st_deadline s ∨ (now < file_deadline arm)%N) →
  Forall (λ e, (st_last_seen_at s < ue_at_epoch e)%N → (ue_at_epoch e < p)%N) (rd_usage_tail r) →
  in_flight p (scored s r arm now a).
Proof.
  intros Hp Ha Hr. unfold scored.
  assert (H0 : st_pinged_at (fst (sync_arm (file_deadline arm) now s)) = Some p ∧
               st_last_seen_at (fst (sync_arm (file_deadline arm) now s)) = st_last_seen_at s).
  { unfold sync_arm. destruct Ha as [->|Ha]; [by rewrite N.eqb_refl|].
    case_match; [done|]. simpl. by rewrite (proj2 (N.ltb_lt _ _) Ha). }
  destruct H0 as [H0 Hseen]. rewrite <- Hseen in Hr.
  pose proof (score_flight a r now p _ Hr H0) as H1. destruct (score _ _ _ _) as [s1 o1].
  unfold window_end. case_match; [by right|]. unfold wake_unanswered. simpl in H1. rewrite H1.
  case_match; [by right|by left].
Qed.

End facts.
