(* ===== verification/KeepwarmSpec.v ===== *)
(** * What the keepwarm sensor promises

    The sensor and the one-shot check agree, a stretch is woken at most once and only
    while the wake can pay, the operator's arm is left alone, no cold write is scored
    twice, and the durations printed read back. *)

From Stdlib Require Import Ascii ZArith Floats.SpecFloat Sorted.
From stdpp Require Import base tactics list numbers strings option pretty.
From S2P Require Import Prelude RustStr RustStrFacts Float64 KeepwarmBase Keepwarm KeepwarmFacts.

(** ** The two callers *)

(** What happens to a session: a poll with its reading, the operator's arm, and an
    update of the policy's marks. *)
Inductive Event : Type :=
  | Poll (reading : Reading) (now : N)
  | SetArm (arm : option ArmFile)
  | Marks (f : Policy → Policy) (now : N).

Definition all_writes : Writes := {| wr_arm := true; wr_ledger := true |}.

Definition disk_policy (d : Disk) : Policy :=
  match dk_ledger d with Some l => le_policy l | None => Policy_default end.

(** The ledger with its policy part replaced, a fresh one where there is none. *)
Definition mark (f : Policy → Policy) (now : N) (d : Disk) : Disk :=
  let l := default Ledger_default (dk_ledger d) in
  {| dk_arm := dk_arm d;
     dk_ledger := Some {|
       le_misses := le_misses l; le_last_ping := le_last_ping l; le_stopped := le_stopped l;
       le_pinged_at := le_pinged_at l; le_updated_at := now; le_cursor := le_cursor l;
       le_policy := f (le_policy l) |} |}.

Definition set_disk_arm (arm : option ArmFile) (d : Disk) : Disk :=
  {| dk_arm := arm; dk_ledger := dk_ledger d |}.

Section callers.
Context {U : Unicode}.

(** The sensor's loop: the state in memory, the files beside it. *)
Fixpoint run_sensor (s : State) (d : Disk) (es : list Event) : list (option str) * Disk :=
  match es with
  | [] => ([], d)
  | Poll r now :: es =>
    let '(obs, s, d) := poll_with all_writes s r now id d in
    let '(lines, d) := run_sensor s d es in
    ((snd <$> head obs) :: lines, d)
  | SetArm a :: es => run_sensor s (set_disk_arm a d) es
  | Marks f now :: es => run_sensor s (mark f now d) es
  end.

(** Successive one-shot checks: the files alone. *)
Fixpoint run_check (d : Disk) (es : list Event) : list (option str) * Disk :=
  match es with
  | [] => ([], d)
  | Poll r now :: es =>
    let '(line, d) := check_once all_writes (Some r) now id d in
    let '(lines, d) := run_check d es in
    (line :: lines, d)
  | SetArm a :: es => run_check (set_disk_arm a d) es
  | Marks f now :: es => run_check (mark f now d) es
  end.

(** Polls of the sensor alone, with what each emits. *)
Fixpoint polls (s : State) (d : Disk) (ps : list (Reading * N)) : list (list (f64 * str)) :=
  match ps with
  | [] => []
  | (r, now) :: ps =>
    let '(obs, s, d) := poll_with all_writes s r now id d in obs :: polls s d ps
  end.

Lemma settle_dk_arm s arm o now d :
  file_deadline (dk_arm d) = file_deadline arm →
  dk_arm (settle all_writes s arm o now d) =
  match oc_arm_write o with
  | Some w => Some {| af_deadline := w; af_armed_at := now; af_window_secs := w - now;
                      af_auto := oc_auto_arm o && (0 <? w)%N |}
  | None => dk_arm d
  end.
Proof.
  intros E. unfold settle, write_ledger, write_arm. rewrite E, N.eqb_refl.
  by destruct (oc_arm_write o), (oc_changed o).
Qed.

(** The files of the two runs agree on what a step reads. *)
Definition same_session (s : State) (d d' : Disk) : Prop :=
  dk_arm d = dk_arm d' ∧ disk_policy d = disk_policy d' ∧
  resume (dk_ledger d') = set_policy (disk_policy d) s.

Lemma set_policy_idem p s : st_policy s = p → set_policy p s = s.
Proof. intros <-. by destruct s. Qed.

Lemma resume_mark f now d : resume (dk_ledger (mark f now d)) =
  set_policy (f (disk_policy d)) (resume (dk_ledger d)).
Proof.
  unfold mark, disk_policy. simpl. destruct (dk_ledger d) as [l|]; [|done].
  unfold resume. simpl. by destruct (le_cursor l).
Qed.

Lemma disk_policy_mark f now d : disk_policy (mark f now d) = f (disk_policy d).
Proof. unfold mark, disk_policy. simpl. by destruct (dk_ledger d). Qed.

Lemma same_session_poll s d d' r now :
  same_session s d d' →
  let '(obs, s1, d1) := poll_with all_writes s r now id d in
  let '(line, d1') := check_once all_writes (Some r) now id d' in
  line = snd <$> head obs ∧ same_session s1 d1 d1'.
Proof.
  intros (Harm & Hpol & Hres). unfold poll_with, check_once. unfold id.
  fold (disk_policy d). rewrite Hres, <- Harm.
  destruct (step_with_parts (set_policy (disk_policy d) s) r (dk_arm d) now true) as [Hp Hb].
  change (step_with (set_policy (disk_policy d) s) r (dk_arm d) now true) with
    (step (set_policy (disk_policy d) s) r (dk_arm d) now) in Hp, Hb.
  destruct (step _ _ _ _) as [s1 o1]. simpl in Hp, Hb.
  split; [done|]. unfold same_session, disk_policy.
  rewrite !settle_dk_arm, !settle_ledger, !andb_true_r by (by rewrite ?Harm).
  cbn [set_changed oc_changed oc_arm_write oc_auto_arm].
  split_and!.
  - by rewrite Harm.
  - destruct (oc_changed o1); [done|]. cbn [le_policy ledger]. by rewrite Hp.
  - rewrite resume_ledger by done. symmetry. apply set_policy_idem.
    destruct (oc_changed o1); [done|]. by rewrite Hp.
Qed.

Lemma run_same s d d' es :
  same_session s d d' →
  fst (run_sensor s d es) = fst (run_check d' es) ∧
  dk_arm (snd (run_sensor s d es)) = dk_arm (snd (run_check d' es)).
Proof.
  revert s d d'. induction es as [|[r now|a|f now] es IH]; intros s d d' H;
    cbn [run_sensor run_check].
  - by destruct H as [? _].
  - pose proof (same_session_poll s d d' r now H) as Hp.
    destruct (poll_with _ _ _ _ _ _) as [[obs s1] d1].
    destruct (check_once _ _ _ _ _) as [line d1']. destruct Hp as [-> Hs].
    destruct (IH s1 d1 d1' Hs) as [H1 H2].
    destruct (run_sensor s1 d1 es), (run_check d1' es). simpl in *. by subst.
  - apply IH. destruct H as (? & ? & ?). by split_and!.
  - apply IH. destruct H as (? & Hpol & Hres). split_and!; [done|by rewrite !disk_policy_mark, Hpol|].
    rewrite resume_mark, Hres, disk_policy_mark, Hpol. by destruct s.
Qed.

Lemma polls_spent s d ps :
  wake_spent s → st_deadline s = file_deadline (dk_arm d) →
  Forall (λ p, Forall (λ u, (ue_at_epoch u ≤ st_last_seen_at s)%N) (rd_usage_tail (fst p))) ps →
  Forall (λ obs, obs = []) (polls s d ps).
Proof.
  revert s d. induction ps as [|[r now] ps IH]; intros s d Hs Hd Hps; simpl; [constructor|].
  inversion_clear Hps as [|? ? Hr Hps']. simpl in Hr.
  unfold poll_with, id. fold (disk_policy d).
  destruct (spent_step (set_policy (disk_policy d) s) r (dk_arm d) now true) as (Ho & Ha & Hs1 & Hl);
    [by destruct Hs|done..|].
  change (step_with _ r (dk_arm d) now true) with
    (step (set_policy (disk_policy d) s) r (dk_arm d) now) in *.
  destruct (step _ _ _ _) as [s1 o1]. simpl in Ho, Hs1, Hl.
  constructor; [done|]. apply IH; [done| |by rewrite Hl].
  rewrite settle_dk_arm by done.
  unfold arm_after in Ha. cbn [fst snd] in Ha.
  destruct Ha as [(-> & -> & _)|(-> & [->|(-> & ->)])]; done.
Qed.

(** ** Durations *)

Lemma position_none {A} (p : A → bool) l : forallb (λ x, negb (p x)) l = true → position p l = None.
Proof.
  induction l as [|x l IH]; simpl; [done|]. intros [H%negb_true_iff Hl]%andb_prop.
  by rewrite H, IH.
Qed.

Lemma position_app_head {A} (p : A → bool) l x r :
  forallb (λ x, negb (p x)) l = true → p x = true → position p (l ++ x :: r) = Some (length l).
Proof.
  induction l as [|y l IH]; simpl; intros Hl Hx; [by rewrite Hx|].
  apply andb_prop in Hl as [H%negb_true_iff Hl]. by rewrite H, IH.
Qed.

Lemma digits_plain d c :
  forallb is_digit d = true → is_digit c = false → forallb (λ x, negb (c =?a x)) d = true.
Proof.
  intros Hd Hc. rewrite forallb_forall in *. intros x Hx%Hd. apply negb_true_iff, Ascii.eqb_neq.
  congruence.
Qed.

Lemma digits_no_space d :
  forallb is_digit d = true → forallb (λ c, is_ascii c && negb (is_whitespace [c])) d = true.
Proof.
  intros Hd. rewrite forallb_forall in *. intros c Hc%Hd.
  assert (Hall : forallb (λ c, negb (is_digit c) || (is_ascii c && negb (is_whitespace [c])))
    (ascii_of_N <$> (N.of_nat <$> seq 0 256)) = true) by (vm_compute; reflexivity).
  rewrite forallb_forall in Hall. specialize (Hall c). rewrite Hc in Hall. apply Hall.
  apply in_map_iff. exists (N_of_ascii c). split; [apply ascii_N_embedding|].
  apply in_map_iff. exists (N.to_nat (N_of_ascii c)). split; [apply N2Nat.id|].
  apply in_seq. pose proof (N_ascii_bounded c). lia.
Qed.

Lemma strip_suffix_snoc d c : strip_suffix [c] (d ++ [c]) = Some d.
Proof.
  unfold strip_suffix. rewrite reverse_app. simpl.
  change (reverse [c]) with [c]. simpl. rewrite Ascii.eqb_refl. simpl.
  by rewrite reverse_involutive.
Qed.

Lemma parse_minutes m :
  (m ≤ u64_max)%N → parse_duration (show_N m ++ ["m"%char]) = Some (u64_mul m 60).
Proof.
  intros Hm. destruct (show_N_digits m) as (Hd & Hv & Hne). unfold parse_duration.
  rewrite trim_plain by (by rewrite forallb_app, digits_no_space).
  destruct (show_N m ++ ["m"%char]) as [|c0 t0] eqn:E; [by destruct (show_N m)|]. rewrite <- E.
  unfold split_once. rewrite position_none by (by rewrite forallb_app, digits_plain).
  cbn [mbind option_bind]. change (lit "m") with ["m"%char].
  rewrite strip_suffix_snoc. cbn [mbind option_bind].
  rewrite parse_digits by (rewrite ?Hv; done). rewrite Hv.
  destruct (show_N m ++ ["m"%char]); [done|].
  change (Some (u64_add 0 (u64_mul m 60)) = Some (u64_mul m 60)). f_equal.
  unfold u64_add. rewrite N.add_0_l. unfold u64_mul. by rewrite N.Div0.mod_mod.
Qed.

Lemma parse_hours_minutes h m w :
  (h * 3600 + m * 60 ≤ u64_max)%N →
  parse_duration (show_N h ++ ["h"%char] ++ show_pad w m ++ ["m"%char]) =
  Some (h * 3600 + m * 60)%N.
Proof.
  intros Hle. assert (Hh : (h ≤ u64_max)%N) by lia. assert (Hm : (m ≤ u64_max)%N) by lia.
  destruct (show_N_digits h) as (Hd & Hv & Hne). destruct (show_pad_digits w m) as (Hd2 & Hv2 & Hne2).
  unfold parse_duration.
  rewrite trim_plain.
  2: { by rewrite !forallb_app, (digits_no_space _ Hd), (digits_no_space _ Hd2). }
  destruct (show_N h ++ _) as [|c0 t0] eqn:E; [by destruct (show_N h)|]. rewrite <- E.
  unfold split_once. cbn [app].
  rewrite position_app_head by (first [reflexivity|by apply digits_plain]).
  cbn [mbind option_bind]. rewrite take_app_length.
  replace (S (length (show_N h))) with (length (show_N h) + 1) by lia.
  rewrite <- drop_drop, drop_app_length. cbn [app drop].
  rewrite parse_digits by (rewrite ?Hv; done). rewrite Hv. cbn [mbind option_bind].
  rewrite drop_0. change (lit "m") with ["m"%char]. rewrite strip_suffix_snoc. cbn [mbind option_bind].
  rewrite parse_digits by (rewrite ?Hv2; done). rewrite Hv2.
  destruct (show_pad w m ++ ["m"%char]) eqn:E1; [by destruct (show_pad w m)|].
  change (Some (u64_add (u64_mul h 3600) (u64_mul m 60)) = Some (h * 3600 + m * 60)%N). f_equal.
  rewrite !u64_mul_small, u64_add_small by lia. done.
Qed.

(** ** Scored once *)

(** The cold writes on record are at distinct times, none past the clock. *)
Definition scored_once (s : State) : Prop :=
  NoDup (ms_at <$> st_misses s) ∧ Forall (λ m, (ms_at m ≤ st_last_seen_at s)%N) (st_misses s).

Definition same_scores (s s' : State) : Prop :=
  st_misses s' = st_misses s ∧ st_last_seen_at s' = st_last_seen_at s.

Lemma scored_once_same s s' : same_scores s s' → scored_once s → scored_once s'.
Proof. intros [Hm Hl] [? ?]. unfold scored_once. by rewrite Hm, Hl. Qed.

Lemma score_ping_scores p e s o : same_scores s (fst (score_ping p e (s, o))).
Proof. unfold score_ping. repeat case_match; done. Qed.

Lemma score_entry_once a now e s o :
  scored_once s → (st_last_seen_at s < ue_at_epoch e)%N →
  scored_once (fst (score_entry a now (s, o) e)) ∧
  st_last_seen_at (fst (score_entry a now (s, o) e)) = ue_at_epoch e.
Proof.
  intros [Hnd Hle] Hlt. unfold score_entry.
  set (s1 := match ue_model e with [] => s | _ => _ end).
  assert (H1 : same_scores s s1) by (subst s1; by case_match).
  set (so2 := if rewrote _ e then _ else _).
  assert (H2 : NoDup (ms_at <$> st_misses (fst so2)) ∧
               Forall (λ m, (ms_at m ≤ ue_at_epoch e)%N) (st_misses (fst so2))).
  { assert (H3 : NoDup (ms_at <$> st_misses s1) ∧
                 Forall (λ m, (ms_at m < ue_at_epoch e)%N) (st_misses s1)).
    { destruct H1 as [-> _]. split; [done|]. eapply Forall_impl; [exact Hle|]. simpl. lia. }
    destruct H3 as [Hnd1 Hlt1]. subst so2. case_match.
    - assert (Hm : st_misses (fst (score_miss a now e (s1, o))) = st_misses s1 ++
        [{| ms_at := ue_at_epoch e; ms_tokens := ue_cache_creation e;
            ms_usd := (λ p, f64_div (f64_mul (f64_of_N (ue_cache_creation e)) (pr_write_1h p)) f64_1e6)
                        <$> price_of (st_model s1) |}]) by (unfold score_miss; by case_match).
      rewrite Hm. split.
      + rewrite fmap_app. apply NoDup_app. split_and!; [done| |by apply NoDup_singleton].
        intros x (m & Hx & Hin)%list_elem_of_fmap Hx2%list_elem_of_singleton.
        rewrite Forall_forall in Hlt1. specialize (Hlt1 m Hin). simpl in *. lia.
      + apply Forall_app. split; [|by repeat constructor].
        eapply Forall_impl; [exact Hlt1|]. simpl. lia.
    - split; [done|]. eapply Forall_impl; [exact Hlt1|]. simpl. lia. }
  destruct so2 as [s2 o2]. destruct (score_ping_scores (st_ctx s) e s2 o2) as [Hm3 _].
  destruct (score_ping _ _ _) as [s3 o3]. simpl in Hm3, H2. simpl. split; [|done].
  unfold scored_once. simpl. by rewrite Hm3.
Qed.

Lemma fold_score_once a now l s o :
  StronglySorted N.lt (ue_at_epoch <$> l) → Forall (λ e, (st_last_seen_at s < ue_at_epoch e)%N) l →
  scored_once s → scored_once (fst (fold_left (score_entry a now) l (s, o))).
Proof.
  revert s o. induction l as [|e l IH]; intros s o Hs Hl Ho; [done|].
  inversion_clear Hs as [|? ? Hs' Hlt]. inversion_clear Hl as [|? ? He Hl'].
  destruct (score_entry_once a now e s o Ho He) as [H1 H2]. cbn [fold_left].
  destruct (score_entry a now (s, o) e) as [s1 o1]. apply IH; [done| |done].
  simpl in H2. rewrite H2. clear -Hlt. induction l as [|x l IHl]; [constructor|].
  inversion_clear Hlt. constructor; [done|by apply IHl].
Qed.

Lemma filter_sorted c l :
  StronglySorted N.lt (ue_at_epoch <$> l) →
  StronglySorted N.lt (ue_at_epoch <$> List.filter (λ u, (c <? ue_at_epoch u)%N) l) ∧
  Forall (λ e, (c < ue_at_epoch e)%N) (List.filter (λ u, (c <? ue_at_epoch u)%N) l).
Proof.
  induction l as [|x l IH]; intros Hs; simpl; [split; constructor|].
  inversion_clear Hs as [|? ? Hs' Hlt]. destruct (IH Hs') as [H1 H2].
  destruct (c <? ue_at_epoch x)%N eqn:E; [|done]. bool_prop. simpl.
  split; constructor; try done. clear -Hlt. induction l as [|y l IHl]; simpl; [constructor|].
  inversion_clear Hlt. case_match; simpl; [constructor; [done|by apply IHl]|by apply IHl].
Qed.

Lemma step_with_once s r arm now a :
  st_baselined s = true → StronglySorted N.lt (ue_at_epoch <$> rd_usage_tail r) →
  scored_once s → scored_once (fst (step_with s r arm now a)).
Proof.
  intros Hb Hr Hs. rewrite step_with_scored by done. unfold scored.
  assert (H0 : same_scores s (fst (sync_arm (file_deadline arm) now s)))
    by (unfold sync_arm; by case_match).
  destruct (sync_arm _ _ _) as [s0 o0]. apply scored_once_same in H0; [|done].
  assert (H1 : scored_once (fst (score a r now (s0, o0)))).
  { unfold score. destruct (filter_sorted (st_last_seen_at s0) _ Hr) as [Hf1 Hf2].
    pose proof (fold_score_once a now _ s0 o0 Hf1 Hf2 H0) as H1.
    destruct (fold_left _ _ _). by case_match. }
  destruct (score _ _ _ _) as [s1 o1].
  assert (H2 : same_scores s1 (fst (window_end now (s1, o1)))) by (unfold window_end; by case_match).
  destruct (window_end _ _) as [s2 o2].
  assert (H3 : same_scores s2 (fst (wake_unanswered now (s2, o2))))
    by (unfold wake_unanswered; repeat case_match; done).
  destruct (wake_unanswered _ _) as [s3 o3].
  assert (H4 : same_scores s3 (fst (wake now (s3, o3)))) by (unfold wake; repeat case_match; done).
  by eapply scored_once_same, scored_once_same, scored_once_same.
Qed.

End callers.

(** ** The properties *)

Section properties.
Context {U : Unicode}.

(** C3: successive [attend keepwarm check]s wake exactly as the sensor's loop does: from
    the same files and the same polls, operator arms and policy updates, the lines
    and the arm files are the same. The cursor of the ledger carries all that the
    sensor holds in memory. *)
Theorem check_refines_sensor (d : Disk) (es : list Event) :
  (∀ l, dk_ledger d = Some l → le_cursor l = None) →
  fst (run_sensor (from_ledger (dk_ledger d)) d es) = fst (run_check d es) ∧
  dk_arm (snd (run_sensor (from_ledger (dk_ledger d)) d es)) = dk_arm (snd (run_check d es)).
Proof.
  intros Hcur. apply run_same. split_and!; [done..|]. unfold resume, disk_policy.
  destruct (dk_ledger d) as [l|]; [|done]. simpl. by rewrite (Hcur l).
Qed.

(** C11: a stretch is woken at most once: after a poll that emits a wake, no later poll
    emits one while the transcript holds no request past the clock and the operator
    leaves the arm file alone, however long the polls go on. *)
Theorem one_wake_per_stretch (s : State) (d : Disk) (r : Reading) (now : N)
    (ps : list (Reading * N)) obs s1 d1 :
  poll_with all_writes s r now id d = (obs, s1, d1) → obs ≠ [] →
  Forall (λ p, Forall (λ u, (ue_at_epoch u ≤ st_last_seen_at s1)%N) (rd_usage_tail (fst p))) ps →
  Forall (λ obs, obs = []) (polls s1 d1 ps).
Proof.
  unfold poll_with, id, step. fold (disk_policy d).
  destruct (step_with _ r (dk_arm d) now true) as [s2 o2] eqn:Es.
  intros [= <- <- <-] Hobs Hps.
  destruct (oc_observations o2) as [|[v line] rest] eqn:Eo; [done|].
  destruct (step_with_wake (set_policy (disk_policy d) s) r (dk_arm d) now true v line rest)
    as (Hb & _ & _ & _ & _ & Hs2); [by rewrite Es|].
  destruct (step_with_parts (set_policy (disk_policy d) s) r (dk_arm d) now true) as [_ Hb2].
  pose proof (step_with_deadline (set_policy (disk_policy d) s) r (dk_arm d) now true) as Hd.
  rewrite Es in Hs2, Hb2, Hd. simpl in Hs2, Hb2.
  apply polls_spent; [|rewrite settle_dk_arm by done|done].
  - split; [done|]. left. by rewrite Hs2.
  - unfold arm_synced in Hd. simpl in Hd. rewrite Hd. by destruct (oc_arm_write o2).
Qed.

(** C12: a wake is emitted only where it can pay: inside an armed window, at least fifty
    minutes and less than an hour after the last request, on a context of 50k tokens
    or more. No earlier wake is then in flight: where one was before the step, a request
    new to the step came after it, or the operator closed the window it was sent in. The
    wake is then the one in flight. *)
Theorem wake_is_useful (s : State) (r : Reading) (arm : option ArmFile) (now : N) (a : bool) :
  oc_observations (snd (step_with s r arm now a)) ≠ [] →
  let s' := fst (step_with s r arm now a) in
  oc_observations (snd (step_with s r arm now a)) =
    [(f64_of_N 3, wake_line (now - st_last_seen_at s') TTL_SECS (st_ctx s'))] ∧
  (now < st_deadline s')%N ∧ (0 < st_last_seen_at s')%N ∧
  (PING_AFTER_SECS ≤ now - st_last_seen_at s' < TTL_SECS)%N ∧ (BIG_TOKENS ≤ st_ctx s')%N ∧
  (∀ p, st_pinged_at s = Some p →
    (∃ e, e ∈ rd_usage_tail r ∧ (st_last_seen_at s < ue_at_epoch e)%N ∧ (p ≤ ue_at_epoch e)%N) ∨
    (file_deadline arm ≠ st_deadline s ∧ (file_deadline arm ≤ now)%N)) ∧
  st_pinged_at s' = Some now.
Proof.
  destruct (oc_observations _) as [|[v line] rest] eqn:Eo; [done|]. intros _.
  destruct (step_with_wake s r arm now a v line rest Eo) as (Hb & -> & Hw & -> & -> & Hs).
  cbv zeta. rewrite Hs. pose proof (λ p H1 H2 H3, scored_flight s r arm now a p H1 H2 H3) as Hfly.
  unfold wakes, in_flight in *. bool_prop. simpl. split_and!; try done. intros p Hp.
  destruct (decide (Exists (λ e, (st_last_seen_at s < ue_at_epoch e ∧ p ≤ ue_at_epoch e)%N)
    (rd_usage_tail r))) as [(e & He & Hlt & Hle)%Exists_exists|Hno]; [left; by exists e|right].
  destruct (decide (file_deadline arm = st_deadline s ∨ (now < file_deadline arm)%N)) as [Ha|Ha];
    [exfalso|split; [tauto|lia]].
  assert (Hr : Forall (λ e, (st_last_seen_at s < ue_at_epoch e)%N → (ue_at_epoch e < p)%N) (rd_usage_tail r)).
  { apply Forall_forall. intros e He Hlt. apply N.lt_nge. intros Hle. apply Hno.
    apply Exists_exists. by exists e. }
  destruct (Hfly p Hp Ha Hr) as [Hin|[_ Hd]]; [|rewrite Hd in *; lia].
  match goal with H : ¬ is_Some (st_pinged_at _) |- _ => apply H end. by rewrite Hin.
Qed.

(** C28: the operator's word is newer than a step's: a deadline on disk that is not the
    one the step started from is kept, whatever the step decided. *)
Theorem settle_keeps_operators_arm (w : Writes) (s : State) (arm : option ArmFile) (o : Outcome)
    (now : N) (disk : Disk) :
  file_deadline (dk_arm disk) ≠ file_deadline arm →
  dk_arm (settle w s arm o now disk) = dk_arm disk.
Proof.
  intros H. unfold settle. apply N.eqb_neq in H. rewrite H.
  destruct (oc_arm_write o), (oc_changed o); try done; by destruct w as [? []].
Qed.

(** C24: no cold write is scored twice: over a reading whose requests are in order, the
    cold writes on record stay at distinct times, none past the idle clock. *)
Theorem misses_scored_once (s : State) (r : Reading) (arm : option ArmFile) (now : N) (a : bool) :
  st_baselined s = true → StronglySorted N.lt (ue_at_epoch <$> rd_usage_tail r) →
  scored_once s → scored_once (fst (step_with s r arm now a)).
Proof. apply step_with_once. Qed.

(** C36: [parse_duration] reads back what [fmt_duration] prints below two days: the
    duration to the nearest minute. *)
Theorem duration_round_trip (secs : N) :
  (secs < 172770)%N → parse_duration (fmt_duration secs) = Some (60 * ((secs + 30) / 60))%N.
Proof.
  intros Hlt. unfold fmt_duration. rewrite u64_add_small by (unfold u64_max; lia).
  set (total := ((secs + 30) / 60)%N).
  assert (Htotal : (total < 2880)%N) by (apply N.Div0.div_lt_upper_bound; lia).
  pose proof (N.div_mod total 60 ltac:(lia)) as Hdm.
  pose proof (N.mod_lt total 60 ltac:(lia)) as Hmod.
  rewrite (proj2 (N.leb_gt 48 (total / 60))) by (apply N.Div0.div_lt_upper_bound; lia).
  destruct (0 <? total / 60)%N eqn:E.
  - unfold format. cbn [concat]. rewrite app_nil_r.
    rewrite parse_hours_minutes by (unfold u64_max; lia). f_equal. lia.
  - apply N.ltb_ge in E. unfold format. cbn [concat]. rewrite app_nil_r.
    rewrite parse_minutes by (unfold u64_max; lia). f_equal.
    rewrite u64_mul_small by (unfold u64_max; lia). lia.
Qed.

End properties.

(** ** The properties at work *)

(** A large session on the hour tier, its last request at [t]. *)
Definition busy (t : N) : Reading := {|
  rd_tokens_used := 80000; rd_model := "claude-opus-5"; rd_method := "api";
  rd_usage_tail := [{| ue_at_epoch := t; ue_model := "claude-opus-5"; ue_input := 10;
                       ue_cache_read := 79990; ue_cache_creation := 0; ue_output := 200;
                       ue_tier := "1h" |}];
|}.
Definition armed (d : N) : ArmFile :=
  {| af_deadline := d; af_armed_at := 0; af_window_secs := d; af_auto := false |}.
Definition empty_disk : Disk := {| dk_arm := None; dk_ledger := None |}.
Definition armed_disk : Disk := {| dk_arm := Some (armed 20000); dk_ledger := None |}.
(** On the clock at 1000, a window open to 20000. *)
Definition waiting : State :=
  set_deadline 20000 (set_clock true 1000 80000 "claude-opus-5" State_default).

Lemma check_refines_sensor_witness :
  let es := [Poll (busy 1000) 1010; SetArm (Some (armed 20000)); Poll (busy 1000) 4100;
             Marks id 4110; Poll (busy 1000) 4160] in
  (∀ l, dk_ledger empty_disk = Some l → le_cursor l = None) ∧
  (fst (run_sensor (from_ledger None) empty_disk es) = fst (run_check empty_disk es) ∧
   dk_arm (snd (run_sensor (from_ledger None) empty_disk es)) =
     dk_arm (snd (run_check empty_disk es))) ∧
  length (omap id (fst (run_check empty_disk es))) = 1.
Proof.
  cbv zeta. split; [done|]. split; [|vm_compute; reflexivity].
  by apply (check_refines_sensor empty_disk).
Defined.

Lemma one_wake_per_stretch_witness :
  let r := poll_with all_writes waiting (busy 1000) 4100 id armed_disk in
  fst (fst r) ≠ [] ∧
  Forall (λ obs, obs = []) (polls (snd (fst r)) (snd r) [(busy 1000, 4160%N); (busy 1000, 4220%N)]).
Proof.
  cbv zeta. split; [vm_compute; discriminate|].
  eapply (one_wake_per_stretch waiting armed_disk (busy 1000) 4100).
  - vm_compute. reflexivity.
  - discriminate.
  - vm_compute. repeat constructor; discriminate.
Defined.

Lemma wake_is_useful_witness :
  let so := step_with waiting (busy 1000) (Some (armed 20000)) 4100 true in
  oc_observations (snd so) ≠ [] ∧ st_pinged_at (fst so) = Some 4100%N.
Proof.
  cbv zeta. assert (H : oc_observations (snd (step_with waiting (busy 1000) (Some (armed 20000)) 4100 true)) ≠ [])
    by (vm_compute; discriminate).
  split; [exact H|].
  exact (proj2 (proj2 (proj2 (proj2 (proj2 (proj2
    (wake_is_useful waiting (busy 1000) (Some (armed 20000)) 4100 true H))))))).
Defined.

Lemma settle_keeps_operators_arm_witness :
  let out := set_arm_write 0 Outcome_default in
  file_deadline (dk_arm armed_disk) ≠ file_deadline (Some (armed 9000)) ∧
  dk_arm (settle all_writes waiting (Some (armed 9000)) out 4100 armed_disk) = Some (armed 20000).
Proof.
  cbv zeta. split; [discriminate|].
  apply (settle_keeps_operators_arm all_writes waiting (Some (armed 9000)) _ 4100 armed_disk).
  discriminate.
Defined.

Lemma misses_scored_once_witness :
  let r := {| rd_tokens_used := 80000; rd_model := "claude-opus-5"; rd_method := "api";
              rd_usage_tail := [{| ue_at_epoch := 9000; ue_model := []; ue_input := 10;
                ue_cache_read := 0; ue_cache_creation := 79990; ue_output := 5; ue_tier := [] |}] |} in
  scored_once waiting ∧ scored_once (fst (step_with waiting r None 9010 true)) ∧
  length (st_misses (fst (step_with waiting r None 9010 true))) = 1.
Proof.
  cbv zeta. assert (H : scored_once waiting) by (split; constructor).
  split; [exact H|]. split; [|vm_compute; reflexivity].
  apply misses_scored_once; [reflexivity|repeat constructor|exact H].
Defined.

Lemma duration_round_trip_witness :
  (5415 < 172770)%N ∧ parse_duration (fmt_duration 5415) = Some 5400%N.
Proof. split; [lia|]. apply (duration_round_trip 5415). lia. Defined.
