(* ===== verification/RustPath.v ===== *)
(** * Paths

    Rust's [std::path] on Unix, over strings: components, joining, and the lexical
    operations the tools use. *)

From Stdlib Require Import Ascii.
From stdpp Require Import base tactics list numbers strings option.
From S2P Require Import Prelude RustStr.

Module Component.

Inductive t : Type :=
  | RootDir
  | CurDir
  | ParentDir
  | Normal (s : str).

#[global] Instance eq_dec : EqDecision t.
Proof. solve_decision. Defined.

End Component.

Definition is_absolute (p : str) : bool := starts_with "/" p.

Definition component_of (first : bool) (s : str) : list Component.t :=
  if str_eqb s [] then []
  else if str_eqb s "." then if first then [Component.CurDir] else []
  else if str_eqb s ".." then [Component.ParentDir]
  else [Component.Normal s].

(** [Path::components]: empty and [.] components drop out, but for a leading [.]. *)
Definition components (p : str) : list Component.t :=
  let parts := split_char "/"%char p in
  if is_absolute p then Component.RootDir :: concat (component_of false <$> parts)
  else match parts with
       | [] => []
       | s :: rest => component_of true s ++ concat (component_of false <$> rest)
       end.

Definition component_str (c : Component.t) : str :=
  match c with
  | Component.RootDir => "/"
  | Component.CurDir => "."
  | Component.ParentDir => ".."
  | Component.Normal s => s
  end.

(** [Path::join] *)
Definition path_join (a b : str) : str :=
  if is_absolute b then b
  else if str_eqb a [] || ends_with "/" a then a ++ b
  else a ++ "/" ++ b.

(** A path of these components, pushed one by one. *)
Definition path_of (cs : list Component.t) : str :=
  fold_left (λ p c, path_join p (component_str c)) cs [].

(** [Path::file_name] *)
Definition file_name (p : str) : option str :=
  match list.last (components p) with
  | Some (Component.Normal s) => Some s
  | _ => None
  end.

(** [Path::strip_prefix], as the components that are left. *)
Fixpoint strip_components (base cs : list Component.t) : option (list Component.t) :=
  match base, cs with
  | [], _ => Some cs
  | b :: base, c :: cs => if bool_decide (b = c) then strip_components base cs else None
  | _ :: _, [] => None
  end.

Lemma strip_components_spec base cs rest :
  strip_components base cs = Some rest ↔ cs = base ++ rest.
Proof.
  revert cs. induction base as [|b base IH]; intros [|c cs]; simpl; try naive_solver.
  case_bool_decide; [rewrite IH|]; naive_solver.
Qed.
