(* ===== verification/RustPathFacts.v ===== *)
(** * Facts about paths

    Splitting reads back what joining wrote, so a path printed from plain components
    has those components. *)

From Stdlib Require Import Ascii.
From stdpp Require Import base tactics list numbers strings option.
From S2P Require Import Prelude RustStr RustStrFacts RustPath.

(** ** Splitting *)

Lemma split_on_plain {A} (p : A → bool) l : Forall (λ w, forallb (λ x, negb (p x)) w = true) (split_on p l).
Proof.
  induction l as [|x l IH]; simpl; [by repeat constructor|].
  destruct (p x) eqn:E; [by constructor|].
  destruct (split_on p l) as [|w ws]; [by repeat constructor; simpl; rewrite E|].
  inversion_clear IH as [|? ? Hw Hws]. constructor; [simpl; by rewrite E|done].
Qed.

Lemma split_on_word {A} (p : A → bool) w :
  forallb (λ x, negb (p x)) w = true → split_on p w = [w].
Proof.
  induction w as [|x w IH]; [done|]. simpl. intros [H%negb_true_iff Hw]%andb_prop.
  by rewrite H, IH.
Qed.

Lemma split_on_app {A} (p : A → bool) w x l :
  forallb (λ x, negb (p x)) w = true → p x = true → split_on p (w ++ x :: l) = w :: split_on p l.
Proof.
  intros Hw Hx. induction w as [|y w IH]; simpl in *; [by rewrite Hx|].
  apply andb_prop in Hw as [H%negb_true_iff Hw]. by rewrite H, IH.
Qed.

Lemma split_join c ws :
  ws ≠ [] → Forall (λ w, forallb (λ x, negb (c =?a x)) w = true) ws →
  split_char c (join [c] ws) = ws.
Proof.
  intros Hne Hws. induction Hws as [|w ws Hw Hws IH]; [done|].
  destruct ws as [|w2 ws]; [by apply split_on_word|].
  unfold split_char in *. change (join [c] (w :: w2 :: ws)) with (w ++ c :: join [c] (w2 :: ws)).
  rewrite split_on_app by (done || apply Ascii.eqb_refl). by rewrite IH.
Qed.

Lemma join_cons sep w ws : join sep (w :: ws) = w ++ concat ((app sep) <$> ws).
Proof.
  revert w. induction ws as [|w2 ws IH]; intros w; [by rewrite app_nil_r|].
  change (join sep (w :: w2 :: ws)) with (w ++ sep ++ join sep (w2 :: ws)).
  rewrite IH. simpl. by rewrite !app_assoc.
Qed.

Lemma ends_with_snoc c s x : ends_with [c] (s ++ [x]) = (c =?a x).
Proof.
  unfold ends_with, strip_suffix. rewrite reverse_app. simpl.
  change (reverse [c]) with [c]. simpl. by destruct (c =?a x).
Qed.

(** ** Plain components *)

(** The name of a file or directory: not empty, no slash, neither [.] nor [..]. *)
Definition proper_name (n : str) : Prop :=
  n ≠ [] ∧ forallb (λ x, negb ("/"%char =?a x)) n = true ∧ n ≠ "." ∧ n ≠ "..".

Definition is_dots (c : Component.t) : bool :=
  bool_decide (c = Component.CurDir) || bool_decide (c = Component.ParentDir).

Lemma component_of_proper first s :
  forallb (λ x, negb ("/"%char =?a x)) s = true →
  existsb is_dots (component_of first s) = false →
  ∃ ns, component_of first s = Component.Normal <$> ns ∧ Forall proper_name ns.
Proof.
  intros Hs. unfold component_of.
  destruct (str_eqb s []) eqn:E1; [by exists []|]. destruct (str_eqb s ".") eqn:E2.
  { destruct first; [done|by exists []]. }
  destruct (str_eqb s "..") eqn:E3; [done|]. intros _. exists [s]. split; [done|].
  apply str_eqb_neq in E1, E2, E3. by repeat constructor.
Qed.

Lemma parts_proper parts :
  Forall (λ w, forallb (λ x, negb ("/"%char =?a x)) w = true) parts →
  existsb is_dots (concat (component_of false <$> parts)) = false →
  ∃ ns, concat (component_of false <$> parts) = Component.Normal <$> ns ∧ Forall proper_name ns.
Proof.
  intros Hp. induction Hp as [|s parts Hs Hp IH]; [by exists []|].
  rewrite fmap_cons. cbn [concat]. rewrite existsb_app. intros [H1 H2]%orb_false_iff.
  destruct (component_of_proper false s Hs H1) as (n1 & -> & Hn1), (IH H2) as (n2 & -> & Hn2).
  exists (n1 ++ n2). split; [by rewrite fmap_app|by apply Forall_app].
Qed.

(** The components of a path without dots: an optional root and proper names. *)
Lemma components_proper p :
  existsb is_dots (components p) = false →
  ∃ root ns, components p = (if root : bool then [Component.RootDir] else []) ++ (Component.Normal <$> ns) ∧
    Forall proper_name ns.
Proof.
  unfold components. pose proof (split_on_plain (Ascii.eqb "/"%char) p) as Hp.
  fold (split_char "/"%char p) in Hp. destruct (is_absolute p).
  - cbn [existsb is_dots]. intros H. destruct (parts_proper _ Hp H) as (ns & -> & Hns).
    by exists true, ns.
  - destruct Hp as [|s parts Hs Hp]; [by exists false, []|].
    rewrite existsb_app. intros [H1 H2]%orb_false_iff.
    destruct (component_of_proper true s Hs H1) as (n1 & -> & Hn1), (parts_proper _ Hp H2) as (n2 & -> & Hn2).
    exists false, (n1 ++ n2). split; [by rewrite fmap_app|by apply Forall_app].
Qed.

Lemma component_of_name first n : proper_name n → component_of first n = [Component.Normal n].
Proof.
  intros (H1 & _ & H2 & H3). unfold component_of.
  by rewrite !(proj2 (str_eqb_neq _ _)) by done.
Qed.

Lemma name_parts ns :
  Forall proper_name ns → concat (component_of false <$> ns) = Component.Normal <$> ns.
Proof.
  induction 1 as [|n ns Hn Hns IH]; [done|]. rewrite fmap_cons. cbn [concat].
  by rewrite component_of_name, IH.
Qed.

Lemma name_not_absolute n : proper_name n → is_absolute n = false.
Proof.
  intros (Hne & Hs & _). destruct n as [|c n]; [done|]. unfold is_absolute, starts_with. simpl in *.
  apply andb_prop in Hs as [Hs%negb_true_iff _]. by rewrite Hs.
Qed.

Lemma name_no_trail a n : proper_name n → ends_with "/" (a ++ n) = false.
Proof.
  intros (Hne & Hs & _). destruct n as [|x n] using rev_ind; [done|]. rewrite app_assoc.
  change (lit "/") with ["/"%char]. rewrite ends_with_snoc.
  rewrite forallb_app in Hs. apply andb_prop in Hs as [_ Hs]. simpl in Hs.
  rewrite andb_true_r in Hs. by apply negb_true_iff.
Qed.

Lemma fold_join a ns :
  a ≠ [] → ends_with "/" a = false → Forall proper_name ns →
  fold_left (λ p c, path_join p (component_str c)) (Component.Normal <$> ns) a =
  a ++ concat (app ["/"%char] <$> ns).
Proof.
  intros Ha He Hns. revert a Ha He. induction Hns as [|n ns Hn Hns IH]; intros a Ha He.
  { by rewrite app_nil_r. }
  rewrite !fmap_cons. cbn [fold_left component_str concat].
  assert (path_join a n = a ++ ["/"%char] ++ n) as ->.
  { unfold path_join. rewrite name_not_absolute, He by done.
    by rewrite (proj2 (str_eqb_neq _ _)). }
  rewrite IH.
  - by rewrite <- !app_assoc.
  - by destruct a.
  - rewrite app_assoc. by apply name_no_trail.
Qed.

Lemma path_of_relative n ns :
  proper_name n → Forall proper_name ns →
  path_of (Component.Normal <$> (n :: ns)) = join ["/"%char] (n :: ns).
Proof.
  intros Hn Hns. unfold path_of. rewrite fmap_cons. cbn [fold_left component_str].
  assert (path_join [] n = n) as ->.
  { unfold path_join. by rewrite name_not_absolute by done. }
  rewrite fold_join; [by rewrite join_cons| |by apply (name_no_trail [])|done]. by destruct Hn.
Qed.

Lemma path_of_absolute ns :
  Forall proper_name ns →
  path_of (Component.RootDir :: (Component.Normal <$> ns)) = "/"%char :: join ["/"%char] ns.
Proof.
  intros Hns. unfold path_of. cbn [fold_left component_str]. destruct Hns as [|n ns Hn Hns]; [done|].
  rewrite fmap_cons. cbn [fold_left component_str].
  assert (path_join (path_join [] "/") n = "/"%char :: n) as ->.
  { unfold path_join at 1. by rewrite name_not_absolute by done. }
  rewrite fold_join; [by rewrite join_cons|done| |done].
  by apply (name_no_trail ["/"%char]).
Qed.

(** Printing plain components and reading them back. *)
Lemma components_path_of p :
  existsb is_dots (components p) = false → components p ≠ [] →
  components (path_of (components p)) = components p.
Proof.
  intros Hd Hne. destruct (components_proper p Hd) as (root & ns & E & Hns). rewrite E in *.
  assert (Hplain : Forall (λ w, forallb (λ x, negb ("/"%char =?a x)) w = true) ns)
    by (eapply Forall_impl; [|exact Hns]; by intros n (? & ? & ?)).
  destruct root; cbn [app] in *.
  - rewrite path_of_absolute by done. unfold components, is_absolute, starts_with.
    cbn [strip_prefix]. f_equal. unfold split_char. simpl.
    destruct ns as [|n ns]; [done|].
    change (split_on (Ascii.eqb "/"%char)) with (split_char "/"%char).
    rewrite split_join by done. cbn [concat]. by apply name_parts.
  - destruct ns as [|n ns]; [done|]. inversion_clear Hns as [|? ? Hn Hns'].
    rewrite path_of_relative by done. unfold components. rewrite split_join by done.
    assert (is_absolute (join ["/"%char] (n :: ns)) = false) as ->.
    { rewrite join_cons. pose proof (name_not_absolute n Hn) as Ha.
      destruct Hn as [Hnn _]. destruct n as [|x n]; [done|].
      revert Ha. unfold is_absolute, starts_with. change (lit "/") with ["/"%char].
      cbn [app strip_prefix]. by destruct (_ =?a _). }
    by rewrite component_of_name, name_parts by done.
Qed.
