(* ===== verification/KeepwarmConfig.v ===== *)
(** * The keepalive policy's configuration

    [tools/sensor-keepwarm/src/policy.rs] up to [route_notes]: the policy's marks and
    the operations on them, the wrap skill, the gate, the settings, and where the
    wrap's reply may go. The settings document is parsed by [serde_json]: the class
    [Json] is what the code asks of it. [is_symlink] is the file system's answer. *)

From Stdlib Require Import Ascii ZArith Floats.SpecFloat.
From stdpp Require Import base tactics list numbers strings option.
From S2P Require Import Prelude RustStr RustPath Float64 KeepwarmBase KeepwarmWindows.

Definition DEFAULT_MAX : N := 8.
Definition MAX_RANGE : N * N := (0, 48)%N.
Definition DEFAULT_MARGIN_MIN : N := 10.
Definition MARGIN_RANGE : N * N := (3, 30)%N.
Definition DEFAULT_AFTER_MAX : N := 0.
Definition AFTER_RANGE : N * N := (0, 48)%N.
Definition DEFAULT_WRAP_SKILL : str := "wrap stay".
Definition SKILL_MAX_LEN : nat := 32.
Definition SKILL_MAX_ARGS : nat := 2.
Definition SKILL_ARG_MAX_LEN : nat := 16.
Definition ECHO_MAX_LEN : nat := 64.

Definition echo (value : str) : str :=
  let clean := map (λ c, if is_control c then ["?"%char] else c) (chars value) in
  if ECHO_MAX_LEN <? length clean then format [concat (take ECHO_MAX_LEN clean); "…"]
  else concat clean.

Definition DEFAULT_WRAP_FILE : str := "{state}/wrap/{session}.md".
Definition VERDICT_SECS : N := TTL_SECS - PING_AFTER_SECS.
Definition PLAIN_EVERY_SECS : N := 60.

(** ** The policy's marks *)

(** [Policy::since] *)
Definition since (p : Policy) : option N :=
  match po_operator_at p with Some t => Some t | None => po_stretch_from p end.

(** [reset]: the operator prompted. *)
Definition reset (p : Policy) (now : N) : Policy := {|
  po_count := 0; po_operator_at := Some now; po_stretch_from := None; po_wrapped_at := None;
  po_stopped := None; po_wrap_outcome := None; po_gate := po_gate p; po_pending := false;
  po_spent_usd := f64_zero; po_after_count := 0; po_compact_focus := None;
  po_compacted_at := None; po_compact_failed := None; po_skill_seen := None;
  po_old_host := false;
|}.

(** The marks the step moves: the sent counts, the stretch, the wrap, the stop, the
    keepalive in flight, its cost and the compaction. *)
Record Marks := {
  mk_count : N;
  mk_stretch_from : option N;
  mk_wrapped_at : option N;
  mk_stopped : option str;
  mk_pending : bool;
  mk_spent_usd : f64;
  mk_after_count : N;
  mk_compacted_at : option N;
}.
Definition marks (p : Policy) : Marks := {|
  mk_count := po_count p; mk_stretch_from := po_stretch_from p;
  mk_wrapped_at := po_wrapped_at p; mk_stopped := po_stopped p; mk_pending := po_pending p;
  mk_spent_usd := po_spent_usd p; mk_after_count := po_after_count p;
  mk_compacted_at := po_compacted_at p;
|}.
Definition with_marks (p : Policy) (m : Marks) : Policy := {|
  po_count := mk_count m; po_operator_at := po_operator_at p;
  po_stretch_from := mk_stretch_from m; po_wrapped_at := mk_wrapped_at m;
  po_stopped := mk_stopped m; po_wrap_outcome := po_wrap_outcome p; po_gate := po_gate p;
  po_pending := mk_pending m; po_spent_usd := mk_spent_usd m;
  po_after_count := mk_after_count m; po_compact_focus := po_compact_focus p;
  po_compacted_at := mk_compacted_at m; po_compact_failed := po_compact_failed p;
  po_skill_seen := po_skill_seen p; po_old_host := po_old_host p;
|}.
Definition set_stopped (why : option str) (p : Policy) : Policy :=
  with_marks p {| mk_count := po_count p; mk_stretch_from := po_stretch_from p;
    mk_wrapped_at := po_wrapped_at p; mk_stopped := why; mk_pending := po_pending p;
    mk_spent_usd := po_spent_usd p; mk_after_count := po_after_count p;
    mk_compacted_at := po_compacted_at p |}.
Definition set_pending (b : bool) (p : Policy) : Policy :=
  with_marks p {| mk_count := po_count p; mk_stretch_from := po_stretch_from p;
    mk_wrapped_at := po_wrapped_at p; mk_stopped := po_stopped p; mk_pending := b;
    mk_spent_usd := po_spent_usd p; mk_after_count := po_after_count p;
    mk_compacted_at := po_compacted_at p |}.
Definition set_spent (usd : f64) (p : Policy) : Policy :=
  with_marks p {| mk_count := po_count p; mk_stretch_from := po_stretch_from p;
    mk_wrapped_at := po_wrapped_at p; mk_stopped := po_stopped p; mk_pending := po_pending p;
    mk_spent_usd := usd; mk_after_count := po_after_count p;
    mk_compacted_at := po_compacted_at p |}.
Definition set_stretch (t : option N) (p : Policy) : Policy :=
  with_marks p {| mk_count := po_count p; mk_stretch_from := t;
    mk_wrapped_at := po_wrapped_at p; mk_stopped := po_stopped p; mk_pending := po_pending p;
    mk_spent_usd := po_spent_usd p; mk_after_count := po_after_count p;
    mk_compacted_at := po_compacted_at p |}.
(** A keepalive sent before, or after, the wrap. *)
Definition sent_keepalive (after : bool) (p : Policy) : Policy :=
  with_marks p {| mk_count := if after then po_count p else u32_add (po_count p) 1;
    mk_stretch_from := po_stretch_from p; mk_wrapped_at := po_wrapped_at p;
    mk_stopped := po_stopped p; mk_pending := true; mk_spent_usd := po_spent_usd p;
    mk_after_count := if after then u32_add (po_after_count p) 1 else po_after_count p;
    mk_compacted_at := po_compacted_at p |}.
Definition set_wrapped (t : option N) (p : Policy) : Policy :=
  with_marks p {| mk_count := po_count p; mk_stretch_from := po_stretch_from p;
    mk_wrapped_at := t; mk_stopped := po_stopped p; mk_pending := po_pending p;
    mk_spent_usd := po_spent_usd p; mk_after_count := po_after_count p;
    mk_compacted_at := po_compacted_at p |}.
Definition set_compacted (t : option N) (p : Policy) : Policy :=
  with_marks p {| mk_count := po_count p; mk_stretch_from := po_stretch_from p;
    mk_wrapped_at := po_wrapped_at p; mk_stopped := po_stopped p; mk_pending := po_pending p;
    mk_spent_usd := po_spent_usd p; mk_after_count := po_after_count p;
    mk_compacted_at := t |}.
(** What the check saw of the host: the gate and the skill. *)
Definition set_seen (gate : str) (skill : option SkillSeen.t) (p : Policy) : Policy := {|
  po_count := po_count p; po_operator_at := po_operator_at p;
  po_stretch_from := po_stretch_from p; po_wrapped_at := po_wrapped_at p;
  po_stopped := po_stopped p; po_wrap_outcome := po_wrap_outcome p; po_gate := Some gate;
  po_pending := po_pending p; po_spent_usd := po_spent_usd p;
  po_after_count := po_after_count p; po_compact_focus := po_compact_focus p;
  po_compacted_at := po_compacted_at p; po_compact_failed := po_compact_failed p;
  po_skill_seen := skill; po_old_host := po_old_host p;
|}.
Definition set_old_host (b : bool) (p : Policy) : Policy := {|
  po_count := po_count p; po_operator_at := po_operator_at p;
  po_stretch_from := po_stretch_from p; po_wrapped_at := po_wrapped_at p;
  po_stopped := po_stopped p; po_wrap_outcome := po_wrap_outcome p; po_gate := po_gate p;
  po_pending := po_pending p; po_spent_usd := po_spent_usd p;
  po_after_count := po_after_count p; po_compact_focus := po_compact_focus p;
  po_compacted_at := po_compacted_at p; po_compact_failed := po_compact_failed p;
  po_skill_seen := po_skill_seen p; po_old_host := b;
|}.
(** What the mod reports of the wrap and of the compaction. *)
Definition set_reports (outcome focus failed : option str) (p : Policy) : Policy := {|
  po_count := po_count p; po_operator_at := po_operator_at p;
  po_stretch_from := po_stretch_from p; po_wrapped_at := po_wrapped_at p;
  po_stopped := po_stopped p; po_wrap_outcome := outcome; po_gate := po_gate p;
  po_pending := po_pending p; po_spent_usd := po_spent_usd p;
  po_after_count := po_after_count p; po_compact_focus := focus;
  po_compacted_at := po_compacted_at p; po_compact_failed := failed;
  po_skill_seen := po_skill_seen p; po_old_host := po_old_host p;
|}.

Definition stop_by_operator (p : Policy) : Policy := set_stopped (Some (lit "attend keepwarm off")) p.
Definition clear_stop (p : Policy) : Policy := set_stopped None p.

(** ** What the settings choose *)

Module WrapDest.

Inductive t : Type :=
  | Transcript
  | File
  | Send
  | Off.

#[global] Instance eq_dec : EqDecision t.
Proof. solve_decision. Defined.

Definition as_str (d : t) : str :=
  match d with
  | Transcript => "transcript"
  | File => "file"
  | Send => "send"
  | Off => "off"
  end.

Definition parse (s : str) : option t :=
  if str_eqb s "transcript" then Some Transcript
  else if str_eqb s "file" then Some File
  else if str_eqb s "send" then Some Send
  else if str_eqb s "off" then Some Off
  else None.

End WrapDest.

Module AfterWrap.

Inductive t : Type :=
  | Lapse
  | Compact.

#[global] Instance eq_dec : EqDecision t.
Proof. solve_decision. Defined.

Definition as_str (a : t) : str :=
  match a with
  | Lapse => "lapse"
  | Compact => "compact"
  end.

End AfterWrap.

Module WrapSkill.

Record t := {
  name : str;
  args : str;
  refused : option (str * str);
}.

Definition default : t := {| name := "wrap"; args := "stay"; refused := None |}.

Definition name_char (c : str) : bool :=
  char_is (λ b, is_alnum b || existsb (Ascii.eqb b) [":"; "_"; "-"; "."]%char) c.
Definition name_ok (n : str) : bool :=
  (length n <=? SKILL_MAX_LEN) &&
  match chars n with
  | c :: _ => char_is is_alnum c
  | [] => false
  end && forallb name_char (chars n).

Definition arg_char (c : str) : bool :=
  char_is (λ b, is_alnum b || existsb (Ascii.eqb b) [":"; "_"; "-"; "."; "="; ","]%char) c.
Definition word_ok (w : str) : bool :=
  (length w <=? SKILL_ARG_MAX_LEN) && negb (starts_with "-" w) && forallb arg_char (chars w).

Definition words_of (args : str) : list str :=
  List.filter (λ w, negb (str_eqb w [])) (split_char " "%char args).

(** [v.split_once(char::is_whitespace)], the second part trimmed. *)
Definition split_args (v : str) : str * str :=
  let cs := chars v in
  match drop_while (λ c, negb (is_whitespace c)) cs with
  | [] => (v, [])
  | _ :: rest => (concat (take_while (λ c, negb (is_whitespace c)) cs), trim (concat rest))
  end.

Definition parse (value : str) : t :=
  let v := trim value in
  let v := match strip_prefix "/" v with Some r => r | None => v end in
  match v with
  | [] => {| name := []; args := []; refused := None |}
  | _ =>
    let '(n, a) := split_args v in
    let a := join " " (split_whitespace a) in
    let refuse why := {| name := []; args := []; refused := Some (echo (trim value), why) |} in
    if negb (name_ok n) then
      refuse (lit "a skill name is letters, digits and : _ - . only")
    else
      let words := words_of a in
      if (SKILL_MAX_ARGS <? length words) || negb (forallb word_ok words) then
        refuse (lit "its arguments are at most two words of 16 letters, digits or : _ - . = , each, none opening with -")
      else {| name := n; args := a; refused := None |}
  end.

Definition ask (s : t) : str :=
  match length (words_of (args s)) with
  | 0 => format ["Run the "; name s; " skill"]
  | 1 => format ["Run the "; name s; " skill with the argument "; args s]
  | _ => format ["Run the "; name s; " skill with the arguments "; args s]
  end.

End WrapSkill.

Module Gate.

Inductive t : Type :=
  | On
  | Off
  | Unknown.

#[global] Instance eq_dec : EqDecision t.
Proof. solve_decision. Defined.

Definition parse (s : str) : t :=
  if str_eqb s "off" then Off else if str_eqb s "on" then On else Unknown.

Definition as_str (g : t) : str :=
  match g with
  | On => "on"
  | Off => "off"
  | Unknown => "unknown"
  end.

End Gate.

(** What the host said of the session's skills. *)
Module SessionSkills.

Inductive t : Type :=
  | NotChecked
  | Unread
  | Listed (l : list str)
  | Partial (l : list str).

#[global] Instance eq_dec : EqDecision t.
Proof. solve_decision. Defined.

End SessionSkills.

(** [serde_json::Value] and the operations the settings are read with. *)
Class Json := {
  Value : Type;
  json_from_str : str → option Value;
  json_get : Value → str → option Value;
  as_str : Value → option str;
  as_u64 : Value → option N;
  as_bool : Value → option bool;
  as_array : Value → option (list Value);
  json_to_string : Value → str;
}.

Module Config.

Section config.
Context {J : Jiff}.

Record t := {
  settings_ok : bool;
  keepwarm_on : bool;
  enabled : bool;
  max : N;
  margin_secs : N;
  windows : Windows.t;
  wrap : WrapDest.t;
  wrap_file : str;
  wrap_to : str;
  after_wrap : AfterWrap.t;
  after_max : N;
  wrap_skill : WrapSkill.t;
  session_skills : SessionSkills.t;
}.

(** [Config::default], over its default windows. *)
Definition default (w : Windows.t) : t := {|
  settings_ok := true; keepwarm_on := true; enabled := true; max := DEFAULT_MAX;
  margin_secs := DEFAULT_MARGIN_MIN * 60; windows := w; wrap := WrapDest.Transcript;
  wrap_file := DEFAULT_WRAP_FILE; wrap_to := []; after_wrap := AfterWrap.Lapse;
  after_max := DEFAULT_AFTER_MAX; wrap_skill := WrapSkill.default;
  session_skills := SessionSkills.NotChecked;
|}.

Definition set_after_max (n : N) (c : t) : t := {|
  settings_ok := settings_ok c; keepwarm_on := keepwarm_on c; enabled := enabled c;
  max := max c; margin_secs := margin_secs c; windows := windows c; wrap := wrap c;
  wrap_file := wrap_file c; wrap_to := wrap_to c; after_wrap := after_wrap c;
  after_max := n; wrap_skill := wrap_skill c; session_skills := session_skills c;
|}.
Definition set_session_skills (l : SessionSkills.t) (c : t) : t := {|
  settings_ok := settings_ok c; keepwarm_on := keepwarm_on c; enabled := enabled c;
  max := max c; margin_secs := margin_secs c; windows := windows c; wrap := wrap c;
  wrap_file := wrap_file c; wrap_to := wrap_to c; after_wrap := after_wrap c;
  after_max := after_max c; wrap_skill := wrap_skill c; session_skills := l;
|}.

Definition in_range (r : N * N) (n : N) : bool := (fst r <=? n)%N && (n <=? snd r)%N.

Section settings.
Context {V : Json}.

Definition key (v : Value) (k : str) : option Value :=
  keys ← json_get v "keys"; e ← json_get keys ("mods.attend." ++ k); json_get e "value".
Definition text (v : Value) (k : str) : option str := x ← key v k; as_str x.
Definition int (v : Value) (k : str) (r : N * N) : option N :=
  n ← (x ← key v k; as_u64 x); if in_range r n then Some n else None.

Definition from_settings (doc : option str) : res t :=
  dw ← Windows.parse [DEFAULT_WINDOW] [];
  let d := default dw in
  match s ← doc; json_from_str s with
  | None => Ok {|
      settings_ok := false; keepwarm_on := keepwarm_on d; enabled := false; max := max d;
      margin_secs := margin_secs d; windows := windows d; wrap := wrap d;
      wrap_file := wrap_file d; wrap_to := wrap_to d; after_wrap := after_wrap d;
      after_max := after_max d; wrap_skill := wrap_skill d; session_skills := session_skills d;
    |}
  | Some v =>
    let entries :=
      items ← (x ← key v "keepalive.windows"; as_array x);
      Some (map (λ i, match as_str i with Some s => s | None => json_to_string i end) items) in
    let zone := option.default [] (text v "keepalive.timezone") in
    w ← Windows.parse (option.default [DEFAULT_WINDOW] entries) zone;
    Ok {|
      settings_ok := true;
      keepwarm_on := negb (bool_decide (text v "keepwarm" = Some (lit "off")));
      enabled := bool_decide ((x ← key v "keepalive.enabled"; as_bool x) = Some true);
      max := option.default (max d) (int v "keepalive.max_keepalives" MAX_RANGE);
      margin_secs := match int v "keepalive.margin_minutes" MARGIN_RANGE with
                     | Some n => n * 60
                     | None => margin_secs d
                     end;
      windows := w;
      wrap := option.default (wrap d) (s ← text v "keepalive.wrap"; WrapDest.parse s);
      wrap_file := match text v "keepalive.wrap_file" with
                   | Some s => if str_eqb (trim s) [] then wrap_file d else s
                   | None => wrap_file d
                   end;
      wrap_to := trim (option.default [] (text v "keepalive.wrap_to"));
      after_wrap := if bool_decide (text v "keepalive.after_wrap" = Some (lit "compact"))
                    then AfterWrap.Compact else after_wrap d;
      after_max := option.default (after_max d) (int v "keepalive.after_wrap_keepalives" AFTER_RANGE);
      wrap_skill := match text v "keepalive.wrap_skill" with
                    | Some s => WrapSkill.parse s
                    | None => wrap_skill d
                    end;
      session_skills := SessionSkills.NotChecked;
    |}
  end.

End settings.

Definition no_wrap (c : t) : option str :=
  if bool_decide (wrap c = WrapDest.Off) then Some (lit "wrap is off")
  else
    match WrapSkill.refused (wrap_skill c) with
    | Some (value, _) =>
      Some (format ["wrap_skill "; [dquote]; value; [dquote]; " is refused"])
    | None =>
      let name := WrapSkill.name (wrap_skill c) in
      match name with
      | [] => Some (lit "no wrap_skill is set")
      | _ =>
        match session_skills c with
        | SessionSkills.Unread => Some (lit "the session's skills could not be read")
        | SessionSkills.Listed list =>
          if mem_str name list then None
          else Some (format ["the "; name; " skill is not among the session's skills"])
        | SessionSkills.Partial _ | SessionSkills.NotChecked => None
        end
      end
    end.

Definition skill_seen (c : t) : option SkillSeen.t :=
  match session_skills c with
  | SessionSkills.NotChecked => None
  | SessionSkills.Unread => Some SkillSeen.Unread
  | SessionSkills.Listed list =>
    if mem_str (WrapSkill.name (wrap_skill c)) list then Some SkillSeen.Listed
    else Some SkillSeen.Missing
  | SessionSkills.Partial list =>
    if mem_str (WrapSkill.name (wrap_skill c)) list then Some SkillSeen.Listed else None
  end.

Definition with_seen (c : t) (p : Policy) : t :=
  let c := if po_old_host p then set_after_max 0 c else c in
  if bool_decide (session_skills c = SessionSkills.NotChecked) then
    set_session_skills
      match po_skill_seen p with
      | Some SkillSeen.Unread => SessionSkills.Unread
      | Some SkillSeen.Missing => SessionSkills.Listed []
      | Some SkillSeen.Listed | None => SessionSkills.NotChecked
      end c
  else c.

Definition why_off (c : t) (gate : Gate.t) : option str :=
  if negb (settings_ok c) then Some (lit "the mods.attend settings could not be read")
  else if negb (keepwarm_on c) then Some (lit "mods.attend.keepwarm is off")
  else if negb (enabled c) then Some (lit "mods.attend.keepalive.enabled is false")
  else
    match gate with
    | Gate.Off => None
    | Gate.On => Some (lit "autocompact is on")
    | Gate.Unknown => Some (lit "autocompact could not be read, so it counts as on")
    end.

End config.

End Config.

(** ** Where the wrap's reply may go *)

Module Site.

Record t := {
  session_id : str;
  project : str;
  name : str;
  operator : str;
  state_root : str;
  home : str;
}.

Definition project_name (s : t) : str := default (project s) (file_name (project s)).

Definition default_wrap_file (s : t) : str :=
  path_join (path_join (state_root s) "wrap") (format [session_id s; ".md"]).

End Site.

(** [normalize] on components: [.] and [..] resolved lexically. [out] is what has been
    pushed, last first. *)
Fixpoint normalize_go (out cs : list Component.t) : option (list Component.t) :=
  match cs with
  | [] => Some (reverse out)
  | Component.ParentDir :: cs =>
    match out with
    | Component.RootDir :: _ | [] => None
    | _ :: out => normalize_go out cs
    end
  | Component.CurDir :: cs => normalize_go out cs
  | c :: cs => normalize_go (c :: out) cs
  end.
Definition normalize (p : str) : option (list Component.t) := normalize_go [] (components p).

Definition is_dot (c : Component.t) : bool :=
  bool_decide (c = Component.CurDir) || bool_decide (c = Component.ParentDir).

Section paths.
Context (is_symlink : str → bool).

(** The first link among the paths that push [rest] onto [at_] one by one. *)
Fixpoint find_link (at_ : str) (rest : list Component.t) : option str :=
  match rest with
  | [] => None
  | c :: rest =>
    let at_ := path_join at_ (component_str c) in
    if is_symlink at_ then Some at_ else find_link at_ rest
  end.

Definition is_a_symlink (p : str) : str := format [p; " is a symlink"].

(** [check_wrap_path]: [None] where the path is safe, else why it is not. *)
Definition check_wrap_path (state_root session_id path : str) : option str :=
  match normalize (path_join state_root "wrap") with
  | None => Some (lit "the state root climbs above the root")
  | Some base =>
    if existsb is_dot (components path) then Some (lit "it has a . or .. component")
    else
      match strip_components base (components path) with
      | None => Some (lit "it is outside {state}/wrap/")
      | Some [] => Some (lit "it names the wrap directory itself")
      | Some rest =>
        let name := default [] (file_name path) in
        if str_eqb session_id [] || negb (contains session_id name) then
          Some (lit "its file name does not name the session")
        else if is_symlink (path_of base) then Some (is_a_symlink (path_of base))
        else is_a_symlink <$> find_link (path_of base) rest
      end
  end.

Section site.
Context {J : Jiff}.

(** [Site::wrap_file]: the template expanded. *)
Definition wrap_file (s : Site.t) (template : str) (w : Windows.t) (now : N) : str :=
  let text :=
    replace "{date}" (Windows.date w now)
      (replace "{session}" (Site.session_id s)
        (replace "{project}" (Site.project_name s)
          (replace "{state}" (Site.state_root s) template))) in
  let path := match strip_prefix "~/" text with
              | Some rest => path_join (Site.home s) rest
              | None => text
              end in
  if is_absolute path then path else path_join (Site.project s) path.

Definition refused_note (template why dest : str) : str :=
  format ["wrap_file "; [dquote]; echo template; [dquote]; " refused: "; why;
          "; the reply goes to "; dest].

Definition fallback (s : Site.t) (template why : str) : str * option str :=
  let file := Site.default_wrap_file s in
  match check_wrap_path (Site.state_root s) (Site.session_id s) file with
  | None => (file, Some (refused_note template why file))
  | Some also =>
    ([], Some (format ["wrap_file "; [dquote]; echo template; [dquote]; " refused: "; why;
                       "; the default "; file; " is refused too: "; also]))
  end.

(** [Site::confined_wrap_file] *)
Definition confined_wrap_file (s : Site.t) (template : str) (w : Windows.t) (now : N)
    : str * option str :=
  if negb (contains "{session}" template) then
    fallback s template "it names no {session}, so sessions would overwrite one another's wrap"
  else
    let path := wrap_file s template w now in
    match check_wrap_path (Site.state_root s) (Site.session_id s) path with
    | None => (match normalize path with Some cs => path_of cs | None => path end, None)
    | Some why => fallback s template why
    end.

Definition is_open_channel (to : str) : bool :=
  match strip_prefix "#" to with
  | Some c => eq_ignore_ascii_case (trim c) "open"
  | None => false
  end.

Definition route_notes (cfg : Config.t) (s : Site.t) (now : N) : list str :=
  option_list (snd (confined_wrap_file s (Config.wrap_file cfg) (Config.windows cfg) now)) ++
  (if bool_decide (Config.wrap cfg = WrapDest.Send) && is_open_channel (Config.wrap_to cfg)
   then [format ["wrap_to "; [dquote]; Config.wrap_to cfg; [dquote];
                 " refused: #open reaches every listening session; the reply goes to ";
                 Site.operator s]]
   else []) ++
  match WrapSkill.refused (Config.wrap_skill cfg) with
  | Some (value, why) =>
    [format ["wrap_skill "; [dquote]; value; [dquote]; " refused: "; why;
             "; no wrap or compaction runs"]]
  | None => []
  end.

End site.
End paths.
