(* ===== verification/KeepwarmPolicy.v ===== *)
(** * The keepalive policy's judgment

    [tools/sensor-keepwarm/src/policy.rs] from [Action] on, and the verbs of
    [tools/attend/src/cmd/keepwarm.rs] that act on the session's files: what a check
    decides ([step]), when the wrap and the compaction go out, what follows the wrap,
    the card, and the disk after each verb. *)

From Stdlib Require Import Ascii ZArith Floats.SpecFloat.
From stdpp Require Import base tactics list numbers strings option.
From S2P Require Import Prelude RustStr RustPath Float64 KeepwarmBase KeepwarmWindows Keepwarm KeepwarmConfig.

Definition RETRY_SECS : N := 300.

Module Action.

Inductive t : Type :=
  | None_
  | Keepalive
  | Wrap
  | Compact.

#[global] Instance eq_dec : EqDecision t.
Proof. solve_decision. Defined.

End Action.

Record WrapRoute := {
  wr_dest : str;
  wr_file : str;
  wr_to : str;
  wr_after : str;
  wr_after_keepalives : N;
  wr_handoff : str;
  wr_notes : list str;
}.

Record Decision := {
  de_action : Action.t;
  de_text : option str;
  de_next_at : option N;
  de_count : N;
  de_max : N;
  de_wraps_at : option N;
  de_reason : str;
  de_policy : bool;
  de_state : str;
  de_wraps_at_hm : option str;
  de_wrapped_at_hm : option str;
  de_after_count : N;
  de_after_max : N;
  de_compacts_at : option N;
  de_compacts_at_hm : option str;
  de_compacted_at_hm : option str;
  de_wrap : option WrapRoute;
  de_retry : bool;
  de_idle : option str;
}.

(** Why a stretch has no due point. *)
Module Idle.

Inductive t : Type :=
  | NoRequest
  | FiveMinuteTier
  | SmallContext.

Definition reason (i : t) : str :=
  match i with
  | NoRequest => "no request yet in this session"
  | FiveMinuteTier => "the session is on the five-minute cache tier"
  | SmallContext => "the context is under 50k tokens, where a cold re-write is cheap"
  end.

Definition short (i : t) : str :=
  match i with
  | NoRequest => "no request yet"
  | FiveMinuteTier => "5m tier"
  | SmallContext => "under 50k"
  end.

End Idle.

Definition noun (n : N) : str := if (n =? 1)%N then "keepalive" else "keepalives".
Definition keepalives (n : N) : str := format [show_N n; " "; noun n].

Module WrapOutcome.

Inductive t : Type :=
  | Transcript
  | File
  | Sent
  | Refused
  | Unfinished.

#[global] Instance eq_dec : EqDecision t.
Proof. solve_decision. Defined.

Definition parse (s : str) : option t :=
  if str_eqb s "transcript" then Some Transcript
  else if str_eqb s "file" then Some File
  else if str_eqb s "sent" then Some Sent
  else if str_eqb s "refused" then Some Refused
  else if str_eqb s "unfinished" then Some Unfinished
  else None.

Definition describe (o : t) (detail : str) : str :=
  let d := trim detail in
  match o with
  | Transcript => "the reply is in the transcript"
  | File => format ["the reply is saved to "; d]
  | Sent => format ["the reply was sent to "; d]
  | Refused => format ["handoff refused: "; d]
  | Unfinished => match d with
                  | [] => "the wrap did not finish"
                  | _ => format ["the wrap did not finish ("; d; ")"]
                  end
  end.

End WrapOutcome.

Section policy.
Context {U : Unicode} {J : Jiff}.
Context (is_symlink : str → bool).

(** ** Due points *)

(** [due_point]: the due point, the TTL and the last request. *)
Definition due_point (s : State) (reading : Reading) (cfg : Config.t) : (N * N * N) + Idle.t :=
  match last_entry reading with
  | Some last =>
    if negb (0 <? ue_at_epoch last)%N then inr Idle.NoRequest
    else if (ttl_secs last <? TTL_SECS)%N then inr Idle.FiveMinuteTier
    else if (st_ctx s <? BIG_TOKENS)%N then inr Idle.SmallContext
    else
      let ttl := ttl_secs last in
      inl (u64_add (ue_at_epoch last) (ttl - Config.margin_secs cfg), ttl, ue_at_epoch last)
  | None => inr Idle.NoRequest
  end.

(** The loop of [wraps_at] and [compacts_at]: the first due point from [t] on past
    [max] keepalives or outside the windows. *)
Fixpoint due_loop (w : Windows.t) (step max : N) (fuel : nat) (t c : N) : res N :=
  if (c <? max)%N && Windows.contains w t then
    match fuel with
    | 0 => NoFuel
    | S fuel => due_loop w step max fuel (u64_add t step) (u32_add c 1)
    end
  else Ok t.
Definition due_from (w : Windows.t) (step max t c : N) : res N :=
  due_loop w step max (N.to_nat (max - c)) t c.

Definition step_secs (cfg : Config.t) (ttl : N) : N :=
  N.max (ttl - Config.margin_secs cfg) 60.

Definition wraps_at (cfg : Config.t) (count due ttl : N) : res (option N) :=
  match Config.no_wrap cfg with
  | Some _ => Ok None
  | None => Some <$> due_from (Config.windows cfg) (step_secs cfg ttl) (Config.max cfg) due count
  end.

Definition compacts_at (cfg : Config.t) (p : Policy) (due ttl : N) : res (option N) :=
  if negb (bool_decide (Config.after_wrap cfg = AfterWrap.Compact)) ||
     (Config.after_max cfg =? 0)%N || bool_decide (is_Some (po_compacted_at p))
  then Ok None
  else
    let step := step_secs cfg ttl in
    let go t c := Some <$> due_from (Config.windows cfg) step (Config.after_max cfg) t c in
    match po_wrapped_at p with
    | Some _ => go due (po_after_count p)
    | None =>
      w ← wraps_at cfg (po_count p) due ttl;
      match w with
      | Some w => go (u64_add w step) 0%N
      | None => Ok None
      end
    end.

(** Why nothing more follows the wrap. *)
Definition after_wrap_ends (cfg : Config.t) (p : Policy) : option str :=
  at_ ← po_wrapped_at p;
  let wrapped := format ["wrapped at "; Windows.hm (Config.windows cfg) at_] in
  match po_compacted_at p with
  | Some c =>
    Some match po_compact_failed p with
         | Some why => format [wrapped; "; the compaction at ";
                               Windows.hm (Config.windows cfg) c; " failed: "; why]
         | None => format [wrapped; " and compacted at "; Windows.hm (Config.windows cfg) c]
         end
  | None =>
    match po_stopped p with
    | Some why => Some (format [wrapped; ", then stopped: "; why])
    | None =>
      if (Config.after_max cfg =? 0)%N then Some wrapped
      else if (po_after_count p <? Config.after_max cfg)%N ||
              (bool_decide (Config.after_wrap cfg = AfterWrap.Compact) &&
               bool_decide (is_Some (po_compact_focus p)))
      then None
      else
        let tail := if bool_decide (Config.after_wrap cfg = AfterWrap.Compact)
                    then lit "; the wrap left no reply to compact with" else [] in
        Some (format [wrapped; " and "; keepalives (po_after_count p); " after it"; tail])
    end
  end.

(** ** The wrap turn *)

Definition after_wrap_line (cfg : Config.t) : str :=
  let m := Config.after_max cfg in
  match Config.after_wrap cfg with
  | AfterWrap.Lapse =>
    if (m =? 0)%N then "Nothing keeps the prompt cache warm after this turn."
    else format ["The mod keeps the prompt cache warm for up to "; show_N m; " more "; noun m;
                 ", then lets it lapse."]
  | AfterWrap.Compact =>
    if (m =? 0)%N then
      "Once you answer, the mod compacts the conversation with the focus of your closing /compact line."
    else format ["The mod keeps the prompt cache warm for up to "; show_N m; " more "; noun m;
                 ", then compacts the conversation with the focus of your closing /compact line."]
  end.

Definition wrap_text (cfg : Config.t) (site : Site.t) (p : Policy) (route : WrapRoute)
    (at_bound : bool) (now : N) : str :=
  let away := match since p with
              | Some t => format [fmt_duration (now - t); " since the operator's last prompt"]
              | None => lit "a long idle stretch"
              end in
  let first :=
    if at_bound then format ["wrap: "; away; " and "; show_N (po_count p);
                             " keepalives, the most this session allows."]
    else match Windows.ws_list (Config.windows cfg) with
         | [] => format ["wrap: "; away; ", and no keepalive hours are set."]
         | _ => format ["wrap: "; away; ", and the keepalive hours (";
                        Windows.describe (Config.windows cfg); ") have ended."]
         end in
  let body := format ["The operator is away. "; WrapSkill.ask (Config.wrap_skill cfg);
                      ": square the task list and write the continuation prompt. Ask no questions, land nothing and start no new work. ";
                      after_wrap_line cfg] in
  let where_ :=
    match Config.wrap cfg with
    | WrapDest.File => format [" The mod saves your final reply to "; wr_file route; "."]
    | WrapDest.Send =>
      if str_eqb (wr_to route) (Site.operator site) then
        format [" The mod sends your final reply to your operator, "; wr_to route; ", over attend."]
      else if starts_with "#" (wr_to route) then
        format [" The mod posts your final reply in "; wr_to route;
                " over attend, where another session may take up the work."]
      else format [" The mod sends your final reply to "; wr_to route; " over attend as a handoff."]
    | WrapDest.Transcript | WrapDest.Off => []
    end in
  format [first; [nl]; body; where_].

Definition route (cfg : Config.t) (site : Site.t) (now : N) : WrapRoute := {|
  wr_dest := WrapDest.as_str (Config.wrap cfg);
  wr_file := fst (confined_wrap_file is_symlink site (Config.wrap_file cfg)
                    (Config.windows cfg) now);
  wr_notes := route_notes is_symlink cfg site now;
  wr_to := if str_eqb (Config.wrap_to cfg) [] || is_open_channel (Config.wrap_to cfg)
           then Site.operator site else Config.wrap_to cfg;
  wr_after := AfterWrap.as_str (Config.after_wrap cfg);
  wr_after_keepalives := Config.after_max cfg;
  wr_handoff := format ["handoff: continuation prompt from "; Site.name site; " (";
                        Site.project_name site; "), wrapped at ";
                        Windows.hm (Config.windows cfg) now; " while its operator was away."];
|}.

(** ** Decisions *)

(** [Decision::new] *)
Definition decision (cfg : Config.t) (p : Policy) (policy : bool) (state reason : str)
    : Decision := {|
  de_action := Action.None_; de_text := None; de_next_at := None; de_count := po_count p;
  de_max := Config.max cfg; de_wraps_at := None; de_reason := reason; de_policy := policy;
  de_state := state; de_wraps_at_hm := None;
  de_wrapped_at_hm := Windows.hm (Config.windows cfg) <$> po_wrapped_at p;
  de_after_count := po_after_count p; de_after_max := Config.after_max cfg;
  de_compacts_at := None; de_compacts_at_hm := None;
  de_compacted_at_hm := Windows.hm (Config.windows cfg) <$> po_compacted_at p;
  de_wrap := None; de_retry := false; de_idle := None;
|}.

(** The fields a judgment fills in. *)
Definition act (a : Action.t) (text : option str) (reason : str) (d : Decision) : Decision := {|
  de_action := a; de_text := text; de_next_at := de_next_at d; de_count := de_count d;
  de_max := de_max d; de_wraps_at := de_wraps_at d; de_reason := reason;
  de_policy := de_policy d; de_state := de_state d; de_wraps_at_hm := de_wraps_at_hm d;
  de_wrapped_at_hm := de_wrapped_at_hm d; de_after_count := de_after_count d;
  de_after_max := de_after_max d; de_compacts_at := de_compacts_at d;
  de_compacts_at_hm := de_compacts_at_hm d; de_compacted_at_hm := de_compacted_at_hm d;
  de_wrap := de_wrap d; de_retry := de_retry d; de_idle := de_idle d;
|}.
Definition ask_at (t : option N) (wrap : option WrapRoute) (idle : option str) (d : Decision)
    : Decision := {|
  de_action := de_action d; de_text := de_text d; de_next_at := t; de_count := de_count d;
  de_max := de_max d; de_wraps_at := de_wraps_at d; de_reason := de_reason d;
  de_policy := de_policy d; de_state := de_state d; de_wraps_at_hm := de_wraps_at_hm d;
  de_wrapped_at_hm := de_wrapped_at_hm d; de_after_count := de_after_count d;
  de_after_max := de_after_max d; de_compacts_at := de_compacts_at d;
  de_compacts_at_hm := de_compacts_at_hm d; de_compacted_at_hm := de_compacted_at_hm d;
  de_wrap := wrap; de_retry := de_retry d; de_idle := idle;
|}.

(** [Decision::estimate] *)
Definition estimate (cfg : Config.t) (p : Policy) (due ttl : N) (d : Decision) : res Decision :=
  wraps ← (if bool_decide (po_wrapped_at p = None) then wraps_at cfg (po_count p) due ttl
           else Ok (de_wraps_at d));
  compacts ← compacts_at cfg p due ttl;
  let hm := Windows.hm (Config.windows cfg) in
  Ok {|
    de_action := de_action d; de_text := de_text d; de_next_at := de_next_at d;
    de_count := de_count d; de_max := de_max d; de_wraps_at := wraps; de_reason := de_reason d;
    de_policy := de_policy d; de_state := de_state d;
    de_wraps_at_hm := if bool_decide (po_wrapped_at p = None) then hm <$> wraps
                      else de_wraps_at_hm d;
    de_wrapped_at_hm := de_wrapped_at_hm d; de_after_count := de_after_count d;
    de_after_max := de_after_max d; de_compacts_at := compacts;
    de_compacts_at_hm := hm <$> compacts; de_compacted_at_hm := de_compacted_at_hm d;
    de_wrap := de_wrap d; de_retry := de_retry d; de_idle := de_idle d;
  |}.

Definition until_prompt (why : str) : str :=
  format [why; "; nothing more until the operator's next prompt"].

(** A keepalive sent now: the wake, and when its verdict is due. *)
Definition keepalive (cfg : Config.t) (s : State) (state reason : str) (ttl last_at now : N)
    : res Decision :=
  let p := st_policy s in
  let d := act Action.Keepalive (Some (wake_line (now - last_at) ttl (st_ctx s))) reason
             (decision cfg p true state reason) in
  let d := ask_at (Some (u64_add (u64_add now VERDICT_SECS) 1)) None None d in
  estimate cfg p (u64_add now (ttl - Config.margin_secs cfg)) ttl d.

(** A due point after the wrap. *)
Definition after_wrap_due (s : State) (cfg : Config.t) (ttl last_at now : N)
    : res (State * Decision) :=
  let inside := Windows.contains (Config.windows cfg) now in
  if (po_after_count (st_policy s) <? Config.after_max cfg)%N && inside then
    let s := set_pinged (Some now) (set_policy (sent_keepalive true (st_policy s)) s) in
    d ← keepalive cfg s "wrapped"
          (format ["keepalive "; show_N (po_after_count (st_policy s)); " of ";
                   show_N (Config.after_max cfg); " after the wrap"]) ttl last_at now;
    Ok (s, d)
  else
    match Config.after_wrap cfg, po_compact_focus (st_policy s) with
    | AfterWrap.Compact, Some focus =>
      let s := set_policy (set_compacted (Some now) (st_policy s)) s in
      let p := st_policy s in
      let why := if inside then format [keepalives (po_after_count p); " after the wrap"]
                 else lit "the keepalive hours have ended" in
      let reason := format ["compacting with the wrap's focus: "; why] in
      Ok (s, act Action.Compact (Some focus) reason (decision cfg p true "compacted" reason))
    | _, _ =>
      let why := if bool_decide (Config.after_wrap cfg = AfterWrap.Compact)
                 then lit "the wrap left no reply to compact with"
                 else lit "the keepalive hours have ended" in
      let s := set_policy (set_stopped (Some why) (st_policy s)) s in
      let p := st_policy s in
      Ok (s, decision cfg p true "wrapped" (until_prompt (default [] (after_wrap_ends cfg p))))
    end.

(** A due point before the wrap. *)
Definition before_wrap_due (s : State) (cfg : Config.t) (site : Site.t) (ttl last_at now : N)
    : res (State * Decision) :=
  let s := match since (st_policy s) with
           | None => set_policy (set_stretch (Some last_at) (st_policy s)) s
           | Some _ => s
           end in
  let at_bound := (Config.max cfg <=? po_count (st_policy s))%N in
  if negb at_bound && Windows.contains (Config.windows cfg) now then
    let s := set_pinged (Some now) (set_policy (sent_keepalive false (st_policy s)) s) in
    d ← keepalive cfg s "running"
          (format ["keepalive "; show_N (po_count (st_policy s)); " of ";
                   show_N (Config.max cfg)]) ttl last_at now;
    Ok (s, d)
  else
    match Config.no_wrap cfg with
    | Some why =>
      let why := if at_bound
                 then format [show_N (po_count (st_policy s));
                              " keepalives, the most this session allows, and "; why]
                 else format ["the keepalive hours have ended, and "; why] in
      let s := set_policy (set_stopped (Some why) (st_policy s)) s in
      Ok (s, decision cfg (st_policy s) true "stopped" (until_prompt (format ["stopped: "; why])))
    | None =>
      let s := set_policy (set_wrapped (Some now) (st_policy s)) s in
      let p := st_policy s in
      let r := route cfg site now in
      let reason := if at_bound then lit "the count is spent" else lit "outside the keepalive hours" in
      let d := act Action.Wrap (Some (wrap_text cfg site p r at_bound now)) reason
                 (decision cfg p true "wrapped" reason) in
      if (0 <? Config.after_max cfg)%N then
        let next := u64_add now (ttl - Config.margin_secs cfg) in
        d ← estimate cfg p next ttl (ask_at (Some next) (Some r) None d);
        Ok (s, d)
      else Ok (s, ask_at None (Some r) None d)
    end.

(** ** The judgment *)

(** The operator's arm: the sensor's own window is read as none, and the cursor
    forgets it. *)
Definition operators_arm (s : State) (arm : option ArmFile) : State * option ArmFile :=
  match arm with
  | Some a =>
    if af_auto a then (if (st_deadline s =? af_deadline a)%N then set_deadline 0 s else s, None)
    else (s, arm)
  | None => (s, None)
  end.

(** The verdict of a wake the step resolved, in the policy's marks. *)
Definition take_verdict (before s : State) : State :=
  let p := st_policy s in
  if negb (st_baselined before) then set_policy (set_pending false p) s
  else if bool_decide (is_Some (st_pinged_at before)) && bool_decide (st_pinged_at s = None) then
    let landed := negb (bool_decide (st_last_ping s = st_last_ping before)) in
    let warm := landed && match st_last_ping s with Some r => pg_warm r | None => false end in
    let p :=
      if po_pending p && landed then
        set_spent (f64_add (po_spent_usd p)
          (default f64_zero (r ← st_last_ping s; pg_usd r))) p
      else p in
    let p := set_pending false p in
    let p :=
      if warm then p
      else set_stopped (Some (default (lit "the wake's turn read a cold cache") (st_stopped s))) p in
    set_policy p s
  else s.

(** What a running policy decides once the step is taken and its verdict read. *)
Definition judge (s : State) (out : Outcome) (reading : Reading) (cfg : Config.t) (site : Site.t)
    (now : N) : res (State * Outcome * Decision) :=
  let p := st_policy s in
  match oc_observations out with
  | (_, line) :: _ =>
    let why := lit "an armed window (attend keepwarm on) overrides the count" in
    Ok (s, out, ask_at (Some (u64_add (u64_add now VERDICT_SECS) 1)) None None
                  (act Action.Keepalive (Some line) why (decision cfg p true "running" why)))
  | [] =>
    if (now <? st_deadline s)%N then
      let next := match st_pinged_at s with
                  | Some t => u64_add (u64_add t VERDICT_SECS) 1
                  | None => N.min (N.max (u64_add (st_last_seen_at s) PING_AFTER_SECS)
                                         (u64_add now 1)) (st_deadline s)
                  end in
      Ok (s, out, ask_at (Some next) None None
            (decision cfg p true "running"
              (format ["an armed window (attend keepwarm on) overrides the count for ";
                       fmt_duration (st_deadline s - now)])))
    else
      match after_wrap_ends cfg p with
      | Some why =>
        let state := if bool_decide (is_Some (po_compacted_at p)) &&
                        bool_decide (po_compact_failed p = None)
                     then lit "compacted" else lit "wrapped" in
        Ok (s, out, decision cfg p true state (until_prompt why))
      | None =>
        let after := if bool_decide (is_Some (po_wrapped_at p)) then lit "wrapped" else lit "running" in
        match po_stopped p with
        | Some why =>
          Ok (s, out, decision cfg p true "stopped" (until_prompt (format ["stopped: "; why])))
        | None =>
          match st_pinged_at s with
          | Some t =>
            let d := ask_at (Some (u64_add (u64_add t VERDICT_SECS) 1)) None None
                       (decision cfg p true after "waiting for the keepalive's turn") in
            d ← match due_point s reading cfg with
                | inl (_, ttl, _) =>
                  estimate cfg p (u64_add t (ttl - Config.margin_secs cfg)) ttl d
                | inr _ => Ok d
                end;
            Ok (s, out, d)
          | None =>
            match due_point s reading cfg with
            | inr why =>
              Ok (s, out, ask_at None None (Some (Idle.short why))
                            (decision cfg p true after (Idle.reason why)))
            | inl (due, ttl, last_at) =>
              if (now <? due)%N then
                let d := ask_at (Some due) None None
                  (decision cfg p true after
                    (format ["next due at "; Windows.hm (Config.windows cfg) due])) in
                d ← estimate cfg p due ttl d;
                Ok (s, out, d)
              else
                let out := set_changed out in
                if cache_lapsed (Some reading) now then
                  let why := format ["the cache had lapsed at the due point ";
                                     Windows.hm (Config.windows cfg) due;
                                     " (the host may have slept)"] in
                  let s := set_policy (set_stopped (Some why) (st_policy s)) s in
                  let p := st_policy s in
                  let state := if bool_decide (is_Some (po_wrapped_at p)) then lit "wrapped"
                               else lit "stopped" in
                  Ok (s, out, decision cfg p true state (until_prompt (format ["stopped: "; why])))
                else
                  '(s, d) ← (if bool_decide (is_Some (po_wrapped_at (st_policy s)))
                             then after_wrap_due s cfg ttl last_at now
                             else before_wrap_due s cfg site ttl last_at now);
                  Ok (s, out, d)
            end
          end
        end
      end
  end.

(** [policy::step] *)
Definition policy_step (s : State) (reading : Reading) (arm : option ArmFile) (cfg : Config.t)
    (gate : Gate.t) (site : Site.t) (now : N) : res (State * Outcome * Decision) :=
  let s := set_policy (set_seen (Gate.as_str gate) (Config.skill_seen cfg) (st_policy s)) s in
  match Config.why_off cfg gate with
  | Some why =>
    let d := decision cfg (st_policy s) false "off" why in
    if negb (Config.keepwarm_on cfg) then Ok (s, set_changed Outcome_default, d)
    else
      let '(s, out) := step s reading arm now in
      let d := match oc_observations out with
               | (_, line) :: _ =>
                 act Action.Keepalive (Some line) (format [why; "; an armed window's wake"]) d
               | [] => d
               end in
      Ok (s, out, ask_at (Some (u64_add now PLAIN_EVERY_SECS)) None None d)
  | None =>
    let '(before, arm) := operators_arm s arm in
    let '(s, out) := step_with before reading arm now false in
    judge (take_verdict before s) out reading cfg site now
  end.

(** ** The card *)

(** [since_text] *)
Definition since_text (p : Policy) (cfg : Config.t) : str :=
  let hm := Windows.hm (Config.windows cfg) in
  match po_operator_at p, po_stretch_from p with
  | Some t, _ => format [" since your prompt at "; hm t]
  | None, Some t => format [" since "; hm t]
  | None, None => []
  end.

Definition next_due (s : State) (reading : Reading) (cfg : Config.t) : option (N * N) :=
  match due_point s reading cfg with
  | inl (due, ttl, _) =>
    Some (match st_pinged_at s with
          | Some t => u64_add t (ttl - Config.margin_secs cfg)
          | None => due
          end, ttl)
  | inr _ => None
  end.

Definition next_text (s : State) (due now : N) : str :=
  match st_pinged_at s with
  | Some _ => " · waiting for the keepalive's turn"
  | None => format [" · next in "; fmt_duration (due - now)]
  end.

(** [ · label HH:MM] where there is a time. *)
Definition about (cfg : Config.t) (label : str) (t : option N) : str :=
  match t with
  | Some t => format [label; Windows.hm (Config.windows cfg) t]
  | None => []
  end.

Definition running_line (s : State) (reading : Reading) (cfg : Config.t) (now : N) : res str :=
  let p := st_policy s in
  let line := format ["keepalive   "; show_N (po_count p); " of "; show_N (Config.max cfg);
                      since_text p cfg] in
  let line := if (now <? st_deadline s)%N
              then line ++ format [" · an armed window overrides it for ";
                                   fmt_duration (st_deadline s - now)]
              else line in
  line ← match due_point s reading cfg, next_due s reading cfg with
         | inr why, _ => Ok (line ++ format [" · idle: "; Idle.reason why])
         | inl _, Some (due, ttl) =>
           wraps ← wraps_at cfg (po_count p) due ttl;
           compacts ← compacts_at cfg p due ttl;
           Ok (line ++ next_text s due now ++ about cfg " · wraps about " wraps ++
               about cfg " · compacts about " compacts)
         | inl _, None => Ok line
         end;
  Ok (line ++ format [" · windows "; Windows.describe (Config.windows cfg)]).

Definition wrapped_line (s : State) (reading : Reading) (cfg : Config.t) (now : N) : res str :=
  let p := st_policy s in
  let hm := Windows.hm (Config.windows cfg) in
  let line := format ["keepalive   wrapped at "; hm (default 0%N (po_wrapped_at p)); " after ";
                      show_N (po_count p); " keepalives"; since_text p cfg; " · ";
                      default (lit "no answer recorded yet") (po_wrap_outcome p)] in
  match po_compacted_at p with
  | Some c =>
    Ok (line ++ match po_compact_failed p with
                | Some why => format [" · the compaction at "; hm c; " failed: "; why]
                | None => format [" · compacted at "; hm c]
                end)
  | None =>
    if (Config.after_max cfg =? 0)%N then Ok line
    else
      let line := line ++ format [" · "; show_N (po_after_count p); " of ";
                                  show_N (Config.after_max cfg); " after it"] in
      match po_stopped p with
      | Some why => Ok (line ++ format [" · stopped: "; why])
      | None =>
        if bool_decide (after_wrap_ends cfg p = None) then
          match next_due s reading cfg with
          | Some (due, ttl) =>
            compacts ← compacts_at cfg p due ttl;
            Ok (line ++ next_text s due now ++ about cfg " · compacts about " compacts)
          | None => Ok line
          end
        else Ok line
      end
  end.

Definition cost_line (s : State) (cfg : Config.t) : str :=
  let p := st_policy s in
  let sent := u32_add (po_count p) (po_after_count p) in
  let wakes := if (sent =? 1)%N then lit "wake" else lit "wakes" in
  let wrapped := bool_decide (is_Some (po_wrapped_at p)) in
  let no_wrap := negb wrapped && bool_decide (is_Some (Config.no_wrap cfg)) in
  let after_left :=
    if no_wrap then 0%N
    else if wrapped && bool_decide (is_Some (after_wrap_ends cfg p)) then 0%N
    else (Config.after_max cfg - po_after_count p)%N in
  let before_left := if wrapped then 0%N else (Config.max cfg - po_count p)%N in
  let more := fmt_usd ((λ w, f64_mul w (f64_of_N (u32_add before_left after_left))) <$> warm_usd s) in
  let tail :=
    if no_wrap then format ["at most "; more; " more in wakes before the bound"]
    else if wrapped && (0 <? Config.after_max cfg)%N then
      format ["at most "; more; " more in wakes after the wrap"]
    else if (0 <? Config.after_max cfg)%N then
      format ["at most "; more; " more in wakes, "; show_N after_left;
              " of them after the wrap, and the wrap reads the context once per tool round"]
    else format ["at most "; more;
                 " more in wakes before the wrap, and the wrap reads the context once per tool round"] in
  format ["cost        "; show_N sent; " "; wakes; " "; fmt_usd (Some (po_spent_usd p));
          " so far · "; tail; " · a cold re-write now "; fmt_usd (cold_usd s)].

(** [policy::card] *)
Definition policy_card (s : State) (reading : Reading) (cfg : Config.t) (site : Site.t) (now : N)
    : res (list str) :=
  let p := st_policy s in
  let cfg := Config.with_seen cfg p in
  match po_gate p with
  | None =>
    Ok [lit "keepalive   not run in this session (the attend mod runs it in an interactive session while autocompact is off)"]
  | Some gate =>
    match Config.why_off cfg (Gate.parse gate) with
    | Some why =>
      Ok [format ["keepalive   off: "; why;
                  if Config.keepwarm_on cfg then lit " (armed windows only)" else []]]
    | None =>
      first ← (if bool_decide (is_Some (po_wrapped_at p)) then wrapped_line s reading cfg now
               else match po_stopped p with
                    | Some why => Ok (format ["keepalive   stopped: "; why;
                                              "; your next prompt starts it again"])
                    | None => running_line s reading cfg now
                    end);
      let w := Config.windows cfg in
      let dropped := map (λ e, format ["keepalive   window entry "; [dquote]; echo (fst e); [dquote];
                                       " dropped: "; snd e]) (Windows.ws_dropped w) in
      let zone := match Windows.ws_bad_zone w with
                  | Some z => [format ["keepalive   timezone "; [dquote]; echo z; [dquote];
                                       " is unknown; the host's zone is used"]]
                  | None => []
                  end in
      let notes :=
        if bool_decide (Config.wrap cfg = WrapDest.Off) then []
        else
          map (λ n, format ["keepalive   "; n]) (route_notes is_symlink cfg site now) ++
          match po_wrapped_at p, Config.no_wrap cfg with
          | None, Some why =>
            [format ["keepalive   no wrap or compaction: "; why;
                     "; the keepalives stop at the bound"]]
          | _, _ => []
          end in
      Ok ([first] ++ dropped ++ zone ++ notes ++ [cost_line s cfg])
    end
  end.

(** ** The session's files after each verb *)

(** [update_policy] *)
Definition update_policy (ok : bool) (f : Policy → Policy) (now : N) (disk : Disk) : bool * Disk :=
  let l := default Ledger_default (dk_ledger disk) in
  let l := {| le_misses := le_misses l; le_last_ping := le_last_ping l; le_stopped := le_stopped l;
              le_pinged_at := le_pinged_at l; le_updated_at := now; le_cursor := le_cursor l;
              le_policy := f (le_policy l) |} in
  (ok, write_ledger ok l disk).

(** [attend keepwarm on]: [None] where the window does not parse. *)
Definition keepwarm_on (w : Writes) (window : option str) (now : N) (disk : Disk) : option Disk :=
  secs ← match window with
         | None => Some DEFAULT_WINDOW_SECS
         | Some t => n ← parse_duration t; if (0 <? n)%N then Some n else None
         end;
  Some (if wr_arm w then
    snd (update_policy (wr_ledger w) clear_stop now
      (write_arm true {| af_deadline := u64_add now secs; af_armed_at := now;
                         af_window_secs := secs; af_auto := false |} disk))
  else disk).

(** [attend keepwarm off] *)
Definition keepwarm_off (w : Writes) (now : N) (disk : Disk) : Disk :=
  if wr_arm w then
    snd (update_policy (wr_ledger w) stop_by_operator now
      (write_arm true {| af_deadline := 0; af_armed_at := now; af_window_secs := 0;
                         af_auto := false |} disk))
  else disk.

(** [attend keepwarm reset --at] *)
Definition keepwarm_reset (w : Writes) (at_ : option N) (now : N) (disk : Disk) : Disk :=
  let at_ := match at_ with
             | Some t => if (t <=? now)%N then t else now
             | None => now
             end in
  snd (update_policy (wr_ledger w) (λ p, reset p at_) now disk).

(** [attend keepwarm wrapped]: what the report of outcome [o], read as [line], records. *)
Definition keepwarm_wrapped (w : Writes) (o : WrapOutcome.t) (line : str) (focus : option str)
    (now : N) (disk : Disk) : Disk :=
  let focus := f ← focus; match join " " (split_whitespace f) with [] => None | g => Some g end in
  let focus := if bool_decide (o = WrapOutcome.Unfinished) then None else focus in
  snd (update_policy (wr_ledger w)
    (λ p, set_reports (Some line)
            match focus with Some g => Some g | None => po_compact_focus p end
            (po_compact_failed p) p) now disk).

(** [attend keepwarm compacted] *)
Definition keepwarm_compacted (w : Writes) (failed : option str) (now : N) (disk : Disk) : Disk :=
  let failed := f ← failed; match trim f with [] => None | g => Some g end in
  snd (update_policy (wr_ledger w)
    (λ p, if bool_decide (is_Some (po_wrapped_at p)) then
            set_reports (po_wrap_outcome p) (po_compact_focus p) failed
              (set_compacted (Some (default now (po_compacted_at p))) p)
          else p) now disk).

(** The listing the host passed, as the check fills it in. *)
Definition host_skills (skills : option (list str)) (unread partial_ : bool) : SessionSkills.t :=
  let names (l : list str) := List.filter (λ s, negb (str_eqb s [])) (trim <$> l) in
  if unread then SessionSkills.Unread
  else match skills with
       | Some l => if partial_ then SessionSkills.Partial (names l) else SessionSkills.Listed (names l)
       | None => SessionSkills.NotChecked
       end.

(** The configuration a policy check runs with: no stretch after the wrap for a host
    that passes no listing. *)
Definition check_config (cfg : Config.t) (skills : SessionSkills.t) : Config.t :=
  let cfg := Config.set_session_skills skills cfg in
  if bool_decide (skills = SessionSkills.NotChecked) then Config.set_after_max 0 cfg else cfg.

(** [attend keepwarm check --policy]: [None] where the transcript is unreadable. *)
Definition policy_check (w : Writes) (read_context : option Reading) (cfg : Config.t)
    (skills : SessionSkills.t) (gate : Gate.t) (site : Site.t) (now : N) (during : Disk → Disk)
    (disk : Disk) : res (option Decision * Disk) :=
  let cfg := check_config cfg skills in
  match read_context with
  | None => Ok (None, disk)
  | Some reading =>
    let arm := dk_arm disk in
    '(s, out, d) ← policy_step (resume (dk_ledger disk)) reading arm cfg gate site now;
    let s := set_policy
      (set_old_host (bool_decide (Config.session_skills cfg = SessionSkills.NotChecked))
        (st_policy s)) s in
    Ok (Some d, settle w s arm (set_changed out) now (during disk))
  end.

End policy.
