(* ===== verification/KeepwarmVerbs.v ===== *)
(** * The keepwarm verbs around the policy

    [tools/attend/src/cmd/keepwarm.rs] but for printing: what a report of the wrap
    records and how it exits, the kept read of the settings and its pruning, the
    card's line on the mod's setting, and which of its answers [check] gives. *)

From Stdlib Require Import Ascii ZArith.
From stdpp Require Import base tactics list numbers strings option.
From S2P Require Import Prelude RustStr RustPath Float64 KeepwarmBase KeepwarmWindows Keepwarm KeepwarmConfig KeepwarmPolicy.

Definition SETTINGS_KEPT_SECS : N := 300.
Definition STALE_SECS : N := 7 * 24 * 3600.
Definition MAX_REPLY_BYTES : N := 1024 * 1024.

(** How a verb ends: exit code 0, 1 or 2. *)
Inductive Exit : Type :=
  | Done
  | Failed
  | Usage.

(** ** The wrap's report *)

(** What reading [reply] on stdin and writing it gave: [read] is what the reader gave
    within the limit, [write] what [write_wrap] answers for it. *)
Definition wrote_reply (path : str) (read : str + str) (write : str → option str) : option str :=
  let failed e := Some (format ["could not write "; path; ": "; e]) in
  match read with
  | inr e => failed e
  | inl reply =>
    if (MAX_REPLY_BYTES <? N.of_nat (length reply))%N
    then failed (format ["the reply is over "; show_N MAX_REPLY_BYTES; " bytes"])
    else match write reply with
         | Some e => failed e
         | None => None
         end
  end.

(** [write_wrap]: the error if any, and whether [replace_file] ran. The links of the file
    system may change while the directory is made: [before] and [after]. [create] and
    [replace] are what the two writes answer. *)
Definition write_wrap (before after : str → bool) (state_root session_id path : str)
    (create replace : option str) : option str * bool :=
  match check_wrap_path before state_root session_id path with
  | Some why => (Some why, false)
  | None =>
    match components path with
    | [] | [Component.RootDir] => (Some (lit "it has no directory"), false)
    | _ =>
      match create with
      | Some e => (Some e, false)
      | None =>
        match check_wrap_path after state_root session_id path with
        | Some why => (Some why, false)
        | None => (replace, true)
        end
      end
    end
  end.

(** [saved_outcome]: the card's line for the outcome, where the write gave [wrote]. *)
Definition saved_outcome (o : WrapOutcome.t) (detail path : str) (wrote : option str) : str :=
  match o, wrote with
  | WrapOutcome.File, None => WrapOutcome.describe o path
  | WrapOutcome.File, Some e => WrapOutcome.describe WrapOutcome.Unfinished e
  | _, None => WrapOutcome.describe o (format [detail; "; saved to "; path])
  | _, Some e =>
    WrapOutcome.describe o (format [detail; "; the file could not be written either: "; e])
  end.

(** [attend keepwarm wrapped]: [save] is [--save], [read] what stdin gives, [write] what
    [write_wrap] answers for a path and a reply. *)
Definition wrapped_cmd (w : Writes) (outcome detail : str) (path : option str) (save : bool)
    (focus : option str) (read : str + str) (write : str → str → option str) (now : N)
    (disk : Disk) : Exit * Disk :=
  match WrapOutcome.parse outcome with
  | None => (Usage, disk)
  | Some o =>
    if save && negb (bool_decide (o = WrapOutcome.File) || bool_decide (o = WrapOutcome.Refused))
    then (Usage, disk)
    else
      let '(line, failed) :=
        match save, path with
        | true, Some path =>
          let wrote := wrote_reply path read (write path) in
          (saved_outcome o detail path wrote, wrote)
        | _, _ => (WrapOutcome.describe o detail, None)
        end in
      let disk := keepwarm_wrapped w o line focus now disk in
      (if wr_ledger w && bool_decide (failed = None) then Done else Failed, disk)
  end.

(** ** The kept read of the settings *)

(** A settings file with its modification time, absent where there is none. *)
Abbreviation Stamps := (list (str * option N)).

(** The fields of a [<session>.settings.json], each absent where it does not read. *)
Record Kept := {
  kp_at : option N;
  kp_project : option str;
  kp_files : option Stamps;
  kp_doc : option str;
}.

Definition fresh (kept : Kept) (project : str) (stamps : Stamps) (now : N) : bool :=
  bool_decide (kp_project kept = Some project) && bool_decide (kp_files kept = Some stamps) &&
  (now - default 0 (kp_at kept) <? SETTINGS_KEPT_SECS)%N.

(** [policy_settings]: the document, and the kept read after it. [mod_settings] is what
    [ways] answers, [ok] whether the kept read can be written. *)
Definition policy_settings (kept : option Kept) (project : str) (stamps : Stamps) (now : N)
    (mod_settings : option str) (ok : bool) : option str * option Kept :=
  match k ← kept; if fresh k project stamps now then kp_doc k else None with
  | Some doc => (Some doc, kept)
  | None =>
    match mod_settings with
    | None => (None, kept)
    | Some doc =>
      (Some doc, if ok then Some {| kp_at := Some now; kp_project := Some project;
                                    kp_files := Some stamps; kp_doc := Some doc |}
                 else kept)
    end
  end.

(** [prune_stale]: of the names in the directory, the files removed; [written] is when
    a session's ledger was last written. *)
Definition stale (sid : str) (written : str → option N) (now : N) (name : str) : bool :=
  match strip_suffix ".settings.json" name with
  | None => false
  | Some other =>
    negb (str_eqb other sid) &&
    match written other with
    | None => true
    | Some t => (STALE_SECS <? now - t)%N
    end
  end.
Definition prune_stale (sid : str) (written : str → option N) (now : N) (names : list str)
    : list str := List.filter (stale sid written now) names.

(** ** The card's line on the mod's setting *)

Section setting.
Context {V : Json}.

Definition mod_setting_line (settings : option str) : str :=
  match s ← settings; doc ← json_from_str s; keys ← json_get doc "keys";
        json_get keys "mods.attend.keepwarm" with
  | None => "mod setting mods.attend.keepwarm unknown (ways settings could not be read)"
  | Some key =>
    let field f := x ← json_get key f; as_str x in
    let off := bool_decide (field "value" = Some (lit "off")) in
    let value := if off then lit "off" else lit "on" in
    let from :=
      match field "layer", field "file" with
      | _, Some file => format [" (from "; file; ")"]
      | Some layer, None => format [" ("; layer; ")"]
      | None, None => []
      end in
    let effect := if off then lit "; the mod never runs the keepwarm check in this session" else [] in
    format ["mod setting mods.attend.keepwarm "; value; from; effect]
  end.

End setting.

(** ** Check *)

(** What [check] answers: nothing judged, with why, when to ask again and whether the
    policy runs all the same; a plain check's wake or none; or a decision. *)
Inductive Reply `{Jiff} : Type :=
  | Nothing (reason : str) (next_at : option N) (retry : bool)
  | Wake (line : str) (next_at : N)
  | Decided (d : Decision).

Section check.
Context {U : Unicode} {J : Jiff}.
Context (is_symlink : str → bool).

(** The order of [check]: [resolved] a session owns the process, [run_live] an attend run
    holds it, [enabled] a sensor file runs keepwarm, [policy] is [--policy]. *)
Definition check_cmd (w : Writes) (resolved run_live enabled policy : bool)
    (read_context : option Reading) (cfg : Config.t) (skills : SessionSkills.t) (gate : Gate.t)
    (site : Site.t) (now : N) (during : Disk → Disk) (disk : Disk) : res (Reply * Disk) :=
  if negb resolved then
    Ok (Nothing "no Claude session owns this process, nothing to warm" None false, disk)
  else if run_live then
    Ok (Nothing "an attend run holds this session; its sensor keeps the cache warm" None false, disk)
  else if negb enabled then
    Ok (Nothing "no sensor file runs the keepwarm sensor" None false, disk)
  else if negb policy then
    let '(line, disk) := check_once w read_context now during disk in
    Ok (match line with
        | Some text => Wake text (u64_add now 60)
        | None => Nothing "no wake is due" (Some (u64_add now 60)) false
        end, disk)
  else
    '(d, disk) ← policy_check is_symlink w read_context cfg skills gate site now during disk;
    Ok (match d with
        | Some d => Decided d
        | None =>
          Nothing "could not read the session transcript through `ways context`"
            (Some (u64_add now RETRY_SECS))
            (bool_decide (Config.why_off (check_config cfg skills) gate = None))
        end, disk).

End check.
