(* ===== verification/KeepwarmPolicyFacts.v ===== *)
(** * Facts about the keepalive policy

    The loops of the estimates end, every judgment returns, and what a judgment does
    to the policy's marks is one of the cases of [Judged]. *)

From Stdlib Require Import Ascii ZArith Floats.SpecFloat.
From stdpp Require Import base tactics list numbers strings option.
From S2P Require Import Prelude RustStr RustStrFacts RustPath Float64 KeepwarmBase KeepwarmWindows Keepwarm KeepwarmFacts KeepwarmConfig KeepwarmPolicy.

(** The bounds [from_settings] keeps. *)
Record config_ok `{Jiff} (cfg : Config.t) : Prop := {
  ck_max : (Config.max cfg ≤ u32_max)%N;
  ck_after : (Config.after_max cfg ≤ u32_max)%N;
}.

Section facts.
Context {U : Unicode} {J : Jiff}.
Context (is_symlink : str → bool).
Implicit Types (cfg : Config.t) (s : State) (p : Policy).

(** ** The loops of the estimates *)

Lemma due_loop_ok w step max fuel t c :
  (max ≤ u32_max)%N → N.to_nat (max - c) ≤ fuel → sat (due_loop w step max fuel t c) (λ _, True).
Proof.
  intros Hm. revert t c. induction fuel as [|fuel IH]; intros t c Hf; cbn [due_loop].
  - rewrite (proj2 (N.ltb_ge c max)) by lia. done.
  - destruct (c <? max)%N eqn:E; simpl; [|done]. bool_prop. case_match; [|done].
    apply IH. rewrite u32_add_small by lia. lia.
Qed.

Lemma due_from_ok w step max t c : (max ≤ u32_max)%N → sat (due_from w step max t c) (λ _, True).
Proof. intros. by apply due_loop_ok. Qed.

Lemma sat_fmap {A B} (f : A → B) (m : res A) (Q : B → Prop) :
  sat m (λ a, Q (f a)) → sat (f <$> m) Q.
Proof. by destruct m. Qed.

Lemma wraps_at_ok cfg c due ttl : config_ok cfg → sat (wraps_at cfg c due ttl) (λ _, True).
Proof.
  intros [Hm _]. unfold wraps_at. case_match; [done|]. by apply sat_fmap, due_from_ok.
Qed.

Lemma compacts_at_ok cfg p due ttl : config_ok cfg → sat (compacts_at cfg p due ttl) (λ _, True).
Proof.
  intros Hc. pose proof Hc as [_ Ha]. unfold compacts_at. case_match; [done|]. cbv zeta.
  case_match; [by apply sat_fmap, due_from_ok|].
  eapply sat_bind_mono; [by apply wraps_at_ok|]. intros [w|] _; [|done].
  by apply sat_fmap, due_from_ok.
Qed.

(** An estimate changes nothing but the estimates. *)
Definition same_judgment (d d' : Decision) : Prop :=
  de_action d' = de_action d ∧ de_next_at d' = de_next_at d ∧ de_reason d' = de_reason d ∧
  de_policy d' = de_policy d ∧ de_state d' = de_state d ∧ de_idle d' = de_idle d ∧
  de_text d' = de_text d.

Lemma estimate_ok cfg p due ttl d :
  config_ok cfg → sat (estimate cfg p due ttl d) (same_judgment d).
Proof.
  intros Hc. unfold estimate. eapply sat_bind_mono.
  - instantiate (1 := λ _, True). case_match; [by apply wraps_at_ok|done].
  - intros w _. eapply sat_bind_mono; [by apply compacts_at_ok|]. done.
Qed.

(** ** What a judgment does *)

(** The counts and marks the policy is bounded by. *)
Definition same_counts p p' : Prop :=
  po_count p' = po_count p ∧ po_after_count p' = po_after_count p ∧
  po_wrapped_at p' = po_wrapped_at p ∧ po_compacted_at p' = po_compacted_at p.

(** A due point has come: nothing in flight, no open window, no stop, on the hour
    tier and a large context, past the margin with the cache still warm. *)
Definition due_now (s : State) (reading : Reading) cfg (now : N) : Prop :=
  ∃ due ttl last_at, due_point s reading cfg = inl (due, ttl, last_at) ∧ (due ≤ now)%N ∧
    cache_lapsed (Some reading) now = false ∧ st_pinged_at s = None ∧
    po_stopped (st_policy s) = None ∧ ¬ (now < st_deadline s)%N ∧
    after_wrap_ends cfg (st_policy s) = None.

Inductive Judged (obs : list (f64 * str)) (reading : Reading) (cfg : Config.t) (now : N)
    (s : State) : State → Action.t → Prop :=
  | judged_armed :
      obs ≠ [] → Judged obs reading cfg now s s Action.Keepalive
  | judged_nothing s' :
      same_counts (st_policy s) (st_policy s') →
      (po_stopped (st_policy s) ≠ None → po_stopped (st_policy s') = po_stopped (st_policy s)) →
      Judged obs reading cfg now s s' Action.None_
  | judged_keepalive s' :
      due_now s reading cfg now → po_wrapped_at (st_policy s) = None →
      (po_count (st_policy s) < Config.max cfg)%N →
      Windows.contains (Config.windows cfg) now = true →
      po_count (st_policy s') = (po_count (st_policy s) + 1)%N →
      po_after_count (st_policy s') = po_after_count (st_policy s) →
      po_wrapped_at (st_policy s') = None →
      po_compacted_at (st_policy s') = po_compacted_at (st_policy s) →
      st_pinged_at s' = Some now → st_ctx s' = st_ctx s → po_pending (st_policy s') = true →
      Judged obs reading cfg now s s' Action.Keepalive
  | judged_after_keepalive s' :
      due_now s reading cfg now → is_Some (po_wrapped_at (st_policy s)) →
      (po_after_count (st_policy s) < Config.after_max cfg)%N →
      Windows.contains (Config.windows cfg) now = true →
      po_count (st_policy s') = po_count (st_policy s) →
      po_after_count (st_policy s') = (po_after_count (st_policy s) + 1)%N →
      po_wrapped_at (st_policy s') = po_wrapped_at (st_policy s) →
      po_compacted_at (st_policy s') = po_compacted_at (st_policy s) →
      st_pinged_at s' = Some now → st_ctx s' = st_ctx s → po_pending (st_policy s') = true →
      Judged obs reading cfg now s s' Action.Keepalive
  | judged_wrap s' :
      due_now s reading cfg now → po_wrapped_at (st_policy s) = None →
      (Config.max cfg ≤ po_count (st_policy s))%N ∨
        Windows.contains (Config.windows cfg) now = false →
      Config.no_wrap cfg = None →
      po_count (st_policy s') = po_count (st_policy s) →
      po_after_count (st_policy s') = po_after_count (st_policy s) →
      po_wrapped_at (st_policy s') = Some now →
      po_compacted_at (st_policy s') = po_compacted_at (st_policy s) →
      Judged obs reading cfg now s s' Action.Wrap
  | judged_compact s' :
      due_now s reading cfg now → is_Some (po_wrapped_at (st_policy s)) →
      (Config.after_max cfg ≤ po_after_count (st_policy s))%N ∨
        Windows.contains (Config.windows cfg) now = false →
      is_Some (po_compact_focus (st_policy s)) →
      po_compacted_at (st_policy s) = None →
      po_count (st_policy s') = po_count (st_policy s) →
      po_after_count (st_policy s') = po_after_count (st_policy s) →
      po_wrapped_at (st_policy s') = po_wrapped_at (st_policy s) →
      po_compacted_at (st_policy s') = Some now →
      Judged obs reading cfg now s s' Action.Compact.

(** The reason of an armed window's wake. *)
Definition ARMED : str := "an armed window (attend keepwarm on) overrides the count".

(** A running policy asks again, says why it idles, or is not running. *)
Definition asks_again (now : N) (d : Decision) : Prop :=
  de_state d = lit "running" → de_idle d = None → ∃ t, de_next_at d = Some t ∧ (now < t)%N.

(** A counted keepalive is told from an armed window's by its reason. *)
Definition judged_decision (obs : list (f64 * str)) (d : Decision) : Prop :=
  de_policy d = true ∧ (de_action d = Action.Keepalive → (de_reason d = ARMED ↔ obs ≠ [])).

Lemma keepalive_ok cfg s state reason ttl last_at now :
  config_ok cfg →
  sat (keepalive cfg s state reason ttl last_at now) (λ d,
    de_action d = Action.Keepalive ∧ de_reason d = reason ∧ de_policy d = true ∧
    de_state d = state ∧ de_next_at d = Some (u64_add (u64_add now VERDICT_SECS) 1)).
Proof.
  intros Hc. unfold keepalive. eapply sat_mono; [by apply estimate_ok|].
  intros d (H1 & H2 & H3 & H4 & H5 & _). by rewrite H1, H2, H3, H4, H5.
Qed.

Lemma keepalive_sends cfg s state reason ttl last_at now :
  config_ok cfg →
  sat (keepalive cfg s state reason ttl last_at now) (λ d,
    de_action d = Action.Keepalive ∧ is_Some (de_text d)).
Proof.
  intros Hc. unfold keepalive. eapply sat_mono; [by apply estimate_ok|].
  intros d (H1 & _ & _ & _ & _ & _ & H2). by rewrite H1, H2.
Qed.

Lemma keepalive_reason n rest : format (lit "keepalive " :: n :: rest) ≠ ARMED.
Proof. unfold format, ARMED. simpl. discriminate. Qed.

Lemma after_wrap_ends_compacted cfg p :
  after_wrap_ends cfg p = None → is_Some (po_wrapped_at p) → po_compacted_at p = None.
Proof.
  unfold after_wrap_ends. intros H [t Ht]. rewrite Ht in H. simpl in H.
  by destruct (po_compacted_at p).
Qed.

Lemma after_wrap_due_ok s reading cfg due ttl last_at now obs :
  config_ok cfg → due_point s reading cfg = inl (due, ttl, last_at) → due_now s reading cfg now →
  is_Some (po_wrapped_at (st_policy s)) →
  sat (after_wrap_due s cfg ttl last_at now) (λ r,
    Judged obs reading cfg now s r.1 (de_action r.2) ∧ de_policy r.2 = true ∧
    (de_action r.2 = Action.Keepalive → de_reason r.2 ≠ ARMED) ∧ de_state r.2 ≠ "running").
Proof.
  intros Hc Hdp Hdue Hw. pose proof Hdue as (? & ? & ? & _ & _ & _ & _ & Hstop & _ & Hends).
  assert (Hcomp : po_compacted_at (st_policy s) = None) by (by eapply after_wrap_ends_compacted).
  unfold after_wrap_due. destruct ((_ <? _)%N && _) eqn:E.
  - bool_prop. eapply sat_bind_mono; [by apply keepalive_ok|].
    intros d (H1 & H2 & H3 & H4 & _). apply sat_ok. cbn [fst snd].
    rewrite H1, H2, H3, H4. split_and!; [|done|intros _; apply keepalive_reason|done].
    eapply judged_after_keepalive; simpl; try done.
    apply u32_add_small. destruct Hc. lia.
  - apply andb_false_iff in E. rewrite N.ltb_ge in E.
    assert (Hstopped : ∀ why, sat (Ok (set_policy (set_stopped (Some why) (st_policy s)) s,
        decision cfg (set_stopped (Some why) (st_policy s)) true "wrapped"
          (until_prompt (default [] (after_wrap_ends cfg (set_stopped (Some why) (st_policy s)))))))
      (λ r, Judged obs reading cfg now s r.1 (de_action r.2) ∧ de_policy r.2 = true ∧
            (de_action r.2 = Action.Keepalive → de_reason r.2 ≠ ARMED) ∧ de_state r.2 ≠ "running")).
    { intros why. apply sat_ok. cbn [fst snd de_action decision de_policy de_state].
      split_and!; [|done|done|done]. by apply judged_nothing. }
    destruct (Config.after_wrap cfg); [apply Hstopped|].
    destruct (po_compact_focus (st_policy s)) as [focus|] eqn:Ef; [|apply Hstopped].
    apply sat_ok. cbn [fst snd de_action act decision de_policy de_state].
    split_and!; [|done|done|done]. eapply judged_compact; simpl; try done.
Qed.

Lemma before_wrap_due_ok s reading cfg site due ttl last_at now obs :
  config_ok cfg → due_point s reading cfg = inl (due, ttl, last_at) → due_now s reading cfg now →
  po_wrapped_at (st_policy s) = None →
  sat (before_wrap_due is_symlink s cfg site ttl last_at now) (λ r,
    Judged obs reading cfg now s r.1 (de_action r.2) ∧ de_policy r.2 = true ∧
    (de_action r.2 = Action.Keepalive → de_reason r.2 ≠ ARMED) ∧
    ((now + TTL_SECS ≤ u64_max)%N → asks_again now r.2)).
Proof.
  intros Hc Hdp Hdue Hw. pose proof Hdue as (? & ? & ? & _ & _ & _ & _ & Hstop & _ & Hends).
  unfold before_wrap_due.
  set (s1 := match since (st_policy s) with None => _ | Some _ => s end).
  assert (Hs1 : same_counts (st_policy s) (st_policy s1) ∧
      po_stopped (st_policy s1) = None ∧ st_ctx s1 = st_ctx s)
    by (subst s1; by case_match).
  destruct Hs1 as ((Hct & Haf & Hwr & Hco) & Hst1 & Hctx). cbv zeta. rewrite Hct.
  destruct (negb _ && _) eqn:E.
  - apply andb_prop in E as [Eb%negb_true_iff Ew]. apply N.leb_gt in Eb.
    eapply sat_bind_mono; [by apply keepalive_ok|].
    intros d (H1 & H2 & H3 & H4 & H5). apply sat_ok. cbn [fst snd].
    rewrite H1, H2, H3. split_and!; [|done|intros _; apply keepalive_reason|].
    + eapply judged_keepalive; simpl; rewrite ?Haf, ?Hwr, ?Hco, ?Hct; try done.
      apply u32_add_small. destruct Hc. lia.
    + intros Hnow _ _. eexists. split; [exact H5|].
      unfold VERDICT_SECS, TTL_SECS, PING_AFTER_SECS in *. rewrite (u64_add_small now), u64_add_small; lia.
  - assert (Eb : (Config.max cfg ≤ po_count (st_policy s))%N ∨
                 Windows.contains (Config.windows cfg) now = false).
    { apply andb_false_iff in E as [E%negb_false_iff|E]; [left; by apply N.leb_le|by right]. }
    destruct (Config.no_wrap cfg) as [why|] eqn:En.
    + apply sat_ok. cbn [fst snd de_action decision de_policy de_state].
      split_and!; [|done|done|done]. apply judged_nothing; simpl; [|by rewrite Hstop].
      by split_and!.
    + assert (HJ : ∀ d, de_action d = Action.Wrap → de_policy d = true → de_state d = lit "wrapped" →
        sat (Ok (set_policy (set_wrapped (Some now) (st_policy s1)) s1, d)) (λ r,
          Judged obs reading cfg now s r.1 (de_action r.2) ∧ de_policy r.2 = true ∧
          (de_action r.2 = Action.Keepalive → de_reason r.2 ≠ ARMED) ∧
          ((now + TTL_SECS ≤ u64_max)%N → asks_again now r.2))).
      { intros d Ha Hp Hs. apply sat_ok. cbn [fst snd]. unfold asks_again. rewrite Ha, Hs.
        split_and!; [|done|done|done]. eapply judged_wrap; simpl; try done; by rewrite ?Haf, ?Hco, ?Hct. }
      destruct (0 <? Config.after_max cfg)%N; [|by apply HJ].
      eapply sat_bind_mono; [by apply estimate_ok|]. intros d (H1 & _ & _ & H4 & H5 & _).
      by apply HJ.
Qed.

(** When a wake in flight still waits for its turn. *)
Definition ping_recent (now : N) (s : State) : Prop :=
  ∀ t, st_pinged_at s = Some t → (t ≤ now ≤ t + VERDICT_SECS)%N.

Lemma ping_recent_next now s t :
  ping_recent now s → (now + TTL_SECS ≤ u64_max)%N → st_pinged_at s = Some t →
  (now < u64_add (u64_add t VERDICT_SECS) 1)%N.
Proof.
  intros Hr Hnow [? ?]%Hr. unfold VERDICT_SECS, TTL_SECS, PING_AFTER_SECS in *.
  rewrite (u64_add_small t), u64_add_small; lia.
Qed.

(** What a judgment gives: its effect, whether it counts, and when to ask again. *)
Definition judgment (reading : Reading) cfg now (s : State) (out : Outcome)
    (r : State * Outcome * Decision) : Prop :=
  Judged (oc_observations out) reading cfg now s r.1.1 (de_action r.2) ∧
  judged_decision (oc_observations out) r.2 ∧
  oc_arm_write r.1.2 = oc_arm_write out ∧ oc_auto_arm r.1.2 = oc_auto_arm out ∧
  (ping_recent now s → (now + TTL_SECS ≤ u64_max)%N → asks_again now r.2).

Lemma judgment_plain reading cfg now s out out' d :
  oc_observations out = [] → oc_arm_write out' = oc_arm_write out →
  oc_auto_arm out' = oc_auto_arm out →
  de_action d = Action.None_ → de_policy d = true →
  (ping_recent now s → (now + TTL_SECS ≤ u64_max)%N → asks_again now d) →
  judgment reading cfg now s out (s, out', d).
Proof.
  intros Ho Hw Ha Hd Hp Hn. unfold judgment, judged_decision. cbn [fst snd]. rewrite Hd.
  split_and!; try done. by apply judged_nothing.
Qed.

Lemma asks_again_at now d t : de_next_at d = Some t → (now < t)%N → asks_again now d.
Proof. intros ? ? _ _. by exists t. Qed.

Lemma asks_again_off now d : de_state d ≠ lit "running" → asks_again now d.
Proof. by intros ? ?. Qed.

Lemma judge_ok s out reading cfg site now :
  config_ok cfg →
  sat (judge is_symlink s out reading cfg site now) (judgment reading cfg now s out).
Proof.
  intros Hc. unfold judge. destruct (oc_observations out) as [|[v line] rest] eqn:Eo.
  2: { apply sat_ok. unfold judgment, judged_decision. cbn [fst snd]. rewrite Eo.
    split_and!; [by apply judged_armed|done|done|done|done|]. intros _ Hnow.
    eapply asks_again_at; [reflexivity|].
    unfold VERDICT_SECS, TTL_SECS, PING_AFTER_SECS in *.
    rewrite (u64_add_small now), u64_add_small; lia. }
  destruct (now <? st_deadline s)%N eqn:Ed.
  { apply sat_ok, judgment_plain; try done. intros Hr Hnow. eapply asks_again_at; [reflexivity|].
    destruct (st_pinged_at s) as [t|] eqn:Ep; [by eapply ping_recent_next|].
    bool_prop. rewrite (u64_add_small now) by (unfold TTL_SECS in *; lia). lia. }
  apply N.ltb_ge in Ed. destruct (after_wrap_ends cfg (st_policy s)) as [why|] eqn:Ee.
  { apply sat_ok, judgment_plain; try done. intros _ _. apply asks_again_off. by case_match. }
  destruct (po_stopped (st_policy s)) as [why|] eqn:Es; [by apply sat_ok, judgment_plain|].
  destruct (st_pinged_at s) as [t|] eqn:Ep.
  { eapply sat_bind_mono with (P := λ d, de_action d = Action.None_ ∧ de_policy d = true ∧
      de_next_at d = Some (u64_add (u64_add t VERDICT_SECS) 1)).
    - destruct (due_point s reading cfg) as [[[due ttl] lt]|why]; [|by apply sat_ok].
      eapply sat_mono; [by apply estimate_ok|]. intros d (H1 & H2 & H3 & H4 & _).
      by rewrite H1, H2, H4.
    - intros d (H1 & H2 & H3). apply sat_ok, judgment_plain; try done.
      intros Hr Hnow. eapply asks_again_at; [exact H3|]. by eapply ping_recent_next. }
  destruct (due_point s reading cfg) as [[[due ttl] lt]|why] eqn:Edp.
  2: { apply sat_ok, judgment_plain; try done. }
  destruct (now <? due)%N eqn:En.
  { eapply sat_bind_mono; [by apply estimate_ok|]. intros d (H1 & H2 & H3 & H4 & H5 & H6 & _).
    apply sat_ok, judgment_plain; try done. intros _ _. eapply asks_again_at; [exact H2|].
    by bool_prop. }
  apply N.ltb_ge in En. destruct (cache_lapsed (Some reading) now) eqn:El.
  { apply sat_ok. unfold judgment, judged_decision. cbn [fst snd]. rewrite Eo.
    split_and!; try done; [|by intros _ _; apply asks_again_off; simpl; case_match].
    apply judged_nothing; simpl; [done|by rewrite Es]. }
  assert (Hdue : due_now s reading cfg now) by (exists due, ttl, lt; split_and!; try done; lia).
  eapply sat_bind_mono with (P := λ r, Judged [] reading cfg now s r.1 (de_action r.2) ∧
    de_policy r.2 = true ∧ (de_action r.2 = Action.Keepalive → de_reason r.2 ≠ ARMED) ∧
    ((now + TTL_SECS ≤ u64_max)%N → asks_again now r.2)).
  - case_bool_decide as Hw.
    + eapply sat_mono; [by eapply after_wrap_due_ok|]. intros r (H1 & H2 & H3 & H4).
      split_and!; try done. intros _. by apply asks_again_off.
    + eapply sat_mono; [|intros r Hr; exact Hr]. eapply before_wrap_due_ok; try done.
      by destruct (po_wrapped_at (st_policy s)); [destruct Hw|].
  - intros [s' d] (H1 & H2 & H3 & H4). apply sat_ok. unfold judgment, judged_decision.
    cbn [fst snd] in *. rewrite Eo.
    split_and!; [done|done|intros Ha; by split; [intros ?%H3|]|done|done|by intros _ ?; apply H4].
Qed.

(** ** The whole step *)

Lemma same_counts_trans p1 p2 p3 : same_counts p1 p2 → same_counts p2 p3 → same_counts p1 p3.
Proof. intros (?&?&?&?) (?&?&?&?). unfold same_counts. split_and!; congruence. Qed.

(** The deadline of an arm the operator wrote. *)
Definition operators_deadline (arm : option ArmFile) : N := file_deadline (snd (operators_arm State_default arm)).

Lemma operators_arm_deadline s arm :
  file_deadline (snd (operators_arm s arm)) = operators_deadline arm.
Proof. destruct arm as [[d t w []]|]; done. Qed.

(** What the step hands to the judgment. *)
Record stepped (s : State) (arm : option ArmFile) (now : N) (s1 : State) (out : Outcome) : Prop := {
  sk_counts : same_counts (st_policy s) (st_policy s1);
  sk_stopped : po_stopped (st_policy s) ≠ None → po_stopped (st_policy s1) ≠ None;
  sk_closing : closing (s1, out);
  sk_deadline : st_deadline s1 =
    match oc_arm_write out with Some w => w | None => operators_deadline arm end;
  sk_wake : oc_observations out ≠ [] → (now < st_deadline s1)%N;
  sk_recent : st_baselined s = true → (∀ t, st_pinged_at s = Some t → (t ≤ now)%N) → ping_recent now s1;
}.

Lemma take_verdict_parts before s :
  same_counts (st_policy s) (st_policy (take_verdict before s)) ∧
  (po_stopped (st_policy s) ≠ None → po_stopped (st_policy (take_verdict before s)) ≠ None) ∧
  st_deadline (take_verdict before s) = st_deadline s ∧
  st_pinged_at (take_verdict before s) = st_pinged_at s.
Proof.
  unfold take_verdict. destruct (negb (st_baselined before)); [done|].
  destruct (bool_decide (is_Some (st_pinged_at before)) && _); [|done].
  cbv zeta. destruct (po_pending (st_policy s) && _), (negb _ && match _ with Some _ => _ | _ => _ end); done.
Qed.

Lemma stepped_ok s r arm now before arm' :
  operators_arm s arm = (before, arm') →
  let so := step_with before r arm' now false in
  stepped s arm now (take_verdict before (fst so)) (snd so).
Proof.
  intros Ho so. pose proof (operators_arm_deadline s arm) as Hod. rewrite Ho in Hod. simpl in Hod.
  assert (Hb : st_policy before = st_policy s ∧ st_baselined before = st_baselined s ∧
               st_pinged_at before = st_pinged_at s).
  { unfold operators_arm in Ho. repeat case_match; simplify_eq; done. }
  destruct Hb as (Hpol & Hbase & Hping).
  destruct (step_with_parts before r arm' now false) as [Hp _].
  destruct (take_verdict_parts before (fst so)) as (Hc & Hs & Hd & Hpi).
  subst so. rewrite Hp, Hpol in Hc, Hs.
  pose proof (step_with_deadline before r arm' now false) as Hdl. unfold arm_synced in Hdl.
  split.
  - done.
  - done.
  - destruct (step_with_closing before r arm' now) as [? ?]. by split.
  - rewrite Hd, Hdl. by case_match.
  - intros Hobs. rewrite Hd. destruct (oc_observations _) as [|[v line] rest] eqn:Eo; [done|].
    destruct (step_with_wake before r arm' now false v line rest Eo) as (_ & _ & Hw & _ & _ & Hs1).
    rewrite Hs1. unfold wakes in Hw. bool_prop. done.
  - intros Hbl Hpast t. rewrite Hpi. unfold VERDICT_SECS.
    apply step_with_pinged; congruence || by rewrite Hping.
Qed.

(** A policy step is off, or a judgment of what the step left. *)
Inductive policy_stepped s reading arm cfg gate now : State * Outcome * Decision → Prop :=
  | policy_off why s' out d :
      Config.why_off cfg gate = Some why → de_policy d = false →
      de_action d ≠ Action.Wrap → de_action d ≠ Action.Compact →
      same_counts (st_policy s) (st_policy s') →
      policy_stepped s reading arm cfg gate now (s', out, d)
  | policy_judged s1 out r :
      Config.why_off cfg gate = None → stepped s arm now s1 out →
      judgment reading cfg now s1 out r →
      policy_stepped s reading arm cfg gate now r.

Lemma policy_step_ok s reading arm cfg gate site now :
  config_ok cfg →
  sat (policy_step is_symlink s reading arm cfg gate site now)
    (policy_stepped s reading arm cfg gate now).
Proof.
  intros Hc. unfold policy_step. set (s0 := set_policy _ s).
  destruct (Config.why_off cfg gate) as [why|] eqn:Ew.
  - destruct (negb _); [by apply sat_ok; eapply policy_off|].
    destruct (step_with_parts s0 reading arm now true) as [Hp _]. unfold step.
    destruct (step_with s0 reading arm now true) as [s1 out]. simpl in Hp.
    apply sat_ok. eapply policy_off; [done| | | |by rewrite Hp];
      by destruct (oc_observations out) as [|[v line] rest].
  - destruct (operators_arm s0 arm) as [before arm'] eqn:Eo.
    pose proof (stepped_ok s0 reading arm now before arm' Eo) as Hs. simpl in Hs.
    destruct (step_with before reading arm' now false) as [s1 out]. simpl in Hs.
    eapply sat_mono; [by apply judge_ok|]. intros r Hr. eapply policy_judged; [done| |done].
    by destruct Hs as [? ? ? ? ? ?]; split.
Qed.

End facts.
