(* ===== verification/KeepwarmPolicySpec.v ===== *)
(** * What the keepalive policy promises

    Over any sequence of the verbs short of a reset the policy returns, sends no more
    keepalives than the settings allow, one wrap and one compaction; a keepalive goes
    out only where it pays; a stopped policy stays silent; a running one asks again. *)

From Stdlib Require Import Ascii ZArith Floats.SpecFloat.
From stdpp Require Import base tactics list numbers strings option.
From S2P Require Import Prelude RustStr RustStrFacts RustPath Float64 KeepwarmBase KeepwarmWindows Keepwarm KeepwarmFacts KeepwarmSpec KeepwarmConfig KeepwarmPolicy KeepwarmPolicyFacts.

(** ** A session's verbs *)

(** What the mod and the operator run on a session between two prompts. *)
Inductive Verb `{Jiff} : Type :=
  | VCheck (read : option Reading) (cfg : Config.t) (skills : SessionSkills.t) (gate : Gate.t)
      (site : Site.t) (now : N) (during : Disk → Disk)
  | VOn (window : option str) (now : N)
  | VOff (now : N)
  | VWrapped (o : WrapOutcome.t) (line : str) (focus : option str) (now : N)
  | VCompacted (failed : option str) (now : N).

Section verbs.
Context {U : Unicode} {J : Jiff}.
Context (is_symlink : str → bool).
Implicit Types (cfg : Config.t) (p : Policy) (d : Decision).

Definition run_verb (v : Verb) (disk : Disk) : res (option Decision * Disk) :=
  match v with
  | VCheck read cfg skills gate site now during =>
    policy_check is_symlink all_writes read cfg skills gate site now during disk
  | VOn window now => Ok (None, default disk (keepwarm_on all_writes window now disk))
  | VOff now => Ok (None, keepwarm_off all_writes now disk)
  | VWrapped o line focus now => Ok (None, keepwarm_wrapped all_writes o line focus now disk)
  | VCompacted failed now => Ok (None, keepwarm_compacted all_writes failed now disk)
  end.

Fixpoint run_verbs (vs : list Verb) (disk : Disk) : res (list Decision * Disk) :=
  match vs with
  | [] => Ok ([], disk)
  | v :: vs =>
    '(d, disk) ← run_verb v disk;
    '(ds, disk) ← run_verbs vs disk;
    Ok (option_list d ++ ds, disk)
  end.

(** The keepalives the policy sent of its own, not an armed window's. *)
Definition is_keepalive d : bool :=
  de_policy d && bool_decide (de_action d = Action.Keepalive) && bool_decide (de_reason d ≠ ARMED).
Definition is_wrap d : bool := bool_decide (de_action d = Action.Wrap).
Definition is_compact d : bool := bool_decide (de_action d = Action.Compact).
Definition tally (f : Decision → bool) (ds : list Decision) : N :=
  N.of_nat (length (List.filter f ds)).

(** The configuration of every check keeps within [M] keepalives before the wrap and
    [A] after it. *)
Definition verb_within (M A : N) (v : Verb) : Prop :=
  match v with
  | VCheck _ cfg _ _ _ _ _ => (Config.max cfg ≤ M ∧ Config.after_max cfg ≤ A)%N
  | _ => True
  end.

(** What the marks still allow. *)
Definition keepalives_left (M A : N) p : N := ((M - po_count p) + (A - po_after_count p))%N.
Definition left_of (o : option N) : N := match o with Some _ => 0 | None => 1 end.

(** A verb spends what its decision shows. *)
Definition spends (M A : N) p p' (od : option Decision) : Prop :=
  let n f := tally f (option_list od) in
  (n is_keepalive + keepalives_left M A p' ≤ keepalives_left M A p ∧
   n is_wrap + left_of (po_wrapped_at p') ≤ left_of (po_wrapped_at p) ∧
   n is_compact + left_of (po_compacted_at p') ≤ left_of (po_compacted_at p))%N.

Lemma spends_same M A p p' : same_counts p p' → spends M A p p' None.
Proof.
  intros (H1 & H2 & H3 & H4). unfold spends, keepalives_left, tally. simpl.
  rewrite H1, H2, H3, H4. lia.
Qed.

Lemma check_config_within cfg skills :
  Config.max (check_config cfg skills) = Config.max cfg ∧
  (Config.after_max (check_config cfg skills) ≤ Config.after_max cfg)%N.
Proof. unfold check_config. case_bool_decide; simpl; split; lia || done. Qed.

(** ** What a check spends *)

Lemma judgment_spends M A reading cfg now s out r :
  (Config.max cfg ≤ M)%N → (Config.after_max cfg ≤ A)%N →
  judgment reading cfg now s out r →
  spends M A (st_policy s) (st_policy r.1.1) (Some r.2).
Proof.
  intros HM HA (HJ & [Hpol Hkeep] & _). unfold spends, tally, keepalives_left.
  cbv zeta. unfold option_list, is_keepalive, is_wrap, is_compact. simpl. rewrite Hpol.
  destruct r as [[s' out'] d]. cbn [fst snd] in *. revert Hkeep.
  inversion HJ as [Ho|? Hc _|? _ Hw ? ? Hn Han Hwn Hcn|? _ Hw ? ? Hn Han Hwn Hcn
    |? _ Hw ? ? Hn Han Hwn Hcn|? _ Hw ? ? Hcm Hn Han Hwn Hcn]; subst; intros Hkeep.
  - rewrite (bool_decide_eq_false_2 (de_reason d ≠ ARMED)) by (intros Hne; by apply Hne, Hkeep).
    simpl. lia.
  - destruct Hc as (-> & -> & -> & ->). simpl. lia.
  - rewrite Hn, Han, Hwn, Hcn, Hw. simpl. case_match; simpl; lia.
  - rewrite Hn, Han, Hwn, Hcn. simpl. case_match; simpl; lia.
  - rewrite Hn, Han, Hwn, Hcn, Hw. simpl. lia.
  - rewrite Hn, Han, Hwn, Hcn, Hcm. simpl. lia.
Qed.

Lemma policy_stepped_spends M A s reading arm cfg gate now r :
  (Config.max cfg ≤ M)%N → (Config.after_max cfg ≤ A)%N →
  policy_stepped s reading arm cfg gate now r →
  spends M A (st_policy s) (st_policy r.1.1) (Some r.2).
Proof.
  intros HM HA [why s' out d _ Hp Hw Hc Hs|s1 out r1 _ Hst HJ].
  - unfold spends, tally, is_keepalive, is_wrap, is_compact, keepalives_left.
    destruct Hs as (H1 & H2 & H3 & H4). simpl.
    rewrite Hp, (bool_decide_eq_false_2 _ Hw), (bool_decide_eq_false_2 _ Hc). simpl. rewrite H1, H2, H3, H4. lia.
  - pose proof (judgment_spends M A _ _ _ _ _ _ HM HA HJ) as H.
    destruct (sk_counts _ _ _ _ _ Hst) as (H1 & H2 & H3 & H4).
    unfold spends, keepalives_left in *. rewrite <- H1, <- H2, <- H3, <- H4. exact H.
Qed.

(** ** The verbs *)

Lemma resume_policy disk : st_policy (resume (dk_ledger disk)) = disk_policy disk.
Proof.
  unfold resume, disk_policy. destruct (dk_ledger disk) as [l|]; [|done].
  simpl. by destruct (le_cursor l).
Qed.

Lemma keepwarm_on_policy window now disk :
  disk_policy (default disk (keepwarm_on all_writes window now disk)) = disk_policy disk ∨
  disk_policy (default disk (keepwarm_on all_writes window now disk)) = clear_stop (disk_policy disk).
Proof.
  unfold keepwarm_on. destruct (match window with Some _ => _ | None => _ end); [right|by left].
  exact (disk_policy_mark clear_stop now (write_arm true _ disk)).
Qed.

Lemma keepwarm_off_policy now disk :
  disk_policy (keepwarm_off all_writes now disk) = stop_by_operator (disk_policy disk).
Proof. exact (disk_policy_mark stop_by_operator now (write_arm true _ disk)). Qed.

Lemma keepwarm_wrapped_policy o line focus now disk :
  ∃ outcome f, disk_policy (keepwarm_wrapped all_writes o line focus now disk) =
    set_reports outcome f (po_compact_failed (disk_policy disk)) (disk_policy disk).
Proof. do 2 eexists. unfold keepwarm_wrapped. exact (disk_policy_mark _ now disk). Qed.

Lemma keepwarm_compacted_policy failed now disk :
  ∃ f, disk_policy (keepwarm_compacted all_writes failed now disk) =
    let p := disk_policy disk in
    if bool_decide (is_Some (po_wrapped_at p)) then
      set_reports (po_wrap_outcome p) (po_compact_focus p) f
        (set_compacted (Some (default now (po_compacted_at p))) p)
    else p.
Proof. eexists. unfold keepwarm_compacted. exact (disk_policy_mark _ now disk). Qed.

(** What a check leaves on disk, where the ledger is written. *)
Lemma policy_check_ok read cfg skills gate site now during disk :
  config_ok cfg →
  sat (policy_check is_symlink all_writes read cfg skills gate site now during disk) (λ r,
    match read with
    | None => r = (None, disk)
    | Some reading => ∃ s s' out d, r.1 = Some d ∧
        st_policy s = disk_policy disk ∧ s = resume (dk_ledger disk) ∧
        policy_stepped s reading (dk_arm disk) (check_config cfg skills) gate now (s', out, d) ∧
        same_counts (st_policy s') (disk_policy r.2) ∧
        po_stopped (disk_policy r.2) = po_stopped (st_policy s') ∧
        ∃ s1, r.2 = settle all_writes s1 (dk_arm disk) (set_changed out) now (during disk)
    end).
Proof.
  intros Hc. unfold policy_check. destruct read as [reading|]; [|by apply sat_ok].
  assert (Hc' : config_ok (check_config cfg skills)).
  { destruct (check_config_within cfg skills) as [E1 E2], Hc. split; lia. }
  eapply sat_bind_mono; [by apply policy_step_ok|]. intros [[s' out] d] Hst. apply sat_ok.
  eexists _, s', out, d. split_and!; [done| |done|exact Hst| | |].
  - apply resume_policy.
  - unfold disk_policy. cbn [fst snd]. by rewrite settle_ledger.
  - unfold disk_policy. cbn [fst snd]. by rewrite settle_ledger.
  - by eexists.
Qed.

Lemma run_verb_spends M A v disk :
  (M ≤ u32_max)%N → (A ≤ u32_max)%N → verb_within M A v →
  sat (run_verb v disk) (λ r, spends M A (disk_policy disk) (disk_policy r.2) r.1).
Proof.
  intros HM HA Hv. destruct v as [read cfg skills gate site now during|window now|now|o line focus now|failed now].
  - destruct Hv as [Hm Ha]. eapply sat_mono; [apply policy_check_ok; split; lia|]. intros r Hr.
    destruct read as [reading|]; [|by subst; apply spends_same].
    destruct Hr as (s & s' & out & d & -> & Hpol & _ & Hst & Hs' & _).
    destruct (check_config_within cfg skills) as [E1 E2].
    apply (policy_stepped_spends M A) in Hst; [|lia..]. simpl in Hst. rewrite Hpol in Hst.
    destruct Hs' as (H1 & H2 & H3 & H4). unfold spends, keepalives_left in *.
    by rewrite H1, H2, H3, H4.
  - apply sat_ok, spends_same. cbn [fst snd]. destruct (keepwarm_on_policy window now disk) as [->| ->]; done.
  - apply sat_ok, spends_same. cbn [fst snd]. by rewrite keepwarm_off_policy.
  - apply sat_ok, spends_same. cbn [fst snd].
    by destruct (keepwarm_wrapped_policy o line focus now disk) as (? & ? & ->).
  - apply sat_ok. cbn [fst snd].
    destruct (keepwarm_compacted_policy failed now disk) as [f ->]. cbv zeta.
    case_bool_decide; [|by apply spends_same].
    unfold spends, tally, keepalives_left. simpl. destruct (po_compacted_at _); simpl; lia.
Qed.

Lemma tally_app f ds ds' : tally f (ds ++ ds') = (tally f ds + tally f ds')%N.
Proof. unfold tally. rewrite List.filter_app, length_app. lia. Qed.

Lemma run_verbs_spends M A vs disk :
  (M ≤ u32_max)%N → (A ≤ u32_max)%N → Forall (verb_within M A) vs →
  sat (run_verbs vs disk) (λ r, (
    tally is_keepalive r.1 + keepalives_left M A (disk_policy r.2) ≤ keepalives_left M A (disk_policy disk) ∧
    tally is_wrap r.1 + left_of (po_wrapped_at (disk_policy r.2)) ≤ left_of (po_wrapped_at (disk_policy disk)) ∧
    tally is_compact r.1 + left_of (po_compacted_at (disk_policy r.2)) ≤
      left_of (po_compacted_at (disk_policy disk)))%N).
Proof.
  intros HM HA Hvs. revert disk. induction Hvs as [|v vs Hv Hvs IH]; intros disk.
  - apply sat_ok. unfold tally. simpl. lia.
  - simpl. eapply sat_bind_mono; [by apply (run_verb_spends M A)|].
    intros [od disk1] (H1 & H2 & H3). eapply sat_bind_mono; [apply IH|].
    intros [ds disk2] (H4 & H5 & H6). apply sat_ok. cbn [fst snd] in *. rewrite !tally_app. lia.
Qed.

(** ** A stopped policy *)

(** Stopped, with no window the operator armed. *)
Definition silent (disk : Disk) : Prop :=
  po_stopped (disk_policy disk) ≠ None ∧ operators_deadline (dk_arm disk) = 0%N.

(** A verb that starts nothing: a check of a policy in force, beside which nobody arms
    a window, or a report. *)
Definition starts_nothing (v : Verb) : Prop :=
  match v with
  | VCheck _ cfg skills gate _ _ during =>
    config_ok cfg ∧ Config.why_off (check_config cfg skills) gate = None ∧
    ∀ disk, operators_deadline (dk_arm disk) = 0%N → operators_deadline (dk_arm (during disk)) = 0%N
  | VOn _ _ => False
  | _ => True
  end.

Lemma settle_disarmed s arm out now disk :
  closing (s, out) → operators_deadline (dk_arm disk) = 0%N →
  operators_deadline (dk_arm (settle all_writes s arm (set_changed out) now disk)) = 0%N.
Proof.
  intros [[Hw|Hw] Ha] Hd; unfold settle; simpl in *; rewrite Hw; [done|].
  destruct (file_deadline (dk_arm disk) =? file_deadline arm)%N; [|done]. simpl. by rewrite Ha.
Qed.

Lemma run_verb_silent v disk :
  starts_nothing v → silent disk →
  sat (run_verb v disk) (λ r, silent r.2 ∧ Forall (λ d, de_action d = Action.None_) (option_list r.1)).
Proof.
  intros Hv [Hst Hd].
  destruct v as [read cfg skills gate site now during|window now|now|o line focus now|failed now].
  - destruct Hv as (Hc & Hon & Hdur). eapply sat_mono; [by apply policy_check_ok|]. intros r Hr.
    destruct read as [reading|]; [|subst; split; [by split|constructor]].
    destruct Hr as (s & s' & out & d & Hr1 & Hpol & _ & Hstep & _ & Hs' & s2 & Hr2).
    inversion_clear Hstep as [why ? ? ? Hoff|s1 out1 ? _ Hk HJ]; [congruence|].
    destruct HJ as (HJ & _ & Hw & Hau & _), Hk as [_ Hk2 [Hcw Hca] Hkd Hkw _]. rewrite Hpol in Hk2.
    assert (Hz : st_deadline s1 = 0%N).
    { rewrite Hkd. destruct Hcw as [Hcw|Hcw]; simpl in Hcw; by rewrite Hcw. }
    assert (Hout : closing (s2, out)) by (simpl in *; rewrite <- Hw in Hcw; rewrite <- Hau in Hca; done).
    assert (Hact : de_action d = Action.None_ ∧ po_stopped (st_policy s') ≠ None).
    { cbn [fst snd] in HJ. specialize (Hk2 Hst).
      assert (Hnd : ¬ due_now s1 reading (check_config cfg skills) now)
        by (intros (? & ? & ? & _ & _ & _ & _ & Hn & _); done).
      inversion HJ as [Hobs|? ? Hkeep| | | |]; subst; try done.
      - specialize (Hkw Hobs). lia.
      - split; [done|]. by rewrite Hkeep. }
    destruct Hact as [Ha Hs]. split; [split|].
    + by rewrite Hs'.
    + rewrite Hr2. apply settle_disarmed; [done|by apply Hdur].
    + rewrite Hr1. by repeat constructor.
  - done.
  - apply sat_ok. split; [|constructor]. cbn [fst snd]. split; [by rewrite keepwarm_off_policy|done].
  - apply sat_ok. split; [|constructor]. cbn [fst snd]. split; [|done].
    by destruct (keepwarm_wrapped_policy o line focus now disk) as (? & ? & ->).
  - apply sat_ok. split; [|constructor]. cbn [fst snd]. split; [|done].
    destruct (keepwarm_compacted_policy failed now disk) as [f ->]. cbv zeta. by case_bool_decide.
Qed.

Lemma run_verbs_silent vs disk :
  Forall starts_nothing vs → silent disk →
  sat (run_verbs vs disk) (λ r, silent r.2 ∧ Forall (λ d, de_action d = Action.None_) r.1).
Proof.
  intros Hvs. revert disk. induction Hvs as [|v vs Hv Hvs IH]; intros disk Hs.
  - apply sat_ok. by split; [|constructor].
  - simpl. eapply sat_bind_mono; [by apply run_verb_silent|].
    intros [od disk1] [H1 H2]. eapply sat_bind_mono; [by apply IH|].
    intros [ds disk2] [H3 H4]. apply sat_ok. split; [done|]. cbn [fst snd] in *.
    by apply Forall_app.
Qed.

End verbs.

(** ** The properties *)

Section properties.
Context {U : Unicode} {J : Jiff}.
Context (is_symlink : str → bool).

Lemma due_point_inl s reading (cfg : Config.t) due ttl t :
  due_point s reading cfg = inl (due, ttl, t) →
  ∃ e, last_entry reading = Some e ∧ t = ue_at_epoch e ∧ (0 < t)%N ∧ ttl = TTL_SECS ∧
    ttl_secs e = TTL_SECS ∧ (BIG_TOKENS ≤ st_ctx s)%N ∧
    due = u64_add t (TTL_SECS - Config.margin_secs cfg).
Proof.
  unfold due_point. destruct (last_entry reading) as [e|]; [|done].
  destruct (negb _) eqn:E1; [done|]. destruct (_ <? TTL_SECS)%N eqn:E2; [done|].
  destruct (_ <? BIG_TOKENS)%N eqn:E3; [done|]. intros [= <- <- <-]. exists e.
  assert (Ht : ttl_secs e = TTL_SECS).
  { revert E2. unfold ttl_secs. by case_match. }
  rewrite Ht. apply negb_false_iff in E1. bool_prop. by split_and!.
Qed.

(** The count of the stretch a keepalive was sent in, the one before the wrap or the one
    after it: it counts this keepalive and is within the stretch's own bound. *)
Definition counted_in_bound (cfg : Config.t) (p : Policy) : Prop :=
  match po_wrapped_at p with
  | None => (0 < po_count p ≤ Config.max cfg)%N
  | Some _ => (0 < po_after_count p ≤ Config.after_max cfg)%N
  end.

Lemma judged_keepalive_pays cfg reading now s s' :
  Judged [] reading cfg now s s' Action.Keepalive →
  due_now s reading cfg now ∧ Windows.contains (Config.windows cfg) now = true ∧
  counted_in_bound cfg (st_policy s') ∧
  st_pinged_at s' = Some now ∧ st_ctx s' = st_ctx s.
Proof.
  intros HJ. unfold counted_in_bound.
  inversion HJ as [Hn| |? Hd Hw Hlt Hin Hc Hac Hw'|? Hd [t Hw] Hlt Hin Hc Hac Hw'| |]; subst; [done|..];
    rewrite Hw'; [|rewrite Hw]; split_and!; try done; lia.
Qed.

(** C1: the policy keeps within its limits: over any sequence of checks, arms, stops
    and reports short of the operator's next prompt, it returns, sends at most the
    keepalives its marks still allow before and after the wrap, and wraps and compacts
    at most once, whatever the transcripts, the clocks and the settings within those
    limits. *)
Theorem policy_bounded (M A : N) (vs : list Verb) (disk : Disk) :
  (M ≤ u32_max)%N → (A ≤ u32_max)%N → Forall (verb_within M A) vs →
  ∃ ds disk', run_verbs is_symlink vs disk = Ok (ds, disk') ∧
    (tally is_keepalive ds ≤ (M - po_count (disk_policy disk)) +
                             (A - po_after_count (disk_policy disk)))%N ∧
    (tally is_wrap ds ≤ left_of (po_wrapped_at (disk_policy disk)))%N ∧
    (tally is_compact ds ≤ left_of (po_compacted_at (disk_policy disk)))%N.
Proof.
  intros HM HA Hvs. destruct (sat_inv _ _ (run_verbs_spends is_symlink M A vs disk HM HA Hvs))
    as ([ds disk'] & Hr & H1 & H2 & H3). exists ds, disk'.
  unfold keepalives_left in *. simpl in *. split; [done|]. lia.
Qed.

(** C4: a keepalive of the policy's own goes out only where it pays: the last request is
    on the hour tier, past the margin but the cache not yet lapsed, the context at
    least 50k tokens and the time inside the keepalive hours. It is counted in its own
    stretch, within that stretch's bound: before the wrap among the keepalives of
    [max], after it among those of [after_max]. It is then in flight. *)
Theorem keepalive_pays (s : State) (reading : Reading) (arm : option ArmFile) (cfg : Config.t)
    (gate : Gate.t) (site : Site.t) (now : N) s' out d :
  config_ok cfg →
  policy_step is_symlink s reading arm cfg gate site now = Ok (s', out, d) →
  is_keepalive d = true →
  ∃ e, last_entry reading = Some e ∧ ttl_secs e = TTL_SECS ∧ (0 < ue_at_epoch e)%N ∧
    (u64_add (ue_at_epoch e) (TTL_SECS - Config.margin_secs cfg) ≤ now)%N ∧
    (now - ue_at_epoch e < TTL_SECS - GATE_MARGIN_SECS)%N ∧
    (BIG_TOKENS ≤ st_ctx s')%N ∧ Windows.contains (Config.windows cfg) now = true ∧
    counted_in_bound cfg (st_policy s') ∧ st_pinged_at s' = Some now.
Proof.
  intros Hc Hr Hk. pose proof (policy_step_ok is_symlink s reading arm cfg gate site now Hc) as Hst.
  rewrite Hr in Hst. unfold is_keepalive in Hk.
  apply andb_prop in Hk as [[Hp Ha%bool_decide_eq_true]%andb_prop Hne%bool_decide_eq_true].
  inversion_clear Hst as [why ? ? ? ? Hoff|s1 out1 ? _ _ (HJ & [_ Hkeep] & _)]; [congruence|].
  cbn [fst snd] in *. rewrite Ha in HJ.
  assert (Ho : oc_observations out1 = []).
  { destruct (oc_observations out1) as [|? ?] eqn:Eo; [done|].
    exfalso. apply Hne, (proj2 (Hkeep Ha)). done. }
  rewrite Ho in HJ. apply judged_keepalive_pays in HJ as (Hdue & Hin & Hbound & Hpin & Hctx).
  destruct Hdue as (due & ttl & t & Hdp & Hle & Hl & _).
  apply due_point_inl in Hdp as (e & He & -> & Hpos & -> & Httl & Hbig & ->).
  exists e. split_and!; try done; [|by rewrite Hctx].
  revert Hl. unfold cache_lapsed. simpl. rewrite He. simpl.
  rewrite (proj2 (N.ltb_lt _ _) Hpos), Httl. apply N.leb_gt.
Qed.

(** C5: a stopped policy stays silent: once it has stopped, with no window the operator
    armed, no sequence of checks, stops and reports makes it act, and it is still
    stopped after them. *)
Theorem stopped_is_silent (vs : list Verb) (disk : Disk) :
  Forall starts_nothing vs → silent disk →
  ∃ ds disk', run_verbs is_symlink vs disk = Ok (ds, disk') ∧ silent disk' ∧
    Forall (λ d, de_action d = Action.None_) ds.
Proof.
  intros Hvs Hs. destruct (sat_inv _ _ (run_verbs_silent is_symlink vs disk Hvs Hs))
    as ([ds disk'] & Hr & H1 & H2). by exists ds, disk'.
Qed.

(** C9: a running policy asks to be asked again: a decision that leaves it running and
    does not say why it idles names a later time, so the policy is never left without
    its next check. *)
Theorem running_asks_again (s : State) (reading : Reading) (arm : option ArmFile) (cfg : Config.t)
    (gate : Gate.t) (site : Site.t) (now : N) :
  config_ok cfg → (now + TTL_SECS ≤ u64_max)%N → st_baselined s = true →
  (∀ t, st_pinged_at s = Some t → (t ≤ now)%N) →
  ∃ s' out d, policy_step is_symlink s reading arm cfg gate site now = Ok (s', out, d) ∧
    (de_policy d = true → de_state d = "running" → de_idle d = None →
     ∃ t, de_next_at d = Some t ∧ (now < t)%N).
Proof.
  intros Hc Hnow Hb Hp.
  destruct (sat_inv _ _ (policy_step_ok is_symlink s reading arm cfg gate site now Hc))
    as ([[s' out] d] & Hr & Hst). exists s', out, d. split; [done|]. intros Hpol.
  inversion_clear Hst as [? ? ? ? ? Hoff|s1 out1 ? _ Hk (_ & _ & _ & _ & Hask)]; [congruence|].
  apply Hask; [|done]. by eapply sk_recent.
Qed.

(** The [k]-th due point from [due] on. *)
Definition nth_due (due step k : N) : N := (due + k * step)%N.

Lemma due_loop_first w step max fuel t c :
  N.to_nat (max - c) ≤ fuel → (max ≤ u32_max)%N → (t + (max - c) * step ≤ u64_max)%N →
  ∃ k, due_loop w step max fuel t c = Ok (nth_due t step k) ∧
    (∀ j, (j < k)%N → (c + j < max)%N ∧ Windows.contains w (nth_due t step j) = true) ∧
    ((max ≤ c + k)%N ∨ Windows.contains w (nth_due t step k) = false).
Proof.
  revert t c. induction fuel as [|fuel IH]; intros t c Hf Hm Hle; cbn [due_loop].
  all: destruct ((c <? max)%N && Windows.contains w t) eqn:E.
  1: { bool_prop. lia. }
  2: { bool_prop. destruct (IH (t + step)%N (c + 1)%N) as (k & Hk & Hb & He); [lia|lia|nia|].
    exists (k + 1)%N. rewrite u32_add_small, u64_add_small by nia. rewrite Hk.
    unfold nth_due in *. split_and!; [f_equal; lia| |].
    - intros j Hj. destruct (decide (j = 0)%N) as [->|Hn].
      + rewrite N.mul_0_l, !N.add_0_r. done.
      + destruct (Hb (j - 1)%N) as [H1 H2]; [lia|]. split; [lia|].
        by replace (t + j * step)%N with (t + step + (j - 1) * step)%N by nia.
    - replace (t + (k + 1) * step)%N with (t + step + k * step)%N by lia.
      destruct He as [He|He]; [left; lia|by right]. }
  all: exists 0%N; unfold nth_due; rewrite N.mul_0_l, !N.add_0_r; split; [done|]; split; [lia|].
  all: apply andb_false_iff in E as [E|E]; [left; by apply N.ltb_ge|by right].
Qed.

(** C27: the estimate of the wrap is exact where nothing else happens: it is the first due
    point, from the next one on, at which the count is spent or the keepalive hours have
    ended, and at every one before it a keepalive is still due. *)
Theorem wraps_at_first_due (cfg : Config.t) (count due ttl : N) :
  config_ok cfg → Config.no_wrap cfg = None →
  (due + (Config.max cfg - count) * step_secs cfg ttl ≤ u64_max)%N →
  ∃ k, wraps_at cfg count due ttl = Ok (Some (nth_due due (step_secs cfg ttl) k)) ∧
    (∀ j, (j < k)%N → (count + j < Config.max cfg)%N ∧
      Windows.contains (Config.windows cfg) (nth_due due (step_secs cfg ttl) j) = true) ∧
    ((Config.max cfg ≤ count + k)%N ∨
     Windows.contains (Config.windows cfg) (nth_due due (step_secs cfg ttl) k) = false).
Proof.
  intros Hc Hn Hle. unfold wraps_at, due_from. rewrite Hn.
  destruct (due_loop_first (Config.windows cfg) (step_secs cfg ttl) (Config.max cfg)
    (N.to_nat (Config.max cfg - count)) due count) as (k & Hk & H); [lia|apply Hc|done|].
  exists k. by rewrite Hk.
Qed.

(** A session at rest: on the clock, nothing armed, in flight or stopped, no wrap sent. *)
Record at_rest (s : State) : Prop := {
  ar_base : st_baselined s = true;
  ar_deadline : st_deadline s = 0%N;
  ar_pinged : st_pinged_at s = None;
  ar_stopped : po_stopped (st_policy s) = None;
  ar_wrapped : po_wrapped_at (st_policy s) = None;
}.

Lemma rest_step s reading now :
  at_rest s → Forall (λ u, (ue_at_epoch u ≤ st_last_seen_at s)%N) (rd_usage_tail reading) →
  step_with s reading None now false =
  (if (0 <? rd_tokens_used reading)%N then set_ctx (rd_tokens_used reading) s else s, Outcome_default).
Proof.
  intros [Hb Hd Hp _ _] Hr. rewrite step_with_scored by done. unfold scored.
  assert (sync_arm (file_deadline None) now s = (s, Outcome_default)) as ->
    by (unfold sync_arm; by rewrite Hd).
  rewrite score_nothing by done.
  set (s1 := if (0 <? _)%N then _ else s).
  assert (H1 : st_deadline s1 = 0%N ∧ st_pinged_at s1 = None) by (subst s1; by case_match).
  destruct H1 as [Hd1 Hp1]. unfold window_end. rewrite Hd1. simpl.
  unfold wake_unanswered. rewrite Hp1. unfold wake. rewrite Hd1. by destruct now.
Qed.

Lemma rest_judge s reading cfg site now e :
  at_rest s → last_entry reading = Some e → (0 < ue_at_epoch e)%N → ttl_secs e = TTL_SECS →
  (BIG_TOKENS ≤ st_ctx s)%N → (u64_add (ue_at_epoch e) (TTL_SECS - Config.margin_secs cfg) ≤ now)%N →
  cache_lapsed (Some reading) now = false →
  judge is_symlink s Outcome_default reading cfg site now =
  ('(s', d) ← before_wrap_due is_symlink s cfg site TTL_SECS (ue_at_epoch e) now;
   Ok (s', set_changed Outcome_default, d)).
Proof.
  intros [Hb Hd Hp Hs Hw] He Hpos Httl Hbig Hdue Hl. unfold judge. simpl.
  rewrite Hd, Hs, Hp. unfold after_wrap_ends. rewrite Hw. simpl.
  unfold due_point. rewrite He, (proj2 (N.ltb_lt _ _) Hpos), Httl, N.ltb_irrefl. simpl.
  rewrite (proj2 (N.ltb_ge _ _) Hbig), (proj2 (N.ltb_ge _ _) Hdue), Hl.
  assert ((now <? 0)%N = false) as -> by (by destruct now). done.
Qed.

(** C8: a due point is answered: where the policy runs, the session rests and its last
    request passed the margin with the cache still warm, the step sends a keepalive
    while the count and the hours allow one, and the wrap where they do not and a wrap
    may run. *)
Theorem due_point_answered (s : State) (reading : Reading) (cfg : Config.t) (gate : Gate.t)
    (site : Site.t) (now : N) (e : UsageEntry) :
  config_ok cfg → Config.why_off cfg gate = None → at_rest s →
  Forall (λ u, (ue_at_epoch u ≤ st_last_seen_at s)%N) (rd_usage_tail reading) →
  last_entry reading = Some e → (0 < ue_at_epoch e)%N → ttl_secs e = TTL_SECS →
  (BIG_TOKENS ≤ rd_tokens_used reading)%N →
  (u64_add (ue_at_epoch e) (TTL_SECS - Config.margin_secs cfg) ≤ now)%N →
  (now - ue_at_epoch e < TTL_SECS - GATE_MARGIN_SECS)%N →
  let open := (po_count (st_policy s) <? Config.max cfg)%N &&
              Windows.contains (Config.windows cfg) now in
  (open = true ∨ Config.no_wrap cfg = None) →
  ∃ s' out d, policy_step is_symlink s reading None cfg gate site now = Ok (s', out, d) ∧
    de_action d = (if open then Action.Keepalive else Action.Wrap) ∧ is_Some (de_text d).
Proof.
  intros Hc Hon Hr Htail He Hpos Httl Hbig Hdue Hwarm open Hopen.
  assert (Hl : cache_lapsed (Some reading) now = false).
  { unfold cache_lapsed. simpl. rewrite He. simpl. rewrite (proj2 (N.ltb_lt _ _) Hpos), Httl.
    by apply N.leb_gt. }
  unfold policy_step. rewrite Hon. cbv zeta. set (s0 := set_policy _ s).
  assert (Hr0 : at_rest s0) by (by destruct Hr; split). cbn [operators_arm].
  rewrite rest_step by done. rewrite (proj2 (N.ltb_lt 0 (rd_tokens_used reading))) by (unfold BIG_TOKENS in *; lia).
  set (s1 := set_ctx _ s0). assert (Hr1 : at_rest s1) by (by destruct Hr0; split).
  assert (take_verdict s0 s1 = s1) as ->.
  { unfold take_verdict. by rewrite (ar_base _ Hr0), (ar_pinged _ Hr0). }
  rewrite (rest_judge s1 reading cfg site now e) by done.
  unfold before_wrap_due. set (s2 := match since _ with None => _ | Some _ => s1 end). cbv zeta.
  assert (Hcount : po_count (st_policy s2) = po_count (st_policy s)) by (subst s2; by case_match).
  rewrite Hcount.
  assert ((negb (Config.max cfg <=? po_count (st_policy s))%N && Windows.contains (Config.windows cfg) now)
    = open) as -> by (subst open; by rewrite N.leb_antisym, negb_involutive).
  destruct open.
  - destruct (sat_inv _ _ (keepalive_sends cfg (set_pinged (Some now) (set_policy (sent_keepalive false (st_policy s2)) s2))
      "running" (format ["keepalive "; show_N (po_count (st_policy (set_pinged (Some now)
        (set_policy (sent_keepalive false (st_policy s2)) s2)))); " of "; show_N (Config.max cfg)])
      TTL_SECS (ue_at_epoch e) now Hc)) as (d & Hd & Ha & Ht).
    rewrite Hd. simpl. by do 3 eexists.
  - destruct Hopen as [Hopen|Hopen]; [done|]. rewrite Hopen.
    destruct (0 <? Config.after_max cfg)%N; [|by do 3 eexists].
    match goal with |- context [estimate cfg ?p ?due ?ttl ?d] =>
      destruct (sat_inv _ _ (estimate_ok cfg p due ttl d Hc)) as (d' & Hd & H1 & _ & _ & _ & _ & _ & H2) end.
    rewrite Hd. simpl. do 3 eexists. split; [done|]. by rewrite H1, H2.
Qed.

End properties.

(** ** The properties at work *)

(** The civil time of UTC, every zone read as UTC. *)
Definition utc_civil (e : Z) : Civil :=
  let days := (e / 86400)%Z in
  let secs := (e mod 86400)%Z in
  let z := (days + 719468)%Z in
  let era := (z / 146097)%Z in
  let doe := (z mod 146097)%Z in
  let yoe := ((doe - doe / 1460 + doe / 36524 - doe / 146096) / 365)%Z in
  let doy := (doe - (365 * yoe + yoe / 4 - yoe / 100))%Z in
  let mp := ((5 * doy + 2) / 153)%Z in
  let month := (if mp <? 10 then mp + 3 else mp - 9)%Z in {|
  cv_year := (yoe + era * 400 + if month <=? 2 then 1 else 0)%Z;
  cv_month := Z.to_N month;
  cv_day := Z.to_N (doy - (153 * mp + 2) / 5 + 1);
  cv_weekday := Z.to_N ((days + 3) mod 7);
  cv_hour := Z.to_N (secs / 3600);
  cv_minute := Z.to_N ((secs mod 3600) / 60);
|}.

#[local, refine] Instance utc : Jiff := {|
  TimeZone := unit; tz_get := λ _, Some tt; tz_system := tt; civil_of := λ _ e, Some (utc_civil e);
|}.
Proof.
  intros tz e c [= <-]. cbn [utc_civil cv_weekday cv_hour cv_minute].
  pose proof (Z.mod_pos_bound (e / 86400 + 3) 7 ltac:(lia)).
  pose proof (Z.mod_pos_bound e 86400 ltac:(lia)).
  pose proof (Z.mod_pos_bound (e mod 86400) 3600 ltac:(lia)).
  assert ((e mod 86400) / 3600 < 24)%Z by (apply Z.div_lt_upper_bound; lia).
  assert (0 ≤ (e mod 86400) / 3600)%Z by (apply Z.div_pos; lia).
  assert (((e mod 86400) mod 3600) / 60 < 60)%Z by (apply Z.div_lt_upper_bound; lia).
  assert (0 ≤ ((e mod 86400) mod 3600) / 60)%Z by (apply Z.div_pos; lia).
  lia.
Defined.

Definition no_links (p : str) : bool := false.

(** Every day, and the settings with the policy on and [n] keepalives. *)
Definition all_day : Windows.t := {|
  Windows.ws_list := [{| Window.wi_days := 127; Window.wi_start := 0; Window.wi_end := 1440;
                         Window.wi_text := DEFAULT_WINDOW |}];
  Windows.ws_dropped := []; Windows.ws_tz := tt; Windows.ws_bad_zone := None;
|}.
Definition allow (n : N) : Config.t := {|
  Config.settings_ok := true; Config.keepwarm_on := true; Config.enabled := true;
  Config.max := n; Config.margin_secs := 600; Config.windows := all_day;
  Config.wrap := WrapDest.Transcript; Config.wrap_file := DEFAULT_WRAP_FILE; Config.wrap_to := [];
  Config.after_wrap := AfterWrap.Lapse; Config.after_max := 1;
  Config.wrap_skill := WrapSkill.default; Config.session_skills := SessionSkills.NotChecked;
|}.
Definition here : Site.t := {|
  Site.session_id := "s1"; Site.project := "/p"; Site.name := "amber"; Site.operator := "ann";
  Site.state_root := "/state"; Site.home := "/home/ann";
|}.
Definition check_at (n t now : N) : Verb :=
  VCheck (Some (busy t)) (allow n) (SessionSkills.Listed [lit "wrap"]) Gate.Off here now id.

(** The first check starts the clock, the second finds the due point, the third waits,
    the fourth finds the keepalive answered and the count spent: the wrap. *)
Definition one_keepalive : list Verb :=
  [check_at 1 1000 1010; check_at 1 1000 4010; check_at 1 1000 4100; check_at 1 4020 7030].
Definition after (vs : list Verb) (disk : Disk) : Disk :=
  match run_verbs no_links vs disk with Ok (_, d) => d | _ => disk end.
Definition actions (vs : list Verb) (disk : Disk) : list Action.t :=
  match run_verbs no_links vs disk with Ok (ds, _) => de_action <$> ds | _ => [] end.

Lemma policy_bounded_witness :
  actions one_keepalive empty_disk = [Action.None_; Action.Keepalive; Action.None_; Action.Wrap] ∧
  ∃ ds disk', run_verbs no_links one_keepalive empty_disk = Ok (ds, disk') ∧
    (tally is_keepalive ds ≤ 2)%N ∧ (tally is_wrap ds ≤ 1)%N ∧ (tally is_compact ds ≤ 1)%N.
Proof.
  split; [vm_compute; reflexivity|].
  apply (policy_bounded no_links 1 1 one_keepalive empty_disk); [discriminate|discriminate|].
  repeat constructor; discriminate.
Defined.

(** The session at its due point: last request at 1000, now 4010. *)
Definition due_state : State := set_clock true 1000 80000 "claude-opus-5" State_default.

Lemma config_allow_ok n : (n ≤ 48)%N → config_ok (allow n).
Proof. intros H. split; simpl; unfold u32_max; lia. Qed.

Definition due_step : State * Outcome * Decision :=
  match policy_step no_links due_state (busy 1000) None (allow 8) Gate.Off here 4010 with
  | Ok r => r
  | _ => (due_state, Outcome_default, decision (allow 8) Policy_default true [] [])
  end.

Lemma keepalive_pays_witness :
  is_keepalive (snd due_step) = true ∧
  ∃ e, last_entry (busy 1000) = Some e ∧ st_pinged_at (fst (fst due_step)) = Some 4010%N.
Proof.
  split; [vm_compute; reflexivity|].
  destruct (keepalive_pays no_links due_state (busy 1000) None (allow 8) Gate.Off here 4010
    (fst (fst due_step)) (snd (fst due_step)) (snd due_step)) as (e & He & _ & _ & _ & _ & _ & _ & _ & Hp).
  - apply config_allow_ok. discriminate.
  - vm_compute. reflexivity.
  - vm_compute. reflexivity.
  - exists e. by split.
Defined.

Lemma stopped_is_silent_witness :
  let disk := after [check_at 8 1000 1010; VOff 1020] empty_disk in
  let vs := [check_at 8 1000 4010; VWrapped WrapOutcome.Transcript [] None 4020; check_at 8 1000 9000] in
  silent disk ∧ length (actions vs disk) = 2 ∧
  ∃ ds disk', run_verbs no_links vs disk = Ok (ds, disk') ∧ silent disk' ∧
    Forall (λ d, de_action d = Action.None_) ds.
Proof.
  cbv zeta. assert (H : silent (after [check_at 8 1000 1010; VOff 1020] empty_disk))
    by (split; [vm_compute; discriminate|vm_compute; reflexivity]).
  split; [exact H|]. split; [vm_compute; reflexivity|].
  apply (stopped_is_silent no_links); [|exact H].
  assert (Hc : ∀ n t now, (n ≤ 48)%N → starts_nothing (check_at n t now))
    by (intros; split_and!; [by apply config_allow_ok|done|done]).
  constructor; [by apply Hc|]. constructor; [done|]. constructor; [by apply Hc|constructor].
Defined.

Lemma running_asks_again_witness :
  de_state (snd due_step) = lit "running" ∧ de_next_at (snd due_step) = Some 4611%N ∧
  ∃ s' out d, policy_step no_links due_state (busy 1000) None (allow 8) Gate.Off here 4010 = Ok (s', out, d) ∧
    (de_policy d = true → de_state d = "running" → de_idle d = None →
     ∃ t, de_next_at d = Some t ∧ (4010 < t)%N).
Proof.
  split; [vm_compute; reflexivity|]. split; [vm_compute; reflexivity|].
  apply running_asks_again; [by apply config_allow_ok|done|done|done].
Defined.

Lemma wraps_at_first_due_witness :
  wraps_at (allow 2) 0 4000 3600 = Ok (Some 10000%N) ∧
  ∃ k, wraps_at (allow 2) 0 4000 3600 = Ok (Some (nth_due 4000 3000 k)) ∧
    ((2 ≤ 0 + k)%N ∨ Windows.contains all_day (nth_due 4000 3000 k) = false).
Proof.
  split; [vm_compute; reflexivity|].
  destruct (wraps_at_first_due (allow 2) 0 4000 3600) as (k & Hk & _ & Hend).
  - by apply config_allow_ok.
  - vm_compute. reflexivity.
  - vm_compute. discriminate.
  - exists k. by split.
Defined.

Lemma due_point_answered_witness :
  at_rest due_state ∧
  ∃ s' out d, policy_step no_links due_state (busy 1000) None (allow 0) Gate.Off here 4010 = Ok (s', out, d) ∧
    de_action d = Action.Wrap ∧ is_Some (de_text d).
Proof.
  assert (H : at_rest due_state) by (split; reflexivity).
  split; [exact H|].
  eapply (due_point_answered no_links due_state (busy 1000) (allow 0) Gate.Off here 4010);
    [by apply config_allow_ok|reflexivity|exact H|repeat constructor; discriminate|reflexivity|
     done|done|done|done|done|right; reflexivity].
Defined.
