(* ===== verification/KeepwarmConfigSpec.v ===== *)
(** * What the keepalive policy's configuration promises

    The settings are read within their ranges and fail closed, the wrap's reply stays
    in the session's own file under the wrap directory, and what reaches the prompt of
    a skill's name and arguments is plain. *)

From Stdlib Require Import Ascii ZArith Floats.SpecFloat.
From stdpp Require Import base tactics list numbers strings option.
From S2P Require Import Prelude RustStr RustStrFacts RustPath RustPathFacts Float64 KeepwarmBase KeepwarmWindows KeepwarmConfig.

(** ** Days and windows *)

Definition day_on (mask d : N) : bool := negb (N.land mask (N.shiftl 1 d) =? 0)%N.

(** [d] is on the way round the week from [a] to [b]. *)
Definition in_days (a b d : N) : bool := ((d + 7 - a) mod 7 <=? (b + 7 - a) mod 7)%N.

Definition week : list N := N.of_nat <$> seq 0 7.

Lemma in_week d : (d < 7)%N → In d week.
Proof. intros H. unfold week. apply in_map_iff. exists (N.to_nat d). rewrite in_seq. lia. Qed.

(** The forty-nine spans of days, each read by the loop as the way round the week. *)
Lemma days_mask_week a b :
  (a < 7)%N → (b < 7)%N →
  ∃ mask, days_mask 7 a b 0 = Ok mask ∧ (0 < mask ≤ 127)%N ∧
    ∀ d, (d < 7)%N → day_on mask d = in_days a b d.
Proof.
  intros Ha Hb.
  assert (Hall : forallb (λ a, forallb (λ b,
    match days_mask 7 a b 0 with
    | Ok mask => (0 <? mask)%N && (mask <=? 127)%N &&
                 forallb (λ d, Bool.eqb (day_on mask d) (in_days a b d)) week
    | _ => false
    end) week) week = true) by (vm_compute; reflexivity).
  rewrite forallb_forall in Hall. specialize (Hall a (in_week a Ha)).
  rewrite forallb_forall in Hall. specialize (Hall b (in_week b Hb)).
  destruct (days_mask 7 a b 0) as [mask| |]; [|done..].
  apply andb_prop in Hall as [[H1%N.ltb_lt H2%N.leb_le]%andb_prop H3]. exists mask.
  split_and!; [done|done|done|]. intros d Hd. rewrite forallb_forall in H3.
  by apply eqb_prop, H3, in_week.
Qed.

Lemma day_index_week s d : day_index s = Some d → (d < 7)%N.
Proof.
  unfold day_index. intros (i & Hi & ->)%fmap_Some. apply position_lt in Hi.
  change (length DAYS) with 7 in Hi. lia.
Qed.

Lemma parse_days_ok s :
  sat (parse_days s) (λ r, match r with inl mask => (0 < mask ≤ 127)%N | inr _ => True end).
Proof.
  unfold parse_days. destruct (eq_ignore_ascii_case s "daily"); [by apply sat_ok|].
  destruct (match split_once "-"%char s with Some ab => ab | None => (s, s) end) as [a b].
  destruct (day_index a) as [ai|] eqn:Ea; [|by apply sat_ok].
  destruct (day_index b) as [bi|] eqn:Eb; [|by apply sat_ok].
  destruct (days_mask_week ai bi) as (mask & -> & Hm & _); [by eapply day_index_week..|].
  by apply sat_ok.
Qed.

(** A window as the parser leaves it. *)
Record window_ok (w : Window.t) : Prop := {
  wo_days : (0 < Window.wi_days w ≤ 127)%N;
  wo_start : (Window.wi_start w < 1440)%N;
  wo_end : (Window.wi_end w ≤ 1440)%N;
  wo_differ : Window.wi_start w ≠ Window.wi_end w;
}.

Lemma parse_time_ok s is_end t :
  parse_time s is_end = inl t → (t ≤ 1440)%N ∧ (is_end = false → (t < 1440)%N).
Proof.
  unfold parse_time. cbv zeta. repeat case_match; intros ?; simplify_eq; bool_prop; split; try done; lia.
Qed.

Lemma parse_window_sat text :
  sat (parse_window text) (λ r, match r with inl w => window_ok w | inr _ => True end).
Proof.
  unfold parse_window. destruct (split_whitespace text) as [|days [|span [|]]]; try by apply sat_ok.
  eapply sat_bind_mono; [apply parse_days_ok|]. intros [mask|why] Hm; [|by apply sat_ok].
  destruct (split_once "-"%char span) as [[a b]|]; [|by apply sat_ok].
  destruct (parse_time a false) as [start|] eqn:Ea; [|by apply sat_ok].
  destruct (parse_time b true) as [stop|] eqn:Eb; [|by apply sat_ok].
  destruct (start =? stop)%N eqn:E; [by apply sat_ok|]. apply sat_ok.
  apply parse_time_ok in Ea as [_ Ha], Eb as [Hb _]. apply N.eqb_neq in E. split; simpl; auto.
Qed.

(** C30: an entry is read to a well-formed window or refused with a reason, whatever its
    text: the parser returns, and a window it gives lists a day, opens within the day,
    closes by midnight or runs into the next day, and is not empty. *)
Theorem parse_window_well_formed (text : str) :
  ∃ r, parse_window text = Ok r ∧ ∀ w, r = inl w → window_ok w.
Proof.
  destruct (sat_inv _ _ (parse_window_sat text)) as (r & Hr & Hok). exists r.
  split; [done|]. by intros w ->.
Qed.

Lemma parse_entries_ok entries :
  sat (Windows.parse_entries entries) (λ r, Forall window_ok r.1).
Proof.
  induction entries as [|e entries IH]; [by apply sat_ok|]. simpl.
  eapply sat_bind_mono; [apply parse_window_sat|]. intros r Hr.
  eapply sat_bind_mono; [exact IH|]. intros [l dropped] Hl. destruct r as [w|why]; apply sat_ok; [by constructor|done].
Qed.

Lemma windows_parse_ok `{Jiff} entries zone :
  sat (Windows.parse entries zone) (λ w, Forall window_ok (Windows.ws_list w)).
Proof.
  unfold Windows.parse. eapply sat_bind_mono; [apply parse_entries_ok|]. intros [l dropped] Hl.
  destruct (Windows.zone_of zone) as [tz bad]. by apply sat_ok.
Qed.

(** ** The settings *)

Lemma in_range_spec r n : Config.in_range r n = true ↔ (r.1 ≤ n ≤ r.2)%N.
Proof. unfold Config.in_range. rewrite andb_true_iff, !N.leb_le. lia. Qed.

Section settings.
Context {J : Jiff} {V : Json}.

Lemma int_range v k r n : Config.int v k r = Some n → (r.1 ≤ n ≤ r.2)%N.
Proof.
  unfold Config.int. intros (m & _ & Hm)%bind_Some.
  destruct (Config.in_range r m) eqn:E; simplify_eq. by apply in_range_spec.
Qed.

Lemma default_le (d b : N) o : (d ≤ b)%N → (∀ n, o = Some n → (n ≤ b)%N) → (default d o ≤ b)%N.
Proof. destruct o; naive_solver. Qed.

(** The configuration within its documented ranges. *)
Record in_ranges (cfg : Config.t) : Prop := {
  ir_max : (Config.max cfg ≤ 48)%N;
  ir_after : (Config.after_max cfg ≤ 48)%N;
  ir_margin : (180 ≤ Config.margin_secs cfg ≤ 1800)%N;
  ir_windows : Forall window_ok (Windows.ws_list (Config.windows cfg));
}.

Lemma default_in_ranges w : Forall window_ok (Windows.ws_list w) → in_ranges (Config.default w).
Proof. intros Hw. split; [done|done|simpl; by split|done]. Qed.

Lemma from_settings_sat doc :
  sat (Config.from_settings doc) (λ cfg,
    in_ranges cfg ∧
    match (s ← doc; json_from_str s) with
    | None => Config.settings_ok cfg = false
    | Some v =>
      Config.enabled cfg = bool_decide ((x ← Config.key v "keepalive.enabled"; as_bool x) = Some true) ∧
      Config.keepwarm_on cfg = negb (bool_decide (Config.text v "keepwarm" = Some (lit "off")))
    end).
Proof.
  unfold Config.from_settings. eapply sat_bind_mono; [apply windows_parse_ok|]. intros dw Hdw.
  pose proof (default_in_ranges dw Hdw) as [? ? ? ?].
  destruct (s ← doc; json_from_str s) as [v|]; [|by apply sat_ok].
  eapply sat_bind_mono; [apply windows_parse_ok|]. intros w Hw. apply sat_ok. split; [|done].
  split; cbn [Config.max Config.after_max Config.margin_secs Config.windows]; [| | |done].
  - apply default_le; [done|]. intros n Hn%int_range. apply Hn.
  - apply default_le; [done|]. intros n Hn%int_range. apply Hn.
  - destruct (Config.int v _ MARGIN_RANGE) as [n|] eqn:E; [|done].
    apply int_range in E. cbn [fst snd MARGIN_RANGE] in E. lia.
Qed.

(** C10: the settings are read within their ranges whatever the document says: reading
    returns, the limits and the margin stay in their ranges (so a due point comes
    before the wake gate calls the cache lapsed), every window is well formed, and the
    policy runs only where the document was read, enables it, does not switch keepwarm
    off, and autocompact is off. *)
Theorem settings_fail_closed (doc : option str) :
  ∃ cfg, Config.from_settings doc = Ok cfg ∧ in_ranges cfg ∧
    (GATE_MARGIN_SECS < Config.margin_secs cfg < TTL_SECS)%N ∧
    ∀ gate, Config.why_off cfg gate = None →
      gate = Gate.Off ∧
      ∃ v, (s ← doc; json_from_str s) = Some v ∧
        (x ← Config.key v "keepalive.enabled"; as_bool x) = Some true ∧
        Config.text v "keepwarm" ≠ Some (lit "off").
Proof.
  destruct (sat_inv _ _ (from_settings_sat doc)) as (cfg & Hr & Hok & Hdoc). exists cfg.
  split_and!; [done|done| | |].
  1,2: destruct Hok as [_ _ ? _]; unfold GATE_MARGIN_SECS, TTL_SECS; lia.
  intros gate. unfold Config.why_off.
  destruct (Config.settings_ok cfg) eqn:E1; [|done]. destruct (Config.keepwarm_on cfg) eqn:E2; [|done].
  destruct (Config.enabled cfg) eqn:E3; [|done]. simpl. destruct gate; [done| |done]. intros _. split; [done|].
  destruct (s ← doc; json_from_str s) as [v|]; [|congruence]. exists v.
  destruct Hdoc as [He Hk]. split_and!; [done|..].
  - symmetry in He. by apply bool_decide_eq_true in He.
  - symmetry in Hk. by apply negb_true_iff, bool_decide_eq_false in Hk.
Qed.

End settings.

(** ** The week *)

Lemma day_on_contains w d :
  day_on (Window.wi_days w) d = negb (N.land (Window.wi_days w) (N.shiftl 1 d) =? 0)%N.
Proof. done. Qed.

(** Days round the week, from [d] to [day]. *)
Definition days_since (d day : N) : N := ((day + 7 - d) mod 7)%N.

Lemma days_since_small d day :
  (d < 7)%N → (day < 7)%N →
  (days_since d day = 0 ↔ d = day)%N ∧ (days_since d day = 1 ↔ d = (day + 6) mod 7)%N.
Proof.
  intros Hd Hday.
  assert (Hall : forallb (λ d, forallb (λ day,
    Bool.eqb (days_since d day =? 0)%N (d =? day)%N &&
    Bool.eqb (days_since d day =? 1)%N (d =? (day + 6) mod 7)%N) week) week = true)
    by (vm_compute; reflexivity).
  rewrite forallb_forall in Hall. specialize (Hall d (in_week d Hd)).
  rewrite forallb_forall in Hall. specialize (Hall day (in_week day Hday)).
  apply andb_prop in Hall as [H1%eqb_prop H2%eqb_prop].
  rewrite <- !N.eqb_eq. by rewrite H1, H2.
Qed.

(** C25: a window is the stretch of the week its entry names: a minute is inside exactly
    when it lies between the opening time of a day the entry lists and the closing
    time, on the next day where the window runs past midnight. *)
Theorem window_is_week_stretch (w : Window.t) (day m : N) :
  window_ok w → (day < 7)%N → (m < 1440)%N →
  Window.contains w day m = true ↔
  ∃ d, (d < 7)%N ∧ day_on (Window.wi_days w) d = true ∧
    (Window.wi_start w ≤ days_since d day * 1440 + m <
     (if (Window.wi_start w <? Window.wi_end w)%N then Window.wi_end w
      else Window.wi_end w + 1440))%N.
Proof.
  intros [_ Hs He Hne] Hday Hm. unfold Window.contains. rewrite <- !day_on_contains.
  assert (Hprev : ((day + 6) mod 7 < 7)%N) by (apply N.mod_lt; lia).
  destruct (N.ltb_spec (Window.wi_start w) (Window.wi_end w)) as [Hlt|Hge].
  - rewrite !andb_true_iff, N.leb_le, N.ltb_lt. split.
    + intros [[Hon H1] H2]. exists day. destruct (days_since_small day day) as [[_ ->] _]; done || lia.
    + intros (d & Hd & Hon & H1 & H2). destruct (days_since_small d day) as [[H0 _] _]; try done.
      rewrite <- H0 by lia. split_and!; try done; lia.
  - rewrite orb_true_iff, !andb_true_iff, N.leb_le, N.ltb_lt. split.
    + intros [[Hon H1]|[Hon H1]].
      * exists day. destruct (days_since_small day day) as [[_ ->] _]; try done. split_and!; lia || done.
      * exists ((day + 6) mod 7)%N.
        destruct (days_since_small ((day + 6) mod 7) day) as [_ [_ ->]]; try done. split_and!; lia || done.
    + intros (d & Hd & Hon & H1 & H2). destruct (days_since_small d day) as [[H0 _] [H3 _]]; try done.
      destruct (decide (days_since d day = 0)%N) as [E|E].
      * left. rewrite <- H0 by done. rewrite E in H1. split; [done|lia].
      * right. assert (E1 : days_since d day = 1%N) by lia. rewrite <- H3 by done.
        rewrite E1 in H2. split; [done|lia].
Qed.

(** C31: an entry's days are the way round the week from its first day to its last, both
    included: [Sat-Mon] is Saturday, Sunday and Monday. *)
Theorem day_span_round_the_week (s a b : str) (ai bi : N) :
  eq_ignore_ascii_case s "daily" = false → split_once "-"%char s = Some (a, b) →
  day_index a = Some ai → day_index b = Some bi →
  ∃ mask, parse_days s = Ok (inl mask) ∧
    ∀ d, (d < 7)%N → day_on mask d = in_days ai bi d.
Proof.
  intros Hd Hs Ha Hb. unfold parse_days. rewrite Hd, Hs, Ha, Hb.
  destruct (days_mask_week ai bi) as (mask & -> & _ & Hm); [by eapply day_index_week..|].
  by exists mask.
Qed.

(** ** The wrap's file *)

Section wrap_file.
Context (is_symlink : str → bool).

(** The paths that push [rest] onto [at_] one component at a time, last first. *)
Definition below (at_ : str) (rest : list Component.t) : str :=
  fold_left (λ p c, path_join p (component_str c)) rest at_.

Lemma find_link_none at_ rest :
  find_link is_symlink at_ rest = None →
  ∀ k, 0 < k ≤ length rest → is_symlink (below at_ (take k rest)) = false.
Proof.
  revert at_. induction rest as [|c rest IH]; intros at_ H k Hk; [simpl in Hk; lia|].
  cbn [find_link] in H. destruct (is_symlink (path_join at_ (component_str c))) eqn:E; [done|].
  destruct k as [|k]; [lia|]. cbn [take below fold_left]. destruct k as [|k]; [done|].
  apply (IH _ H (S k)). simpl in Hk. lia.
Qed.

(** A path the check lets through: below the wrap directory, no dots, named for the
    session, and no link from the wrap directory to the file itself. *)
Definition safe_wrap_path (state_root session_id path : str) : Prop :=
  ∃ base rest,
    normalize (path_join state_root "wrap") = Some base ∧
    components path = base ++ rest ∧ rest ≠ [] ∧
    existsb is_dot (components path) = false ∧
    session_id ≠ [] ∧ (∃ name, file_name path = Some name ∧ contains session_id name = true) ∧
    ∀ k, k ≤ length rest → is_symlink (below (path_of base) (take k rest)) = false.

Lemma contains_nil s : s ≠ [] → contains s [] = false.
Proof. by destruct s. Qed.

(** C7: a path the check lets through is safe. *)
Theorem check_wrap_path_safe (state_root session_id path : str) :
  check_wrap_path is_symlink state_root session_id path = None →
  safe_wrap_path state_root session_id path.
Proof.
  unfold check_wrap_path. destruct (normalize _) as [base|] eqn:En; [|done].
  destruct (existsb is_dot _) eqn:Ed; [done|].
  destruct (strip_components base (components path)) as [[|c rest]|] eqn:Es; [done| |done].
  destruct (str_eqb session_id [] || _) eqn:Ec; [done|].
  destruct (is_symlink (path_of base)) eqn:El; [done|]. intros Hf%fmap_None.
  apply orb_false_iff in Ec as [Hne%str_eqb_neq Hname%negb_false_iff].
  exists base, (c :: rest). split_and!; try done.
  - by apply strip_components_spec.
  - destruct (file_name path) as [name|]; [by exists name|]. simpl in Hname.
    by rewrite contains_nil in Hname.
  - intros [|k] Hk; [done|]. apply find_link_none; [done|lia].
Qed.

(** The check reads a path through its components alone. *)
Lemma check_wrap_path_components state_root session_id p q :
  components p = components q →
  check_wrap_path is_symlink state_root session_id p = check_wrap_path is_symlink state_root session_id q.
Proof. intros E. unfold check_wrap_path, file_name. by rewrite E. Qed.

Lemma normalize_plain out cs :
  existsb is_dot cs = false → normalize_go out cs = Some (reverse out ++ cs).
Proof.
  revert out. induction cs as [|c cs IH]; intros out; [by rewrite app_nil_r|].
  cbn [existsb]. intros [Hc Hcs]%orb_false_iff.
  assert (normalize_go out (c :: cs) = normalize_go (c :: out) cs) as -> by (by destruct c).
  rewrite IH by done. by rewrite reverse_cons, <- app_assoc.
Qed.

(** C6: the wrap's reply is written nowhere else: the file of a wrap is none, or one the
    check lets through, whatever the template expands to. *)
Theorem wrap_file_confined `{Jiff} (s : Site.t) (template : str) (w : Windows.t) (now : N) :
  let p := fst (confined_wrap_file is_symlink s template w now) in
  p = [] ∨ safe_wrap_path (Site.state_root s) (Site.session_id s) p.
Proof.
  assert (Hfb : ∀ why, let p := fst (fallback is_symlink s template why) in
    p = [] ∨ safe_wrap_path (Site.state_root s) (Site.session_id s) p).
  { intros why. unfold fallback. cbv zeta. destruct (check_wrap_path _ _ _ _) eqn:Ec; [by left|].
    right. by apply check_wrap_path_safe. }
  unfold confined_wrap_file. destruct (negb _); [apply Hfb|]. cbv zeta.
  set (path := wrap_file s template w now).
  destruct (check_wrap_path _ _ _ path) eqn:Ec; [apply Hfb|]. right. cbn [fst].
  pose proof (check_wrap_path_safe _ _ _ Ec) as (base & rest & _ & Hcs & Hne & Hd & _).
  unfold normalize. rewrite normalize_plain by done. cbn [app reverse].
  apply check_wrap_path_safe. erewrite check_wrap_path_components; [exact Ec|].
  apply components_path_of; [done|]. rewrite Hcs. by destruct base.
Qed.

End wrap_file.

(** ** The wrap skill *)

(** A byte of a skill's arguments, or the blank between two. *)
Definition args_byte (c : ascii) : bool :=
  is_alnum c || existsb (Ascii.eqb c) [":"; "_"; "-"; "."; "="; ","; " "]%char.
Definition name_byte (c : ascii) : bool :=
  is_alnum c || existsb (Ascii.eqb c) [":"; "_"; "-"; "."]%char.

Lemma chars_bytes (p : ascii → bool) s :
  forallb (char_is p) (chars s) = true → forallb p s = true.
Proof.
  intros H. rewrite <- (concat_chars s). induction (chars s) as [|c cs IH]; [done|].
  cbn [forallb concat] in *. apply andb_prop in H as [Hc Hcs]. rewrite forallb_app, IH by done.
  rewrite andb_true_r. revert Hc. unfold char_is, char_ascii.
  destruct c as [|b [|? ?]]; try done. destruct (is_ascii b); [|done]. simpl. by intros ->.
Qed.

Lemma split_bytes (p : ascii → bool) c s :
  Forall (λ w, forallb p w = true) (split_char c s) → forallb (λ x, p x || (c =?a x)) s = true.
Proof.
  unfold split_char. induction s as [|x s IH]; [done|]. cbn [split_on forallb].
  destruct (c =?a x) eqn:E.
  - intros [_ H]%Forall_cons_iff. by rewrite orb_true_r, IH.
  - rewrite orb_false_r. destruct (split_on (Ascii.eqb c) s) as [|w ws] eqn:Es.
    + intros [Hx _]%Forall_cons_iff. simpl in Hx. apply andb_prop in Hx as [Hx _].
      rewrite Hx. simpl. by apply IH.
    + intros [Hw Hws]%Forall_cons_iff. cbn [forallb] in Hw. apply andb_prop in Hw as [Hx Hw].
      rewrite Hx. simpl. apply IH. by constructor.
Qed.

(** C29: what a setting puts in the wrap's prompt as a skill is plain: a name of at most 32
    letters, digits and marks, and at most two arguments of 16 such bytes, none that
    opens with a dash; anything else names no skill. *)
Theorem wrap_skill_plain (value : str) :
  let sk := WrapSkill.parse value in
  (WrapSkill.name sk = [] ∧ WrapSkill.args sk = []) ∨
  (0 < length (WrapSkill.name sk) ≤ SKILL_MAX_LEN ∧ forallb name_byte (WrapSkill.name sk) = true ∧
   forallb args_byte (WrapSkill.args sk) = true ∧
   length (WrapSkill.words_of (WrapSkill.args sk)) ≤ SKILL_MAX_ARGS ∧
   Forall (λ w, 0 < length w ≤ SKILL_ARG_MAX_LEN ∧ starts_with "-" w = false)
     (WrapSkill.words_of (WrapSkill.args sk)) ∧
   WrapSkill.refused sk = None).
Proof.
  unfold WrapSkill.parse. cbv zeta.
  destruct (match strip_prefix "/" (trim value) with Some r => r | None => trim value end) as [|c v];
    [by left|]. destruct (WrapSkill.split_args (c :: v)) as [n a0].
  set (a := join " " (split_whitespace a0)).
  destruct (WrapSkill.name_ok n) eqn:En; [|by left].
  destruct (SKILL_MAX_ARGS <? length (WrapSkill.words_of a)) eqn:El; [by left|].
  destruct (forallb WrapSkill.word_ok (WrapSkill.words_of a)) eqn:Ew; [|by left]. right.
  cbn [negb orb WrapSkill.name WrapSkill.args WrapSkill.refused].
  apply Nat.ltb_ge in El. unfold WrapSkill.name_ok in En.
  apply andb_prop in En as [[H1%Nat.leb_le H2]%andb_prop H3].
  assert (Hwords : Forall (λ w, WrapSkill.word_ok w = true ∧ w ≠ []) (WrapSkill.words_of a)).
  { apply Forall_forall. intros w Hw. split.
    - rewrite forallb_forall in Ew. by apply Ew.
    - apply filter_In in Hw as [_ Hw]. by apply negb_true_iff, str_eqb_neq in Hw. }
  split_and!; try done.
  - destruct n; [done|simpl; lia].
  - by apply chars_bytes.
  - assert (Hparts : Forall (λ w, forallb args_byte w = true) (split_char " "%char a)).
    { apply Forall_forall. intros w Hw. destruct (decide (w = [])) as [->|Hne]; [done|].
      assert (Hin : In w (WrapSkill.words_of a)).
      { apply filter_In. split; [done|]. by apply negb_true_iff, str_eqb_neq. }
      rewrite Forall_forall in Hwords. apply Hwords in Hin as [Hok _]. unfold WrapSkill.word_ok in Hok.
      apply andb_prop in Hok as [_ Hok]. apply chars_bytes in Hok.
      rewrite forallb_forall in *. intros x Hx%Hok. unfold args_byte.
      revert Hx. cbn [existsb]. rewrite !orb_true_iff. tauto. }
    apply split_bytes in Hparts. rewrite forallb_forall in *. intros x Hx%Hparts.
    apply orb_prop in Hx as [Hx|Hx%Ascii.eqb_eq]; [done|]. by subst x.
  - eapply Forall_impl; [|exact Hwords]. intros w [Hok Hne]. unfold WrapSkill.word_ok in Hok.
    apply andb_prop in Hok as [[H4%Nat.leb_le H5%negb_true_iff]%andb_prop _].
    split; [destruct w; [done|simpl in *; lia]|done].
Qed.

(** ** The properties at work *)

Lemma window_is_week_stretch_witness :
  let w := {| Window.wi_days := 16; Window.wi_start := 1320; Window.wi_end := 120;
              Window.wi_text := "Fri 22:00-02:00" |} in
  parse_window "Fri 22:00-02:00" = Ok (inl w) ∧
  Window.contains w 5 60 = true ∧ Window.contains w 4 60 = false ∧
  (Window.contains w 5 60 = true ↔
   ∃ d, (d < 7)%N ∧ day_on 16 d = true ∧ (1320 ≤ days_since d 5 * 1440 + 60 < 1560)%N).
Proof.
  cbv zeta. split; [vm_compute; reflexivity|]. split; [reflexivity|]. split; [reflexivity|].
  apply (window_is_week_stretch {| Window.wi_days := 16; Window.wi_start := 1320;
    Window.wi_end := 120; Window.wi_text := "Fri 22:00-02:00" |}); [|reflexivity|reflexivity].
  split; simpl; lia.
Defined.

Lemma day_span_round_the_week_witness :
  parse_days "Sat-Mon" = Ok (inl 97%N) ∧
  ∃ mask, parse_days "Sat-Mon" = Ok (inl mask) ∧ ∀ d, (d < 7)%N → day_on mask d = in_days 5 0 d.
Proof.
  split; [vm_compute; reflexivity|].
  eapply (day_span_round_the_week "Sat-Mon" "Sat" "Mon" 5 0); vm_compute; reflexivity.
Defined.

Lemma check_wrap_path_safe_witness :
  check_wrap_path (λ _, false) "/state" "s1" "/state/wrap/notes/s1.md" = None ∧
  safe_wrap_path (λ _, false) "/state" "s1" "/state/wrap/notes/s1.md" ∧
  check_wrap_path (λ p, str_eqb p "/state/wrap/notes") "/state" "s1" "/state/wrap/notes/s1.md" =
    Some (lit "/state/wrap/notes is a symlink").
Proof.
  split; [vm_compute; reflexivity|]. split; [|vm_compute; reflexivity].
  apply check_wrap_path_safe. vm_compute. reflexivity.
Defined.

(** A sign is read as part of a number of a time. *)
Example parse_time_signed : parse_time "+9:+5" false = inl 545%N.
Proof. vm_compute. reflexivity. Qed.
