(* ===== verification/KeepwarmVerbsSpec.v ===== *)
(** * What the keepwarm verbs promise

    A reply is written only where the check lets it at both ends of the race, a kept
    read of the settings is reused only while it is fresh, and pruning removes only what
    nothing uses. *)

From Stdlib Require Import Ascii ZArith.
From stdpp Require Import base tactics list numbers strings option.
From S2P Require Import Prelude RustStr RustStrFacts RustPath RustPathFacts Float64 KeepwarmBase KeepwarmWindows Keepwarm KeepwarmFacts KeepwarmSpec KeepwarmConfig KeepwarmConfigSpec KeepwarmPolicy KeepwarmVerbs.

(** C32: a reply is written only where it is safe: before the directory is made and after,
    the path was below the wrap directory, named for the session, and crossed no link;
    and where both hold, what the verb reports is what the writes answered. *)
Theorem reply_written_where_safe (before after : str → bool) (state_root session_id path : str)
    (create replace error : option str) :
  write_wrap before after state_root session_id path create replace = (error, true) →
  safe_wrap_path before state_root session_id path ∧
  safe_wrap_path after state_root session_id path ∧ create = None ∧ error = replace.
Proof.
  unfold write_wrap. destruct (check_wrap_path before _ _ _) eqn:Eb; [done|]. intros H.
  assert (Hw : match create with
               | Some e => (Some e, false)
               | None => match check_wrap_path after state_root session_id path with
                         | Some why => (Some why, false)
                         | None => (replace, true)
                         end
               end = (error, true)).
  { revert H. destruct (components path) as [|[] [|]]; done. }
  destruct create; [done|]. destruct (check_wrap_path after _ _ _) eqn:Ea; [done|]. simplify_eq.
  split_and!; try done; by apply check_wrap_path_safe.
Qed.

(** C33: a report exits cleanly only when it was understood, recorded and, where the
    reply was to be saved, saved; and an unfinished or misread report leaves nothing
    to compact with that was not there before. *)
Theorem wrapped_exits (w : Writes) (outcome detail : str) (path : option str) (save : bool)
    (focus : option str) (read : str + str) (write : str → str → option str) (now : N) (disk : Disk) :
  let r := wrapped_cmd w outcome detail path save focus read write now disk in
  (r.1 = Done → wr_ledger w = true ∧
    ∃ o, WrapOutcome.parse outcome = Some o ∧ is_Some (po_wrap_outcome (disk_policy r.2)) ∧
      (save = true → ∀ p, path = Some p →
       ∃ reply, read = inl reply ∧ (N.of_nat (length reply) ≤ MAX_REPLY_BYTES)%N ∧ write p reply = None)) ∧
  (r.1 = Usage → r.2 = disk) ∧
  (WrapOutcome.parse outcome = Some WrapOutcome.Unfinished →
   po_compact_focus (disk_policy r.2) = po_compact_focus (disk_policy disk)).
Proof.
  cbv zeta. unfold wrapped_cmd. destruct (WrapOutcome.parse outcome) as [o|]; [|by split_and!].
  destruct (save && _); [by split_and!|].
  set (lf := match save, path with true, Some p => _ | _, _ => _ end).
  destruct lf as [line failed] eqn:Elf. cbn [fst snd].
  assert (Hpol : wr_ledger w = true → disk_policy (keepwarm_wrapped w o line focus now disk) =
    set_reports (Some line)
      match (if bool_decide (o = WrapOutcome.Unfinished) then None
             else f ← focus; match join " " (split_whitespace f) with [] => None | g => Some g end) with
      | Some g => Some g | None => po_compact_focus (disk_policy disk) end
      (po_compact_failed (disk_policy disk)) (disk_policy disk)).
  { intros Hw. unfold keepwarm_wrapped. rewrite Hw. exact (disk_policy_mark _ now disk). }
  assert (Hun : wr_ledger w = false → keepwarm_wrapped w o line focus now disk = disk).
  { intros Hw. unfold keepwarm_wrapped. by rewrite Hw. }
  destruct (wr_ledger w); simpl; split_and!; try (by destruct (bool_decide (failed = None))).
  - destruct (bool_decide (failed = None)) eqn:Ef; [|done]. apply bool_decide_eq_true in Ef.
    intros _. split; [done|]. exists o. split; [done|].
    rewrite Hpol by done. split; [by eexists|]. intros -> p ->. subst lf. injection Elf as _ Hf.
    rewrite Ef in Hf. unfold wrote_reply in Hf. cbv zeta in Hf. destruct read as [reply|]; [|done].
    destruct (MAX_REPLY_BYTES <? _)%N eqn:El; [done|]. exists reply. split; [done|].
    bool_prop. split; [done|]. by destruct (write p reply).
  - intros [= ->]. by rewrite Hpol by done.
  - intros [= ->]. by rewrite Hun.
Qed.

(** C34: a kept read of the settings is used only while it is this project's, less than
    five minutes old and no settings file has changed; otherwise the document is what
    [ways] answers. The next check within five minutes gives the same document without
    asking. *)
Theorem kept_settings_fresh (kept : option Kept) (project : str) (stamps : Stamps) (now : N)
    (ways : option str) (doc : str) (kept' : option Kept) :
  policy_settings kept project stamps now ways true = (Some doc, kept') →
  ((∃ k, kept = Some k ∧ kp_doc k = Some doc ∧ kp_project k = Some project ∧
      kp_files k = Some stamps ∧ (now - default 0 (kp_at k) < SETTINGS_KEPT_SECS)%N) ∨
   ways = Some doc) ∧
  ∀ now', (now' - default 0 (k ← kept'; kp_at k) < SETTINGS_KEPT_SECS)%N →
    policy_settings kept' project stamps now' None true = (Some doc, kept').
Proof.
  unfold policy_settings.
  destruct (k ← kept; if fresh k project stamps now then kp_doc k else None) as [d|] eqn:Ek.
  - intros [= -> ->]. apply bind_Some in Ek as (k & -> & Hk).
    destruct (fresh k project stamps now) eqn:Ef; [|done]. unfold fresh in Ef.
    apply andb_prop in Ef as [[H1%bool_decide_eq_true H2%bool_decide_eq_true]%andb_prop H3%N.ltb_lt].
    split; [left; by exists k|]. intros now' Hn. simpl in *.
    unfold fresh. rewrite !bool_decide_eq_true_2, (proj2 (N.ltb_lt _ _) Hn) by done.
    simpl. by rewrite Hk.
  - destruct ways as [d|]; [|done]. intros [= -> <-]. split; [by right|]. intros now' Hn. simpl in *.
    unfold fresh. simpl. by rewrite !bool_decide_eq_true_2, (proj2 (N.ltb_lt _ _) Hn) by done.
Qed.

Lemma strip_suffix_app p s r : strip_suffix p s = Some r → s = r ++ p.
Proof.
  unfold strip_suffix. intros (x & Hx & ->)%fmap_Some.
  assert (H : ∀ p s r, strip_prefix p s = Some r → s = p ++ r).
  { clear. induction p as [|a p IH]; intros [|b s] r; simpl; try by intros [= ->].
    destruct (a =?a b) eqn:E; [|done]. apply Ascii.eqb_eq in E as ->. by intros ->%IH. }
  apply H in Hx. rewrite <- (reverse_involutive s), Hx, reverse_app, reverse_involutive. done.
Qed.

(** C35: pruning removes only another session's kept settings whose ledger is gone or has
    not been written for a week; the session's own stays. *)
Theorem prune_only_stale (sid : str) (written : str → option N) (now : N) (names : list str)
    (name : str) :
  In name (prune_stale sid written now names) ↔
  In name names ∧ ∃ other, name = other ++ ".settings.json" ∧ other ≠ sid ∧
    ∀ t, written other = Some t → (STALE_SECS < now - t)%N.
Proof.
  unfold prune_stale. rewrite filter_In. apply and_iff_compat_l. unfold stale.
  destruct (strip_suffix ".settings.json" name) as [other|] eqn:Es.
  - apply strip_suffix_app in Es as ->. rewrite andb_true_iff, negb_true_iff, str_eqb_neq. split.
    + intros [Hne Hw]. exists other. split_and!; [done|done|]. intros t Ht. rewrite Ht in Hw. by bool_prop.
    + intros (other' & Heq & Hne & Hw). apply (inj (.++ _)) in Heq as <-. split; [done|].
      destruct (written other) as [t|]; [|done]. by apply N.ltb_lt, Hw.
  - split; [done|]. intros (other & -> & _). unfold strip_suffix in Es.
    rewrite reverse_app in Es. exfalso. revert Es.
    assert (H : ∀ p s, strip_prefix p (p ++ s) = Some s).
    { clear. induction p as [|a p IH]; intros s; [done|]. simpl. by rewrite Ascii.eqb_refl. }
    by rewrite H.
Qed.

(** ** The properties at work *)

Lemma reply_written_where_safe_witness :
  let link p := str_eqb p "/state/wrap/x" in
  write_wrap link link "/state" "s1" "/state/wrap/s1.md" None None = (None, true) ∧
  safe_wrap_path link "/state" "s1" "/state/wrap/s1.md".
Proof.
  cbv zeta. split; [vm_compute; reflexivity|].
  apply (reply_written_where_safe (λ p, str_eqb p "/state/wrap/x") (λ p, str_eqb p "/state/wrap/x") "/state" "s1"
    "/state/wrap/s1.md" None None None). vm_compute. reflexivity.
Defined.

Definition kept_at_1000 : Kept := {|
  kp_at := Some 1000%N; kp_project := Some (lit "/p");
  kp_files := Some [(lit "/p/ways.yaml", Some 5%N)]; kp_doc := Some (lit "{}");
|}.

Lemma kept_settings_fresh_witness :
  let stamps := [(lit "/p/ways.yaml", Some 5%N)] in
  policy_settings (Some kept_at_1000) "/p" stamps 1200 None true = (Some (lit "{}"), Some kept_at_1000) ∧
  policy_settings (Some kept_at_1000) "/p" [(lit "/p/ways.yaml", Some 6%N)] 1200 None true =
    (None, Some kept_at_1000) ∧
  policy_settings (Some kept_at_1000) "/p" stamps 1299 None true = (Some (lit "{}"), Some kept_at_1000).
Proof.
  cbv zeta. split; [vm_compute; reflexivity|]. split; [vm_compute; reflexivity|].
  apply (proj2 (kept_settings_fresh (Some kept_at_1000) "/p" [(lit "/p/ways.yaml", Some 5%N)] 1200 None
    (lit "{}") (Some kept_at_1000) ltac:(vm_compute; reflexivity)) 1299%N). vm_compute. reflexivity.
Defined.
