(* ===== verification/JsonValue.v ===== *)
(** * JSON documents

    What the tools ask of [serde_json]'s [Value] ([as_str], [as_array], [as_object],
    [get], the constructors and [==]), as a class with its documented laws, and
    [Map<String, Value>] as a finite map: two maps are equal whatever the order of
    their keys, as [serde_json] compares them. [json] is an instance to run the code
    on. *)

From Stdlib Require Import Ascii ZArith.
From stdpp Require Import base tactics list numbers strings option gmap.
From S2P Require Import Prelude RustStr.

Class SerdeValue := {
  Value : Type;
  Value_eq_dec :: EqDecision Value;
  Null : Value;
  VString : str → Value;
  VArray : list Value → Value;
  VObject : gmap str Value → Value;
  as_str : Value → option str;
  as_array : Value → option (list Value);
  as_object : Value → option (gmap str Value);
  as_str_spec v s : as_str v = Some s ↔ v = VString s;
  as_array_spec v l : as_array v = Some l ↔ v = VArray l;
  as_object_spec v m : as_object v = Some m ↔ v = VObject m;
  as_str_array v s : as_str v = Some s → as_array v = None;
  as_str_object v s : as_str v = Some s → as_object v = None;
  as_array_object v l : as_array v = Some l → as_object v = None;
  null_str : as_str Null = None;
  null_array : as_array Null = None;
  null_object : as_object Null = None;
}.

Section Laws.
Context `{SerdeValue}.

(** [Map<String, Value>] *)
Abbreviation Map := (gmap str Value).

(** [Value::get] with a string key: a member of an object. *)
Definition get (v : Value) (k : str) : option Value :=
  m ← as_object v; m !! k.

Lemma as_str_VString s : as_str (VString s) = Some s.
Proof. by apply as_str_spec. Qed.
Lemma as_array_VArray l : as_array (VArray l) = Some l.
Proof. by apply as_array_spec. Qed.
Lemma as_object_VObject m : as_object (VObject m) = Some m.
Proof. by apply as_object_spec. Qed.
Lemma as_str_VObject m : as_str (VObject m) = None.
Proof.
  destruct (as_str (VObject m)) eqn:E; [|done].
  apply as_str_object in E. by rewrite as_object_VObject in E.
Qed.
Lemma as_array_VObject m : as_array (VObject m) = None.
Proof.
  destruct (as_array (VObject m)) eqn:E; [|done].
  apply as_array_object in E. by rewrite as_object_VObject in E.
Qed.
Lemma as_str_VArray l : as_str (VArray l) = None.
Proof.
  destruct (as_str (VArray l)) eqn:E; [|done].
  apply as_str_array in E. by rewrite as_array_VArray in E.
Qed.
Lemma as_object_VArray l : as_object (VArray l) = None.
Proof. apply (as_array_object _ l), as_array_VArray. Qed.
Lemma as_object_VString s : as_object (VString s) = None.
Proof. apply (as_str_object _ s), as_str_VString. Qed.
Lemma as_array_VString s : as_array (VString s) = None.
Proof. apply (as_str_array _ s), as_str_VString. Qed.
Lemma get_VObject m k : get (VObject m) k = m !! k.
Proof. unfold get. by rewrite as_object_VObject. Qed.

#[export] Instance VString_inj : Inj (=) (=) VString.
Proof. intros a b E. apply as_str_spec in E. rewrite as_str_VString in E. congruence. Qed.
#[export] Instance VArray_inj : Inj (=) (=) VArray.
Proof. intros a b E. apply as_array_spec in E. rewrite as_array_VArray in E. congruence. Qed.
#[export] Instance VObject_inj : Inj (=) (=) VObject.
Proof. intros a b E. apply as_object_spec in E. rewrite as_object_VObject in E. congruence. Qed.

Lemma VArray_not_object l m : VArray l ≠ VObject m.
Proof. intros E. apply as_object_spec in E. by rewrite as_object_VArray in E. Qed.
End Laws.

Abbreviation Map := (gmap str Value).

Create Rewrite HintDb json.
#[export] Hint Rewrite @as_str_VString @as_array_VArray @as_object_VObject @as_str_VObject
  @as_array_VObject @as_str_VArray @as_object_VArray @as_object_VString @as_array_VString
  @get_VObject : json.

(** ** An instance *)

Inductive json :=
  | JNull
  | JBool (b : bool)
  | JNumber (n : Z)
  | JString (s : str)
  | JArray (l : list json)
  | JObject (m : gmap str json).

Fixpoint json_eqb (a b : json) : bool :=
  match a, b with
  | JNull, JNull => true
  | JBool x, JBool y => Bool.eqb x y
  | JNumber x, JNumber y => Z.eqb x y
  | JString x, JString y => bool_decide (x = y)
  | JArray l, JArray k =>
    (fix go l k := match l, k with
                   | [], [] => true
                   | x :: l, y :: k => json_eqb x y && go l k
                   | _, _ => false
                   end) l k
  | JObject m, JObject n =>
    bool_decide (size m = size n) &&
    map_fold (λ k x acc, acc && match n !! k with Some y => json_eqb x y | None => false end)
      true m
  | _, _ => false
  end.

Fixpoint json_size (v : json) : nat :=
  match v with
  | JArray l => S (sum_list (json_size <$> l))
  | JObject m => S (map_fold (λ _ x acc, json_size x + acc) 0 m)
  | _ => 1
  end.

Lemma json_size_array l x : x ∈ l → json_size x < json_size (JArray l).
Proof.
  cbn [json_size]. induction l as [|y l IH]; intros Hx; [inversion Hx|].
  cbn. apply elem_of_cons in Hx as [->|Hx]; [lia|]. specialize (IH Hx). cbn in IH. lia.
Qed.

Lemma json_size_object m k x : m !! k = Some x → json_size x < json_size (JObject m).
Proof.
  intros Hk. cbn [json_size]. apply Nat.lt_succ_r. revert k x Hk.
  apply (map_fold_weak_ind (λ r m, ∀ k x, m !! k = Some x → json_size x ≤ r)); [done|].
  intros j y m' r _ IH k x. destruct (decide (j = k)) as [->|].
  - rewrite lookup_insert_eq. intros [= ->]. lia.
  - rewrite lookup_insert_ne by done. intros Hk. specialize (IH _ _ Hk). lia.
Qed.

Lemma json_nested_ind (P : json → Prop) :
  P JNull → (∀ b, P (JBool b)) → (∀ n, P (JNumber n)) → (∀ s, P (JString s)) →
  (∀ l, (∀ x, x ∈ l → P x) → P (JArray l)) →
  (∀ m, (∀ k x, m !! k = Some x → P x) → P (JObject m)) →
  ∀ v, P v.
Proof.
  intros HN HB HZ HS HA HO v. remember (json_size v) as n eqn:E.
  revert v E. induction (lt_wf n) as [n _ IH]. intros v ->.
  destruct v as [| | | |l|m]; auto.
  - apply HA. intros x Hx. by eapply IH; [apply json_size_array, Hx|].
  - apply HO. intros k x Hk. by eapply IH; [eapply json_size_object, Hk|].
Qed.

Lemma json_eqb_object (m n : gmap str json) :
  (∀ k x, m !! k = Some x → ∀ y, json_eqb x y = true ↔ x = y) →
  map_fold (λ k x acc, acc && match n !! k with Some y => json_eqb x y | None => false end)
    true m = true ↔ m ⊆ n.
Proof.
  intros IH. rewrite map_subseteq_spec. revert IH.
  apply (map_fold_weak_ind (λ r m, (∀ k x, m !! k = Some x → ∀ y, json_eqb x y = true ↔ x = y) →
    r = true ↔ ∀ k x, m !! k = Some x → n !! k = Some x)).
  - intros _. split; [|done]. intros _ k x Hk. by rewrite lookup_empty in Hk.
  - intros j v m' r Hj IHr IH. rewrite andb_true_iff, IHr.
    2: { intros k x Hk. apply (IH k). rewrite lookup_insert_ne; [done|]. by intros ->; rewrite Hj in Hk. }
    assert (Hv : ∀ y, json_eqb v y = true ↔ v = y) by (apply (IH j); apply lookup_insert_eq).
    split.
    + intros [Hm Hn] k x. destruct (decide (j = k)) as [->|].
      * rewrite lookup_insert_eq. intros [= ->]. destruct (n !! k); [|done].
        apply Hv in Hn. by subst.
      * rewrite lookup_insert_ne by done. auto.
    + intros Hall. split.
      * intros k x Hk. apply Hall. rewrite lookup_insert_ne; [done|]. by intros ->; rewrite Hj in Hk.
      * rewrite (Hall j v) by apply lookup_insert_eq. by apply Hv.
Qed.

Lemma json_eqb_eq a b : json_eqb a b = true ↔ a = b.
Proof.
  revert b. induction a as [|x|x|x|l IH|m IH] using json_nested_ind; intros [|y|y|y|k|n]; cbn [json_eqb];
    try (split; congruence).
  - rewrite Bool.eqb_true_iff. split; congruence.
  - rewrite Z.eqb_eq. split; congruence.
  - rewrite bool_decide_eq_true. split; congruence.
  - transitivity (l = k); [|split; congruence].
    revert k. induction l as [|x l IHl]; intros [|y k]; try (split; congruence).
    rewrite andb_true_iff, (IH x), IHl; [|intros; apply IH; by right|by left].
    split; [intros [-> ->]|]; intuition congruence.
  - rewrite andb_true_iff, bool_decide_eq_true, json_eqb_object by exact IH.
    split; [|by intros [= ->]]. intros [Hs Hm]. f_equal.
    by apply map_subseteq_size_eq; [|lia].
Qed.

#[export] Instance json_eq_dec : EqDecision json.
Proof.
  intros a b. refine (match json_eqb a b as e return json_eqb a b = e → _ with
                      | true => λ E, left _ | false => λ E, right _ end eq_refl).
  - by apply json_eqb_eq.
  - intros Hab. apply json_eqb_eq in Hab. congruence.
Defined.

(** The instance; a file that runs the code makes it local to itself. *)
#[local, refine] Instance json_value : SerdeValue := {|
  Value := json;
  Null := JNull;
  VString := JString;
  VArray := JArray;
  VObject := JObject;
  as_str v := match v with JString s => Some s | _ => None end;
  as_array v := match v with JArray l => Some l | _ => None end;
  as_object v := match v with JObject m => Some m | _ => None end;
|}.
Proof. all: try (intros [] ?; split; congruence); try (intros [] ?; done); done. Defined.
