(* ===== verification/SettingsMerge.v ===== *)
(** * The merge of settings.json

    [tools/ways-cli/src/cmd/settings_merge.rs]: the three-way merge of the slices of
    the host's settings file that agent-ways owns (hook entries, permission strings, the
    theme), the withdrawal, the view of the user's portion that audits a write, and the
    steps that apply both to the files. Documents are values of the [SerdeValue] class.
    The order of a document's keys is not modelled: it has no meaning in JSON, and
    [serde_json] compares maps without it. *)

From Stdlib Require Import Ascii.
From stdpp Require Import base tactics list numbers strings option gmap.
From S2P Require Import Prelude RustStr JsonValue.

Definition WAYS_PERMS : list str :=
  ["Bash(ways:*)"; "Bash(attend:*)"; "Bash(attend-chat:*)"; "Bash(way-embed:*)";
   "Edit(~/.claude/**)"].

Definition WAYS_DENY : list str :=
  ["Read(~/.ssh/**)"; "Edit(~/.ssh/**)"; "Read(~/.aws/**)"; "Read(~/.gnupg/**)";
   "Read(~/.config/gcloud/**)"; "Read(~/.kube/config)"; "Read(~/.netrc)"; "Read(./.env)";
   "Read(./.env.local)"].

Definition WAYS_THEME : str := "custom:ways".

(** ** Commands and entries *)

Definition quote_first_token (cmd : str) : str :=
  if starts_with [dquote] cmd then cmd
  else
    match position (Ascii.eqb " ") cmd with
    | None => format [[dquote]; cmd; [dquote]]
    | Some i => format [[dquote]; take i cmd; [dquote]; drop i cmd]
    end.

Definition exe_token (cmd : str) : str :=
  match strip_prefix [dquote] cmd with
  | Some rest =>
    match position (Ascii.eqb dquote) rest with
    | Some i => take i rest
    | None => rest
    end
  | None => default cmd (head (split_whitespace cmd))
  end.

Definition command_is_ours (cmd : str) : bool :=
  let exe := replace [bslash] "/" (exe_token cmd) in
  contains ".claude/hooks/" exe || contains ".claude/bin/" exe.

Section Merge.
Context `{SerdeValue}.

(** [h.get("command").and_then(|c| c.as_str())] *)
Definition command_of (h : Value) : option str := get h "command" ≫= as_str.

(** The loop's body in [quote_entry_commands]. *)
Definition quote_command (h : Value) : Value :=
  match command_of h, as_object h with
  | Some cmd, Some obj => VObject (<["command" := VString (quote_first_token cmd)]> obj)
  | _, _ => h
  end.

Definition quote_entry_commands (entry : Value) : Value :=
  match as_object entry with
  | Some obj =>
    match obj !! "hooks" ≫= as_array with
    | Some hooks => VObject (<["hooks" := VArray (quote_command <$> hooks)]> obj)
    | None => entry
    end
  | None => entry
  end.

Definition entry_is_ours (entry : Value) : bool :=
  match get entry "hooks" ≫= as_array with
  | Some cmds =>
    negb (bool_decide (cmds = [])) &&
    forallb (λ h, default false (command_is_ours <$> command_of h)) cmds
  | None => false
  end.

(** [list.contains(v)] on values. *)
Definition has (l : list Value) (v : Value) : bool := bool_decide (v ∈ l).

(** [map.get(key).and_then(as_array).cloned().unwrap_or_default()] *)
Definition arr_at (m : Map) (key : str) : list Value := default [] (m !! key ≫= as_array).

(** [v.get(key).and_then(as_object).cloned().unwrap_or_default()] *)
Definition obj_at (m : Map) (key : str) : Map := default ∅ (m !! key ≫= as_object).

(** [value.as_object().cloned().unwrap_or_default()] *)
Definition as_map (v : Value) : Map := default ∅ (as_object v).

Definition keys (m : Map) : list str := (map_to_list m).*1.

(** ** The owned slices *)

Record Owned := {
  o_hooks : Map;
  o_perms : list str;
  o_deny : list str;
  o_theme : option str;
  o_prior_theme : option str;
}.

Definition Owned_default : Owned :=
  {| o_hooks := ∅; o_perms := []; o_deny := []; o_theme := None; o_prior_theme := None |}.

(** [Owned::from_value] *)
Definition from_value (v : Value) : Owned :=
  let str_vec key := omap as_str (default [] (get v key ≫= as_array)) in {|
    o_hooks := default ∅ (get v "hooks" ≫= as_object);
    o_perms := str_vec "perms";
    o_deny := str_vec "deny";
    o_theme := get v "theme" ≫= as_str;
    o_prior_theme := get v "prior_theme" ≫= as_str;
  |}.

(** [json!] of an optional string *)
Definition opt_value (o : option str) : Value := match o with Some s => VString s | None => Null end.

(** [Owned::to_value] *)
Definition to_value (o : Owned) : Value :=
  VObject (<["hooks" := VObject (o_hooks o)]>
    (<["perms" := VArray (VString <$> o_perms o)]>
    (<["deny" := VArray (VString <$> o_deny o)]>
    (<["theme" := opt_value (o_theme o)]>
    (<["prior_theme" := opt_value (o_prior_theme o)]> ∅))))).

Record Merged := {
  m_settings : Value;
  m_base : Owned;
}.

(** ** The slices of the merge *)

(** One event's entries after the merge. *)
Definition merged_entries (withdrawing : bool) (base theirs ours : list Value) : list Value :=
  let ours_quoted := quote_entry_commands <$> ours in
  if withdrawing then
    List.filter (λ e, negb (has ours e) && negb (has ours_quoted e)) theirs
  else
    List.filter (λ e, negb (has base e) && negb (has ours e) && negb (has ours_quoted e) &&
                      negb (entry_is_ours e)) theirs
    ++ ours_quoted.

(** The union of the event keys: theirs first, then the new ones of ours. *)
Definition events (theirs ours : Map) : list str :=
  keys theirs ++ List.filter (λ k, negb (mem_str k (keys theirs))) (keys ours).

(** [new_hooks] of [merge_impl] *)
Definition new_hooks (withdrawing : bool) (theirs ours : Map) (base : Owned) : Map :=
  fold_left (λ acc event,
    let merged := merged_entries withdrawing (arr_at (o_hooks base) event)
                    (arr_at theirs event) (arr_at ours event) in
    if bool_decide (merged = []) then acc else <[event := VArray merged]> acc)
    (events theirs ours) ∅.

(** [base_hooks] of [merge_impl]: what we contributed, quoted. *)
Definition base_hooks (withdrawing : bool) (ours : Map) : Map :=
  if withdrawing then ∅
  else omap (λ v, a ← as_array v; Some (VArray (quote_entry_commands <$> a))) ours.

(** [deprecated]: entries of the base that are no longer ours. *)
Definition deprecated (base ours : list str) : list str :=
  List.filter (λ p, negb (mem_str p ours)) base.

(** Whether an entry is a string of [l]. *)
Definition names_one (l : list str) (v : Value) : bool :=
  match as_str v with Some s => mem_str s l | None => false end.

(** [new_allow] and [new_deny]: theirs without the deprecated, then what is missing. *)
Definition merged_strings (base ours : list str) (theirs : list Value) : list Value :=
  let kept := List.filter (λ v, negb (names_one (deprecated base ours) v)) theirs in
  fold_left (λ acc p,
    if existsb (λ v, bool_decide (as_str v = Some p)) acc then acc else acc ++ [VString p])
    ours kept.

(** What the base records of ours: all but what the user already had. *)
Definition recorded (base ours theirs : list str) : list str :=
  List.filter (λ p, mem_str p base || negb (mem_str p theirs)) ours.

(** The theme: the document and the record after it. *)
Definition merged_theme (want : bool) (theirs : option str) (base : Owned) (out : Map)
    : Map * (option str * option str) :=
  let not_ours t := negb (str_eqb t WAYS_THEME) in
  let changed_since := bool_decide (o_theme base ≠ None) && bool_decide (theirs ≠ None) &&
                       bool_decide (theirs ≠ o_theme base) in
  let claim := <["theme" := VString WAYS_THEME]> out in
  match want, o_theme base with
  | true, None =>
    (claim, (Some WAYS_THEME, t ← theirs; if not_ours t then Some t else None))
  | true, Some _ =>
    if negb changed_since then (claim, (Some WAYS_THEME, o_prior_theme base))
    else (out, (o_theme base, o_prior_theme base))
  | false, Some _ =>
    if negb changed_since then
      (match p ← o_prior_theme base; if not_ours p then Some p else None with
       | Some p => <["theme" := VString p]> out
       | None => delete "theme" out
       end, (None, None))
    else (out, (None, None))
  | false, None =>
    if bool_decide (theirs = Some WAYS_THEME) then (delete "theme" out, (None, None))
    else (out, (None, None))
  end.

(** [allow] or [deny] of the permissions set to [new], or dropped where it is empty and
    [drop] says so. *)
Definition set_list (key : str) (drop : bool) (new : list Value) (perms : Map) : Map :=
  if drop && bool_decide (new = []) then delete key perms else <[key := VArray new]> perms.

Definition strings (l : list Value) : list str := omap as_str l.

Definition merge_impl (live desired_hooks : Value) (base : Owned)
    (deny_secrets want_theme withdrawing : bool) : Merged :=
  let out := as_map live in
  let theirs_hooks := obj_at out "hooks" in
  let ours_hooks := as_map desired_hooks in
  let hooks := new_hooks withdrawing theirs_hooks ours_hooks base in
  let out := if bool_decide (hooks = ∅) then delete "hooks" out
             else <["hooks" := VObject hooks]> out in
  let perms_obj := obj_at out "permissions" in
  let theirs_allow := arr_at perms_obj "allow" in
  let ours_perms := if withdrawing then [] else WAYS_PERMS in
  let perms_obj := set_list "allow" withdrawing
                     (merged_strings (o_perms base) ours_perms theirs_allow) perms_obj in
  let theirs_deny := arr_at perms_obj "deny" in
  let ours_deny := if deny_secrets && negb withdrawing then WAYS_DENY else [] in
  let perms_obj := set_list "deny" true
                     (merged_strings (o_deny base) ours_deny theirs_deny) perms_obj in
  let out := if withdrawing && bool_decide (perms_obj = ∅) then delete "permissions" out
             else <["permissions" := VObject perms_obj]> out in
  let '(out, (theme, prior_theme)) :=
    merged_theme (want_theme && negb withdrawing) (get live "theme" ≫= as_str) base out in {|
    m_settings := VObject out;
    m_base := {|
      o_hooks := base_hooks withdrawing ours_hooks;
      o_perms := recorded (o_perms base) ours_perms (strings theirs_allow);
      o_deny := recorded (o_deny base) ours_deny (strings theirs_deny);
      o_theme := theme;
      o_prior_theme := prior_theme;
    |};
  |}.

Definition merge (live desired_hooks : Value) (base : Owned) (deny_secrets want_theme : bool)
    : Merged :=
  merge_impl live desired_hooks base deny_secrets want_theme false.

Definition withdraw (live shipped_hooks : Value) (base : Owned) : Merged :=
  merge_impl live shipped_hooks base false false true.

(** ** The user's view *)

Definition user_entries (ours entries : list Value) : list Value :=
  List.filter (λ e, negb (has ours e) && negb (entry_is_ours e)) entries.

Definition user_hooks (hooks : Map) (base : Owned) : Map :=
  map_imap (λ event entries,
    let kept := user_entries (arr_at (o_hooks base) event) (default [] (as_array entries)) in
    if bool_decide (kept = []) then None else Some (VArray kept)) hooks.

(** The loop's body over [allow] and [deny]. *)
Definition strip_list (key : str) (owned : list str) (perms : Map) : Map :=
  match perms !! key ≫= as_array with
  | Some entries => set_list key true (List.filter (λ v, negb (names_one owned v)) entries) perms
  | None => perms
  end.

Definition strip_hooks (base : Owned) (obj : Map) : Map :=
  match obj !! "hooks" ≫= as_object with
  | Some hooks =>
    let user := user_hooks hooks base in
    if bool_decide (user = ∅) then delete "hooks" obj else <["hooks" := VObject user]> obj
  | None => obj
  end.

Definition strip_perms (base : Owned) (obj : Map) : Map :=
  match obj !! "permissions" ≫= as_object with
  | Some perms =>
    let perms := strip_list "deny" (o_deny base) (strip_list "allow" (o_perms base) perms) in
    if bool_decide (perms = ∅) then delete "permissions" obj
    else <["permissions" := VObject perms]> obj
  | None => obj
  end.

Definition stripped_user_view (settings : Value) (base : Owned) : Value :=
  let obj := strip_perms base (strip_hooks base (as_map settings)) in
  VObject (match o_theme base with Some _ => delete "theme" obj | None => obj end).

(** ** Records of what is ours *)

(** [union_vec], and the loop over one event's entries in [union_owned]. *)
Definition union_vec {A} `{EqDecision A} (a b : list A) : list A :=
  fold_left (λ out x, if bool_decide (x ∈ out) then out else out ++ [x]) b a.

Definition union_hooks (a b : Map) : Map :=
  map_fold (λ event entries hooks,
    <[event := VArray (union_vec (arr_at hooks event) (default [] (as_array entries)))]> hooks)
    a b.

Definition union_owned (a b : Owned) : Owned := {|
  o_hooks := union_hooks (o_hooks a) (o_hooks b);
  o_perms := union_vec (o_perms a) (o_perms b);
  o_deny := union_vec (o_deny a) (o_deny b);
  o_theme := match o_theme b with Some t => Some t | None => o_theme a end;
  o_prior_theme := match o_prior_theme b with Some t => Some t | None => o_prior_theme a end;
|}.

Definition seed_ours_from_live (live : Value) : Map :=
  match get live "hooks" ≫= as_object with
  | Some hooks =>
    omap (λ entries,
      let ours := List.filter entry_is_ours (default [] (as_array entries)) in
      if bool_decide (ours = []) then None else Some (VArray ours)) hooks
  | None => ∅
  end.

(** [theme_may_move] *)
Definition theme_may_move (live : Value) (bases : list Owned) : bool :=
  existsb (λ b, bool_decide (o_theme b ≠ None)) bases ||
  bool_decide (get live "theme" ≫= as_str = Some WAYS_THEME).

Definition theme_stripped (strip : Owned) (theme_moves : bool) : Owned :=
  if theme_moves then {|
    o_hooks := o_hooks strip; o_perms := o_perms strip; o_deny := o_deny strip;
    o_theme := Some WAYS_THEME; o_prior_theme := o_prior_theme strip
  |} else strip.

(** What the settings file's theme was and is, for the card. *)
Definition theme_change (live merged : Value) : option str :=
  let shown v := match v ≫= as_str with
                 | Some s => format [[dquote]; s; [dquote]]
                 | None => "unset"
                 end in
  if bool_decide (get live "theme" = get merged "theme") then None
  else Some (format ["settings.json theme: "; shown (get live "theme"); " → ";
                     shown (get merged "theme")]).

(** [surviving_ours_not_shipped] *)
Definition surviving_ours_not_shipped (after shipped_hooks : Value) : list str :=
  let hooks := default ∅ (get after "hooks" ≫= as_object) in
  let shipped := as_map shipped_hooks in
  concat ((λ '(event, entries),
    let ours := arr_at shipped event in
    let ours_quoted := quote_entry_commands <$> ours in
    (λ e, format [event; ": ";
                  join " && " (omap command_of (default [] (get e "hooks" ≫= as_array)))]) <$>
      List.filter (λ e, entry_is_ours e && negb (has ours e) && negb (has ours_quoted e))
        (default [] (as_array entries))) <$> map_to_list hooks).
End Merge.
