(* ===== verification/SettingsMergeFacts.v ===== *)
(** * Lemmas on the merge of settings.json

    The document a merge gives and the view an audit takes of it, looked up key by key;
    the entries of an event and the permission strings as plain filters. *)

From Stdlib Require Import Ascii.
From stdpp Require Import base tactics list numbers strings option gmap.
From S2P Require Import Prelude RustStr RustStrFacts JsonValue SettingsMerge.

(** Decides the comparisons of keys the context settles. *)
Ltac decide_keys :=
  repeat match goal with
         | |- context [bool_decide (@eq (list ascii) ?a ?b)] =>
           first [rewrite (bool_decide_eq_true_2 (a = b)) by done
                 |rewrite (bool_decide_eq_false_2 (a = b)) by done]
         end.

(** ** Lists *)

Section Lists.
Context {A : Type}.
Implicit Types (p q : A → bool) (l : list A).

Lemma filter_and p q l : List.filter p (List.filter q l) = List.filter (λ x, q x && p x) l.
Proof.
  induction l as [|x l IH]; [done|]. cbn [List.filter].
  destruct (q x) eqn:Q; cbn [List.filter andb]; by rewrite IH.
Qed.

Lemma filter_agree p q l : (∀ x, x ∈ l → p x = q x) → List.filter p l = List.filter q l.
Proof. intros Hpq. apply List.filter_ext_in. intros x Hx. by apply Hpq, list_elem_of_In. Qed.

Lemma filter_all p l : (∀ x, x ∈ l → p x = true) → List.filter p l = l.
Proof.
  induction l as [|x l IH]; intros Hp; [done|]. cbn [List.filter].
  rewrite (Hp x) by (by left). by rewrite IH by (intros; apply Hp; by right).
Qed.

Lemma filter_none p l : (∀ x, x ∈ l → p x = false) → List.filter p l = [].
Proof.
  induction l as [|x l IH]; intros Hp; [done|]. cbn [List.filter].
  rewrite (Hp x) by (by left). apply IH. intros; apply Hp; by right.
Qed.

Lemma elem_of_filter p l x : x ∈ List.filter p l ↔ x ∈ l ∧ p x = true.
Proof. by rewrite !list_elem_of_In, List.filter_In. Qed.

Lemma elem_of_union_vec `{EqDecision A} l k x : x ∈ union_vec l k ↔ x ∈ l ∨ x ∈ k.
Proof.
  unfold union_vec. revert l. induction k as [|y k IH]; intros l; cbn [fold_left].
  - set_solver.
  - rewrite IH. case_bool_decide; set_solver.
Qed.
End Lists.

Lemma mem_str_iff a b l k : (a ∈ l ↔ b ∈ k) → mem_str a l = mem_str b k.
Proof. intros E. unfold mem_str. by apply bool_decide_ext. Qed.

Section Facts.
Context `{SerdeValue}.

(** A list or a map as a slot of a document: absent where it is empty. *)
Definition list_slot (l : list Value) : option Value :=
  if bool_decide (l = []) then None else Some (VArray l).
Definition map_slot (m : Map) : option Value :=
  if bool_decide (m = ∅) then None else Some (VObject m).

Lemma arr_at_list_slot (m : Map) k l : m !! k = list_slot l → arr_at m k = l.
Proof.
  intros E. unfold arr_at. rewrite E. unfold list_slot.
  case_bool_decide; [by subst|]. cbn. by rewrite as_array_VArray.
Qed.

Lemma obj_at_map_slot (m : Map) k o : m !! k = map_slot o → obj_at m k = o.
Proof.
  intros E. unfold obj_at. rewrite E. unfold map_slot.
  case_bool_decide; [by subst|]. cbn. by rewrite as_object_VObject.
Qed.

Lemma has_true l v : has l v = true ↔ v ∈ l.
Proof. apply bool_decide_eq_true. Qed.
Lemma has_false l v : has l v = false ↔ v ∉ l.
Proof. apply bool_decide_eq_false. Qed.

(** ** Looking up what a slice was set to *)

Lemma lookup_put_map (out m : Map) (k j : str) :
  (if bool_decide (m = ∅) then delete k out else <[k := VObject m]> out) !! j =
  if bool_decide (j = k) then map_slot m else out !! j.
Proof.
  unfold map_slot. repeat case_bool_decide; subst; rewrite ?lookup_delete_eq, ?lookup_insert_eq,
    ?lookup_delete_ne, ?lookup_insert_ne by done; done.
Qed.

Lemma lookup_set_list (key : str) (drop : bool) (new : list Value) (perms : Map) (j : str) :
  set_list key drop new perms !! j =
  if bool_decide (j = key) then (if drop then list_slot new else Some (VArray new))
  else perms !! j.
Proof.
  unfold set_list, list_slot. destruct drop; cbn [andb]; repeat case_bool_decide; subst;
    rewrite ?lookup_delete_eq, ?lookup_insert_eq, ?lookup_delete_ne, ?lookup_insert_ne by done; done.
Qed.

Lemma lookup_strip_list (key : str) (owned : list str) (perms : Map) (j : str) :
  strip_list key owned perms !! j =
  if bool_decide (j = key) then
    match perms !! key ≫= as_array with
    | Some l => list_slot (List.filter (λ v, negb (names_one owned v)) l)
    | None => perms !! key
    end
  else perms !! j.
Proof.
  unfold strip_list. destruct (_ ≫= as_array) eqn:E.
  - rewrite lookup_set_list. done.
  - by case_bool_decide; subst.
Qed.

(** ** Hook entries *)

Lemma lookup_insert_slots (f : str → list Value) (l : list str) (m : Map) (k : str) :
  fold_left (λ acc e, if bool_decide (f e = []) then acc else <[e := VArray (f e)]> acc) l m !! k =
  if bool_decide (k ∈ l) then (match list_slot (f k) with Some v => Some v | None => m !! k end)
  else m !! k.
Proof.
  revert m. induction l as [|e l IH]; intros m; cbn [fold_left].
  - by case_bool_decide as E; [apply elem_of_nil in E|].
  - rewrite IH. unfold list_slot. destruct (decide (k = e)) as [->|Hne].
    + rewrite (bool_decide_eq_true_2 (e ∈ e :: l)) by (by left).
      repeat case_bool_decide; by rewrite ?lookup_insert_eq.
    + assert (Hm : (if bool_decide (f e = []) then m else <[e := VArray (f e)]> m) !! k = m !! k)
        by (destruct (bool_decide (f e = [])); [done|by rewrite lookup_insert_ne]).
      rewrite Hm. by rewrite (bool_decide_ext (k ∈ e :: l) (k ∈ l)) by set_solver.
Qed.

Lemma elem_of_keys (m : Map) (k : str) : k ∈ keys m ↔ is_Some (m !! k).
Proof.
  unfold keys. rewrite list_elem_of_fmap. split.
  - intros ([j v] & -> & Hj%elem_of_map_to_list). by exists v.
  - intros [v Hv]. exists (k, v). split; [done|by apply elem_of_map_to_list].
Qed.

Lemma arr_at_not_key (m : Map) (k : str) : k ∉ keys m → arr_at m k = [].
Proof. rewrite elem_of_keys, <-eq_None_not_Some. unfold arr_at. by intros ->. Qed.

Lemma lookup_new_hooks w theirs ours base k :
  new_hooks w theirs ours base !! k =
  list_slot (merged_entries w (arr_at (o_hooks base) k) (arr_at theirs k) (arr_at ours k)).
Proof.
  unfold new_hooks. rewrite (lookup_insert_slots (λ e, merged_entries w (arr_at (o_hooks base) e)
    (arr_at theirs e) (arr_at ours e))), lookup_empty.
  case_bool_decide as E; [by destruct (list_slot _)|].
  assert ((k ∉ keys theirs) ∧ (k ∉ keys ours)) as [Ht Ho].
  { unfold events in E. rewrite elem_of_app, elem_of_filter in E.
    split; [tauto|]. intros Ho. apply E. destruct (mem_str k (keys theirs)) eqn:M.
    - left. by apply mem_str_spec.
    - by right. }
  rewrite (arr_at_not_key theirs), (arr_at_not_key ours) by done. by destruct w.
Qed.

Lemma lookup_user_hooks (hooks : Map) base k :
  user_hooks hooks base !! k =
  list_slot (user_entries (arr_at (o_hooks base) k) (arr_at hooks k)).
Proof.
  unfold user_hooks. rewrite map_lookup_imap. change (arr_at hooks k) with (default [] (hooks !! k ≫= as_array)).
  destruct (hooks !! k); reflexivity.
Qed.

Lemma arr_at_base_hooks ours k :
  arr_at (base_hooks false ours) k = quote_entry_commands <$> arr_at ours k.
Proof.
  unfold base_hooks, arr_at. rewrite lookup_omap. destruct (ours !! k) as [v|]; [|done]. cbn.
  destruct (as_array v); [|done]. cbn. by rewrite as_array_VArray.
Qed.

Lemma arr_at_union_hooks (a b : Map) k :
  arr_at (union_hooks a b) k = union_vec (arr_at a k) (arr_at b k).
Proof.
  change (arr_at b k) with (default [] (b !! k ≫= as_array)). unfold union_hooks.
  apply (map_fold_weak_ind (λ r m, arr_at r k =
    union_vec (arr_at a k) (default [] (m !! k ≫= as_array)))); [by rewrite lookup_empty|].
  intros e v m r Hm IH. unfold arr_at at 1. destruct (decide (e = k)) as [->|].
  - rewrite !lookup_insert_eq. cbn. rewrite as_array_VArray. cbn. rewrite IH, Hm. done.
  - by rewrite !lookup_insert_ne.
Qed.

(** ** Permission strings *)

Lemma names_one_VString l s : names_one l (VString s) = mem_str s l.
Proof. unfold names_one. by rewrite as_str_VString. Qed.

Lemma elem_of_strings l s : s ∈ strings l ↔ VString s ∈ l.
Proof.
  unfold strings. rewrite list_elem_of_omap. split.
  - intros (v & Hv & E). apply as_str_spec in E. by subst.
  - intros Hv. exists (VString s). by rewrite as_str_VString.
Qed.

Lemma strings_app l k : strings (l ++ k) = strings l ++ strings k.
Proof. apply omap_app. Qed.

Lemma strings_VString l : strings (VString <$> l) = l.
Proof.
  unfold strings. induction l as [|x l IH]; [done|]. cbn. rewrite as_str_VString. cbn.
  by f_equal.
Qed.

Lemma mem_strings l s : existsb (λ v, bool_decide (as_str v = Some s)) l = mem_str s (strings l).
Proof.
  apply eq_true_iff_eq. rewrite existsb_exists, mem_str_spec, elem_of_strings. split.
  - intros (v & Hv & E%bool_decide_eq_true). apply as_str_spec in E. subst.
    by apply list_elem_of_In.
  - intros Hv. exists (VString s). split; [by apply list_elem_of_In|].
    by rewrite as_str_VString, bool_decide_eq_true.
Qed.

Lemma append_missing ours l : NoDup ours →
  fold_left (λ acc p,
    if existsb (λ v, bool_decide (as_str v = Some p)) acc then acc else acc ++ [VString p]) ours l =
  l ++ (VString <$> List.filter (λ p, negb (mem_str p (strings l))) ours).
Proof.
  revert l. induction ours as [|p ours IH]; intros l HN; [by rewrite app_nil_r|].
  apply NoDup_cons in HN as [Hp HN]. cbn [fold_left List.filter]. rewrite mem_strings.
  destruct (mem_str p (strings l)) eqn:M; cbn [negb]; rewrite IH by done; [done|].
  rewrite fmap_cons, <-app_assoc. f_equal. cbn [app]. f_equal. f_equal.
  apply filter_agree. intros q Hq. f_equal. apply mem_str_iff.
  rewrite strings_app. change [VString p] with (VString <$> [p]). rewrite strings_VString.
  set_solver.
Qed.

Lemma mem_deprecated base ours s :
  mem_str s (deprecated base ours) = mem_str s base && negb (mem_str s ours).
Proof.
  apply eq_true_iff_eq. rewrite andb_true_iff, !mem_str_spec. unfold deprecated.
  by rewrite elem_of_filter.
Qed.

Lemma mem_recorded base ours theirs s :
  mem_str s (recorded base ours theirs) =
  mem_str s ours && (mem_str s base || negb (mem_str s theirs)).
Proof.
  apply eq_true_iff_eq. rewrite andb_true_iff, !mem_str_spec. unfold recorded.
  by rewrite elem_of_filter.
Qed.

(** Theirs in their order without what is deprecated, then what is missing. *)
Lemma merged_strings_eq base ours theirs : NoDup ours →
  merged_strings base ours theirs =
  List.filter (λ v, negb (names_one (deprecated base ours) v)) theirs ++
  (VString <$> List.filter (λ p, negb (mem_str p (strings theirs))) ours).
Proof.
  intros HN. unfold merged_strings. rewrite append_missing by done. do 2 f_equal.
  apply filter_agree. intros p Hp. f_equal. apply mem_str_iff.
  rewrite !elem_of_strings, elem_of_filter, names_one_VString, mem_deprecated.
  rewrite (proj2 (mem_str_spec p ours) Hp), andb_false_r. naive_solver.
Qed.

(** The strings left when a record is stripped do not depend on the merge. *)
Lemma strip_merged_strings base ours theirs : NoDup ours →
  List.filter (λ v, negb (names_one (recorded base ours (strings theirs)) v))
    (merged_strings base ours theirs) =
  List.filter (λ v, negb (names_one (union_vec base (recorded base ours (strings theirs))) v))
    theirs.
Proof.
  intros HN. rewrite merged_strings_eq by done. rewrite List.filter_app, filter_and.
  rewrite (filter_none _ (VString <$> _)), app_nil_r.
  - apply filter_agree. intros v Hv. unfold names_one. destruct (as_str v) as [s|] eqn:E; [|done].
    apply as_str_spec in E as ->. rewrite <-elem_of_strings, <-mem_str_spec in Hv.
    assert (U : mem_str s (union_vec base (recorded base ours (strings theirs))) =
      mem_str s base || mem_str s (recorded base ours (strings theirs))).
    { apply eq_true_iff_eq. rewrite orb_true_iff, !mem_str_spec. apply elem_of_union_vec. }
    rewrite U, mem_deprecated, mem_recorded, Hv.
    by destruct (mem_str s base), (mem_str s ours).
  - intros v (p & -> & [Hp Hm]%elem_of_filter)%list_elem_of_fmap.
    rewrite names_one_VString, mem_recorded, (proj2 (mem_str_spec p ours) Hp), Hm.
    by rewrite orb_true_r.
Qed.

(** ** A merge over a merge *)

Lemma merged_entries_again (base theirs ours ours' : list Value) :
  (∀ e, e ∈ ours → (entry_is_ours e = true ∧ entry_is_ours (quote_entry_commands e) = true) ∨
                   e ∈ ours') →
  merged_entries false (quote_entry_commands <$> ours) (merged_entries false base theirs ours) ours'
  = merged_entries false base theirs ours'.
Proof.
  intros Hours. unfold merged_entries. f_equal. rewrite List.filter_app, filter_and.
  rewrite (filter_none _ (quote_entry_commands <$> ours)), app_nil_r.
  2: { intros e He. by rewrite (proj2 (has_true _ _) He). }
  apply filter_agree. intros e _. set (q := quote_entry_commands <$> ours).
  set (q' := quote_entry_commands <$> ours').
  assert (Ho : has ours e = true → entry_is_ours e = true ∨ has ours' e = true).
  { rewrite !has_true. intros He. destruct (Hours _ He); tauto. }
  assert (Hq : has q e = true → entry_is_ours e = true ∨ has q' e = true).
  { rewrite !has_true. intros (x & -> & Hx)%list_elem_of_fmap.
    destruct (Hours _ Hx) as [[_ H1]|H1]; [by left|right]. by apply list_elem_of_fmap_2. }
  destruct (has base e), (has ours e), (has q e), (entry_is_ours e), (has ours' e), (has q' e);
    cbn; try done; naive_solver.
Qed.

Lemma mem_filter (f : str → bool) l s : mem_str s (List.filter f l) = mem_str s l && f s.
Proof. apply eq_true_iff_eq. by rewrite andb_true_iff, !mem_str_spec, elem_of_filter. Qed.

Lemma mem_merged_strings base ours theirs s : NoDup ours →
  mem_str s (strings (merged_strings base ours theirs)) =
  mem_str s (strings theirs) && negb (mem_str s base) || mem_str s ours.
Proof.
  intros HN. rewrite merged_strings_eq, strings_app, strings_VString by done.
  apply eq_true_iff_eq. rewrite mem_str_spec, elem_of_app, elem_of_strings, !elem_of_filter,
    names_one_VString, mem_deprecated, <-elem_of_strings, <-!mem_str_spec.
  destruct (mem_str s (strings theirs)), (mem_str s base), (mem_str s ours); cbn; naive_solver.
Qed.

Lemma filter_VString (f : Value → bool) l :
  List.filter f (VString <$> l) = VString <$> List.filter (λ s, f (VString s)) l.
Proof.
  induction l as [|s l IH]; [done|]. rewrite fmap_cons. cbn [List.filter].
  destruct (f (VString s)); [rewrite fmap_cons|]; by rewrite IH.
Qed.

(** Merging a part of [ours] over a merge of [ours] is merging that part. *)
Lemma merged_strings_again base ours (f : str → bool) theirs : NoDup ours →
  merged_strings (recorded base ours (strings theirs)) (List.filter f ours)
    (merged_strings base ours theirs)
  = merged_strings base (List.filter f ours) theirs.
Proof.
  intros HN. assert (HN' : NoDup (List.filter f ours)).
  { apply NoDup_ListNoDup, List.NoDup_filter. by apply NoDup_ListNoDup. }
  rewrite (merged_strings_eq (recorded _ _ _)), (merged_strings_eq base (List.filter f ours)) by done.
  rewrite (filter_none _ (List.filter f ours)), fmap_nil, app_nil_r; cycle 1.
  { intros p Hp. rewrite mem_merged_strings by done. apply mem_str_spec in Hp.
    rewrite mem_filter in Hp. apply andb_true_iff in Hp as [-> _]. by rewrite orb_true_r. }
  rewrite (merged_strings_eq base ours), List.filter_app, filter_and, filter_VString by done.
  f_equal; [|f_equal].
  - apply filter_agree. intros v Hv. unfold names_one. destruct (as_str v) as [s|] eqn:E; [|done].
    apply as_str_spec in E as ->. rewrite <-elem_of_strings, <-mem_str_spec in Hv.
    rewrite !mem_deprecated, mem_recorded, mem_filter, Hv.
    by destruct (mem_str s base), (mem_str s ours), (f s).
  - rewrite !filter_and. apply filter_agree. intros p Hp%mem_str_spec.
    rewrite names_one_VString, mem_deprecated, mem_recorded, mem_filter, Hp.
    by destruct (mem_str p base), (mem_str p (strings theirs)), (f p).
Qed.

Lemma recorded_again base ours (f : str → bool) theirs : NoDup ours →
  recorded (recorded base ours (strings theirs)) (List.filter f ours)
    (strings (merged_strings base ours theirs))
  = recorded base (List.filter f ours) (strings theirs).
Proof.
  intros HN. unfold recorded at 1 3. apply filter_agree. intros p Hp%mem_str_spec.
  rewrite mem_filter in Hp. apply andb_true_iff in Hp as [Hp _].
  rewrite mem_merged_strings, mem_recorded, Hp by done.
  by destruct (mem_str p base), (mem_str p (strings theirs)).
Qed.
End Facts.


Lemma WAYS_PERMS_NoDup : NoDup WAYS_PERMS.
Proof. by apply (bool_decide_eq_true_1 _). Qed.
Lemma WAYS_DENY_NoDup : NoDup WAYS_DENY.
Proof. by apply (bool_decide_eq_true_1 _). Qed.

(** ** The document after a merge *)

Section Document.
Context `{SerdeValue}.

Definition ours_perms (w : bool) : list str := if w then [] else WAYS_PERMS.
Definition ours_deny (deny w : bool) : list str := if deny && negb w then WAYS_DENY else [].

(** The permissions object after a merge, from the one before. *)
Definition perms_after (deny w : bool) (base : Owned) (perms : Map) : Map :=
  set_list "deny" true (merged_strings (o_deny base) (ours_deny deny w) (arr_at perms "deny"))
    (set_list "allow" w (merged_strings (o_perms base) (ours_perms w) (arr_at perms "allow"))
       perms).

(** What a merge makes of the theme slot. *)
Definition only_theme (slot : option Value) : Map := partial_alter (λ _, slot) "theme" ∅.
Definition theme_after (want : bool) (base : Owned) (slot : option Value) : option Value :=
  fst (merged_theme want (slot ≫= as_str) base (only_theme slot)) !! "theme".

(** The slots of the document after a merge. *)
Definition slot_after (live d : Value) (base : Owned) (deny want w : bool) (k : str)
    : option Value :=
  let out := as_map live in
  if bool_decide (k = "hooks") then
    map_slot (new_hooks w (obj_at out "hooks") (as_map d) base)
  else if bool_decide (k = "permissions") then
    let perms := perms_after deny w base (obj_at out "permissions") in
    if w then map_slot perms else Some (VObject perms)
  else if bool_decide (k = "theme") then theme_after (want && negb w) base (out !! "theme")
  else out !! k.

Lemma merged_theme_other (want : bool) (theirs : option str) (base : Owned) (out : Map) (k : str) : k ≠ "theme" →
  fst (merged_theme want theirs base out) !! k = out !! k.
Proof.
  intros Hk. unfold merged_theme.
  repeat case_match; cbn [fst]; by rewrite ?lookup_insert_ne, ?lookup_delete_ne.
Qed.

(** The theme's slot and record depend on the document's theme only. *)
Lemma merged_theme_local (want : bool) (theirs : option str) (base : Owned) (out out' : Map) :
  out !! "theme" = out' !! "theme" →
  fst (merged_theme want theirs base out) !! "theme" =
  fst (merged_theme want theirs base out') !! "theme" ∧
  snd (merged_theme want theirs base out) = snd (merged_theme want theirs base out').
Proof.
  intros E. unfold merged_theme.
  repeat case_match; cbn [fst snd]; rewrite ?lookup_insert_eq, ?lookup_delete_eq; done.
Qed.

Lemma get_as_map (v : Value) (k : str) : get v k = as_map v !! k.
Proof. unfold get, as_map. destruct (as_object v); cbn; [done|by rewrite lookup_empty]. Qed.

Lemma as_map_VObject (m : Map) : as_map (VObject m) = m.
Proof. unfold as_map. by rewrite as_object_VObject. Qed.

Lemma lookup_only_theme (slot : option Value) : only_theme slot !! "theme" = slot.
Proof. apply lookup_partial_alter_eq. Qed.

Lemma obj_at_put_map (out m : Map) (j k : str) : j ≠ k →
  obj_at (if bool_decide (m = ∅) then delete k out else <[k := VObject m]> out) j = obj_at out j.
Proof. intros Hj. unfold obj_at. by rewrite lookup_put_map, bool_decide_eq_false_2. Qed.

Lemma arr_at_set_list (key : str) (drop : bool) (new : list Value) (perms : Map) (j : str) : j ≠ key →
  arr_at (set_list key drop new perms) j = arr_at perms j.
Proof. intros Hj. unfold arr_at. by rewrite lookup_set_list, bool_decide_eq_false_2. Qed.

Lemma merge_impl_get (live d : Value) (base : Owned) (deny want w : bool) (k : str) :
  get (m_settings (merge_impl live d base deny want w)) k = slot_after live d base deny want w k.
Proof.
  rewrite get_as_map. unfold merge_impl, slot_after.
  rewrite obj_at_put_map, arr_at_set_list by done.
  fold (ours_perms w) (ours_deny deny w). fold (perms_after deny w base (obj_at (as_map live) "permissions")).
  set (hs := new_hooks _ _ _ _). set (ps := perms_after _ _ _ _).
  destruct (merged_theme _ _ _ _) as [out [t pt]] eqn:E. cbn [m_settings].
  rewrite as_map_VObject. change out with (fst (out, (t, pt))). rewrite <-E.
  destruct (decide (k = "theme")) as [->|Hk].
  - decide_keys. unfold theme_after. rewrite get_as_map. apply merged_theme_local.
    rewrite lookup_only_theme. destruct (w && _); rewrite ?lookup_delete_ne, ?lookup_insert_ne,
      lookup_put_map by done; by decide_keys.
  - rewrite merged_theme_other by done. decide_keys.
    destruct (decide (k = "permissions")) as [->|Hp].
    + decide_keys. destruct w; cbn [andb]; [|by rewrite lookup_insert_eq]. unfold map_slot.
      case_bool_decide; by rewrite ?lookup_delete_eq, ?lookup_insert_eq.
    + decide_keys. rewrite <-lookup_put_map. destruct (w && _); by rewrite ?lookup_delete_ne, ?lookup_insert_ne.
Qed.

(** The record after a merge. *)
Lemma merge_impl_base (live d : Value) (base : Owned) (deny want w : bool) :
  m_base (merge_impl live d base deny want w) = {|
    o_hooks := base_hooks w (as_map d);
    o_perms := recorded (o_perms base) (ours_perms w)
                 (strings (arr_at (obj_at (as_map live) "permissions") "allow"));
    o_deny := recorded (o_deny base) (ours_deny deny w)
                (strings (arr_at (obj_at (as_map live) "permissions") "deny"));
    o_theme := fst (snd (merged_theme (want && negb w) (get live "theme" ≫= as_str) base ∅));
    o_prior_theme := snd (snd (merged_theme (want && negb w) (get live "theme" ≫= as_str) base ∅));
  |}.
Proof.
  unfold merge_impl. rewrite obj_at_put_map, arr_at_set_list by done.
  destruct (merged_theme (want && negb w) _ base) as [out [t pt]] eqn:E. cbn [m_base].
  assert (Hs : snd (merged_theme (want && negb w) (get live "theme" ≫= as_str) base ∅) = (t, pt)).
  { change (t, pt) with (snd (out, (t, pt))). rewrite <-E.
    unfold merged_theme; repeat case_match; done. }
  by rewrite Hs.
Qed.

(** A merge always gives an object, determined by its slots. *)
Lemma merge_impl_object (live d : Value) (base : Owned) (deny want w : bool) :
  m_settings (merge_impl live d base deny want w) =
  VObject (as_map (m_settings (merge_impl live d base deny want w))).
Proof.
  unfold merge_impl. destruct (merged_theme _ _ _ _) as [out [t pt]]. cbn [m_settings].
  by rewrite as_map_VObject.
Qed.

Lemma merge_impl_ext (live d : Value) (base : Owned) (deny want w : bool) (v : Value) :
  (∀ k, slot_after live d base deny want w k = get v k) → v = VObject (as_map v) →
  m_settings (merge_impl live d base deny want w) = v.
Proof.
  intros E Hv. rewrite merge_impl_object, Hv. f_equal. apply map_eq. intros k.
  by rewrite <-!get_as_map, merge_impl_get.
Qed.

(** ** The user's view, slot by slot *)

Definition hooks_view (base : Owned) (slot : option Value) : option Value :=
  match slot ≫= as_object with Some m => map_slot (user_hooks m base) | None => slot end.

Definition strip_both (base : Owned) (perms : Map) : Map :=
  strip_list "deny" (o_deny base) (strip_list "allow" (o_perms base) perms).

Definition perms_view (base : Owned) (slot : option Value) : option Value :=
  match slot ≫= as_object with Some m => map_slot (strip_both base m) | None => slot end.

Definition slot_view (base : Owned) (k : str) (slot : option Value) : option Value :=
  if bool_decide (k = "hooks") then hooks_view base slot
  else if bool_decide (k = "permissions") then perms_view base slot
  else if bool_decide (k = "theme") && bool_decide (o_theme base ≠ None) then None
  else slot.

Lemma lookup_strip_hooks (base : Owned) (obj : Map) (k : str) :
  strip_hooks base obj !! k =
  if bool_decide (k = "hooks") then hooks_view base (obj !! "hooks") else obj !! k.
Proof.
  unfold strip_hooks, hooks_view. destruct (_ ≫= as_object); [apply lookup_put_map|].
  by case_bool_decide; subst.
Qed.

Lemma lookup_strip_perms (base : Owned) (obj : Map) (k : str) :
  strip_perms base obj !! k =
  if bool_decide (k = "permissions") then perms_view base (obj !! "permissions") else obj !! k.
Proof.
  unfold strip_perms, perms_view. destruct (_ ≫= as_object); [apply lookup_put_map|].
  by case_bool_decide; subst.
Qed.

Lemma view_get (v : Value) (base : Owned) (k : str) :
  get (stripped_user_view v base) k = slot_view base k (get v k).
Proof.
  unfold stripped_user_view, slot_view. rewrite get_VObject, get_as_map.
  assert (E : strip_perms base (strip_hooks base (as_map v)) !! k =
    if bool_decide (k = "hooks") then hooks_view base (as_map v !! k)
    else if bool_decide (k = "permissions") then perms_view base (as_map v !! k)
    else as_map v !! k).
  { rewrite lookup_strip_perms. repeat case_bool_decide; subst; try done.
    all: rewrite lookup_strip_hooks; by decide_keys. }
  destruct (o_theme base) eqn:T.
  - destruct (decide (k = "theme")) as [->|Hk].
    + rewrite lookup_delete_eq. decide_keys. by rewrite bool_decide_eq_true_2.
    + rewrite lookup_delete_ne, E by done. by decide_keys.
  - rewrite (bool_decide_eq_false_2 (None ≠ None)) by naive_solver.
    rewrite andb_false_r. rewrite E. by repeat case_bool_decide.
Qed.

(** Two views are equal when they agree slot by slot. *)
Lemma view_eq (v v' : Value) (base base' : Owned) :
  stripped_user_view v base = stripped_user_view v' base' ↔
  ∀ k, slot_view base k (get v k) = slot_view base' k (get v' k).
Proof.
  split.
  - intros E k. by rewrite <-!view_get, E.
  - intros E. unfold stripped_user_view. f_equal. apply map_eq. intros k.
    specialize (E k). rewrite <-!view_get in E. unfold stripped_user_view in E.
    by rewrite !get_VObject in E.
Qed.
End Document.
