(* ===== verification/SettingsAudit.v ===== *)
(** * The audit of a merge of settings.json, slot by slot, and the shipped hooks

    The shapes of a settings file the merge reads, and the comparison of the user's view
    before and after a merge as a comparison of the hooks, the permissions and the
    theme. At the end the hooks of the repository's [settings.json], as a document of the
    [json] instance: what a merge is given as the desired hooks. *)

From Stdlib Require Import Ascii ZArith.
From stdpp Require Import base tactics list numbers strings option gmap.
From S2P Require Import Prelude RustStr RustStrFacts JsonValue SettingsMerge SettingsMergeFacts.

(** ** The shapes a merge reads *)

Section Shapes.
Context `{SerdeValue}.

Definition array_or_absent (o : option Value) : bool :=
  match o with Some v => bool_decide (as_array v ≠ None) | None => true end.
Definition object_or_absent (o : option Value) : bool :=
  match o with Some v => bool_decide (as_object v ≠ None) | None => true end.

(** The hooks and the permissions are objects, and the two lists arrays, where present. *)
Definition settings_wf (live : Value) : bool :=
  object_or_absent (get live "hooks") && object_or_absent (get live "permissions") &&
  array_or_absent (obj_at (as_map live) "permissions" !! "allow") &&
  array_or_absent (obj_at (as_map live) "permissions" !! "deny").

(** Every hook entry of the document is one agent-ways ships, by its shape. *)
Definition all_ours (hooks : Value) : Prop :=
  map_Forall (λ _ v, Forall (λ e, entry_is_ours e = true) (default [] (as_array v))) (as_map hooks).

Lemma all_ours_entry hooks k e : all_ours hooks → e ∈ arr_at (as_map hooks) k → entry_is_ours e = true.
Proof.
  intros Hall. unfold arr_at. destruct (as_map hooks !! k) as [v|] eqn:E; [|set_solver]. cbn.
  intros He. apply (map_Forall_lookup_1 _ _ _ _ Hall) in E.
  rewrite Forall_forall in E. by apply E.
Qed.

Lemma object_absent_cases (o : option Value) :
  (∃ m, object_or_absent o = true ∧ o ≫= as_object = Some m ∧ o = Some (VObject m)) ∨
  (object_or_absent o = true ∧ o = None) ∨
  (∃ v, object_or_absent o = false ∧ as_object v = None ∧ o = Some v).
Proof.
  destruct o as [v|]; cbn; [|by auto]. destruct (as_object v) as [m|] eqn:E.
  - left. exists m. rewrite bool_decide_eq_true_2 by done. apply as_object_spec in E as E'. by subst.
  - right; right. exists v. by rewrite bool_decide_eq_false_2 by naive_solver.
Qed.

Lemma array_absent_cases (o : option Value) :
  (∃ l, array_or_absent o = true ∧ o = Some (VArray l)) ∨ (array_or_absent o = true ∧ o = None) ∨
  (∃ v, array_or_absent o = false ∧ as_array v = None ∧ o = Some v).
Proof.
  destruct o as [v|]; cbn; [|by auto]. destruct (as_array v) as [m|] eqn:E.
  - left. exists m. rewrite bool_decide_eq_true_2 by done. apply as_array_spec in E as E'. by subst.
  - right; right. exists v. by rewrite bool_decide_eq_false_2 by naive_solver.
Qed.

Lemma map_slot_not_other (m : Map) (v : Value) : as_object v = None → map_slot m ≠ Some v.
Proof.
  unfold map_slot. intros Hv. case_bool_decide; [done|]. intros [= <-].
  by rewrite as_object_VObject in Hv.
Qed.

Lemma list_slot_not_other (l : list Value) (v : Value) : as_array v = None → list_slot l ≠ Some v.
Proof.
  unfold list_slot. intros Hv. case_bool_decide; [done|]. intros [= <-].
  by rewrite as_array_VArray in Hv.
Qed.

Lemma map_slot_inj (m m' : Map) : map_slot m = map_slot m' ↔ m = m'.
Proof.
  unfold map_slot. split; [|by intros ->]. repeat case_bool_decide; subst; try done.
  by intros [= ->%(inj VObject)].
Qed.

(** ** The slots of an audit *)

Lemma hooks_view_map_slot (base : Owned) (m : Map) :
  hooks_view base (map_slot m) = map_slot (user_hooks m base).
Proof.
  unfold hooks_view, map_slot at 1. case_bool_decide as E; cbn; [|by rewrite as_object_VObject].
  subst. unfold map_slot. by rewrite bool_decide_eq_true_2.
Qed.

(** What [strip_list] makes of the list's slot. *)
Definition strings_view (owned : list str) (slot : option Value) : option Value :=
  match slot ≫= as_array with
  | Some l => list_slot (List.filter (λ v, negb (names_one owned v)) l)
  | None => slot
  end.

Lemma strings_view_list_slot (owned : list str) (l : list Value) :
  strings_view owned (list_slot l) = list_slot (List.filter (λ v, negb (names_one owned v)) l).
Proof.
  unfold strings_view, list_slot at 1. case_bool_decide; cbn; [by subst|by rewrite as_array_VArray].
Qed.

Lemma strings_view_array (owned : list str) (l : list Value) :
  strings_view owned (Some (VArray l)) = list_slot (List.filter (λ v, negb (names_one owned v)) l).
Proof. unfold strings_view. cbn. by rewrite as_array_VArray. Qed.

Lemma lookup_strip_both (base : Owned) (perms : Map) (k : str) :
  strip_both base perms !! k =
  if bool_decide (k = "deny") then strings_view (o_deny base) (perms !! "deny")
  else if bool_decide (k = "allow") then strings_view (o_perms base) (perms !! "allow")
  else perms !! k.
Proof.
  unfold strip_both, strings_view. rewrite lookup_strip_list.
  case_bool_decide; subst; rewrite !lookup_strip_list; by decide_keys.
Qed.

Lemma perms_view_object (base : Owned) (m : Map) :
  perms_view base (Some (VObject m)) = map_slot (strip_both base m).
Proof. unfold perms_view. cbn. by rewrite as_object_VObject. Qed.

Lemma strip_both_empty (base : Owned) : strip_both base ∅ = ∅.
Proof.
  apply map_eq. intros k. rewrite lookup_strip_both, !lookup_empty. by repeat case_bool_decide.
Qed.

Lemma perms_view_map_slot (base : Owned) (m : Map) :
  perms_view base (map_slot m) = map_slot (strip_both base m).
Proof.
  unfold map_slot at 1. case_bool_decide; [|apply perms_view_object]. subst.
  rewrite strip_both_empty. unfold map_slot. by rewrite bool_decide_eq_true_2.
Qed.

Lemma theme_stripped_same (o : Owned) (b : bool) :
  o_hooks (theme_stripped o b) = o_hooks o ∧ o_perms (theme_stripped o b) = o_perms o ∧
  o_deny (theme_stripped o b) = o_deny o ∧
  o_theme (theme_stripped o b) = if b then Some WAYS_THEME else o_theme o.
Proof. by destruct b. Qed.

(** The views of a slot depend on one field of the record each. *)
Lemma hooks_view_field (o o' : Owned) (slot : option Value) :
  o_hooks o = o_hooks o' → hooks_view o slot = hooks_view o' slot.
Proof. intros E. unfold hooks_view, user_hooks. by rewrite E. Qed.
Lemma perms_view_field (o o' : Owned) (slot : option Value) :
  o_perms o = o_perms o' → o_deny o = o_deny o' → perms_view o slot = perms_view o' slot.
Proof. intros E E'. unfold perms_view, strip_both. by rewrite E, E'. Qed.

(** An audit is the comparison of the slots of the two documents. *)
Lemma audit_slots (v v' : Value) (o o' : Owned) (b : bool) :
  (∀ k, k ≠ "hooks" → k ≠ "permissions" → k ≠ "theme" → get v k = get v' k) →
  stripped_user_view v (theme_stripped o b) = stripped_user_view v' (theme_stripped o' b) ↔
  hooks_view o (get v "hooks") = hooks_view o' (get v' "hooks") ∧
  perms_view o (get v "permissions") = perms_view o' (get v' "permissions") ∧
  (b = false → match o_theme o with Some _ => None | None => get v "theme" end =
               match o_theme o' with Some _ => None | None => get v' "theme" end).
Proof.
  intros Hother. rewrite view_eq. unfold slot_view.
  destruct (theme_stripped_same o b) as (Eh & Ep & Ed & Et).
  destruct (theme_stripped_same o' b) as (Eh' & Ep' & Ed' & Et').
  assert (Hh := λ s, hooks_view_field _ _ s Eh). assert (Hh' := λ s, hooks_view_field _ _ s Eh').
  assert (Hp := λ s, perms_view_field _ _ s Ep Ed).
  assert (Hp' := λ s, perms_view_field _ _ s Ep' Ed').
  split.
  - intros E. pose proof (E "hooks") as E1. pose proof (E "permissions") as E2.
    specialize (E "theme"). revert E1 E2 E. decide_keys. rewrite Hh, Hh', Hp, Hp', Et, Et'.
    cbn [andb]. intros E1 E2 E3. repeat split; [done..|]. intros ->.
    destruct (o_theme o), (o_theme o'); exact E3.
  - intros (E1 & E2 & E3) k. case_bool_decide as K1; [subst; by rewrite Hh, Hh'|].
    case_bool_decide as K2; [subst; by rewrite Hp, Hp'|].
    rewrite Et, Et'. case_bool_decide as K3; cbn [andb]; [|by apply Hother]. subst k.
    destruct b; [done|]. specialize (E3 eq_refl).
    destruct (o_theme o), (o_theme o'); exact E3.
Qed.

(** ** The entries and strings an audit compares *)

Lemma user_entries_merged (base ours theirs : list Value) :
  (∀ e, e ∈ ours → entry_is_ours e = true) →
  user_entries (quote_entry_commands <$> ours) (merged_entries false base theirs ours) =
  user_entries (union_vec base (quote_entry_commands <$> ours)) theirs.
Proof.
  intros Hours. unfold user_entries, merged_entries. rewrite List.filter_app, filter_and.
  rewrite (filter_none _ (quote_entry_commands <$> ours)), app_nil_r.
  - apply filter_agree. intros e _.
    assert (U : has (union_vec base (quote_entry_commands <$> ours)) e =
      has base e || has (quote_entry_commands <$> ours) e).
    { apply eq_true_iff_eq. rewrite orb_true_iff, !has_true. apply elem_of_union_vec. }
    rewrite U. set (q := has (quote_entry_commands <$> ours) e).
    destruct (has ours e) eqn:Ho.
    + rewrite (Hours e) by (by apply has_true). by destruct (has base e), q.
    + by destruct (has base e), q, (entry_is_ours e).
  - intros e He. by rewrite (proj2 (has_true _ _) He).
Qed.

Lemma user_hooks_merged (theirs ours : Map) (base new old : Owned) :
  (∀ k e, e ∈ arr_at ours k → entry_is_ours e = true) →
  o_hooks new = base_hooks false ours → o_hooks old = union_hooks (o_hooks base) (o_hooks new) →
  user_hooks (new_hooks false theirs ours base) new = user_hooks theirs old.
Proof.
  intros Hours En Eo. apply map_eq. intros k. rewrite !lookup_user_hooks. f_equal.
  rewrite (arr_at_list_slot _ _ _ (lookup_new_hooks _ _ _ _ _)), Eo, En, arr_at_union_hooks,
    arr_at_base_hooks.
  apply user_entries_merged, Hours.
Qed.

(** A list of the permissions is compared as it is where the merge reads it, and differs
    where the merge does not. *)
Lemma strings_audit (base ours : list str) (slot after : option Value) : NoDup ours →
  let new := recorded base ours (strings (default [] (slot ≫= as_array))) in
  let l := merged_strings base ours (default [] (slot ≫= as_array)) in
  after = list_slot l ∨ after = Some (VArray l) →
  strings_view (union_vec base new) slot = strings_view new after ↔ array_or_absent slot = true.
Proof.
  intros HN new l Hafter.
  assert (Ha : strings_view new after = list_slot (List.filter (λ v, negb (names_one new v)) l)).
  { destruct Hafter as [-> | ->]; [apply strings_view_list_slot|apply strings_view_array]. }
  rewrite Ha. subst l new. rewrite strip_merged_strings by done.
  destruct (array_absent_cases slot) as [(l & -> & ->)|[[-> ->]|(v & -> & Hv & ->)]].
  - cbn. by rewrite as_array_VArray, strings_view_array.
  - done.
  - split; [|done]. intros E. exfalso. unfold strings_view in E. cbn in E. rewrite Hv in E.
    by eapply list_slot_not_other; [exact Hv|symmetry].
Qed.

Lemma hooks_audit (base new old : Owned) (d : Value) (slot : option Value) :
  all_ours d → o_hooks new = base_hooks false (as_map d) →
  o_hooks old = union_hooks (o_hooks base) (o_hooks new) →
  let theirs := default ∅ (slot ≫= as_object) in
  hooks_view old slot = hooks_view new (map_slot (new_hooks false theirs (as_map d) base)) ↔
  object_or_absent slot = true.
Proof.
  intros Hd En Eo theirs. rewrite hooks_view_map_slot.
  rewrite (user_hooks_merged _ _ _ _ old) by (done || intros; by eapply all_ours_entry).
  subst theirs. destruct (object_absent_cases slot) as [(m & -> & E & ->)|[[-> ->]|(v & -> & Hv & ->)]].
  - rewrite E. cbn [default id]. unfold hooks_view. by rewrite E.
  - done.
  - split; [|done]. intros E. exfalso. unfold hooks_view in E. cbn in E. rewrite Hv in E.
    by eapply map_slot_not_other; [exact Hv|symmetry].
Qed.

Lemma ours_NoDup (deny w : bool) : NoDup (ours_perms w) ∧ NoDup (ours_deny deny w).
Proof.
  destruct deny, w; cbn;
    (split; first [apply WAYS_PERMS_NoDup|apply WAYS_DENY_NoDup|by apply NoDup_nil_2]).
Qed.

Lemma perms_audit (deny w : bool) (base new old : Owned) (slot : option Value) :
  let p := default ∅ (slot ≫= as_object) in
  let after := perms_after deny w base p in
  o_perms new = recorded (o_perms base) (ours_perms w) (strings (arr_at p "allow")) →
  o_deny new = recorded (o_deny base) (ours_deny deny w) (strings (arr_at p "deny")) →
  o_perms old = union_vec (o_perms base) (o_perms new) →
  o_deny old = union_vec (o_deny base) (o_deny new) →
  perms_view old slot = perms_view new (if w then map_slot after else Some (VObject after)) ↔
  object_or_absent slot && array_or_absent (p !! "allow") && array_or_absent (p !! "deny") = true.
Proof.
  intros p after Ep Ed Eop Eod. destruct (ours_NoDup deny w) as [HNp HN].
  assert (Hafter : perms_view new (if w then map_slot after else Some (VObject after)) =
    map_slot (strip_both new after)).
  { destruct w; [apply perms_view_map_slot|apply perms_view_object]. }
  rewrite Hafter. clear Hafter.
  set (la := merged_strings (o_perms base) (ours_perms w) (arr_at p "allow")).
  assert (Ha := strings_audit (o_perms base) (ours_perms w) (p !! "allow")
    (if w then list_slot la else Some (VArray la)) HNp).
  assert (Hb := strings_audit (o_deny base) (ours_deny deny w) (p !! "deny")
    (list_slot (merged_strings (o_deny base) (ours_deny deny w) (arr_at p "deny"))) HN
    (or_introl eq_refl)).
  cbv zeta in Ha. fold (arr_at p "allow") in Ha. fold la in Ha.
  specialize (Ha ltac:(destruct w; auto)). fold (arr_at p "deny") in Hb.
  rewrite <-Ep, <-Eop in Ha. rewrite <-Ed, <-Eod in Hb.
  assert (Hs : strip_both old p = strip_both new after ↔
    array_or_absent (p !! "allow") && array_or_absent (p !! "deny") = true).
  { rewrite andb_true_iff, <-Ha, <-Hb. split.
    - intros E. split; [apply (f_equal (.!! "allow")) in E|apply (f_equal (.!! "deny")) in E];
        revert E; rewrite !lookup_strip_both; unfold after, perms_after; rewrite !lookup_set_list;
        by decide_keys.
    - intros [E1 E2]. apply map_eq. intros k. rewrite !lookup_strip_both.
      unfold after, perms_after. rewrite !lookup_set_list.
      repeat case_bool_decide; subst; try done; decide_keys; done. }
  destruct (object_absent_cases slot) as [(m & -> & E & ->)|[[-> ->]|(v & -> & Hv & ->)]].
  - cbn [andb]. rewrite <-Hs, perms_view_object, map_slot_inj. subst p after. rewrite E. done.
  - cbn [andb]. rewrite <-Hs. change (perms_view old None) with (@None Value).
    rewrite <-(map_slot_inj (strip_both old p)). subst p. cbn [mbind option_bind default].
    rewrite strip_both_empty. done.
  - split; [|done]. intros E. exfalso. unfold perms_view in E. cbn in E. rewrite Hv in E.
    by eapply map_slot_not_other; [exact Hv|symmetry].
Qed.
End Shapes.

#[local] Existing Instance json_value.
#[local] Open Scope Z_scope.

Definition obj (l : list (str * json)) : Value := JObject (list_to_map l).

(** A command of a hook entry with its other members, and an entry. *)
Definition cmd (command : str) (rest : list (str * json)) : Value :=
  obj (("type", JString "command") :: ("command", JString command) :: rest).
Definition entry (matcher : option str) (hooks : list json) : Value :=
  obj (match matcher with Some m => [("matcher", JString m)] | None => [] end ++
       [("hooks", JArray hooks)]).

Definition shipped_hooks : Value := obj
  [("SessionStart", JArray [
    entry (Some "startup") [cmd "${HOME}/.claude/hooks/ways/check-setup.sh" [("timeout", JNumber 30)];
      cmd "${HOME}/.claude/hooks/ways/clear-markers.sh" [("timeout", JNumber 10)];
      cmd "${HOME}/.claude/hooks/check-config-updates.sh" [("timeout", JNumber 30)];
      cmd "${HOME}/.claude/hooks/ways/check-state.sh" [("timeout", JNumber 30)];
      cmd "${HOME}/.claude/bin/ways init" [("timeout", JNumber 10)];
      cmd "${HOME}/.claude/bin/ways corpus --if-stale --quiet" [("timeout", JNumber 300)];
      cmd "${HOME}/.claude/hooks/ways/issues-pull.sh session-start" [("timeout", JNumber 30)]];
    entry (Some "compact") [cmd "${HOME}/.claude/hooks/ways/clear-markers.sh" [("timeout", JNumber 10)];
      cmd "${HOME}/.claude/hooks/ways/check-state.sh" [("timeout", JNumber 30)];
      cmd "${HOME}/.claude/hooks/ways/issues-pull.sh session-start" [("timeout", JNumber 30)]];
    entry (Some "resume") [cmd "${HOME}/.claude/hooks/ways/check-state.sh" [("timeout", JNumber 30)];
      cmd "${HOME}/.claude/hooks/ways/issues-pull.sh session-start" [("timeout", JNumber 30)]];
    entry (Some "clear") [cmd "${HOME}/.claude/hooks/ways/clear-markers.sh" [("timeout", JNumber 10)];
      cmd "${HOME}/.claude/hooks/ways/check-state.sh" [("timeout", JNumber 30)];
      cmd "${HOME}/.claude/bin/ways init" [("timeout", JNumber 10)];
      cmd "${HOME}/.claude/hooks/ways/issues-pull.sh session-start" [("timeout", JNumber 30)]]]);
   ("PreToolUse", JArray [
    entry (Some "Edit|Write") [cmd "${HOME}/.claude/hooks/ways/check-file-pre.sh" [("timeout", JNumber 10)]];
    entry (Some "Bash") [cmd "${HOME}/.claude/hooks/ways/check-bash-pre.sh" [("timeout", JNumber 10)];
      cmd "${HOME}/.claude/hooks/ways/strip-session-link-pre.sh" [("timeout", JNumber 10)]];
    entry (Some "TaskCreate") [cmd "${HOME}/.claude/hooks/ways/mark-tasks-active.sh" [("timeout", JNumber 10)]];
    entry (Some "Task") [cmd "${HOME}/.claude/hooks/ways/check-task-pre.sh" [("timeout", JNumber 10)]];
    entry (Some "EnterPlanMode|ExitPlanMode|Workflow|WebFetch") [cmd "${HOME}/.claude/hooks/ways/check-tool.sh" [("timeout", JNumber 10)]]]);
   ("UserPromptSubmit", JArray [
    entry None [cmd "${HOME}/.claude/hooks/ways/check-prompt.sh" [("timeout", JNumber 30)];
      cmd "${HOME}/.claude/hooks/ways/check-state.sh" [("timeout", JNumber 30)];
      cmd "${HOME}/.claude/hooks/ways/issues-pull.sh prompt" [("timeout", JNumber 30)]]]);
   ("SubagentStart", JArray [
    entry None [cmd "${HOME}/.claude/hooks/ways/inject-subagent.sh" [("timeout", JNumber 30)]]]);
   ("PostToolUse", JArray [
    entry (Some "Edit|Write|Bash|Task") [cmd "${HOME}/.claude/hooks/ways/check-post.sh" [("timeout", JNumber 10)];
      cmd "${HOME}/.claude/hooks/ways/check-queued.sh" [("timeout", JNumber 30)]];
    entry (Some "Bash") [cmd "${HOME}/.claude/hooks/ways/issues-pull.sh post-gh" [("if", JString "Bash(gh issue *)"); ("timeout", JNumber 30)]];
    entry (Some "Bash") [cmd "${HOME}/.claude/hooks/ways/pr-merge-checks.sh" [("if", JString "Bash(gh pr merge *)"); ("timeout", JNumber 15)]];
    entry (Some "mcp__agent-ways__ways_read") [cmd "${HOME}/.claude/hooks/ways/check-pull.sh" [("timeout", JNumber 10)]];
    entry (Some "EnterPlanMode|ExitPlanMode|Workflow|WebFetch") [cmd "${HOME}/.claude/hooks/ways/check-tool.sh" [("timeout", JNumber 10)]]]);
   ("PostToolUseFailure", JArray [
    entry (Some "Edit|Write|Bash|Task") [cmd "${HOME}/.claude/hooks/ways/check-post.sh" [("timeout", JNumber 10)]]]);
   ("Stop", JArray [
    entry None [cmd "${HOME}/.claude/hooks/ways/check-response.sh" [("timeout", JNumber 10)];
      cmd "${HOME}/.claude/hooks/ways/attend-drain-stop.sh" [("timeout", JNumber 10)]]]);
   ("TaskCreated", JArray [
    entry None [cmd "${HOME}/.claude/hooks/ways/issues-task-created.sh" [("timeout", JNumber 10)]]])].

(** Every entry reads as ours, as it is shipped and as a merge writes it. *)
Definition recognized (hooks : Value) : bool :=
  bool_decide (map_Forall (λ _ v, Forall (λ e,
    entry_is_ours e = true ∧ entry_is_ours (quote_entry_commands e) = true)
    (default [] (as_array v))) (as_map hooks)).

Lemma shipped_recognized : recognized shipped_hooks = true.
Proof. vm_compute. reflexivity. Qed.
