(* ===== verification/SettingsSpec.v ===== *)
(** * What the merge of settings.json promises

    The audit of a write reverts exactly where a slice of the file has a shape the merge
    does not read; the user's content outlives a merge and a withdrawal; a merge repeated
    adds nothing, and leaves no trace once it is undone. *)

From Stdlib Require Import Ascii ZArith.
From stdpp Require Import base tactics list numbers strings option gmap.
From S2P Require Import Prelude RustStr RustStrFacts JsonValue SettingsMerge SettingsMergeFacts SettingsAudit.

(** ** The theme *)

Section Theme.
Context `{SerdeValue}.

(** A merge that may not move the theme leaves its slot. *)
Lemma theme_unmoved (live d : Value) (base : Owned) (deny want w : bool) :
  let new := m_base (merge_impl live d base deny want w) in
  theme_may_move live [base; new] = false →
  o_theme base = None ∧ o_theme new = None ∧
  theme_after (want && negb w) base (get live "theme") = get live "theme".
Proof.
  intros new Hm. unfold theme_may_move in Hm. cbn [existsb] in Hm.
  apply orb_false_iff in Hm as [Hm Hl]. apply orb_false_iff in Hm as [Hb Hm].
  apply orb_false_iff in Hm as [Hn _].
  apply bool_decide_eq_false, dec_stable in Hb, Hn. apply bool_decide_eq_false in Hl.
  repeat split; [done..|]. subst new. rewrite merge_impl_base in Hn. cbn [o_theme] in Hn.
  unfold theme_after, merged_theme in *. rewrite Hb in *. destruct (want && negb w); [done|].
  rewrite bool_decide_eq_false_2 by done. apply lookup_only_theme.
Qed.
End Theme.

(** ** The audit *)

Section Audit.
Context `{SerdeValue}.

Lemma audit_iff (live d : Value) (base : Owned) (deny want : bool) :
  all_ours d →
  let merged := merge live d base deny want in
  let moves := theme_may_move live [base; m_base merged] in
  stripped_user_view live (theme_stripped (union_owned base (m_base merged)) moves) =
  stripped_user_view (m_settings merged) (theme_stripped (m_base merged) moves)
  ↔ settings_wf live = true.
Proof.
  intros Hd merged moves. subst merged. unfold merge in *.
  rewrite audit_slots; cycle 1.
  { intros k K1 K2 K3. rewrite merge_impl_get. unfold slot_after. decide_keys. apply get_as_map. }
  rewrite !merge_impl_get. unfold slot_after. decide_keys. cbn [negb].
  assert (Eb := merge_impl_base live d base deny want false).
  set (new := m_base _) in *. rewrite <-!get_as_map.
  unfold obj_at. rewrite <-!get_as_map.
  rewrite (hooks_audit base new (union_owned base new)) by (done || by rewrite Eb).
  rewrite (perms_audit deny false base new (union_owned base new)); [|by rewrite Eb; unfold obj_at; rewrite <-!get_as_map..|done|done].
  unfold settings_wf, obj_at. rewrite <-!get_as_map, !andb_true_iff.
  split; [tauto|]. intros Hwf. repeat split; try tauto. intros Hm.
  destruct (theme_unmoved _ _ _ _ _ _ Hm) as (B & N & T). fold new in N. cbn [negb] in T.
  cbn [union_owned o_theme]. by rewrite N, B, T.
Qed.

End Audit.

(** ** A merge over a merge *)

Section Again.
Context `{SerdeValue}.

(** A record's theme is the one agent-ways writes. *)
Definition base_wf (base : Owned) : bool :=
  bool_decide (o_theme base = None ∨ o_theme base = Some WAYS_THEME).

(** A theme that is set is a string. *)
Definition theme_wf (live : Value) : bool :=
  match get live "theme" with Some v => bool_decide (as_str v ≠ None) | None => true end.

(** The next version ships every entry of this one, or they are ours by their shape,
    raw and quoted. *)
Definition covered (d d' : Value) : Prop :=
  ∀ k e, e ∈ arr_at (as_map d) k →
    (entry_is_ours e = true ∧ entry_is_ours (quote_entry_commands e) = true) ∨
    e ∈ arr_at (as_map d') k.

Lemma new_hooks_again (theirs : Map) (d d' : Value) (base new : Owned) :
  covered d d' → o_hooks new = base_hooks false (as_map d) →
  new_hooks false (new_hooks false theirs (as_map d) base) (as_map d') new =
  new_hooks false theirs (as_map d') base.
Proof.
  intros Hd En. apply map_eq. intros k. rewrite !lookup_new_hooks. f_equal.
  rewrite (arr_at_list_slot _ _ _ (lookup_new_hooks _ _ _ _ _)), En, arr_at_base_hooks.
  apply merged_entries_again, Hd.
Qed.

Lemma arr_at_perms_after (deny : bool) (base : Owned) (p : Map) :
  arr_at (perms_after deny false base p) "allow" =
    merged_strings (o_perms base) WAYS_PERMS (arr_at p "allow") ∧
  arr_at (perms_after deny false base p) "deny" =
    merged_strings (o_deny base) (ours_deny deny false) (arr_at p "deny").
Proof.
  split.
  - unfold perms_after. rewrite arr_at_set_list by done. unfold arr_at at 1.
    rewrite lookup_set_list. decide_keys. cbn. by rewrite as_array_VArray.
  - apply arr_at_list_slot. unfold perms_after. rewrite lookup_set_list. by decide_keys.
Qed.

Lemma ours_deny_part (deny deny' : bool) : (deny' = true → deny = true) →
  ours_deny deny' false = List.filter (λ _, deny') (ours_deny deny false) ∧
  NoDup (ours_deny deny false).
Proof.
  intros Hd. destruct deny, deny'; try (by specialize (Hd eq_refl)); cbn;
    (split; [done|]); first [apply WAYS_DENY_NoDup|by apply NoDup_nil_2].
Qed.

Lemma ways_perms_part : WAYS_PERMS = List.filter (λ _, true) WAYS_PERMS.
Proof. symmetry. by apply filter_all. Qed.

Lemma perms_after_again (deny deny' : bool) (base new : Owned) (p : Map) :
  (deny' = true → deny = true) →
  o_perms new = recorded (o_perms base) WAYS_PERMS (strings (arr_at p "allow")) →
  o_deny new = recorded (o_deny base) (ours_deny deny false) (strings (arr_at p "deny")) →
  perms_after deny' false new (perms_after deny false base p) = perms_after deny' false base p.
Proof.
  intros Hdeny Ep Ed. destruct (ours_deny_part _ _ Hdeny) as [Ey HN].
  destruct (arr_at_perms_after deny base p) as [Ea Eb].
  assert (A : merged_strings (o_perms new) (ours_perms false)
    (merged_strings (o_perms base) WAYS_PERMS (arr_at p "allow")) =
    merged_strings (o_perms base) WAYS_PERMS (arr_at p "allow")).
  { assert (A := merged_strings_again (o_perms base) WAYS_PERMS (λ _, true) (arr_at p "allow")
      WAYS_PERMS_NoDup). rewrite <-ways_perms_part in A. by rewrite Ep. }
  assert (B : merged_strings (o_deny new) (ours_deny deny' false)
    (merged_strings (o_deny base) (ours_deny deny false) (arr_at p "deny")) =
    merged_strings (o_deny base) (ours_deny deny' false) (arr_at p "deny")).
  { rewrite Ed, Ey. by apply merged_strings_again. }
  apply map_eq. intros k. unfold perms_after at 1 3. rewrite !lookup_set_list, Ea, Eb, A, B.
  repeat case_bool_decide; try done. unfold perms_after. rewrite !lookup_set_list. by decide_keys.
Qed.

(** The theme's slot and record after a merge, case by case. *)
Definition is_ways (t : option str) : bool :=
  match t with Some s => str_eqb s WAYS_THEME | None => false end.
Definition chosen_since (t : option str) : bool :=
  match t with Some s => negb (str_eqb s WAYS_THEME) | None => false end.
Definition give_back (prior : option str) : option str :=
  match prior with Some p => if str_eqb p WAYS_THEME then None else Some p | None => None end.

Lemma theme_cases (want : bool) (base : Owned) (slot : option Value) :
  base_wf base = true →
  let t := slot ≫= as_str in
  theme_after want base slot =
    match want, o_theme base with
    | true, None => Some (VString WAYS_THEME)
    | true, Some _ => if chosen_since t then slot else Some (VString WAYS_THEME)
    | false, Some _ => if chosen_since t then slot else VString <$> give_back (o_prior_theme base)
    | false, None => if is_ways t then None else slot
    end ∧
  snd (merged_theme want t base ∅) =
    match want, o_theme base with
    | true, None => (Some WAYS_THEME, give_back t)
    | true, Some _ => (Some WAYS_THEME, o_prior_theme base)
    | false, _ => (None, None)
    end.
Proof.
  intros Hb t. apply bool_decide_eq_true in Hb. unfold theme_after, merged_theme, give_back.
  fold t. destruct Hb as [-> | ->].
  - destruct want; [split; [apply lookup_insert_eq|]|].
    + destruct t as [s|]; [|done]. cbn [snd mbind option_bind]. by destruct (str_eqb s WAYS_THEME).
    + replace (is_ways t) with (bool_decide (t = Some WAYS_THEME)).
      * case_bool_decide; cbn [fst snd]; by rewrite ?lookup_delete_eq, ?lookup_only_theme.
      * unfold is_ways, str_eqb. destruct t as [s|]; [|done]. apply bool_decide_ext. split; congruence.
  - rewrite (bool_decide_eq_true_2 (Some WAYS_THEME ≠ None)) by done. cbn [andb].
    replace (bool_decide (t ≠ None) && bool_decide (t ≠ Some WAYS_THEME)) with (chosen_since t).
    + destruct want, (chosen_since t); cbn [negb fst snd]; rewrite ?lookup_only_theme, ?lookup_insert_eq;
        try done.
      destruct (o_prior_theme base) as [p|]; cbn [mbind option_bind]; [|by rewrite lookup_delete_eq].
      destruct (str_eqb p WAYS_THEME); cbn [negb]; by rewrite ?lookup_delete_eq, ?lookup_insert_eq.
    + unfold chosen_since, str_eqb. destruct t as [s|]; [|done].
      rewrite (bool_decide_eq_true_2 (Some s ≠ None)) by done. cbn [andb].
      rewrite <-bool_decide_not. apply bool_decide_ext. split; congruence.
Qed.

Lemma merged_base_wf (want : bool) (base new : Owned) (slot : option Value) :
  base_wf base = true →
  (o_theme new, o_prior_theme new) = snd (merged_theme want (slot ≫= as_str) base ∅) →
  base_wf new = true.
Proof.
  intros Hb E. destruct (theme_cases want base slot Hb) as [_ R]. cbv zeta in R. rewrite R in E.
  unfold base_wf. rewrite bool_decide_eq_true. destruct want, (o_theme base); injection E; auto.
Qed.

Lemma give_back_cases (p : option str) :
  give_back p = None ∨ ∃ s, give_back p = Some s ∧ str_eqb s WAYS_THEME = false.
Proof.
  destruct p as [s|]; [|by left]. cbn [give_back].
  destruct (str_eqb s WAYS_THEME) eqn:Q; [by left|right]. by exists s.
Qed.

Lemma theme_again (want want' : bool) (base new : Owned) (slot : option Value) :
  base_wf base = true → (want' = true → want = true) →
  (want = want' ∨ match slot with Some v => as_str v ≠ None | None => True end) →
  (o_theme new, o_prior_theme new) = snd (merged_theme want (slot ≫= as_str) base ∅) →
  theme_after want' new (theme_after want base slot) = theme_after want' base slot ∧
  snd (merged_theme want' (theme_after want base slot ≫= as_str) new ∅) =
  snd (merged_theme want' (slot ≫= as_str) base ∅).
Proof.
  intros Hb Hw Hs E. pose proof (merged_base_wf _ _ _ _ Hb E) as Hn.
  destruct (theme_cases want base slot Hb) as [T1 R1], (theme_cases want' base slot Hb) as [T2 R2].
  destruct (theme_cases want' new (theme_after want base slot) Hn) as [T3 R3].
  cbv zeta in *. rewrite R1 in E. rewrite T3, R3, T2, R2. rewrite T1. clear T1 T2 T3 R1 R2 R3 Hn.
  apply bool_decide_eq_true in Hb.
  assert (Hways : Some (VString WAYS_THEME) ≫= as_str = Some WAYS_THEME) by apply as_str_VString.
  assert (Hq : str_eqb WAYS_THEME WAYS_THEME = true) by done.
  assert (Hslot : slot ≫= as_str = None ∨ ∃ s, slot = Some (VString s) ∧ slot ≫= as_str = Some s).
  { destruct slot as [v|]; [|by left]. cbn. destruct (as_str v) as [s|] eqn:V; [right|by left].
    apply as_str_spec in V as ->. eauto. }
  assert (Hg := give_back_cases (o_prior_theme base)).
  assert (Hgs : ∀ p, (VString <$> Some p) ≫= as_str = Some p) by (intros; apply as_str_VString).
  destruct Hb as [Hb|Hb]; rewrite Hb in *; destruct want, want'; try (by specialize (Hw eq_refl));
    injection E as En Ep; rewrite En, ?Ep.
  all: destruct Hslot as [Ht | (s & Es & Ht)]; rewrite !Ht; cbn [is_ways chosen_since give_back];
    try destruct (str_eqb s WAYS_THEME) eqn:Q; cbn [negb].
  all: try rewrite !Hways; try rewrite !Ht; cbn [is_ways chosen_since give_back];
    rewrite ?Hq, ?Q; cbn [negb]; try (by rewrite ?Es).
  - destruct slot as [v|]; [|done]. cbn in Ht. by destruct Hs.
  - destruct Hg as [-> | (p & -> & Hp)]; [done|]. rewrite Hgs. cbn [is_ways]. by rewrite Hp.
  - destruct Hg as [-> | (p & -> & Hp)]; [done|]. rewrite Hgs. cbn [is_ways]. by rewrite Hp.
Qed.

(** A merge over an earlier merge is the merge over the file before it. *)
Lemma merge_over_merge (live d d' : Value) (base : Owned) (deny deny' want want' : bool) :
  covered d d' → base_wf base = true → theme_wf live = true ∨ want = want' →
  (deny' = true → deny = true) → (want' = true → want = true) →
  let first := merge live d base deny want in
  merge (m_settings first) d' (m_base first) deny' want' = merge live d' base deny' want'.
Proof.
  intros Hd Hb Ht Hdeny Hw first. unfold merge in *.
  assert (Eb := merge_impl_base live d base deny want false). fold first in Eb.
  assert (Hslot : ∀ k, get (m_settings first) k = slot_after live d base deny want false k)
    by (intros k; apply merge_impl_get).
  assert (Hobj : ∀ k, obj_at (as_map (m_settings first)) k =
    default ∅ (slot_after live d base deny want false k ≫= as_object))
    by (intros k; unfold obj_at; by rewrite <-get_as_map, Hslot).
  assert (Hhooks : obj_at (as_map (m_settings first)) "hooks" =
    new_hooks false (obj_at (as_map live) "hooks") (as_map d) base).
  { apply obj_at_map_slot. by rewrite <-get_as_map, Hslot. }
  assert (Hperms : obj_at (as_map (m_settings first)) "permissions" =
    perms_after deny false base (obj_at (as_map live) "permissions")).
  { rewrite Hobj. unfold slot_after. decide_keys. cbn. by rewrite as_object_VObject. }
  destruct (theme_again want want' base (m_base first) (get live "theme")) as [T1 T2]; [done..| | |].
  { destruct Ht as [Ht|Ht]; [right|by left]. unfold theme_wf in Ht.
    destruct (get live "theme"); [|done]. by apply bool_decide_eq_true in Ht. }
  { rewrite Eb. cbn [o_theme o_prior_theme]. cbn [negb]. rewrite !andb_true_r.
    by rewrite <-surjective_pairing. }
  assert (Htheme : get (m_settings first) "theme" = theme_after want base (get live "theme")).
  { rewrite Hslot. unfold slot_after. decide_keys. cbn [negb]. by rewrite andb_true_r, <-get_as_map. }
  assert (Es : m_settings (merge_impl (m_settings first) d' (m_base first) deny' want' false) =
    m_settings (merge_impl live d' base deny' want' false)).
  { apply merge_impl_ext; [|apply merge_impl_object]. intros k. rewrite merge_impl_get.
    unfold slot_after at 1 2. rewrite Hhooks, Hperms.
    rewrite (new_hooks_again _ d d') by (done || by rewrite Eb).
    rewrite (perms_after_again deny deny') by (done || by rewrite Eb).
    cbn [negb]. rewrite !andb_true_r, <-!get_as_map, Htheme, T1.
    repeat case_bool_decide; try done. rewrite Hslot. unfold slot_after. decide_keys.
    by rewrite get_as_map. }
  assert (Er : m_base (merge_impl (m_settings first) d' (m_base first) deny' want' false) =
    m_base (merge_impl live d' base deny' want' false)).
  { rewrite !merge_impl_base. rewrite Hperms. cbn [negb]. rewrite !andb_true_r, Htheme, T2.
    destruct (arr_at_perms_after deny base (obj_at (as_map live) "permissions")) as [-> ->].
    destruct (ours_deny_part _ _ Hdeny) as [Ey HN].
    f_equal; rewrite Eb; cbn [o_perms o_deny].
    - unfold ours_perms. assert (A := recorded_again (o_perms base) WAYS_PERMS (λ _, true)
        (arr_at (obj_at (as_map live) "permissions") "allow") WAYS_PERMS_NoDup).
      by rewrite <-ways_perms_part in A.
    - rewrite Ey. by apply recorded_again. }
  destruct (merge_impl (m_settings first) _ _ _ _ _), (merge_impl live d' _ _ _ _).
  cbn in Es, Er. by subst.
Qed.

(** A merge made over an earlier merge of agent-ways gives the settings and the
    record that it gives over the file as it was before the earlier one: no hook, string
    or theme of the earlier merge stays behind when a later version ships other hooks,
    drops the deny list or gives the theme back. *)
Theorem merge_absorbs (live d d' : Value) (base : Owned) (deny deny' want want' : bool) :
  covered d d' → base_wf base = true → theme_wf live = true ∨ want = want' →
  (deny' = true → deny = true) → (want' = true → want = true) →
  let first := merge live d base deny want in
  merge (m_settings first) d' (m_base first) deny' want' = merge live d' base deny' want'.
Proof. apply merge_over_merge. Qed.
End Again.

(** ** Withdrawing what a merge added *)

Section Withdraw.
Context `{SerdeValue}.

(** The record of a first merge into [live]. *)
Definition first_base (live : Value) : Owned :=
  {| o_hooks := seed_ours_from_live live; o_perms := []; o_deny := []; o_theme := None;
     o_prior_theme := None |}.

(** No empty list or object stands where its absence would say the same. *)
Definition tidy (live : Value) : Prop :=
  let hooks := obj_at (as_map live) "hooks" in
  let perms := obj_at (as_map live) "permissions" in
  live = VObject (as_map live) ∧ get live "hooks" = map_slot hooks ∧
  map_Forall (λ _ v, Some v = list_slot (default [] (as_array v))) hooks ∧
  get live "permissions" = map_slot perms ∧
  perms !! "allow" = list_slot (arr_at perms "allow") ∧
  perms !! "deny" = list_slot (arr_at perms "deny").

(** No entry of [live] reads as ours, or is one [d] ships. *)
Definition users_own (live d : Value) : Prop :=
  map_Forall (λ k v, Forall (λ e, entry_is_ours e = false ∧ has (arr_at (as_map d) k) e = false ∧
                                 has (quote_entry_commands <$> arr_at (as_map d) k) e = false)
                       (default [] (as_array v))) (obj_at (as_map live) "hooks").

Lemma users_own_entry (live d : Value) (k : str) (e : Value) :
  users_own live d → e ∈ arr_at (obj_at (as_map live) "hooks") k →
  entry_is_ours e = false ∧ has (arr_at (as_map d) k) e = false ∧
  has (quote_entry_commands <$> arr_at (as_map d) k) e = false.
Proof.
  intros Hall. unfold arr_at at 1. destruct (_ !! k) as [v|] eqn:E; [|set_solver]. cbn.
  apply (map_Forall_lookup_1 _ _ _ _ Hall) in E. rewrite Forall_forall in E. apply E.
Qed.

Lemma arr_at_seed (live : Value) (k : str) :
  arr_at (seed_ours_from_live live) k =
  List.filter entry_is_ours (arr_at (obj_at (as_map live) "hooks") k).
Proof.
  unfold seed_ours_from_live, obj_at. rewrite <-get_as_map.
  destruct (_ ≫= as_object) as [m|]; cbn [default id].
  - apply arr_at_list_slot. rewrite lookup_omap. unfold arr_at. destruct (m !! k) as [v|]; cbn; [|done].
    unfold list_slot. by case_bool_decide.
  - unfold arr_at. by rewrite !lookup_empty.
Qed.

Lemma withdrawn_entries (base theirs ours : list Value) (base' : list Value) :
  (∀ e, e ∈ theirs → entry_is_ours e = false ∧ has ours e = false ∧
                     has (quote_entry_commands <$> ours) e = false ∧ has base e = false) →
  merged_entries true base' (merged_entries false base theirs ours) ours = theirs.
Proof.
  intros Ht. unfold merged_entries. rewrite List.filter_app, filter_and.
  rewrite (filter_none _ (quote_entry_commands <$> ours)), app_nil_r.
  - apply filter_all. intros e He. destruct (Ht e He) as (-> & -> & -> & ->). done.
  - intros e He. rewrite (proj2 (has_true _ _) He). by rewrite andb_false_r.
Qed.

(** A list of strings comes back, with what was theirs kept in its place. *)
Lemma withdrawn_strings (ours : list str) (theirs : list Value) : NoDup ours →
  merged_strings (recorded [] ours (strings theirs)) [] (merged_strings [] ours theirs) = theirs.
Proof.
  intros HN. assert (A := merged_strings_again [] ours (λ _, false) theirs HN).
  rewrite (filter_none _ ours) in A by done. rewrite A.
  rewrite merged_strings_eq by constructor. cbn [List.filter]. rewrite app_nil_r.
  apply filter_all. intros v _. unfold names_one, deprecated. by destruct (as_str v).
Qed.

(** The first merge's slots, and its record. *)
Lemma merge_slots (live d : Value) (base : Owned) (deny want : bool) :
  let first := merge live d base deny want in
  obj_at (as_map (m_settings first)) "hooks" =
    new_hooks false (obj_at (as_map live) "hooks") (as_map d) base ∧
  obj_at (as_map (m_settings first)) "permissions" =
    perms_after deny false base (obj_at (as_map live) "permissions") ∧
  get (m_settings first) "theme" = theme_after want base (get live "theme").
Proof.
  intros first. unfold merge in first.
  assert (Hslot : ∀ k, get (m_settings first) k = slot_after live d base deny want false k)
    by (intros k; apply merge_impl_get).
  split_and!.
  - apply obj_at_map_slot. by rewrite <-get_as_map, Hslot.
  - unfold obj_at at 1. rewrite <-get_as_map, Hslot. unfold slot_after. decide_keys. cbn.
    by rewrite as_object_VObject.
  - rewrite Hslot. unfold slot_after. decide_keys. cbn [negb]. by rewrite andb_true_r, <-get_as_map.
Qed.

Lemma withdrawn_perms (deny : bool) (base new : Owned) (p : Map) :
  o_perms base = [] → o_deny base = [] →
  o_perms new = recorded [] WAYS_PERMS (strings (arr_at p "allow")) →
  o_deny new = recorded [] (ours_deny deny false) (strings (arr_at p "deny")) →
  p !! "allow" = list_slot (arr_at p "allow") → p !! "deny" = list_slot (arr_at p "deny") →
  perms_after false true new (perms_after deny false base p) = p.
Proof.
  intros Bp Bd Ep Ed Ta Td. destruct (ours_deny_part deny deny id) as [_ HN].
  apply map_eq. intros k. unfold perms_after at 1. rewrite !lookup_set_list.
  destruct (arr_at_perms_after deny base p) as [-> ->]. rewrite Ep, Ed, Bp, Bd.
  change (ours_deny false true) with (@nil str). change (ours_perms true) with (@nil str).
  rewrite !withdrawn_strings by (done || apply WAYS_PERMS_NoDup).
  repeat case_bool_decide; subst; try done. unfold perms_after. rewrite !lookup_set_list. by decide_keys.
Qed.

(** C37: on a tidy file whose hooks are the user's own, a first merge and then the
    withdrawal give the file back as it was: the user's hooks in their order, the
    permissions they already had among ours, and the theme they had chosen. *)
Theorem withdraw_undoes_merge (live d : Value) (deny want : bool) :
  tidy live → users_own live d → theme_wf live = true →
  is_ways (get live "theme" ≫= as_str) = false →
  let first := merge live d (first_base live) deny want in
  m_settings (withdraw (m_settings first) d (m_base first)) = live.
Proof.
  intros (Hl & Hh & Hhs & Hp & Ha & Hd) Hown Ht Hw first.
  destruct (merge_slots live d (first_base live) deny want) as (S1 & S2 & S3). fold first in S1, S2, S3.
  assert (Eb := merge_impl_base live d (first_base live) deny want false : m_base first = _).
  destruct (theme_again want false (first_base live) (m_base first) (get live "theme")) as [T _];
    [done|done|right|rewrite Eb; cbn [o_theme o_prior_theme negb];
                     by rewrite !andb_true_r, <-surjective_pairing|].
  { unfold theme_wf in Ht. destruct (get live "theme"); [|done]. by apply bool_decide_eq_true in Ht. }
  destruct (theme_cases false (first_base live) (get live "theme") eq_refl) as [T' _].
  cbn [first_base o_theme] in T'. rewrite Hw in T'.
  unfold withdraw. apply merge_impl_ext; [|done]. intros k. unfold slot_after. rewrite S1, S2.
  rewrite withdrawn_perms by (done || by rewrite Eb).
  change (false && negb true) with false. rewrite <-!get_as_map, S3, T, T'.
  case_bool_decide as K1; [subst|].
  { rewrite Hh. f_equal. apply map_eq. intros k. rewrite lookup_new_hooks.
    rewrite (arr_at_list_slot _ _ _ (lookup_new_hooks _ _ _ _ _)).
    rewrite withdrawn_entries; cycle 1.
    { intros e He. destruct (users_own_entry live d k e Hown He) as (E1 & E2 & E3).
      split_and!; try done. cbn [first_base o_hooks]. rewrite arr_at_seed. apply has_false.
      rewrite elem_of_filter. intros [_ E]. congruence. }
    unfold arr_at. destruct (_ !! k) as [v|] eqn:E; [|done]. cbn.
    symmetry. by apply (map_Forall_lookup_1 _ _ _ _ Hhs) in E. }
  case_bool_decide as K2; [by subst|]. case_bool_decide as K3; [by subst|].
  unfold first, merge. rewrite merge_impl_get. unfold slot_after. decide_keys.
  by rewrite get_as_map.
Qed.
End Withdraw.

(** ** A run *)

#[local] Existing Instance json_value.

(** A user's file: a hook, permissions of which one is also ours, a theme and a model. *)
Definition example_live : Value := obj
  [("model", JString "opus"); ("theme", JString "light");
   ("hooks", obj [("Stop", JArray [entry None [cmd "/usr/bin/notify done" []]])]);
   ("permissions", obj [("allow", JArray [JString "Bash(ls:*)"; JString "Bash(ways:*)"]);
                        ("deny", JArray [JString "Read(./.env)"; JString "Read(~/mail/**)"])])].

Definition example_base : Owned := Owned_default.

Lemma recognized_covered (hooks d' : Value) :
  recognized hooks = true → all_ours hooks ∧ covered hooks d'.
Proof.
  intros Hr. apply bool_decide_eq_true in Hr. split.
  - eapply map_Forall_impl; [exact Hr|]. intros k v Hv. cbn beta in *.
    eapply Forall_impl; [exact Hv|]. by intros e [? _].
  - intros k e. unfold arr_at. destruct (as_map hooks !! k) as [v|] eqn:E; [|set_solver]. cbn.
    intros He. apply (map_Forall_lookup_1 _ _ _ _ Hr) in E. rewrite Forall_forall in E.
    left. by apply E.
Qed.


Lemma merge_absorbs_witness :
  let first := merge example_live shipped_hooks example_base true true in
  merge (m_settings first) (obj []) (m_base first) false false =
  merge example_live (obj []) example_base false false.
Proof.
  apply (merge_absorbs example_live shipped_hooks (obj []) example_base true false true false).
  - by apply (recognized_covered shipped_hooks), shipped_recognized.
  - vm_compute. reflexivity.
  - left. vm_compute. reflexivity.
  - done.
  - done.
Defined.

Lemma withdraw_undoes_merge_witness :
  let first := merge example_live shipped_hooks (first_base example_live) true true in
  m_settings (withdraw (m_settings first) shipped_hooks (m_base first)) = example_live.
Proof.
  apply (withdraw_undoes_merge example_live shipped_hooks true true).
  - unfold tidy. split_and!; try (apply (bool_decide_eq_true_1 _); vm_compute; reflexivity).
  - unfold users_own. apply (bool_decide_eq_true_1 _). vm_compute. reflexivity.
  - vm_compute. reflexivity.
  - vm_compute. reflexivity.
Defined.

(** An event whose value is not an array is dropped by a merge, and the audit does not see
    it: the view reads such a value as no entries. *)
Definition odd_event : Value := obj
  [("hooks", obj [("Stop", obj [("command", JString "/usr/bin/notify")])])].

Theorem odd_event_dropped :
  let merged := merge odd_event (obj []) Owned_default false false in
  get odd_event "hooks" ≠ None ∧ get (m_settings merged) "hooks" = None ∧
  stripped_user_view odd_event (union_owned Owned_default (m_base merged)) =
  stripped_user_view (m_settings merged) (m_base merged).
Proof. split_and!; [vm_compute; discriminate|vm_compute; reflexivity..]. Qed.
