(* ===== verification/SettingsFiles.v ===== *)
(** * The merge of settings.json, on its files

    [tools/ways-cli/src/cmd/settings_merge.rs]: the steps of [apply_to_files] and
    [withdraw_from_files] over the settings file, its backup and the last-applied base.
    A file is its bytes, or absent. [Io] is how the file system answers the writes, and
    what the settings file holds when it is read back: another program may have written
    it in between. Parsing and printing are [serde_json]'s.

    The theorems: a file the merge cannot read for certain is left as it was; a second apply
    changes nothing; the audit of a withdrawal; and what becomes of a file that is not
    UTF-8. *)

From Stdlib Require Import Ascii ZArith.
From stdpp Require Import base tactics list numbers strings option gmap.
From S2P Require Import Prelude RustStr RustStrFacts JsonValue SettingsMerge SettingsMergeFacts SettingsAudit SettingsSpec.

Class SerdeText `{SerdeValue} := {
  json_from_str : str → option Value;
  to_string_pretty : Value → str;
}.

(** The files of a merge. *)
Record Files := {
  f_dest : option str;
  f_backup : option str;
  f_base : option str;
}.

(** What the file system answers: whether each write lands, and the settings file when
    it is read back. *)
Record Io := {
  io_backup : bool;
  io_dest : bool;
  io_revert : bool;
  io_base : bool;
  io_during : str → option str;
}.

Module Outcome.
Inductive t :=
  | UpToDate
  | Written
  | Withdrew (survivors : list str)
  | Unparsable
  | BackupFailed
  | WriteFailed
  | Reverted
  | BaseFailed.
End Outcome.

Definition set_dest (f : option str) (files : Files) : Files :=
  {| f_dest := f; f_backup := f_backup files; f_base := f_base files |}.
Definition set_backup (f : option str) (files : Files) : Files :=
  {| f_dest := f_dest files; f_backup := f; f_base := f_base files |}.
Definition set_base (f : option str) (files : Files) : Files :=
  {| f_dest := f_dest files; f_backup := f_backup files; f_base := f |}.

Section Files.
Context `{SerdeText}.

Definition empty_object : Value := VObject ∅.

(** [None] where the text does not parse. A file that is absent, or is not UTF-8,
    reads as the empty object. *)
Definition read_json_or_empty (f : option str) : option Value :=
  match f with
  | Some s =>
    if utf8_valid s then
      if bool_decide (trim s = []) then Some empty_object else json_from_str s
    else Some empty_object
  | None => Some empty_object
  end.

Definition owns_theme (base_file : option str) : bool :=
  match base_file, read_json_or_empty base_file with
  | Some _, Some v => bool_decide (o_theme (from_value v) ≠ None)
  | _, _ => false
  end.

Definition selects_ways_theme (dest : option str) : bool :=
  match read_json_or_empty dest with
  | Some v => bool_decide (get v "theme" ≫= as_str = Some WAYS_THEME)
  | None => false
  end.

Definition base_for (live : Value) (base_file : option str) : Owned :=
  match base_file with
  | Some _ => default Owned_default (from_value <$> read_json_or_empty base_file)
  | None => {| o_hooks := seed_ours_from_live live; o_perms := []; o_deny := [];
               o_theme := None; o_prior_theme := None |}
  end.

(** Whether [save_moved_base] writes. *)
Definition base_moved (base_file : option str) (base merged : Owned) : bool :=
  bool_decide ((o_theme merged, o_prior_theme merged) ≠ (o_theme base, o_prior_theme base)) ||
  (bool_decide (base_file ≠ None) && bool_decide (to_value merged ≠ to_value base)).

Definition save_base (io : Io) (base : Owned) (files : Files) : bool * Files :=
  if io_base io then (true, set_base (Some (to_string_pretty (to_value base))) files)
  else (false, files).

Definition save_moved_base (io : Io) (base merged : Owned) (files : Files) : bool * Files :=
  if base_moved (f_base files) base merged then save_base io merged files else (true, files).

(** The write of [settings] both verbs share: the backup, the write, the audit of the
    two views, and the base. [views] gives the user's view before and after. *)
Definition write_audited (io : Io) (settings : Value) (base : Owned) (before : Value)
    (view_after : Value → Value) (done_ : Value → Outcome.t) (files : Files)
    : Outcome.t * Files :=
  let '(copied, files) :=
    match f_dest files with
    | Some s => (io_backup io, if io_backup io then set_backup (Some s) files else files)
    | None => (true, files)
    end in
  if negb copied then (Outcome.BackupFailed, files)
  else if negb (io_dest io) then (Outcome.WriteFailed, files)
  else
    let files := set_dest (io_during io (to_string_pretty settings)) files in
    match read_json_or_empty (f_dest files) with
    | None => (Outcome.Unparsable, files)
    | Some after =>
      if bool_decide (before = view_after after) then
        let '(ok, files) := save_base io base files in
        (if ok then done_ after else Outcome.BaseFailed, files)
      else
        (Outcome.Reverted,
         match f_backup files with
         | Some b => if io_revert io then set_dest (Some b) files else files
         | None => files
         end)
    end.

(** The desired hooks of the app's settings file. *)
Definition hooks_of (v : Value) : Value := default empty_object (get v "hooks").

Definition apply_to_files (io : Io) (source : option str) (deny_secrets want_theme : bool)
    (files : Files) : Outcome.t * Files :=
  match read_json_or_empty source, read_json_or_empty (f_dest files) with
  | Some desired, Some live =>
    let base := base_for live (f_base files) in
    let merged := merge live (hooks_of desired) base deny_secrets want_theme in
    if bool_decide (m_settings merged = live) then
      let '(ok, files) := save_moved_base io base (m_base merged) files in
      (if ok then Outcome.UpToDate else Outcome.BaseFailed, files)
    else
      let moves := theme_may_move live [base; m_base merged] in
      write_audited io (m_settings merged) (m_base merged)
        (stripped_user_view live (theme_stripped (union_owned base (m_base merged)) moves))
        (λ after, stripped_user_view after (theme_stripped (m_base merged) moves))
        (λ _, Outcome.Written) files
  | _, _ => (Outcome.Unparsable, files)
  end.

(** [shipped_strip]: what this version ships, raw and quoted. *)
Definition shipped_strip (shipped_hooks : Value) : Map :=
  omap (λ v, a ← as_array v; Some (VArray (a ++ (quote_entry_commands <$> a))))
    (as_map shipped_hooks).

Definition strip_of (hooks : Map) (perms deny : list str) : Owned :=
  {| o_hooks := hooks; o_perms := perms; o_deny := deny; o_theme := None;
     o_prior_theme := None |}.

Definition withdraw_from_files (io : Io) (source : option str) (files : Files)
    : Outcome.t * Files :=
  match read_json_or_empty source, read_json_or_empty (f_dest files) with
  | Some shipped, Some live =>
    let shipped_hooks := hooks_of shipped in
    let base := base_for live (f_base files) in
    let merged := withdraw live shipped_hooks base in
    if bool_decide (m_settings merged = live) then
      let '(ok, files) := save_moved_base io base (m_base merged) files in
      (if ok then Outcome.UpToDate else Outcome.BaseFailed, files)
    else
      let moves := theme_may_move live [base] in
      let strip := shipped_strip shipped_hooks in
      write_audited io (m_settings merged) (m_base merged)
        (stripped_user_view live
           (theme_stripped (strip_of strip (o_perms base) (o_deny base)) moves))
        (λ after, stripped_user_view after (theme_stripped (strip_of strip [] []) moves))
        (λ after, Outcome.Withdrew (surviving_ours_not_shipped after shipped_hooks)) files
  | _, _ => (Outcome.Unparsable, files)
  end.
End Files.

Section Spec.
Context `{SerdeText}.

(** No other program writes the settings file between the write and the read. *)
Definition undisturbed (io : Io) : Prop := ∀ s, io_during io s = Some s.

(** A document reads back from its own text. *)
Definition reads_back (v : Value) : Prop :=
  read_json_or_empty (Some (to_string_pretty v)) = Some v.

(** ** The audit of a withdrawal *)

Lemma arr_at_shipped_strip (d : Value) (k : str) :
  arr_at (shipped_strip d) k =
  arr_at (as_map d) k ++ (quote_entry_commands <$> arr_at (as_map d) k).
Proof.
  unfold shipped_strip, arr_at. rewrite lookup_omap. destruct (as_map d !! k) as [v|]; [|done].
  cbn. destruct (as_array v); [|done]. cbn. by rewrite as_array_VArray.
Qed.

Lemma user_hooks_withdrawn (theirs : Map) (d : Value) (base : Owned) (p q p' q' : list str) :
  user_hooks (new_hooks true theirs (as_map d) base) (strip_of (shipped_strip d) p q) =
  user_hooks theirs (strip_of (shipped_strip d) p' q').
Proof.
  apply map_eq. intros k. rewrite !lookup_user_hooks. f_equal.
  rewrite (arr_at_list_slot _ _ _ (lookup_new_hooks _ _ _ _ _)). cbn [o_hooks strip_of].
  rewrite arr_at_shipped_strip. unfold user_entries, merged_entries. rewrite filter_and.
  apply filter_agree. intros e _.
  set (o := arr_at (as_map d) k). set (q0 := quote_entry_commands <$> o).
  assert (E : has (o ++ q0) e = has o e || has q0 e).
  { apply eq_true_iff_eq. rewrite orb_true_iff, !has_true. apply elem_of_app. }
  rewrite E. by destruct (has o e), (has q0 e), (entry_is_ours e).
Qed.

Lemma withdraw_theme_unmoved (live d : Value) (base : Owned) :
  theme_may_move live [base] = false →
  theme_after false base (get live "theme") = get live "theme".
Proof.
  intros Hm. apply (theme_unmoved live d base false false true).
  unfold theme_may_move in *. cbn [existsb] in *.
  rewrite merge_impl_base. cbn [o_theme]. unfold merged_theme. cbn [andb].
  apply orb_false_iff in Hm as [Hm Hl]. apply orb_false_iff in Hm as [Hb _].
  rewrite Hb, Hl. repeat case_match; done.
Qed.

(** The audit of a withdrawal passes exactly when the hooks and permissions have the
    shapes the merge reads, whatever the record of a former merge claims. *)
Theorem withdraw_audit_iff (live d : Value) (base : Owned) :
  let merged := withdraw live d base in
  let moves := theme_may_move live [base] in
  stripped_user_view live
    (theme_stripped (strip_of (shipped_strip d) (o_perms base) (o_deny base)) moves) =
  stripped_user_view (m_settings merged) (theme_stripped (strip_of (shipped_strip d) [] []) moves)
  ↔ settings_wf live = true.
Proof.
  intros merged moves. subst merged. unfold withdraw. rewrite audit_slots; cycle 1.
  { intros k K1 K2 K3. rewrite merge_impl_get. unfold slot_after. decide_keys. apply get_as_map. }
  rewrite !merge_impl_get. unfold slot_after. decide_keys. rewrite <-!get_as_map.
  unfold obj_at. rewrite <-!get_as_map.
  set (old := strip_of _ (o_perms base) _). set (new := strip_of _ [] []).
  rewrite (perms_audit false true base new old) by done.
  assert (Hh : hooks_view old (get live "hooks") =
    hooks_view new (map_slot (new_hooks true (default ∅ (get live "hooks" ≫= as_object)) (as_map d) base))
    ↔ object_or_absent (get live "hooks") = true).
  { rewrite hooks_view_map_slot. subst old new. rewrite (user_hooks_withdrawn _ _ _ _ _ (o_perms base) (o_deny base)).
    destruct (object_absent_cases (get live "hooks")) as [(m & -> & E & ->)|[[-> ->]|(v & -> & Hv & ->)]].
    - unfold hooks_view. cbn. by rewrite as_object_VObject.
    - done.
    - split; [|done]. intros E. exfalso. unfold hooks_view in E. cbn in E. rewrite Hv in E.
      by eapply map_slot_not_other; [exact Hv|symmetry]. }
  rewrite Hh. unfold settings_wf, obj_at. rewrite <-!get_as_map, !andb_true_iff.
  split; [tauto|]. intros Hwf. repeat split; try tauto. intros Hm. cbn [o_theme new old strip_of].
  change (false && negb true) with false. by rewrite (withdraw_theme_unmoved live d base).
Qed.

(** ** Applying a merge *)

Lemma from_to_value (o : Owned) : from_value (to_value o) = o.
Proof.
  assert (G : ∀ k m, get (to_value o) k = m → get (to_value o) k = m) by done.
  assert (Hs : ∀ l, omap as_str (VString <$> l) = l) by apply strings_VString.
  assert (Ho : ∀ t, (Some (opt_value t) ≫= as_str) = t).
  { intros [t|]; cbn; [apply as_str_VString|apply null_str]. }
  unfold from_value, to_value. rewrite !get_VObject.
  repeat (rewrite ?lookup_insert_eq || rewrite lookup_insert_ne by done).
  rewrite !Ho. cbn [mbind option_bind default id]. rewrite as_object_VObject, !as_array_VArray.
  cbn [default id]. rewrite !Hs. by destruct o.
Qed.

(** What a write leaves: the new settings where the views agree, the file as it was where
    they do not. *)
Lemma write_audited_agree (io : Io) (settings : Value) (base : Owned) (before : Value)
    (view : Value → Value) (done_ : Value → Outcome.t) (files : Files) :
  undisturbed io → reads_back settings → before = view settings →
  let '(out, files') := write_audited io settings base before view done_ files in
  f_dest files' = f_dest files ∧ (out = Outcome.BackupFailed ∨ out = Outcome.WriteFailed) ∨
  f_dest files' = Some (to_string_pretty settings) ∧
  (out = Outcome.BaseFailed ∨ out = done_ settings ∧
                              f_base files' = Some (to_string_pretty (to_value base))).
Proof.
  intros Hio Hback Hv. unfold write_audited.
  destruct (f_dest files) as [s|] eqn:E; [destruct (io_backup io); [|left; by rewrite <-E; auto]|]; cbn [negb].
  all: destruct (io_dest io); cbn [negb]; [|left; cbn [f_dest set_backup]; by rewrite <-E; auto].
  all: cbn [f_dest set_dest]; rewrite Hio, Hback, bool_decide_eq_true_2 by done.
  all: unfold save_base; destruct (io_base io); auto.
Qed.

Lemma write_audited_differ (io : Io) (settings : Value) (base : Owned) (before : Value)
    (view : Value → Value) (done_ : Value → Outcome.t) (files : Files) (s : str) :
  undisturbed io → reads_back settings → io_revert io = true → before ≠ view settings →
  f_dest files = Some s →
  f_dest (snd (write_audited io settings base before view done_ files)) = Some s.
Proof.
  intros Hio Hback Hr Hv E. unfold write_audited. rewrite E.
  destruct (io_backup io); [|done]. cbn [negb]. destruct (io_dest io); [|done]. cbn [negb].
  cbn [f_dest set_dest]. rewrite Hio, Hback, bool_decide_eq_false_2 by done.
  cbn [snd f_backup set_dest set_backup]. by rewrite Hr.
Qed.

Lemma empty_object_wf : settings_wf empty_object = true.
Proof.
  unfold settings_wf, empty_object, obj_at, as_map.
  rewrite !get_VObject, as_object_VObject, lookup_empty. done.
Qed.

(** With the shipped hooks read as ours and no other writer, an apply ends with the
    settings file as it was, or with the merged settings; a file whose hooks or
    permissions have a shape the merge does not read is always left as it was. *)
Theorem apply_keeps_file (io : Io) (source : option str) (deny want : bool) (files : Files)
    (desired live : Value) :
  undisturbed io → io_revert io = true →
  read_json_or_empty source = Some desired → read_json_or_empty (f_dest files) = Some live →
  all_ours (hooks_of desired) →
  let settings := m_settings (merge live (hooks_of desired) (base_for live (f_base files)) deny want) in
  reads_back settings →
  let files' := snd (apply_to_files io source deny want files) in
  f_dest files' = f_dest files ∨
  settings_wf live = true ∧ f_dest files' = Some (to_string_pretty settings).
Proof.
  intros Hio Hr Es El Hd settings Hback files'. subst files'. unfold apply_to_files. rewrite Es, El.
  set (base := base_for _ _) in *. fold settings.
  case_bool_decide as Hsame.
  { left. unfold save_moved_base, save_base. by repeat case_match; simplify_eq. }
  assert (A := audit_iff live (hooks_of desired) base deny want Hd). cbv zeta in A.
  fold settings in A. destruct (settings_wf live) eqn:W.
  - assert (V := proj2 A eq_refl).
    assert (B := write_audited_agree io settings (m_base (merge live (hooks_of desired) base deny want))
      _ (λ after, stripped_user_view after (theme_stripped
           (m_base (merge live (hooks_of desired) base deny want))
           (theme_may_move live [base; m_base (merge live (hooks_of desired) base deny want)])))
      (λ _, Outcome.Written) files Hio Hback V).
    destruct (write_audited _ _ _ _ _ _ _) as [out f']. cbn [snd].
    destruct B as [[-> _]|[-> _]]; auto.
  - left. destruct (f_dest files) as [s|] eqn:E.
    + apply write_audited_differ; try done. intros V. apply A in V. done.
    + cbn in El. injection El as <-. by rewrite empty_object_wf in W.
Qed.

Lemma write_audited_done (io : Io) (settings : Value) (base : Owned) (before : Value)
    (view : Value → Value) (files files' : Files) :
  undisturbed io → reads_back settings →
  write_audited io settings base before view (λ _, Outcome.Written) files
    = (Outcome.Written, files') →
  f_dest files' = Some (to_string_pretty settings) ∧
  f_base files' = Some (to_string_pretty (to_value base)).
Proof.
  intros Hio Hback. unfold write_audited.
  destruct (f_dest files) as [s|] eqn:E; [destruct (io_backup io); [|done]|]; cbn [negb].
  all: destruct (io_dest io); cbn [negb]; [|done].
  all: cbn [f_dest set_dest]; rewrite Hio, Hback; case_bool_decide; [|done].
  all: unfold save_base; destruct (io_base io); [|done]; by intros [= <-].
Qed.

(** After an apply that wrote, applying again with the same source and settings finds
    everything up to date and touches no file, however its writes would be answered. *)
Theorem apply_settles (io io' : Io) (source : option str) (deny want : bool)
    (files files' : Files) (desired live : Value) :
  undisturbed io →
  read_json_or_empty source = Some desired → read_json_or_empty (f_dest files) = Some live →
  base_wf (base_for live (f_base files)) = true →
  let merged := merge live (hooks_of desired) (base_for live (f_base files)) deny want in
  reads_back (m_settings merged) → reads_back (to_value (m_base merged)) →
  apply_to_files io source deny want files = (Outcome.Written, files') →
  apply_to_files io' source deny want files' = (Outcome.UpToDate, files').
Proof.
  intros Hio Es El Hb merged Hback Hbase Happ. unfold apply_to_files in Happ. rewrite Es, El in Happ.
  fold merged in Happ. case_bool_decide as Hsame.
  { unfold save_moved_base, save_base in Happ. by repeat case_match; simplify_eq. }
  destruct (write_audited_done _ _ _ _ _ _ _ Hio Hback Happ) as [Hd Hf].
  assert (Eb : base_for (m_settings merged) (f_base files') = m_base merged).
  { rewrite Hf. unfold base_for. rewrite Hbase. cbn [fmap option_fmap option_map default id].
    apply from_to_value. }
  assert (Again : merge (m_settings merged) (hooks_of desired) (m_base merged) deny want = merged).
  { apply merge_over_merge; auto. intros k e He. by right. }
  unfold apply_to_files. rewrite Es, Hd, Hback. cbv zeta. rewrite Eb, !Again, bool_decide_eq_true_2 by done.
  unfold save_moved_base, base_moved. rewrite Hf.
  rewrite (bool_decide_eq_false_2 (_ ≠ (o_theme (m_base merged), _))) by naive_solver.
  rewrite (bool_decide_eq_false_2 (to_value _ ≠ _)) by naive_solver.
  by rewrite andb_false_r.
Qed.

(** A settings file that is not UTF-8 reads as empty, so an apply replaces it; the backup
    holds it. *)
Theorem not_utf8_replaced (io : Io) (source : option str) (deny want : bool) (files : Files)
    (desired : Value) (s : str) :
  undisturbed io → io_backup io = true → io_dest io = true →
  read_json_or_empty source = Some desired → all_ours (hooks_of desired) →
  f_dest files = Some s → utf8_valid s = false →
  let settings := m_settings (merge empty_object (hooks_of desired)
                                (base_for empty_object (f_base files)) deny want) in
  reads_back settings →
  let files' := snd (apply_to_files io source deny want files) in
  f_dest files' = Some (to_string_pretty settings) ∧ f_backup files' = Some s.
Proof.
  intros Hio Hk Hw Es Hd E Hu settings Hback files'. subst files'.
  assert (El : read_json_or_empty (f_dest files) = Some empty_object) by (rewrite E; cbn; by rewrite Hu).
  unfold apply_to_files. rewrite Es, El. set (base := base_for _ _) in *. fold settings.
  rewrite bool_decide_eq_false_2; cycle 1.
  { intros Hs. apply (f_equal (λ v, get v "permissions")) in Hs. subst settings. unfold merge in Hs.
    rewrite merge_impl_get in Hs. unfold slot_after in Hs. revert Hs. decide_keys.
    unfold empty_object. rewrite get_VObject, lookup_empty. done. }
  assert (A := audit_iff empty_object (hooks_of desired) base deny want Hd). cbv zeta in A.
  fold settings in A. assert (V := proj2 A empty_object_wf). unfold write_audited.
  rewrite E, Hk, Hw. cbn [negb f_dest set_dest]. rewrite Hio, Hback, bool_decide_eq_true_2 by done.
  unfold save_base. by destruct (io_base io).
Qed.
End Spec.

(** ** A run

    A printer and reader of documents to run the code on, in place of [serde_json]'s: each
    node is a letter, a length or a number, and its parts. *)

Fixpoint wire (v : json) : str :=
  match v with
  | JNull => "n"
  | JBool b => if b then "t" else "f"
  | JNumber n => format ["i"; show_N (Z.to_N n); ";"]
  | JString s => format ["s"; show_N (N.of_nat (length s)); ";"; s]
  | JArray l => format ["a"; show_N (N.of_nat (length l)); ";"; concat (wire <$> l)]
  | JObject m =>
    format ["o"; show_N (N.of_nat (size m)); ";";
            map_fold (λ k x acc, format ["s"; show_N (N.of_nat (length k)); ";"; k; wire x; acc]) "" m]
  end.

Definition wire_number (s : str) : option (nat * str) :=
  '(d, rest) ← split_once ";" s;
  n ← parse_unsigned 1000000 d;
  Some (N.to_nat n, rest).

Fixpoint unwire (fuel : nat) (s : str) : option (json * str) :=
  match fuel with
  | O => None
  | S fuel =>
    match s with
    | c :: s =>
      if c =?a "n" then Some (JNull, s)
      else if c =?a "t" then Some (JBool true, s)
      else if c =?a "f" then Some (JBool false, s)
      else if c =?a "i" then '(n, s) ← wire_number s; Some (JNumber (Z.of_nat n), s)
      else if c =?a "s" then '(n, s) ← wire_number s; Some (JString (take n s), drop n s)
      else if c =?a "a" then
        '(n, s) ← wire_number s;
        '(l, s) ← Nat.iter n (λ acc, '(l, s) ← acc; '(v, s) ← unwire fuel s; Some (l ++ [v], s))
                    (Some ([], s));
        Some (JArray l, s)
      else if c =?a "o" then
        '(n, s) ← wire_number s;
        '(m, s) ← Nat.iter n (λ acc, '(m, s) ← acc; '(k, s) ← unwire fuel s; '(v, s) ← unwire fuel s;
                                     match k with JString k => Some (<[k := v]> m, s) | _ => None end)
                    (Some (∅, s));
        Some (JObject m, s)
      else None
    | [] => None
    end
  end.

#[local] Existing Instance json_value.

#[local, refine] Instance wire_text : SerdeText := {|
  json_from_str s := match unwire 20 s with Some (v, []) => Some v | _ => None end;
  to_string_pretty := wire;
|}.
Proof. Defined.

Definition answers : Io :=
  {| io_backup := true; io_dest := true; io_revert := true; io_base := true; io_during := Some |}.

(** One of the shipped entries. *)
Definition few_hooks : Value := obj
  [("SessionStart", JArray [entry (Some "clear")
     [cmd "${HOME}/.claude/hooks/ways/clear-markers.sh" []]])].
Lemma few_recognized : recognized few_hooks = true.
Proof. vm_compute. reflexivity. Qed.

Definition example_source : Value := obj [("hooks", few_hooks)].
Definition example_files : Files :=
  {| f_dest := Some (wire example_live); f_backup := None; f_base := None |}.

Lemma apply_keeps_file_witness :
  let files' := snd (apply_to_files answers (Some (wire example_source)) true true example_files) in
  f_dest files' = f_dest example_files ∨
  settings_wf example_live = true ∧
  f_dest files' = Some (to_string_pretty (m_settings (merge example_live (hooks_of example_source)
                           (base_for example_live (f_base example_files)) true true))).
Proof.
  apply (apply_keeps_file answers (Some (wire example_source)) true true example_files
    example_source example_live).
  - done.
  - done.
  - vm_compute. reflexivity.
  - vm_compute. reflexivity.
  - by apply (recognized_covered few_hooks few_hooks), few_recognized.
  - vm_compute. reflexivity.
Defined.

Definition example_applied : Files :=
  snd (apply_to_files answers (Some (wire example_source)) true true example_files).

Lemma apply_settles_witness :
  apply_to_files answers (Some (wire example_source)) true true example_applied =
  (Outcome.UpToDate, example_applied).
Proof.
  apply (apply_settles answers answers (Some (wire example_source)) true true example_files
    example_applied example_source example_live).
  - done.
  - vm_compute. reflexivity.
  - vm_compute. reflexivity.
  - vm_compute. reflexivity.
  - vm_compute. reflexivity.
  - vm_compute. reflexivity.
  - vm_compute. reflexivity.
Defined.
