(* ===== verification/RustText.v ===== *)
(** * More of Rust's strings

    Reading a file as text, splitting from the right and into at most so many pieces, and
    the UTF-16 code units of a string. *)

From Stdlib Require Import Ascii.
From stdpp Require Import base tactics list numbers strings option.
From S2P Require Import Prelude RustStr.

(** [fs::read_to_string] *)
Definition read_text (f : option str) : option str :=
  t ← f; if utf8_valid t then Some t else None.

(** [s.rsplit_once(c)] for an ASCII [c]. *)
Definition rsplit_once (c : ascii) (s : str) : option (str * str) :=
  i ← rposition (Ascii.eqb c) s; Some (take i s, drop (S i) s).

(** [s.splitn(n, c)] and [s.rsplitn(n, c)] for an ASCII [c]. *)
Fixpoint splitn (n : nat) (c : ascii) (s : str) : list str :=
  match n with
  | 0 => []
  | 1 => [s]
  | S n => match split_once c s with Some (a, b) => a :: splitn n c b | None => [s] end
  end.

Fixpoint rsplitn (n : nat) (c : ascii) (s : str) : list str :=
  match n with
  | 0 => []
  | 1 => [s]
  | S n => match rsplit_once c s with Some (a, b) => b :: rsplitn n c a | None => [s] end
  end.

(** [s.chars().map(f).collect()] *)
Definition map_chars (f : str → str) (s : str) : str := concat (f <$> chars s).

(** The code point a character encodes. *)
Definition char_code (ch : str) : N :=
  match byte_val <$> ch with
  | [a] => a
  | [a; b] => (a - 192) * 64 + (b - 128)
  | [a; b; c] => (a - 224) * 4096 + (b - 128) * 64 + (c - 128)
  | [a; b; c; d] => (a - 240) * 262144 + (b - 128) * 4096 + (c - 128) * 64 + (d - 128)
  | _ => 0
  end%N.

(** [s.encode_utf16()] *)
Definition utf16_units (ch : str) : list N :=
  let c := char_code ch in
  if (c <? 65536)%N then [c]
  else [55296 + (c - 65536) / 1024; 56320 + (c - 65536) mod 1024]%N.
Definition encode_utf16 (s : str) : list N := concat (utf16_units <$> chars s).
