(* ===== verification/RustTextFacts.v ===== *)
(** * Facts on text

    Lemmas on splitting at a character, on trimming and on lines: what a trim leaves, which
    text is one line, and how lines and their numbers read back. *)

From Stdlib Require Import Ascii.
From stdpp Require Import base tactics list numbers strings option.
From S2P Require Import Prelude RustStr RustStrFacts RustPath RustPathFacts RustText.

Lemma split_once_here c a r :
  forallb (λ x, negb (c =?a x)) a = true → split_once c (a ++ c :: r) = Some (a, r).
Proof.
  intros Ha. assert (Hp : position (Ascii.eqb c) (a ++ c :: r) = Some (length a)).
  { induction a as [|x a IH]; cbn; [by rewrite Ascii.eqb_refl|]. cbn in Ha. apply andb_prop in Ha as [Hx Ha].
    apply negb_true_iff in Hx. by rewrite Hx, IH. }
  unfold split_once. rewrite Hp. cbn. rewrite take_app_length. do 2 f_equal.
  by rewrite (cons_middle c a r), app_assoc, drop_app_length' by (rewrite length_app; cbn; lia).
Qed.

Lemma split_once_spec c s a b :
  split_once c s = Some (a, b) → s = a ++ c :: b ∧ forallb (λ x, negb (c =?a x)) a = true.
Proof.
  revert a b. induction s as [|x s IH]; intros a b; [done|]. unfold split_once in *. cbn [position].
  destruct (c =?a x) eqn:E.
  - cbn. intros [= <- <-]. apply Ascii.eqb_eq in E as ->. by rewrite drop_0.
  - destruct (position (Ascii.eqb c) s) as [i|] eqn:P; [|done]. cbn. intros [= <- <-].
    destruct (IH (take i s) (drop (S i) s)) as [H1 H2]; [done|]. cbn. rewrite E, H2. cbn. by rewrite <-H1.
Qed.

Lemma rposition_here c a r :
  forallb (λ x, negb (c =?a x)) r = true → rposition (Ascii.eqb c) (a ++ c :: r) = Some (length a).
Proof.
  intros Hr. assert (Hn : rposition (Ascii.eqb c) r = None).
  { clear a. induction r as [|x r IH]; [done|]. cbn in *. apply andb_prop in Hr as [Hx Hr].
    apply negb_true_iff in Hx. by rewrite IH, Hx. }
  induction a as [|x a IH]; cbn; [by rewrite Hn, Ascii.eqb_refl|]. by rewrite IH.
Qed.

Lemma rsplit_once_here c a r :
  forallb (λ x, negb (c =?a x)) r = true → rsplit_once c (a ++ c :: r) = Some (a, r).
Proof.
  intros Hr. unfold rsplit_once. rewrite rposition_here by done. cbn [mbind option_bind].
  rewrite take_app_length. do 2 f_equal.
  by rewrite (cons_middle c a r), app_assoc, drop_app_length' by (rewrite length_app; cbn; lia).
Qed.

Lemma lead_char_width c w : lead_width c = Some w → char_width c = w.
Proof.
  intros H. pose proof (lead_width_range _ _ H) as Hr. revert H. unfold lead_width, char_width, is_ascii, byte_in.
  repeat case_match; intros [= <-]; bool_prop; try done; exfalso; lia.
Qed.

Lemma chars_char ch r : char_enc ch = true → chars (ch ++ r) = ch :: chars r.
Proof.
  intros (c & t & -> & Hw & Hc & _)%char_enc_inv.
  pose proof (lead_width_range _ _ Hw) as Hr. apply lead_char_width in Hw.
  cbn [app length] in *. rewrite chars_cons, Hw.
  destruct t as [|c1 [|c2 [|c3 [|]]]]; cbn [length app] in *; try done; lia.
Qed.

Lemma chars_app a b : utf8_valid a = true → chars (a ++ b) = chars a ++ chars b.
Proof.
  revert a. apply utf8_valid_ind; [done|]. intros ch r Hch Hr IH.
  rewrite <-app_assoc, (chars_char ch (r ++ b)), (chars_char ch r) by done. cbn [app]. by rewrite IH.
Qed.

Lemma chars_enc s : utf8_valid s = true → Forall (λ ch, char_enc ch = true) (chars s).
Proof.
  revert s. apply utf8_valid_ind; [constructor|]. intros ch r Hch Hr IH.
  rewrite chars_char by done. by constructor.
Qed.

Lemma chars_concat l : Forall (λ ch, char_enc ch = true) l →
  chars (concat l) = l ∧ utf8_valid (concat l) = true.
Proof.
  induction 1 as [|ch l Hch _ [IH IHv]]; [done|]. cbn [concat].
  by rewrite chars_char, IH, utf8_valid_char.
Qed.

(** ** Strings that begin or end with no white space *)

Definition solid_start (s : str) : bool :=
  match head (chars s) with Some ch => negb (is_whitespace ch) | None => false end.
Definition solid_end (s : str) : bool :=
  match head (reverse (chars s)) with Some ch => negb (is_whitespace ch) | None => false end.

Lemma trim_start_solid s : solid_start s = true → trim_start s = s.
Proof.
  unfold solid_start, trim_start. intros H. rewrite <-(concat_chars s) at 2.
  destruct (chars s) as [|ch l]; [done|]. cbn in *. by destruct (is_whitespace ch).
Qed.

Lemma trim_end_solid s : solid_end s = true → trim_end s = s.
Proof.
  unfold solid_end, trim_end. intros H. rewrite <-(concat_chars s) at 2.
  rewrite <-(reverse_involutive (chars s)) at 2. do 2 f_equal.
  destruct (reverse (chars s)) as [|ch l]; [done|]. cbn in *. by destruct (is_whitespace ch).
Qed.

Lemma trim_solid s : solid_start s = true → solid_end s = true → trim s = s.
Proof. intros Hs He. unfold trim. by rewrite trim_start_solid, trim_end_solid. Qed.

Lemma solid_start_app a b : utf8_valid a = true → solid_start a = true → solid_start (a ++ b) = true.
Proof. intros Ha. unfold solid_start. rewrite chars_app by done. by destruct (chars a). Qed.

Lemma solid_end_app a b : utf8_valid a = true → solid_end b = true → solid_end (a ++ b) = true.
Proof.
  intros Ha. unfold solid_end. rewrite chars_app, reverse_app by done.
  by destruct (reverse (chars b)).
Qed.

(** A blank is ASCII white space. *)
Definition blank (c : ascii) : bool := is_ascii c && is_whitespace [c].

Lemma trim_start_blank a s : forallb blank a = true → trim_start (a ++ s) = trim_start s.
Proof.
  induction a as [|c a IH]; [done|]. cbn [forallb app]. intros [Hc Ha]%andb_prop.
  apply andb_prop in Hc as [Hc Hw]. unfold trim_start in *.
  rewrite chars_cons, char_width_ascii by done. cbn [drop_while]. rewrite Hw. by apply IH.
Qed.

Lemma trim_blank a s : forallb blank a = true → trim (a ++ s) = trim s.
Proof. intros Ha. unfold trim. by rewrite trim_start_blank. Qed.

(** ** What a trim leaves *)

Lemma trim_shape s : utf8_valid s = true →
  utf8_valid (trim s) = true ∧
  (trim s = [] ∨ solid_start (trim s) = true ∧ solid_end (trim s) = true).
Proof.
  intros Hv. apply chars_enc in Hv. unfold trim, trim_start, trim_end.
  set (d := drop_while is_whitespace (chars s)).
  assert (Hd : Forall (λ ch, char_enc ch = true) d).
  { rewrite <-(take_while_drop_while is_whitespace (chars s)) in Hv.
    by apply Forall_app in Hv as [_ Hv]. }
  rewrite (proj1 (chars_concat d Hd)). set (e := drop_while is_whitespace (reverse d)).
  assert (Ee : reverse d = take_while is_whitespace (reverse d) ++ e)
    by (symmetry; apply take_while_drop_while).
  assert (Hr : d = reverse e ++ reverse (take_while is_whitespace (reverse d)))
    by (by rewrite <-reverse_app, <-Ee, reverse_involutive).
  assert (He : Forall (λ ch, char_enc ch = true) (reverse e)) by (rewrite Hr in Hd; by apply Forall_app in Hd as [Hd _]).
  destruct (chars_concat _ He) as [Ec Hvc]. split; [done|].
  destruct e as [|x e'] eqn:E; [by left|right]. unfold solid_start, solid_end. rewrite Ec.
  split.
  - destruct (reverse (x :: e')) as [|y t] eqn:Q.
    { apply (f_equal length) in Q. by rewrite length_reverse in Q. }
    cbn. apply negb_true_iff. by eapply (drop_while_head _ (chars s)).
  - rewrite reverse_involutive. cbn. apply negb_true_iff. by eapply drop_while_head.
Qed.

Lemma drop_while_in {A} (p : A → bool) l x : x ∈ drop_while p l → x ∈ l.
Proof. rewrite <-(take_while_drop_while p l) at 2. rewrite elem_of_app. by right. Qed.

Lemma in_concat_chars c l : c ∈ concat l ↔ ∃ ch : str, ch ∈ l ∧ c ∈ ch.
Proof.
  rewrite list_elem_of_In, List.in_concat. by setoid_rewrite <-list_elem_of_In.
Qed.

(** A trim adds no byte. *)
Lemma trim_bytes (p : ascii → bool) s : forallb p s = true → forallb p (trim s) = true.
Proof.
  assert (Hstart : ∀ c t, c ∈ trim_start t → c ∈ t).
  { intros c t (ch & Hch%drop_while_in & Hc)%in_concat_chars. rewrite <-(concat_chars t).
    apply in_concat_chars. eauto. }
  assert (Hend : ∀ c t, c ∈ trim_end t → c ∈ t).
  { intros c t (ch & Hch & Hc)%in_concat_chars. apply elem_of_reverse, drop_while_in in Hch.
    rewrite elem_of_reverse in Hch. rewrite <-(concat_chars t). apply in_concat_chars. eauto. }
  rewrite !forallb_forall. intros H c Hc. apply H, list_elem_of_In, Hstart, Hend.
  by apply list_elem_of_In.
Qed.

Definition one_line (s : str) : bool := utf8_valid s && forallb (λ c, negb (nl =?a c)) s.

(** Text on one line that a trim leaves alone. *)
Definition line_ok (s : str) : bool := one_line s && solid_start s && solid_end s.

(** ** Lines *)

(** A line that ends with a character that is not white space ends with no carriage
    return. *)
Lemma strip_cr_solid s : utf8_valid s = true → solid_end s = true → strip_cr s = s.
Proof.
  intros Hv. unfold strip_cr, solid_end. destruct (strip_suffix [cr] s) as [r|] eqn:E; [|done].
  apply strip_suffix_spec in E. apply chars_enc in Hv. rewrite <-(concat_chars s) in E.
  rewrite <-(reverse_involutive (chars s)) in E, Hv.
  destruct (reverse (chars s)) as [|ch l]; [done|]. cbn [list.head]. intros Hw. exfalso.
  rewrite reverse_cons in Hv, E. rewrite concat_app in E. cbn [concat] in E. rewrite app_nil_r in E.
  apply Forall_app in Hv as [_ Hv]. rewrite Forall_singleton in Hv.
  apply char_enc_inv in Hv as (c & t & -> & _ & Ht & _).
  destruct t as [|x t _] using rev_ind.
  - apply app_inj_tail in E as [_ ->]. vm_compute in Hw. done.
  - rewrite app_comm_cons, app_assoc in E. apply app_inj_tail in E as [_ ->].
    rewrite forallb_app in Ht. cbn in Ht. by rewrite andb_false_r in Ht.
Qed.

Lemma lines_kept (ls : list str) :
  Forall (λ l, forallb (λ c, negb (nl =?a c)) l = true ∧ strip_cr l = l) ls →
  lines (concat ((λ l, l ++ [nl]) <$> ls)) = ls.
Proof.
  intros Hls. unfold lines, split_char.
  assert (E : split_on (Ascii.eqb nl) (concat ((λ l, l ++ [nl]) <$> ls)) = ls ++ [[]]).
  { induction Hls as [|l ls [Hl _] _ IH]; [done|]. cbn [fmap list_fmap concat].
    rewrite <-app_assoc. cbn [app]. rewrite split_on_app by done. cbn [app]. by rewrite <-IH. }
  rewrite E, reverse_snoc. cbn [app]. rewrite fmap_reverse, reverse_involutive.
  clear E. induction Hls as [|l ls [_ Hc] _ IH]; [done|]. cbn [fmap list_fmap]. by rewrite Hc, IH.
Qed.

Lemma lines_text (ls : list str) :
  Forall (λ l, one_line l = true ∧ solid_end l = true) ls →
  lines (concat ((λ l, l ++ [nl]) <$> ls)) = ls.
Proof.
  intros Hls. apply lines_kept. rewrite Forall_forall in *. intros l [Hl He]%Hls.
  unfold one_line in Hl. bool_prop. split; [done|]. by apply strip_cr_solid.
Qed.

(** A line with no carriage return loses none. *)
Lemma strip_cr_none l : contains_char cr l = false → strip_cr l = l.
Proof.
  unfold strip_cr. destruct (strip_suffix [cr] l) as [r|] eqn:E; [|done]. apply strip_suffix_spec in E as ->.
  unfold contains_char. rewrite existsb_app. cbn. by rewrite orb_true_r.
Qed.

Lemma ascii_one_line a s :
  forallb (λ c, is_ascii c && negb (nl =?a c)) a = true → one_line s = true → one_line (a ++ s) = true.
Proof.
  intros Ha Hs. unfold one_line in *. apply andb_prop in Hs as [Hv Hn].
  assert (Hasc : utf8_valid a = true).
  { apply utf8_valid_ascii. rewrite forallb_forall in *. intros c Hc%Ha. by apply andb_prop in Hc as [? _]. }
  rewrite utf8_valid_app, Hv, forallb_app, Hn by done. cbn [andb]. rewrite andb_true_r.
  rewrite forallb_forall in *. intros c Hc%Ha. by apply andb_prop in Hc as [_ ?].
Qed.

Lemma one_line_valid s : one_line s = true → utf8_valid s = true.
Proof. unfold one_line. by intros [? _]%andb_prop. Qed.

Lemma line_ok_inv s : line_ok s = true →
  one_line s = true ∧ utf8_valid s = true ∧ solid_start s = true ∧ solid_end s = true.
Proof.
  unfold line_ok. intros [[Ho Hs]%andb_prop He]%andb_prop. split_and!; try done. by apply one_line_valid.
Qed.

Lemma digit_solid c : is_digit c = true → is_ascii c = true ∧ is_whitespace [c] = false ∧ (nl =?a c) = false.
Proof. by destruct c as [[] [] [] [] [] [] [] []]. Qed.

Lemma digits_line_ok d : forallb is_digit d = true → d ≠ [] → line_ok d = true.
Proof.
  intros Hd Hne. assert (Ha : forallb is_ascii d = true).
  { rewrite forallb_forall in *. intros c Hc. by apply digit_solid, Hd. }
  unfold line_ok, one_line. rewrite utf8_valid_ascii by done. unfold solid_start, solid_end.
  rewrite chars_ascii by done. rewrite <-fmap_reverse.
  replace (forallb (λ c, negb (nl =?a c)) d) with true.
  2:{ symmetry. rewrite forallb_forall in *. intros c Hc. apply negb_true_iff. by apply digit_solid, Hd. }
  assert (Hw : ∀ c, c ∈ d → is_whitespace [c] = false).
  { intros c Hc%list_elem_of_In. apply digit_solid. rewrite forallb_forall in Hd. by apply Hd. }
  destruct d as [|c d _] using rev_ind; [done|]. rewrite reverse_snoc. cbn [fmap list_fmap list.head].
  rewrite (Hw c) by (apply elem_of_app; right; by left).
  destruct d as [|c' d]; cbn [app fmap list_fmap list.head]; rewrite Hw; [done|by left|done|by left].
Qed.

(** ** What the checks on names let through *)

Lemma no_control_no_newline s : utf8_valid s = true → existsb is_control (chars s) = false →
  forallb (λ c, negb (nl =?a c)) s = true.
Proof.
  revert s. apply (utf8_valid_ind (λ s, existsb is_control (chars s) = false →
    forallb (λ c, negb (nl =?a c)) s = true)); [done|].
  intros ch r Hch _ IH. rewrite chars_char by done. cbn [existsb]. intros [Hc Hr]%orb_false_iff.
  rewrite forallb_app, (IH Hr), andb_true_r. apply char_enc_inv in Hch as (c & t & -> & Hw & Ht & _).
  cbn [forallb]. apply andb_true_intro. split.
  - apply negb_true_iff, Ascii.eqb_neq. intros <-. destruct t as [|x t]; [by vm_compute in Hc|].
    by vm_compute in Hw.
  - rewrite forallb_forall in *. intros x Hx%Ht. apply negb_true_iff, Ascii.eqb_neq. intros <-.
    by vm_compute in Hx.
Qed.

(** ** The lines of valid text *)

Lemma valid_around w c r :
  is_ascii c = true → utf8_valid (w ++ c :: r) = true → utf8_valid w = true ∧ utf8_valid r = true.
Proof.
  intros Hc Hv. assert (Hl : (w ++ c :: r) !! length w = Some c) by (by apply list_lookup_middle).
  pose proof (boundary_ascii _ _ _ Hl Hc) as Hb.
  destruct (valid_split _ _ Hv Hb) as [Ht _]. rewrite take_app_length in Ht. split; [done|].
  destruct (valid_split _ _ Hv (boundary_after_ascii _ _ _ Hv Hl Hc)) as [_ Hd].
  by rewrite drop_app_add in Hd.
Qed.

Lemma split_on_cases {A} (p : A → bool) (s : list A) :
  (forallb (λ x, negb (p x)) s = true ∧ split_on p s = [s]) ∨
  ∃ w x r, s = w ++ x :: r ∧ p x = true ∧ forallb (λ x, negb (p x)) w = true ∧
    split_on p s = w :: split_on p r.
Proof.
  induction s as [|y s IH]; [by left|]. destruct (p y) eqn:P.
  - right. exists [], y, s. split_and!; try done. cbn. by rewrite P.
  - destruct IH as [[Hs E]|(w & x & r & -> & Px & Hw & E)].
    + left. cbn. by rewrite P, Hs, E.
    + right. exists (y :: w), x, r. split_and!; try done; cbn; by rewrite P, ?Hw, ?E.
Qed.

Lemma split_on_in {A} (p : A → bool) (s w : list A) x : w ∈ split_on p s → x ∈ w → x ∈ s.
Proof.
  revert w. induction s as [|y s IH]; intros w; cbn [split_on].
  - intros ->%list_elem_of_singleton. done.
  - destruct (p y).
    + intros [->|Hw]%elem_of_cons Hx; [by apply elem_of_nil in Hx|]. right. eauto.
    + destruct (split_on p s) as [|w0 ws].
      * intros ->%list_elem_of_singleton ->%list_elem_of_singleton. by left.
      * intros [->|Hw]%elem_of_cons Hx.
        -- apply elem_of_cons in Hx as [->|Hx]; [by left|right]. apply (IH w0); [by left|done].
        -- right. apply (IH w); [by right|done].
Qed.

Lemma split_char_valid c s :
  is_ascii c = true → utf8_valid s = true → Forall (λ w, utf8_valid w = true) (split_char c s).
Proof.
  intros Hc. unfold split_char. remember (length s) as n eqn:Hn. revert s Hn.
  induction (lt_wf n) as [n _ IH]. intros s -> Hv.
  destruct (split_on_cases (Ascii.eqb c) s) as [[_ ->]|(w & x & r & -> & Px & _ & ->)]; [by constructor|].
  apply Ascii.eqb_eq in Px as <-. destruct (valid_around _ _ _ Hc Hv) as [Hw Hr]. constructor; [done|].
  apply (IH (length r)); [rewrite length_app; cbn; lia|done|done].
Qed.

Lemma strip_cr_valid l : utf8_valid l = true → utf8_valid (strip_cr l) = true.
Proof.
  unfold strip_cr. destruct (strip_suffix [cr] l) as [r|] eqn:E; [|done].
  apply strip_suffix_spec in E as ->. intros H. by apply (valid_around r cr []).
Qed.

Lemma strip_cr_bytes (p : ascii → bool) l : forallb p l = true → forallb p (strip_cr l) = true.
Proof.
  unfold strip_cr. destruct (strip_suffix [cr] l) as [r|] eqn:E; [|done].
  apply strip_suffix_spec in E as ->. rewrite forallb_app. by intros [? _]%andb_prop.
Qed.

(** Every line of valid text is on one line. *)
Lemma lines_valid s : utf8_valid s = true → Forall (λ l, one_line l = true) (lines s).
Proof.
  intros Hv. unfold lines, split_char.
  assert (H : Forall (λ w, one_line w = true) (split_on (Ascii.eqb nl) s)).
  { pose proof (split_char_valid nl s eq_refl Hv) as H1. pose proof (split_on_plain (Ascii.eqb nl) s) as H2.
    unfold split_char in H1. rewrite Forall_forall in *. intros w Hw. unfold one_line.
    by rewrite (H1 w Hw), (H2 w Hw). }
  apply Forall_reverse in H. destruct (reverse _) as [|last before]; [constructor|].
  inversion_clear H as [|? ? Hl Hb]. apply Forall_reverse, Forall_app. split.
  - destruct last; [constructor|by constructor].
  - apply Forall_fmap, Forall_forall. rewrite Forall_forall in Hb. intros l Ho%Hb. unfold compose, one_line in *.
    apply andb_prop in Ho as [Hv' Hn]. by rewrite strip_cr_valid, strip_cr_bytes.
Qed.

(** A trimmed line is blank, or text a trim leaves alone. *)
Lemma trim_line l : one_line l = true → trim l = [] ∨ line_ok (trim l) = true.
Proof.
  unfold one_line. intros [Hv Hn]%andb_prop. destruct (trim_shape l Hv) as [Hvt [?|[Hs He]]]; [by left|right].
  unfold line_ok, one_line. by rewrite Hvt, Hs, He, trim_bytes.
Qed.

(** ** The end of a line *)

(** Text on one line that ends in a character that is no white space. *)
Definition tail_ok (s : str) : bool := one_line s && solid_end s.

Lemma line_app a s :
  forallb (λ c, is_ascii c && negb (nl =?a c)) a && solid_start a = true → tail_ok s = true →
  line_ok (a ++ s) = true.
Proof.
  unfold tail_ok. intros [Ha Hs]%andb_prop [Ho He]%andb_prop.
  assert (Hv : utf8_valid a = true).
  { apply utf8_valid_ascii. rewrite forallb_forall in *. intros c Hc%Ha. by apply andb_prop in Hc as [? _]. }
  unfold line_ok. by rewrite ascii_one_line, solid_start_app, solid_end_app.
Qed.

Lemma line_tail_ok s : line_ok s = true → tail_ok s = true.
Proof. intros (Ho & _ & _ & He)%line_ok_inv. unfold tail_ok. by rewrite Ho. Qed.

Lemma show_N_line n : line_ok (show_N n) = true.
Proof. destruct (show_N_digits n) as (Hd & _ & Hne). by apply digits_line_ok. Qed.

Lemma tail_of a s : utf8_valid a = true → solid_end a = false → line_ok (a ++ s) = true → tail_ok s = true.
Proof.
  intros Ha Hf (Ho & Hv & _ & He)%line_ok_inv. unfold tail_ok, one_line in *.
  rewrite utf8_valid_app in Hv by done. apply andb_prop in Ho as [_ Hn]. rewrite forallb_app in Hn.
  apply andb_prop in Hn as [_ Hn]. rewrite Hv, Hn. cbn [andb]. unfold solid_end in *.
  rewrite chars_app, reverse_app in He by done. destruct (reverse (chars s)) as [|x l] eqn:E; [|done].
  cbn [app] in He. congruence.
Qed.

Lemma tail_ok_inv s : tail_ok s = true → one_line s = true ∧ utf8_valid s = true ∧ solid_end s = true.
Proof. unfold tail_ok. intros [Ho He]%andb_prop. split_and!; try done. by apply one_line_valid. Qed.

Lemma parse_unsigned_le max s n : parse_unsigned max s = Some n → (n ≤ max)%N.
Proof. unfold parse_unsigned. repeat case_match; intros ?; simplify_eq; bool_prop; lia. Qed.
