(* ===== verification/GroupsYaml.v ===== *)
(** * Channels and their file

    [tools/attend-groups/src/lib.rs]: the names a channel and a member may have, and
    [_groups.yaml], the file of the channels: its entries, its parser and its printer.
    [HashMap<String, GroupEntry>] is a finite map. What is printed reads back
    ([channels_file_round_trip]). *)

From Stdlib Require Import Ascii.
From stdpp Require Import base tactics list numbers strings option gmap sorting.
From S2P Require Import Prelude RustStr RustStrFacts RustPath RustPathFacts RustTextFacts.

(** ** Names *)

Definition GROUP_PREFIX : str := "@".
Definition BUSY : str := "channels are busy; try again".
Definition BROADCAST_DIR : str := "_broadcast".
Definition BASE_CHANNEL : str := "open".

(** [None] where the name is accepted, the error where it is not. *)
Definition validate_group_name (name : str) : option str :=
  if bool_decide (name = []) then Some "group name cannot be empty"
  else if starts_with "_" name || starts_with "@" name then
    Some "group name cannot start with _ or @"
  else if contains_char "/" name || contains_char " " name then
    Some "group name cannot contain / or spaces"
  else if contains_char "#" name || contains_char ":" name then
    Some "group name cannot contain # or :"
  else if str_eqb name "broadcast" || str_eqb name "open" then
    Some (format ["'"; name; "' is reserved"])
  else None.

Definition validate_member_id (member : str) : option str :=
  if bool_decide (member = []) || contains_char "/" member || contains_char bslash member ||
     starts_with "." member
  then Some (format ["'"; member; "' is not a member id"])
  else None.

(** The description to keep, or the error. *)
Definition normalize_description (text : str) : option str + str :=
  if existsb is_control (chars text) then
    inr "description must be a single line of printable text"
  else
    let t := trim text in
    inl (if bool_decide (t = []) then None else Some t).

Definition is_ascii_hexdigit (c : ascii) : bool :=
  is_digit c || byte_in 65 70 c || byte_in 97 102 c.

Definition UUID_PARTS : list nat := [8; 4; 4; 4; 12].

Definition is_agent_member (id : str) : bool :=
  if starts_with "pid-" id then true
  else
    let parts := split_char "-" id in
    (length parts =? 5) &&
    forallb (λ '(len, p), (length p =? len) && forallb is_ascii_hexdigit p)
      (zip UUID_PARTS parts).

(** ** The state of the channels *)

Record GroupEntry := {
  ge_pinned : bool;
  ge_members : list str;
  ge_description : option str;
}.

Definition GroupEntry_default : GroupEntry :=
  {| ge_pinned := false; ge_members := []; ge_description := None |}.

#[export] Instance GroupEntry_eq_dec : EqDecision GroupEntry.
Proof. solve_decision. Defined.

Abbreviation Channels := (gmap str GroupEntry).

(** What [parse_groups_yaml] holds between two lines. *)
Record Parser := {
  pa_rooms : Channels;
  pa_room : option str;
  pa_pinned : bool;
  pa_members : list str;
  pa_description : option str;
}.

Definition parser0 : Parser :=
  {| pa_rooms := ∅; pa_room := None; pa_pinned := false; pa_members := [];
     pa_description := None |}.

Definition save_room (p : Parser) : Channels :=
  match pa_room p with
  | Some name =>
    <[name := {| ge_pinned := pa_pinned p; ge_members := pa_members p;
                 ge_description := pa_description p |}]> (pa_rooms p)
  | None => pa_rooms p
  end.

(** A property of the group. *)
Definition parse_property (p : Parser) (trimmed : str) : Parser :=
  match split_once ":" trimmed with
  | Some (key, value) =>
    let key := trim key in
    let value := trim value in
    if str_eqb key "pinned" then
      {| pa_rooms := pa_rooms p; pa_room := pa_room p; pa_pinned := str_eqb value "true";
         pa_members := pa_members p; pa_description := pa_description p |}
    else if str_eqb key "description" && negb (bool_decide (value = [])) then
      {| pa_rooms := pa_rooms p; pa_room := pa_room p; pa_pinned := pa_pinned p;
         pa_members := pa_members p; pa_description := Some value |}
    else p
  | None => p
  end.

Definition parse_member (p : Parser) (trimmed : str) : Parser :=
  match strip_prefix "- " trimmed with
  | Some member =>
    {| pa_rooms := pa_rooms p; pa_room := pa_room p; pa_pinned := pa_pinned p;
       pa_members := pa_members p ++ [member]; pa_description := pa_description p |}
  | None => p
  end.

Definition parse_line (p : Parser) (line : str) : Parser :=
  let trimmed := trim line in
  if bool_decide (trimmed = []) || starts_with "#" trimmed then p
  else
    let indent := length line - length (trim_start line) in
    if (indent =? 0) && ends_with ":" trimmed then
      {| pa_rooms := save_room p; pa_room := Some (trim_end_matches ":" trimmed);
         pa_pinned := false; pa_members := []; pa_description := None |}
    else
      let p := if indent =? 2 then parse_property p trimmed else p in
      if indent =? 4 then parse_member p trimmed else p.

Definition parse_groups_yaml (content : str) : Channels :=
  save_room (fold_left parse_line (lines content) parser0).

(** [String]'s order, by bytes. *)
Fixpoint str_leb (a b : str) : bool :=
  match a, b with
  | [], _ => true
  | _ :: _, [] => false
  | x :: a, y :: b =>
    if (byte_val x <? byte_val y)%N then true
    else if (byte_val y <? byte_val x)%N then false
    else str_leb a b
  end.

Definition str_le (a b : str) : Prop := str_leb a b = true.
#[export] Instance str_le_dec : RelDecision str_le := λ a b, bool_eq_dec (str_leb a b) true.

(** [names.sort()] *)
Definition sort_names (l : list str) : list str := merge_sort str_le l.

Definition show_bool (b : bool) : str := if b then "true" else "false".

(** The lines of one entry. *)
Definition entry_text (name : str) (e : GroupEntry) : str :=
  format ([name; ":"; [nl]; "  pinned: "; show_bool (ge_pinned e); [nl]] ++
          match ge_description e with
          | Some d => ["  description: "; d; [nl]]
          | None => []
          end ++
          ["  members:"; [nl]] ++
          ((λ m, format ["    - "; m; [nl]]) <$> ge_members e)).

Definition serialize_groups_yaml (state : Channels) : str :=
  concat ((λ name, entry_text name (default GroupEntry_default (state !! name))) <$>
          sort_names (map_to_list state).*1).

Lemma str_leb_trans a b c : str_leb a b = true → str_leb b c = true → str_leb a c = true.
Proof.
  revert b c. induction a as [|x a IH]; intros [|y b] [|z c]; cbn; try done.
  repeat case_match; bool_prop; try done; try lia. intros. by eapply IH.
Qed.

Lemma str_leb_total a b : str_leb a b = true ∨ str_leb b a = true.
Proof.
  revert b. induction a as [|x a IH]; intros [|y b]; cbn; auto. repeat case_match; bool_prop; auto; lia.
Qed.

Lemma str_leb_antisym a b : str_leb a b = true → str_leb b a = true → a = b.
Proof.
  revert b. induction a as [|x a IH]; intros [|y b]; cbn; try done.
  repeat case_match; bool_prop; try done; try lia. intros. f_equal; [|by apply IH].
  rewrite <-(ascii_N_embedding x), <-(ascii_N_embedding y). f_equal. unfold byte_val in *. lia.
Qed.

#[export] Instance str_le_trans : Transitive str_le := str_leb_trans.
#[export] Instance str_le_total : Total str_le := str_leb_total.
#[export] Instance str_le_antisym : AntiSymm (=) str_le := str_leb_antisym.

Lemma sort_names_in l x : x ∈ sort_names l ↔ x ∈ l.
Proof. unfold sort_names. by rewrite merge_sort_Permutation. Qed.

Lemma sort_names_NoDup l : NoDup l → NoDup (sort_names l).
Proof. unfold sort_names. by rewrite merge_sort_Permutation. Qed.

(** ** Plain lines *)

Definition member_ok (m : str) : bool := one_line m && solid_end m.
Definition name_ok (name : str) : bool :=
  line_ok name && bool_decide (validate_group_name name = None).
Definition entry_ok (e : GroupEntry) : bool :=
  forallb member_ok (ge_members e) &&
  match ge_description e with Some d => line_ok d | None => true end.

Definition wire_ok (state : Channels) : Prop :=
  map_Forall (λ name e, name_ok name = true ∧ entry_ok e = true) state.

(** ** The lines of an entry *)

Definition description_lines (d : option str) : list str :=
  match d with Some d => ["  description: " ++ d] | None => [] end.

Definition entry_lines (name : str) (e : GroupEntry) : list str :=
  [name ++ ":"; "  pinned: " ++ show_bool (ge_pinned e)] ++ description_lines (ge_description e) ++
  ["  members:"] ++ ((λ m, "    - " ++ m) <$> ge_members e).

Lemma members_text (ms : list str) :
  concat ((λ m, format ["    - "; m; [nl]]) <$> ms) =
  concat ((λ l, l ++ [nl]) <$> ((λ m, "    - " ++ m) <$> ms)).
Proof.
  induction ms as [|m l IH]; [done|]. cbn [fmap list_fmap concat]. rewrite <-IH. unfold format.
  cbn [concat]. by rewrite app_nil_r, <-!app_assoc.
Qed.

Lemma entry_text_lines name e :
  entry_text name e = concat ((λ l, l ++ [nl]) <$> entry_lines name e).
Proof.
  unfold entry_text, entry_lines, description_lines. rewrite !fmap_app, !concat_app, <-members_text.
  unfold format. rewrite !concat_app.
  destruct (ge_description e); cbn [fmap list_fmap concat]; by rewrite ?app_nil_r, <-!app_assoc.
Qed.

Lemma show_bool_plain b : one_line (show_bool b) = true ∧ solid_end (show_bool b) = true.
Proof. by destruct b. Qed.

(** Every line of an entry ends in a solid character and holds no newline. *)
Lemma entry_lines_ok name e : name_ok name = true → entry_ok e = true →
  Forall (λ l, one_line l = true ∧ solid_end l = true) (entry_lines name e).
Proof.
  unfold name_ok, entry_ok. intros [Hn _]%andb_prop [Hm Hd]%andb_prop.
  apply line_ok_inv in Hn as (Hn & Hv & _). unfold entry_lines.
  assert (Hp : ∀ a s, forallb (λ c, is_ascii c && negb (nl =?a c)) a = true → one_line s = true →
    solid_end s = true → one_line (a ++ s) = true ∧ solid_end (a ++ s) = true).
  { intros a s Ha Hs He. split; [by apply ascii_one_line|]. apply solid_end_app; [|done].
    apply utf8_valid_ascii. rewrite forallb_forall in *. intros c Hc%Ha. by apply andb_prop in Hc as [? _]. }
  apply Forall_app. split; [repeat constructor|apply Forall_app; split; [|constructor]].
  - unfold one_line in *. bool_prop. rewrite utf8_valid_app, forallb_app by done. by bool_rewrite.
  - by apply solid_end_app.
  - apply Hp; [done|apply show_bool_plain..].
  - apply Hp; [done|apply show_bool_plain..].
  - destruct (ge_description e); [|constructor]. repeat constructor; apply line_ok_inv in Hd as (? & ? & ? & ?);
      by apply Hp.
  - done.
  - apply Forall_fmap. rewrite forallb_forall in Hm. apply Forall_forall. intros m Hin.
    apply list_elem_of_In, Hm in Hin. unfold member_ok in Hin. bool_prop. by apply Hp.
Qed.

(** ** Parsing the lines of an entry *)

Lemma validate_name_chars name : validate_group_name name = None →
  name ≠ [] ∧ contains_char "#" name = false ∧ contains_char ":" name = false.
Proof.
  unfold validate_group_name. case_bool_decide; [done|]. destruct (_ || _); [done|].
  destruct (_ || _); [done|]. destruct (contains_char "#" name), (contains_char ":" name); done.
Qed.

Lemma parse_header p name : name_ok name = true →
  parse_line p (name ++ ":") =
  {| pa_rooms := save_room p; pa_room := Some name; pa_pinned := false; pa_members := [];
     pa_description := None |}.
Proof.
  unfold name_ok. intros [Hl Hn]%andb_prop. apply bool_decide_eq_true in Hn.
  apply line_ok_inv in Hl as (_ & Hv & Hs & He). destruct (validate_name_chars _ Hn) as (Hne & Hhash & Hcolon).
  unfold parse_line.
  assert (Ht : trim (name ++ ":") = name ++ ":").
  { apply trim_solid; [by apply solid_start_app|by apply solid_end_app]. }
  rewrite Ht, (trim_start_solid (name ++ ":")) by (by apply solid_start_app).
  rewrite bool_decide_eq_false_2 by (by destruct name). rewrite Nat.sub_diag.
  change (ends_with ":" (name ++ ":")) with (ends_with [":"%char] (name ++ [":"%char])).
  rewrite ends_with_snoc, Ascii.eqb_refl. cbn [orb Nat.eqb andb].
  assert (starts_with "#" (name ++ ":") = false) as ->.
  { destruct name as [|c name]; [done|]. apply orb_false_iff in Hhash as [Hc _].
    change (starts_with "#" ((c :: name) ++ ":")) with
      (match (if "#"%char =?a c then Some (name ++ ":") else None) with
       | Some _ => true | None => false end).
    by rewrite Hc. }
  f_equal. f_equal. unfold trim_end_matches. change (name ++ ":") with (name ++ [":"%char]).
  rewrite reverse_snoc. cbn [drop_while]. rewrite Ascii.eqb_refl.
  destruct name as [|c name _] using rev_ind; [done|]. rewrite reverse_snoc. cbn [drop_while].
  unfold contains_char in Hcolon. rewrite existsb_app in Hcolon. cbn [existsb] in Hcolon. bool_prop.
  bool_rewrite. by rewrite <-reverse_snoc, reverse_involutive.
Qed.

Lemma parse_indented p a t :
  forallb blank a = true → a ≠ [] → solid_start t = true → solid_end t = true →
  starts_with "#" t = false →
  parse_line p (a ++ t) =
  let p := if length a =? 2 then parse_property p t else p in
  if length a =? 4 then parse_member p t else p.
Proof.
  intros Ha Hne Hs He Hh. unfold parse_line.
  rewrite trim_blank, trim_solid, trim_start_blank, trim_start_solid, Hh by done.
  rewrite bool_decide_eq_false_2 by (by destruct t). cbn [orb].
  rewrite length_app, Nat.add_sub. destruct a; [done|]. done.
Qed.

Lemma parse_pinned p b :
  parse_line p ("  pinned: " ++ show_bool b) =
  {| pa_rooms := pa_rooms p; pa_room := pa_room p; pa_pinned := b; pa_members := pa_members p;
     pa_description := pa_description p |}.
Proof.
  change ("  pinned: " ++ show_bool b) with ("  " ++ ("pinned: " ++ show_bool b)).
  rewrite parse_indented; try done; by destruct b.
Qed.

Lemma parse_members_header p : parse_line p "  members:" = p.
Proof. change "  members:" with ("  " ++ "members:"). by rewrite parse_indented. Qed.

Lemma parse_description p d : line_ok d = true →
  parse_line p ("  description: " ++ d) =
  {| pa_rooms := pa_rooms p; pa_room := pa_room p; pa_pinned := pa_pinned p;
     pa_members := pa_members p; pa_description := Some d |}.
Proof.
  intros (_ & Hv & Hs & He)%line_ok_inv.
  change ("  description: " ++ d) with ("  " ++ ("description: " ++ d)).
  rewrite parse_indented; [|done|done|by apply solid_start_app|by apply solid_end_app|done].
  change (length "  " =? 2) with true. change (length "  " =? 4) with false. cbv zeta iota.
  unfold parse_property.
  change (split_once ":" ("description: " ++ d)) with (Some (lit "description", " " ++ d)).
  cbv zeta iota. change (trim "description") with "description". change (str_eqb "description" "pinned") with false.
  rewrite (trim_blank " " d), trim_solid by done. cbv zeta iota.
  rewrite bool_decide_eq_false_2; [done|]. by intros ->.
Qed.

Lemma parse_one_member p m : member_ok m = true →
  parse_line p ("    - " ++ m) =
  {| pa_rooms := pa_rooms p; pa_room := pa_room p; pa_pinned := pa_pinned p;
     pa_members := pa_members p ++ [m]; pa_description := pa_description p |}.
Proof.
  unfold member_ok. intros [Hv%one_line_valid He]%andb_prop.
  change ("    - " ++ m) with ("    " ++ ("- " ++ m)).
  rewrite parse_indented; [|done|done|by apply solid_start_app|by apply solid_end_app|done].
  change (length "    " =? 2) with false. change (length "    " =? 4) with true. cbv zeta iota.
  unfold parse_member. by rewrite strip_prefix_here.
Qed.

Lemma parse_members p ms : forallb member_ok ms = true →
  fold_left parse_line ((λ m, "    - " ++ m) <$> ms) p =
  {| pa_rooms := pa_rooms p; pa_room := pa_room p; pa_pinned := pa_pinned p;
     pa_members := pa_members p ++ ms; pa_description := pa_description p |}.
Proof.
  revert p. induction ms as [|m ms IH]; intros p; cbn [forallb fmap list_fmap fold_left].
  - rewrite app_nil_r. by destruct p.
  - intros [Hm Hms]%andb_prop. rewrite parse_one_member, IH by done. cbn. by rewrite <-app_assoc.
Qed.

Lemma parse_entry p name e : name_ok name = true → entry_ok e = true →
  save_room (fold_left parse_line (entry_lines name e) p) = <[name := e]> (save_room p).
Proof.
  intros Hn He. unfold entry_ok in He. apply andb_prop in He as [Hm Hd]. unfold entry_lines.
  rewrite !fold_left_app. cbn [fold_left]. rewrite parse_header, parse_pinned by done.
  assert (Hdesc : ∀ q, pa_description q = None →
    fold_left parse_line (description_lines (ge_description e)) q =
    {| pa_rooms := pa_rooms q; pa_room := pa_room q; pa_pinned := pa_pinned q;
       pa_members := pa_members q; pa_description := ge_description e |}).
  { intros q Hq. destruct (ge_description e); cbn [description_lines fold_left].
    - by apply parse_description.
    - rewrite <-Hq. by destruct q. }
  rewrite Hdesc, parse_members_header, parse_members by done. cbn. by destruct e.
Qed.

(** ** The round trip *)

Definition state_lines (state : Channels) : list str :=
  concat ((λ name, entry_lines name (default GroupEntry_default (state !! name))) <$>
          sort_names (map_to_list state).*1).

Lemma elem_of_names (state : Channels) (name : str) :
  name ∈ sort_names (map_to_list state).*1 ↔ is_Some (state !! name).
Proof.
  unfold sort_names. rewrite merge_sort_Permutation, list_elem_of_fmap. split.
  - intros ([n e] & -> & He%elem_of_map_to_list). by exists e.
  - intros [e He]. exists (name, e). split; [done|by apply elem_of_map_to_list].
Qed.

Lemma serialize_lines (state : Channels) :
  serialize_groups_yaml state = concat ((λ l, l ++ [nl]) <$> state_lines state).
Proof.
  unfold serialize_groups_yaml, state_lines. induction (sort_names _) as [|n ns IH]; [done|].
  cbn [fmap list_fmap concat]. by rewrite fmap_app, concat_app, entry_text_lines, <-IH.
Qed.

Lemma parse_entries (state : Channels) (ns : list str) (p : Parser) :
  Forall (λ n, name_ok n = true ∧ entry_ok (default GroupEntry_default (state !! n)) = true) ns →
  save_room (fold_left parse_line
    (concat ((λ n, entry_lines n (default GroupEntry_default (state !! n))) <$> ns)) p) =
  fold_left (λ m n, <[n := default GroupEntry_default (state !! n)]> m) ns (save_room p).
Proof.
  intros Hns. revert p. induction Hns as [|n ns [Hn He] _ IH]; intros p; [done|].
  cbn [fmap list_fmap concat fold_left]. by rewrite fold_left_app, IH, parse_entry.
Qed.

Lemma lookup_inserts (state m : Channels) (ns : list str) (k : str) :
  fold_left (λ m n, <[n := default GroupEntry_default (state !! n)]> m) ns m !! k =
  if bool_decide (k ∈ ns) then Some (default GroupEntry_default (state !! k)) else m !! k.
Proof.
  revert m. induction ns as [|n ns IH]; intros m; cbn [fold_left].
  - by rewrite bool_decide_eq_false_2 by (by intros ?%elem_of_nil).
  - rewrite IH. destruct (decide (k ∈ ns)) as [Hin|Hin].
    + by rewrite !bool_decide_eq_true_2 by (done || by right).
    + rewrite (bool_decide_eq_false_2 (k ∈ ns)) by done. destruct (decide (k = n)) as [->|Hne].
      * by rewrite lookup_insert_eq, bool_decide_eq_true_2 by (by left).
      * rewrite lookup_insert_ne by done. rewrite bool_decide_eq_false_2; [done|].
        by intros [?|?]%elem_of_cons.
Qed.

Lemma wire_ok_lookup (state : Channels) (name : str) (e : GroupEntry) :
  wire_ok state → state !! name = Some e → name_ok name = true ∧ entry_ok e = true.
Proof. intros Hw. apply (map_Forall_lookup_1 _ _ _ _ Hw). Qed.

Lemma parse_serialize (state : Channels) :
  wire_ok state → parse_groups_yaml (serialize_groups_yaml state) = state.
Proof.
  intros Hw.
  assert (Hns : Forall (λ n, name_ok n = true ∧
    entry_ok (default GroupEntry_default (state !! n)) = true) (sort_names (map_to_list state).*1)).
  { apply Forall_forall. intros n Hin. apply elem_of_names in Hin as [e He]. rewrite He.
    by apply (wire_ok_lookup state). }
  unfold parse_groups_yaml. rewrite serialize_lines, lines_text.
  - unfold state_lines. rewrite parse_entries by done. apply map_eq. intros k.
    rewrite lookup_inserts. case_bool_decide as Hin.
    + apply elem_of_names in Hin as [e He]. by rewrite He.
    + rewrite elem_of_names in Hin. cbn. rewrite lookup_empty.
      destruct (state !! k) eqn:E; [|done]. by destruct Hin.
  - unfold state_lines. apply Forall_concat, Forall_fmap. eapply Forall_impl; [exact Hns|].
    intros n [Hn He]. by apply entry_lines_ok.
Qed.

Lemma serialize_valid (state : Channels) :
  wire_ok state → utf8_valid (serialize_groups_yaml state) = true.
Proof.
  intros Hw. unfold serialize_groups_yaml.
  assert (H : ∀ ns, (∀ n, n ∈ ns → is_Some (state !! n)) →
    utf8_valid (concat ((λ name, entry_text name (default GroupEntry_default (state !! name))) <$> ns)) = true).
  { intros ns. induction ns as [|n ns IH]; [done|]. intros Hns. cbn [fmap list_fmap concat].
    destruct (Hns n) as [e He]; [by left|]. rewrite He. cbn [default id].
    destruct (wire_ok_lookup _ _ _ Hw He) as [Hn Hok].
    rewrite utf8_valid_app; [apply IH; intros; apply Hns; by right|].
    rewrite entry_text_lines. induction (entry_lines_ok n e Hn Hok) as [|l ls [Hl _] _ IHl]; [done|].
    cbn [fmap list_fmap concat]. rewrite <-app_assoc, utf8_valid_app by (by apply one_line_valid).
    exact IHl. }
  apply H. intros n. by rewrite elem_of_names.
Qed.

(** ** What the checks on names let through *)

Lemma normalize_description_ok text d :
  utf8_valid text = true → normalize_description text = inl (Some d) → line_ok d = true.
Proof.
  intros Hv. unfold normalize_description. destruct (existsb is_control (chars text)) eqn:E; [done|].
  case_bool_decide; intros [= <-]. destruct (trim_shape text Hv) as [Hvt [?|[Hs He]]]; [done|].
  unfold line_ok, one_line. rewrite Hvt, Hs, He, trim_bytes; [done|]. by apply no_control_no_newline.
Qed.
