(* ===== verification/GroupsOps.v ===== *)
(** * Channels on disk

    [tools/attend-groups/src/lib.rs]: the operations of [Groups] on the signals base: the
    channels file, and the directory [@name] of each channel with its files and when it
    was last modified. Times are in nanoseconds since the epoch. A file name stands for
    itself: an id or a name that is a path is not modelled. The file system answers the
    writes ([Answers]); removals succeed. *)

From Stdlib Require Import Ascii.
From stdpp Require Import base tactics list numbers strings option gmap sorting.
From S2P Require Import Prelude RustStr GroupsYaml.

Definition INVITE : str := "invite".
Definition BRIEF : str := "brief".

Record Room := {
  rm_files : gmap str str;
  rm_modified : N;
}.

(** The signals base: [_groups.yaml], and the channel directories by their bare names. *)
Record Signals := {
  sg_yaml : option str;
  sg_rooms : gmap str Room;
}.

(** Whether the lock is taken in time, whether the state is saved, and the error of making
    a directory and of writing a file, if there is one. *)
Record Answers := {
  an_lock : bool;
  an_save : bool;
  an_mkdir : option str;
  an_write : option str;
}.

Definition NANOS : N := 1000000000.
Definition i64_max : N := 9223372036854775807.

(** [UNIX_EPOCH + Duration::from_secs(s)] *)
Definition epoch_plus (s : N) : res N :=
  if (s <=? i64_max)%N then Ok (s * NANOS)%N else Panicked.

(** [Path::extension] of a file name. *)
Definition extension (file : str) : option str :=
  match rposition (Ascii.eqb ".") file with
  | Some (S i) => Some (drop (S (S i)) file)
  | _ => None
  end.

(** [retain] on a map. *)
Definition retain {V} (f : str → V → bool) (m : gmap str V) : gmap str V :=
  map_imap (λ k v, if f k v then Some v else None) m.

(** ** Files *)

Definition load_groups (sg : Signals) : Channels :=
  match sg_yaml sg with
  | Some content => if utf8_valid content then parse_groups_yaml content else ∅
  | None => ∅
  end.

Definition save_state (an : Answers) (state : Channels) (sg : Signals) : Signals :=
  if an_save an then
    {| sg_yaml := Some (serialize_groups_yaml state); sg_rooms := sg_rooms sg |}
  else sg.

Definition files_in (name : str) (sg : Signals) : gmap str str :=
  default ∅ (rm_files <$> sg_rooms sg !! name).

Definition has_file (name file : str) (sg : Signals) : bool :=
  bool_decide (is_Some (files_in name sg !! file)).

Definition set_room (name : str) (r : Room) (sg : Signals) : Signals :=
  {| sg_yaml := sg_yaml sg; sg_rooms := <[name := r]> (sg_rooms sg) |}.

(** [fs::remove_file], on a file that is there or not. *)
Definition remove_file (now : N) (name file : str) (sg : Signals) : Signals :=
  match sg_rooms sg !! name with
  | Some r =>
    if bool_decide (is_Some (rm_files r !! file)) then
      set_room name {| rm_files := delete file (rm_files r); rm_modified := now |} sg
    else sg
  | None => sg
  end.

Definition remove_dir (name : str) (sg : Signals) : Signals :=
  {| sg_yaml := sg_yaml sg; sg_rooms := delete name (sg_rooms sg) |}.

(** [fs::create_dir_all], with its error. *)
Definition create_dir (an : Answers) (now : N) (name : str) (sg : Signals)
    : option str * Signals :=
  match sg_rooms sg !! name with
  | Some _ => (None, sg)
  | None =>
    match an_mkdir an with
    | Some e => (Some e, sg)
    | None => (None, set_room name {| rm_files := ∅; rm_modified := now |} sg)
    end
  end.

Definition record_file (member kind : str) : str := format [member; "."; kind].

(** The member and kind a record's file name gives. *)
Definition record_name (file : str) : option (str * str) :=
  let of_kind kind :=
    m ← strip_suffix kind file;
    member ← strip_suffix "." m;
    if bool_decide (member = []) then None else Some (member, kind) in
  match of_kind INVITE with Some r => Some r | None => of_kind BRIEF end.

(** The [by:] and [at:] of a record's body. *)
Definition parse_record_line (acc : option str * option N) (line : str)
    : res (option str * option N) :=
  match split_once ":" line with
  | Some (k, v) =>
    let k := trim k in
    let v := trim v in
    if str_eqb k "by" && negb (bool_decide (v = [])) then Ok (Some v, snd acc)
    else if str_eqb k "at" then
      match parse_unsigned u64_max v with
      | Some s => t ← epoch_plus s; Ok (fst acc, Some t)
      | None => Ok (fst acc, None)
      end
    else Ok acc
  | None => Ok acc
  end.

Definition parse_record (body : str) : res (option str * option N) :=
  fold_left (λ acc line, a ← acc; parse_record_line a line) (lines body) (Ok (None, None)).

Record Invite := {
  in_channel : str;
  in_member : str;
  in_by : option str;
  in_at : option N;
}.

(** [filter_map] with a body that may panic. *)
Fixpoint filter_map_res {A B} (f : A → res (option B)) (l : list A) : res (list B) :=
  match l with
  | [] => Ok []
  | x :: l => y ← f x; r ← filter_map_res f l;
              Ok (match y with Some y => y :: r | None => r end)
  end.

(** The records of [kind] in channel [channel]. A body that is not UTF-8 reads as none. *)
Definition read_records (channel kind : str) (files : gmap str str) : res (list Invite) :=
  filter_map_res (λ '(file, body),
    match record_name file with
    | Some (member, k) =>
      if str_eqb k kind then
        '(by_, at_) ← parse_record (if utf8_valid body then body else []);
        Ok (Some {| in_channel := channel; in_member := member; in_by := by_; in_at := at_ |})
      else Ok None
    | None => Ok None
    end) (map_to_list files).

Definition invite_le (a b : Invite) : Prop := str_le (in_member a) (in_member b).
#[export] Instance invite_le_dec : RelDecision invite_le := λ a b, str_le_dec _ _.

(** ** Renaming a member *)

Definition rename_entry (old new : str) (e : GroupEntry) : GroupEntry :=
  if mem_str old (ge_members e) then
    {| ge_pinned := ge_pinned e;
       ge_members := List.filter (λ m, negb (str_eqb m old) && negb (str_eqb m new)) (ge_members e)
                     ++ [new];
       ge_description := ge_description e |}
  else e.

(** [rename_in]: the state, and whether anything moved. *)
Definition rename_in (state : Channels) (old new : str) : Channels * bool :=
  (rename_entry old new <$> state,
   bool_decide (map_Exists (λ _ e, mem_str old (ge_members e) = true) state)).

(** One record moved in one room, if it is there. *)
Definition move_record (now : N) (old new kind : str) (r : Room) : Room :=
  match rm_files r !! record_file old kind with
  | Some body =>
    {| rm_files := <[record_file new kind := body]> (delete (record_file old kind) (rm_files r));
       rm_modified := now |}
  | None => r
  end.

Definition move_records (now : N) (old new : str) (sg : Signals) : Signals :=
  {| sg_yaml := sg_yaml sg;
     sg_rooms := (λ r, move_record now old new BRIEF (move_record now old new INVITE r))
                   <$> sg_rooms sg |}.

(** ** The operations of a member *)

Module Groups.

(** [refuse_leftover]: the refusal, where the folder holds messages. *)
Definition refuse_leftover (name : str) (sg : Signals) : option str :=
  let left := length (List.filter (λ f, bool_decide (extension f = Some "signal"))
                        (map_to_list (files_in name sg)).*1) in
  if left =? 0 then None
  else
    Some (format ["#"; name; " has "; show_N (N.of_nat left);
      (if left =? 1 then " message" else " messages");
      " left on disk from an earlier channel; dissolve it first (attend channel dissolve ";
      name; ")"]).

Definition join (an : Answers) (now : N) (me name : str) (pin : bool) (sg : Signals)
    : option str * Signals :=
  match validate_group_name name with
  | Some e => (Some e, sg)
  | None =>
    if negb (an_lock an) then (Some BUSY, sg)
    else
      let state := load_groups sg in
      match (if bool_decide (is_Some (state !! name)) then None else refuse_leftover name sg) with
      | Some e => (Some e, sg)
      | None =>
        let e := default GroupEntry_default (state !! name) in
        let e := {| ge_pinned := ge_pinned e || pin;
                    ge_members := if mem_str me (ge_members e) then ge_members e
                                  else ge_members e ++ [me];
                    ge_description := ge_description e |} in
        let sg := save_state an (<[name := e]> state) sg in
        match create_dir an now name sg with
        | (Some err, sg) => (Some (format ["creating group dir: "; err]), sg)
        | (None, sg) => (None, remove_file now name (record_file me INVITE) sg)
        end
      end
  end.

Definition create (an : Answers) (now : N) (name : str) (description : option str)
    (sg : Signals) : option str * Signals :=
  match validate_group_name name with
  | Some e => (Some e, sg)
  | None =>
    match (match description with Some d => normalize_description d | None => inl None end) with
    | inr e => (Some e, sg)
    | inl description =>
      if negb (an_lock an) then (Some BUSY, sg)
      else
        let state := load_groups sg in
        if bool_decide (is_Some (state !! name)) then (Some (format ["#"; name; " already exists"]), sg)
        else
          match refuse_leftover name sg with
          | Some e => (Some e, sg)
          | None =>
            let e := {| ge_pinned := true; ge_members := []; ge_description := description |} in
            let sg := save_state an (<[name := e]> state) sg in
            match create_dir an now name sg with
            | (Some err, sg) => (Some (format ["creating group dir: "; err]), sg)
            | (None, sg) => (None, sg)
            end
          end
    end
  end.

Definition set_description (an : Answers) (name text : str) (sg : Signals)
    : option str * Signals :=
  match normalize_description text with
  | inr e => (Some e, sg)
  | inl normalized =>
    if negb (an_lock an) then (Some BUSY, sg)
    else
      let state := load_groups sg in
      match state !! name with
      | None => (Some (format ["#"; name; ": unknown group"]), sg)
      | Some e =>
        let e := {| ge_pinned := ge_pinned e; ge_members := ge_members e;
                    ge_description := normalized |} in
        (None, save_state an (<[name := e]> state) sg)
      end
  end.

Definition rename_member (an : Answers) (now : N) (old new : str) (sg : Signals) : Signals :=
  if negb (an_lock an) then sg
  else
    let '(state, changed) := rename_in (load_groups sg) old new in
    move_records now old new (if changed then save_state an state sg else sg).

(** [write_record]: the record's text names the writer and the time. *)
Definition record_body (me : str) (now : N) : str :=
  format ((if bool_decide (me = []) then [] else ["by: "; me; [nl]]) ++
          ["at: "; show_N (now / NANOS); [nl]]).

Definition write_record (an : Answers) (now : N) (me name member kind : str) (sg : Signals)
    : option str * Signals :=
  match validate_group_name name with
  | Some e => (Some e, sg)
  | None =>
    match validate_member_id member with
    | Some e => (Some e, sg)
    | None =>
      match create_dir an now name sg with
      | (Some e, sg) => (Some e, sg)
      | (None, sg) =>
        match an_write an, sg_rooms sg !! name with
        | None, Some r =>
          (None, set_room name {| rm_files := <[record_file member kind := record_body me now]> (rm_files r);
                                  rm_modified := now |} sg)
        | e, _ => (e, sg)
        end
      end
    end
  end.

Definition invite (an : Answers) (now : N) (me name member : str) := write_record an now me name member INVITE.
Definition brief (an : Answers) (now : N) (me name member : str) := write_record an now me name member BRIEF.

Definition name_valid (name : str) : bool := bool_decide (validate_group_name name = None).

Definition is_recorded (kind name member : str) (sg : Signals) : bool :=
  name_valid name && has_file name (record_file member kind) sg.
Definition is_invited := is_recorded INVITE.
Definition is_briefed := is_recorded BRIEF.

Definition unrecord (kind : str) (now : N) (name member : str) (sg : Signals) : Signals :=
  if name_valid name then remove_file now name (record_file member kind) sg else sg.
Definition uninvite := unrecord INVITE.
Definition unbrief := unrecord BRIEF.

(** [take_invite]: whether there was one, and it is spent. *)
Definition take_invite (now : N) (me name : str) (sg : Signals) : bool * Signals :=
  if name_valid name then
    (has_file name (record_file me INVITE) sg, remove_file now name (record_file me INVITE) sg)
  else (false, sg).

Definition invites (name : str) (sg : Signals) : res (list Invite) :=
  if name_valid name then
    l ← read_records name INVITE (files_in name sg); Ok (merge_sort invite_le l)
  else Ok [].

Module AddError.
Inductive t :=
  | UnknownChannel (name : str)
  | AlreadyMember (name : str)
  | Failed (e : str).

Definition show (e : t) : str :=
  match e with
  | UnknownChannel name => format ["#"; name; ": unknown channel"]
  | AlreadyMember name => format ["already in #"; name]
  | Failed e => e
  end.
End AddError.

(** [add]: [allow], the source's [admit], is the caller's step under the lock, on the files
    as they are then and on what else [X] it writes. *)
Definition add_with {X : Type} (an : Answers) (now : N) (name member : str)
    (allow : Signals * X → option str * (Signals * X)) (st : Signals * X)
    : option AddError.t * (Signals * X) :=
  let '(sg, x) := st in
  match validate_group_name name with
  | Some e => (Some (AddError.Failed e), st)
  | None =>
    match validate_member_id member with
    | Some e => (Some (AddError.Failed e), st)
    | None =>
      if negb (an_lock an) then (Some (AddError.Failed BUSY), st)
      else
        let state := load_groups sg in
        if negb (bool_decide (is_Some (state !! name))) && negb (bool_decide (is_Some (sg_rooms sg !! name)))
        then (Some (AddError.UnknownChannel name), st)
        else if match state !! name with Some e => mem_str member (ge_members e) | None => false end
        then (Some (AddError.AlreadyMember name), st)
        else
          match create_dir an now name sg with
          | (Some err, sg) => (Some (AddError.Failed (format ["creating group dir: "; err])), (sg, x))
          | (None, sg) =>
            match allow (sg, x) with
            | (Some e, st) => (Some (AddError.Failed e), st)
            | (None, (sg, x)) =>
              let e := default GroupEntry_default (state !! name) in
              let e := {| ge_pinned := ge_pinned e; ge_members := ge_members e ++ [member];
                          ge_description := ge_description e |} in
              let sg := save_state an (<[name := e]> state) sg in
              (None, (remove_file now name (record_file member INVITE) sg, x))
            end
          end
    end
  end.

(** [add] where the caller's step writes the signals base alone. *)
Definition add (an : Answers) (now : N) (name member : str)
    (allow : Signals → option str * Signals) (sg : Signals) : option AddError.t * Signals :=
  let '(r, (sg, _)) := add_with an now name member
    (λ '(sg, u), let '(e, sg) := allow sg in (e, (sg, u))) (sg, tt) in
  (r, sg).

(** The end of [leave], [kick] and [unpin]: an empty, unpinned channel goes with its
    directory, and the state is saved. *)
Definition save_or_remove (an : Answers) (name : str) (state : Channels) (sg : Signals) : Signals :=
  let gone := match state !! name with
              | Some e => bool_decide (ge_members e = []) && negb (ge_pinned e)
              | None => false
              end in
  if gone then save_state an (delete name state) (remove_dir name sg)
  else save_state an state sg.

Definition without (member : str) (e : GroupEntry) : GroupEntry :=
  {| ge_pinned := ge_pinned e;
     ge_members := List.filter (λ m, negb (str_eqb m member)) (ge_members e);
     ge_description := ge_description e |}.

Definition leave (an : Answers) (now : N) (me name : str) (sg : Signals) : option str * Signals :=
  match validate_group_name name with
  | Some e => (Some e, sg)
  | None =>
    if negb (an_lock an) then (Some BUSY, sg)
    else
      let state := alter (without me) name (load_groups sg) in
      (None, save_or_remove an name state (remove_file now name (record_file me BRIEF) sg))
  end.

Definition kick (an : Answers) (now : N) (me name member : str) (sg : Signals)
    : option str * Signals :=
  if is_agent_member me && negb (is_agent_member member) then
    (Some "agents cannot kick a human member", sg)
  else
    match validate_group_name name with
    | Some e => (Some e, sg)
    | None =>
      if negb (an_lock an) then (Some BUSY, sg)
      else
        let state := load_groups sg in
        match state !! name with
        | None => (Some (format ["#"; name; ": unknown group"]), sg)
        | Some e =>
          if length (ge_members (without member e)) =? length (ge_members e) then
            (Some (format [member; " is not a member of #"; name]), sg)
          else
            (None, save_or_remove an name (<[name := without member e]> state)
                     (remove_file now name (record_file member BRIEF) sg))
        end
    end.

Definition set_pinned (b : bool) (e : GroupEntry) : GroupEntry :=
  {| ge_pinned := b; ge_members := ge_members e; ge_description := ge_description e |}.

Definition pin (an : Answers) (name : str) (sg : Signals) : Signals :=
  if negb (an_lock an) then sg
  else
    let state := load_groups sg in
    match state !! name with
    | Some e => save_state an (<[name := set_pinned true e]> state) sg
    | None => sg
    end.

Definition unpin (an : Answers) (name : str) (sg : Signals) : Signals :=
  if negb (name_valid name) then sg
  else if negb (an_lock an) then sg
  else save_or_remove an name (alter (set_pinned false) name (load_groups sg)) sg.

Definition dissolve (an : Answers) (name : str) (sg : Signals) : (list str + str) * Signals :=
  match validate_group_name name with
  | Some e => (inr e, sg)
  | None =>
    if negb (an_lock an) then (inr BUSY, sg)
    else
      let state := load_groups sg in
      let members := default [] (ge_members <$> state !! name) in
      (inl members, remove_dir name (save_state an (delete name state) sg))
  end.

(** ** Reading *)

Definition my_groups (me : str) (sg : Signals) : list (str * bool) :=
  omap (λ '(name, e), if mem_str me (ge_members e) then Some (name, ge_pinned e) else None)
    (map_to_list (load_groups sg)).

Definition joined_group_names (me : str) (sg : Signals) : list str := (my_groups me sg).*1.

Definition members (name : str) (sg : Signals) : option (list str) :=
  ge_members <$> load_groups sg !! name.

Definition all_groups (sg : Signals) : list (str * nat * bool) :=
  let state := load_groups sg in
  omap (λ name, e ← state !! name; Some (name, length (ge_members e), ge_pinned e))
    (sort_names (map_to_list state).*1).

(** The directories a member receives from: the project tray, the base room, and each
    joined channel whose name is valid. [attend_key] names the tray of a project. *)
Module Room.
Inductive t :=
  | Project
  | Open
  | Channel (name : str).

Definition is_tray (r : t) : bool := match r with Project => true | _ => false end.
Definition is_channel (r : t) : bool := match r with Channel _ => true | _ => false end.
End Room.

Definition group_dir (name : str) : str := format [GROUP_PREFIX; name].

Definition receive_dirs (attend_key : str → str) (me origin : str) (sg : Signals)
    : list (str * Room.t) :=
  [(attend_key origin, Room.Project); (BROADCAST_DIR, Room.Open)] ++
  ((λ name, (group_dir name, Room.Channel name)) <$>
     List.filter name_valid (joined_group_names me sg)).

(** [recorded_members] *)
Definition recorded_members (sg : Signals) : list str :=
  omap (λ file, fst <$> record_name file)
    (concat ((λ '(_, r), (map_to_list (rm_files r)).*1) <$> map_to_list (sg_rooms sg))).

(** [load_invites]: every room's invitations, where there are any. *)
Definition load_invites (sg : Signals) : res (list (str * list Invite)) :=
  filter_map_res (λ '(name, r),
    l ← read_records name INVITE (rm_files r);
    Ok (if bool_decide (l = []) then None else Some (name, merge_sort invite_le l)))
    (map_to_list (sg_rooms sg)).

(** [briefings]: the channels that owe [member] a briefing, with the time of the add,
    before they are sorted. *)
Definition briefings (member : str) (sg : Signals) : res (list (str * N)) :=
  filter_map_res (λ '(name, r),
    match rm_files r !! record_file member BRIEF with
    | Some body =>
      if utf8_valid body then
        '(_, at_) ← parse_record body; Ok (t ← at_; Some (name, t))
      else Ok None
    | None => Ok None
    end) (map_to_list (sg_rooms sg)).

(** ** Sweeping *)

(** [prune_records_with] *)
Definition prune_room (now : N) (has_exited : str → bool) (r : Room) : Room :=
  let kept := retain (λ file _, match record_name file with
                                | Some (member, _) => negb (has_exited member)
                                | None => true
                                end) (rm_files r) in
  if bool_decide (kept = rm_files r) then r else {| rm_files := kept; rm_modified := now |}.

Definition prune_records_with (now : N) (has_exited : str → bool) (sg : Signals) : Signals :=
  {| sg_yaml := sg_yaml sg; sg_rooms := prune_room now has_exited <$> sg_rooms sg |}.

(** Every member of the state, once each, in order. *)
Definition all_members (state : Channels) : list str :=
  sort_names (remove_dups (concat ((λ '(_, e), ge_members e) <$> map_to_list state))).

(** The members that are not live: those with a successor, and those dropped. *)
Definition moved_members (is_live : str → bool) (successor : str → option str) (state : Channels)
    : list (str * str) :=
  omap (λ sid, if is_live sid then None else new ← successor sid; Some (sid, new)) (all_members state).
Definition dropped_members (is_live : str → bool) (successor : str → option str) (state : Channels)
    : list str :=
  omap (λ sid, if is_live sid then None
               else match successor sid with Some _ => None | None => Some sid end)
    (all_members state).

Definition rename_all (moved : list (str * str)) (state : Channels) : Channels :=
  fold_left (λ st '(old, new), (rename_in st old new).1) moved state.

Definition drop_all (dropped : list str) (state : Channels) : Channels :=
  (λ e, {| ge_pinned := ge_pinned e;
           ge_members := List.filter (λ m, negb (mem_str m dropped)) (ge_members e);
           ge_description := ge_description e |}) <$> state.

(** An entry the sweep removes. *)
Definition swept (name : str) (e : GroupEntry) : bool :=
  bool_decide (ge_members e = []) && negb (ge_pinned e) && name_valid name.

(** An orphan's age is past the grace. *)
Definition old_enough (now grace : N) (r : Room) : bool :=
  (rm_modified r <=? now)%N && (grace <? now - rm_modified r)%N.

Definition cleanup_stale_moving (an : Answers) (now : N) (is_live : str → bool)
    (successor : str → option str) (grace : N) (sg : Signals) : list str * Signals :=
  if negb (an_lock an) then ([], sg)
  else
    let state := load_groups sg in
    let moved := moved_members is_live successor state in
    let dropped := dropped_members is_live successor state in
    let state := drop_all dropped (rename_all moved state) in
    let sg := if bool_decide (dropped = []) && bool_decide (moved = []) then sg
              else save_state an state sg in
    let sg := fold_left (λ sg '(old, new), move_records now old new sg) moved sg in
    let to_remove := retain swept state in
    let sg := {| sg_yaml := sg_yaml sg;
                 sg_rooms := retain (λ name _, negb (bool_decide (is_Some (to_remove !! name))))
                               (sg_rooms sg) |} in
    let state := retain (λ name e, negb (swept name e)) state in
    let sg := if bool_decide (to_remove = ∅) then sg else save_state an state sg in
    (dropped,
     {| sg_yaml := sg_yaml sg;
        sg_rooms := retain (λ name r,
          bool_decide (is_Some (state !! name)) || negb (old_enough now grace r)) (sg_rooms sg) |}).

(** [cleanup_stale_with]: nobody has a successor. *)
Definition cleanup_stale_with (an : Answers) (now : N) (is_live : str → bool) (grace : N)
    (sg : Signals) : list str * Signals :=
  cleanup_stale_moving an now is_live (λ _, None) grace sg.

(** [when_in_no_channel]: what it returns; it settles on [Some true]. *)
Definition when_in_no_channel (an : Answers) (member : str) (sg : Signals) : option bool :=
  if negb (an_lock an) then None
  else Some (negb (bool_decide (map_Exists (λ _ e, mem_str member (ge_members e) = true)
                                 (load_groups sg)))).
End Groups.
