(* ===== verification/GroupsRefine.v ===== *)
(** * The channels on disk and the membership alone

    The operations of [Groups] as data, what each does to the membership by itself
    ([effect]), and that a run on disk reads back as its effect ([run_load]), which keeps
    the membership well-formed ([effect_wf]). *)

From Stdlib Require Import Ascii.
From stdpp Require Import base tactics list numbers strings option gmap sorting.
From S2P Require Import Prelude RustStr RustStrFacts RustTextFacts GroupsYaml GroupsOps.

(** ** Operations as data *)

Inductive op :=
  | Join (me name : str) (pin : bool)
  | Create (name : str) (description : option str)
  | Describe (name text : str)
  | Rename (old new : str)
  | Write (me name member kind : str)
  | Unrecord (kind name member : str)
  | TakeInvite (me name : str)
  | Add (name member : str) (allow : Signals → option str * Signals)
  | Leave (me name : str)
  | Kick (me name member : str)
  | Pin (name : str)
  | Unpin (name : str)
  | Dissolve (name : str)
  | Prune (has_exited : str → bool)
  | Sweep (is_live : str → bool) (successor : str → option str) (grace : N).

Definition accepted {A B} (r : option A * B) : bool * B :=
  (match r.1 with None => true | Some _ => false end, r.2).

(** Whether the operation is carried out, and the files after it. *)
Definition run (an : Answers) (now : N) (o : op) (sg : Signals) : bool * Signals :=
  match o with
  | Join me name pin => accepted (Groups.join an now me name pin sg)
  | Create name d => accepted (Groups.create an now name d sg)
  | Describe name text => accepted (Groups.set_description an name text sg)
  | Rename old new => (an_lock an, Groups.rename_member an now old new sg)
  | Write me name member kind => accepted (Groups.write_record an now me name member kind sg)
  | Unrecord kind name member => (true, Groups.unrecord kind now name member sg)
  | TakeInvite me name => (true, snd (Groups.take_invite now me name sg))
  | Add name member allow => accepted (Groups.add an now name member allow sg)
  | Leave me name => accepted (Groups.leave an now me name sg)
  | Kick me name member => accepted (Groups.kick an now me name member sg)
  | Pin name => (an_lock an, Groups.pin an name sg)
  | Unpin name => (an_lock an && Groups.name_valid name, Groups.unpin an name sg)
  | Dissolve name =>
    let r := Groups.dissolve an name sg in
    (match r.1 with inl _ => true | inr _ => false end, r.2)
  | Prune has_exited => (true, Groups.prune_records_with now has_exited sg)
  | Sweep is_live successor grace =>
    (an_lock an, snd (Groups.cleanup_stale_moving an now is_live successor grace sg))
  end.

(** ** The same on the membership alone *)

Definition drop_if_empty (name : str) (st : Channels) : Channels :=
  match st !! name with
  | Some e => if bool_decide (ge_members e = []) && negb (ge_pinned e) then delete name st else st
  | None => st
  end.

Definition entry_of (name : str) (st : Channels) : GroupEntry := default GroupEntry_default (st !! name).

Definition joined (me : str) (pin : bool) (e : GroupEntry) : GroupEntry :=
  {| ge_pinned := ge_pinned e || pin;
     ge_members := if mem_str me (ge_members e) then ge_members e else ge_members e ++ [me];
     ge_description := ge_description e |}.
Definition added (member : str) (e : GroupEntry) : GroupEntry :=
  {| ge_pinned := ge_pinned e; ge_members := ge_members e ++ [member];
     ge_description := ge_description e |}.
Definition described (d : option str) (e : GroupEntry) : GroupEntry :=
  {| ge_pinned := ge_pinned e; ge_members := ge_members e; ge_description := d |}.

(** The description an accepted text is kept as. *)
Definition kept_text (text : str) : option str :=
  match normalize_description text with inl d => d | inr _ => None end.

Definition sweep_state (is_live : str → bool) (successor : str → option str) (st : Channels) : Channels :=
  retain (λ name e, negb (Groups.swept name e))
    (Groups.drop_all (Groups.dropped_members is_live successor st)
       (Groups.rename_all (Groups.moved_members is_live successor st) st)).

Definition effect (o : op) (st : Channels) : Channels :=
  match o with
  | Join me name pin => <[name := joined me pin (entry_of name st)]> st
  | Create name d =>
    <[name := {| ge_pinned := true; ge_members := []; ge_description := t ← d; kept_text t |}]> st
  | Describe name text => alter (described (kept_text text)) name st
  | Rename old new => rename_entry old new <$> st
  | Add name member _ => <[name := added member (entry_of name st)]> st
  | Leave me name => drop_if_empty name (alter (Groups.without me) name st)
  | Kick _ name member => drop_if_empty name (alter (Groups.without member) name st)
  | Pin name => alter (Groups.set_pinned true) name st
  | Unpin name => drop_if_empty name (alter (Groups.set_pinned false) name st)
  | Dissolve name => delete name st
  | Sweep is_live successor _ => sweep_state is_live successor st
  | Write _ _ _ _ | Unrecord _ _ _ | TakeInvite _ _ | Prune _ => st
  end.

(** An operation's names and ids are plain: on one line, with no white space at the ends a
    reader would trim, and the step of an add leaves the channels file alone. *)
Definition plain (o : op) : Prop :=
  match o with
  | Join me name _ => line_ok name = true ∧ member_ok me = true
  | Create name d => line_ok name = true ∧ match d with Some d => utf8_valid d = true | None => True end
  | Describe _ text => utf8_valid text = true
  | Rename _ new => member_ok new = true
  | Add name member allow =>
    line_ok name = true ∧ member_ok member = true ∧ ∀ sg, sg_yaml (snd (allow sg)) = sg_yaml sg
  | Sweep _ successor _ => ∀ m new, successor m = Some new → member_ok new = true
  | _ => True
  end.

(** A well-formed membership: plain names and ids, nobody in a channel twice, and no
    empty channel but a pinned one. *)
Definition entry_wf (e : GroupEntry) : bool :=
  bool_decide (NoDup (ge_members e)) && (ge_pinned e || negb (bool_decide (ge_members e = []))).
Definition groups_wf (st : Channels) : Prop :=
  wire_ok st ∧ map_Forall (λ _ e, entry_wf e = true) st.

(** ** The channels file *)

Lemma load_save an st sg : wire_ok st →
  load_groups (save_state an st sg) = if an_save an then st else load_groups sg.
Proof.
  intros Hw. unfold save_state. destruct (an_save an); [|done]. unfold load_groups. cbn [sg_yaml].
  by rewrite serialize_valid, parse_serialize.
Qed.

Lemma load_yaml sg sg' : sg_yaml sg' = sg_yaml sg → load_groups sg' = load_groups sg.
Proof. unfold load_groups. by intros ->. Qed.

Lemma remove_file_yaml now name file sg : sg_yaml (remove_file now name file sg) = sg_yaml sg.
Proof. unfold remove_file, set_room. by repeat case_match. Qed.

Lemma create_dir_yaml an now name sg : sg_yaml (snd (create_dir an now name sg)) = sg_yaml sg.
Proof. unfold create_dir, set_room. by repeat case_match. Qed.

Lemma create_dir_ok an now name sg : an_mkdir an = None → fst (create_dir an now name sg) = None.
Proof. unfold create_dir. intros ->. by case_match. Qed.

(** ** The membership stays well-formed *)

(** An entry whose members and description are plain, with nobody twice. *)
Definition entry_plain (e : GroupEntry) : Prop := entry_ok e = true ∧ NoDup (ge_members e).

Lemma groups_wf_entry st name e :
  groups_wf st → st !! name = Some e →
  name_ok name = true ∧ entry_plain e ∧ (ge_pinned e = true ∨ ge_members e ≠ []).
Proof.
  intros [Hw Hf] He. destruct (wire_ok_lookup _ _ _ Hw He) as [Hn Ho].
  apply (map_Forall_lookup_1 _ _ _ _ Hf) in He. unfold entry_wf in He.
  apply andb_prop in He as [HN%bool_decide_eq_true Hp]. split_and!; [done|by split|].
  destruct (ge_pinned e); [by left|right]. cbn [orb] in Hp.
  by apply negb_true_iff, bool_decide_eq_false in Hp.
Qed.

Lemma groups_wf_intro st :
  (∀ name e, st !! name = Some e →
     name_ok name = true ∧ entry_plain e ∧ (ge_pinned e = true ∨ ge_members e ≠ [])) →
  groups_wf st.
Proof.
  intros H. split; apply map_Forall_lookup_2; intros name e He;
    destruct (H _ _ He) as (Hn & [Ho HN] & Hp); [done|].
  unfold entry_wf. rewrite bool_decide_eq_true_2 by done. cbn [andb].
  destruct Hp as [->|Hp]; [done|]. by rewrite (bool_decide_eq_false_2 _ Hp), orb_true_r.
Qed.

Lemma groups_wf_insert st name e :
  groups_wf st → name_ok name = true → entry_plain e → ge_pinned e = true ∨ ge_members e ≠ [] →
  groups_wf (<[name := e]> st).
Proof.
  intros Hst Hn He Hp. apply groups_wf_intro. intros n x.
  destruct (decide (name = n)) as [->|Hne].
  - rewrite lookup_insert_eq. by intros [= <-].
  - rewrite lookup_insert_ne by done. by apply groups_wf_entry.
Qed.

Lemma groups_wf_delete st name : groups_wf st → groups_wf (delete name st).
Proof.
  intros Hst. apply groups_wf_intro. intros n x [_ Hx]%lookup_delete_Some.
  by apply (groups_wf_entry st).
Qed.

(** An entry changed, and dropped where that leaves it empty and unpinned. *)
Lemma groups_wf_drop st name (f : GroupEntry → GroupEntry) :
  groups_wf st → (∀ e, entry_plain e → entry_plain (f e)) →
  groups_wf (drop_if_empty name (alter f name st)).
Proof.
  intros Hst Hf. unfold drop_if_empty. rewrite lookup_alter_eq.
  destruct (st !! name) as [e|] eqn:E; cbn [fmap option_fmap option_map].
  - destruct (groups_wf_entry _ _ _ Hst E) as (Hn & He & _).
    assert (Ea : alter f name st = <[name := f e]> st).
    { apply map_eq. intros k. destruct (decide (name = k)) as [->|Hk].
      - by rewrite lookup_alter_eq, lookup_insert_eq, E.
      - by rewrite lookup_alter_ne, lookup_insert_ne. }
    rewrite Ea. destruct (_ && _) eqn:B.
    + rewrite delete_insert_eq. by apply groups_wf_delete.
    + apply groups_wf_insert; try done; [by apply Hf|]. destruct (ge_pinned (f e)); [by left|right].
      rewrite andb_true_r in B. by apply bool_decide_eq_false in B.
  - replace (alter f name st) with st; [done|]. apply map_eq. intros k.
    destruct (decide (name = k)) as [->|Hk]; [by rewrite lookup_alter_eq, E|by rewrite lookup_alter_ne].
Qed.

Lemma entry_plain_default : entry_plain GroupEntry_default.
Proof. split; [done|constructor]. Qed.

Lemma entry_of_plain st name : groups_wf st → entry_plain (entry_of name st).
Proof.
  intros Hst. unfold entry_of. destruct (st !! name) eqn:E; [|apply entry_plain_default].
  by apply (groups_wf_entry _ _ _ Hst E).
Qed.

(** What each change of an entry keeps plain. *)
Lemma entry_plain_members (e : GroupEntry) (ms : list str) (p : bool) (d : option str) :
  entry_plain e → forallb member_ok ms = true → NoDup ms →
  match d with Some d => line_ok d = true | None => True end →
  entry_plain {| ge_pinned := p; ge_members := ms; ge_description := d |}.
Proof.
  intros _ Hm HN Hd. split; [|done]. unfold entry_ok. cbn. rewrite Hm. by destruct d.
Qed.

Lemma entry_plain_inv e : entry_plain e →
  forallb member_ok (ge_members e) = true ∧ NoDup (ge_members e) ∧
  match ge_description e with Some d => line_ok d = true | None => True end.
Proof.
  intros [Ho HN]. unfold entry_ok in Ho. apply andb_prop in Ho as [Hm Hd]. split_and!; try done.
  by destruct (ge_description e).
Qed.

Lemma filter_plain (f : str → bool) ms :
  forallb member_ok ms = true → NoDup ms →
  forallb member_ok (List.filter f ms) = true ∧ NoDup (List.filter f ms).
Proof.
  intros Hm HN. split.
  - rewrite forallb_forall in *. intros m [Hin _]%List.filter_In. by apply Hm.
  - apply NoDup_ListNoDup, List.NoDup_filter. by apply NoDup_ListNoDup.
Qed.

Lemma push_plain ms m :
  forallb member_ok ms = true → NoDup ms → member_ok m = true → m ∉ ms →
  forallb member_ok (ms ++ [m]) = true ∧ NoDup (ms ++ [m]).
Proof.
  intros Hm HN Ho Hn. split; [by rewrite forallb_app, Hm; cbn; rewrite Ho|].
  apply NoDup_app. split_and!; [done| |apply NoDup_singleton].
  intros x Hx ->%list_elem_of_singleton. done.
Qed.

Lemma joined_plain me pin e : entry_plain e → member_ok me = true → entry_plain (joined me pin e).
Proof.
  intros He Hme. pose proof (entry_plain_inv _ He) as (Hm & HN & Hd). unfold joined.
  destruct (mem_str me (ge_members e)) eqn:M; [by apply (entry_plain_members e)|].
  destruct (push_plain _ _ Hm HN Hme) as [H1 H2]; [|by apply (entry_plain_members e)].
  intros Hin%mem_str_spec. congruence.
Qed.

Lemma added_plain m e : entry_plain e → member_ok m = true → m ∉ ge_members e → entry_plain (added m e).
Proof.
  intros He Ho Hn. pose proof (entry_plain_inv _ He) as (Hm & HN & Hd).
  destruct (push_plain _ _ Hm HN Ho Hn). by apply (entry_plain_members e).
Qed.

Lemma without_plain m e : entry_plain e → entry_plain (Groups.without m e).
Proof.
  intros He. pose proof (entry_plain_inv _ He) as (Hm & HN & Hd).
  destruct (filter_plain (λ x, negb (str_eqb x m)) _ Hm HN). by apply (entry_plain_members e).
Qed.

Lemma pinned_plain b e : entry_plain e → entry_plain (Groups.set_pinned b e).
Proof.
  intros He. pose proof (entry_plain_inv _ He) as (Hm & HN & Hd). by apply (entry_plain_members e).
Qed.

Lemma described_plain d e : entry_plain e → match d with Some d => line_ok d = true | None => True end →
  entry_plain (described d e).
Proof.
  intros He Hd'. pose proof (entry_plain_inv _ He) as (Hm & HN & Hd). by apply (entry_plain_members e).
Qed.

Lemma renamed_plain old new e : entry_plain e → member_ok new = true → entry_plain (rename_entry old new e).
Proof.
  intros He Ho. pose proof (entry_plain_inv _ He) as (Hm & HN & Hd). unfold rename_entry.
  destruct (mem_str old (ge_members e)); [|done].
  destruct (filter_plain (λ m, negb (str_eqb m old) && negb (str_eqb m new)) _ Hm HN) as [H1 H2].
  destruct (push_plain _ _ H1 H2 Ho) as [H3 H4]; [|by apply (entry_plain_members e)].
  intros [_ Hx]%list_elem_of_In%List.filter_In. apply andb_prop in Hx as [_ Hx].
  apply negb_true_iff in Hx. by apply str_eqb_neq in Hx.
Qed.

(** What an accepted operation has checked. *)
Definition fits (o : op) (st : Channels) : Prop :=
  match o with
  | Join _ name _ => validate_group_name name = None
  | Create name _ => validate_group_name name = None ∧ st !! name = None
  | Add name member _ => validate_group_name name = None ∧ member ∉ ge_members (entry_of name st)
  | _ => True
  end.

Lemma name_ok_intro name : line_ok name = true → validate_group_name name = None → name_ok name = true.
Proof. intros Hl Hv. unfold name_ok. by rewrite Hl, bool_decide_eq_true_2. Qed.

Lemma kept_text_ok text : utf8_valid text = true →
  match kept_text text with Some d => line_ok d = true | None => True end.
Proof.
  intros Hv. unfold kept_text. destruct (normalize_description text) as [[d|]|] eqn:E; try done.
  by apply (normalize_description_ok text).
Qed.

Lemma alter_wf st name (f : GroupEntry → GroupEntry) :
  groups_wf st → (∀ e, entry_plain e → entry_plain (f e)) →
  (∀ e, ge_pinned e = true ∨ ge_members e ≠ [] → ge_pinned (f e) = true ∨ ge_members (f e) ≠ []) →
  groups_wf (alter f name st).
Proof.
  intros Hst Hf Hp. apply groups_wf_intro. intros n x. destruct (decide (name = n)) as [->|Hne].
  - rewrite lookup_alter_eq. intros (e & He & ->)%fmap_Some_1.
    destruct (groups_wf_entry _ _ _ Hst He) as (Hn & Hpl & Hs). auto.
  - rewrite lookup_alter_ne by done. by apply groups_wf_entry.
Qed.

Lemma fmap_wf st (f : GroupEntry → GroupEntry) :
  groups_wf st → (∀ e, entry_plain e → entry_plain (f e)) →
  (∀ e, ge_pinned e = true ∨ ge_members e ≠ [] → ge_pinned (f e) = true ∨ ge_members (f e) ≠ []) →
  groups_wf (f <$> st).
Proof.
  intros Hst Hf Hp. apply groups_wf_intro. intros n x. rewrite lookup_fmap.
  intros (e & He & ->)%fmap_Some_1. destruct (groups_wf_entry _ _ _ Hst He) as (Hn & Hpl & Hs). auto.
Qed.

Lemma renamed_settled old new e :
  ge_pinned e = true ∨ ge_members e ≠ [] →
  ge_pinned (rename_entry old new e) = true ∨ ge_members (rename_entry old new e) ≠ [].
Proof.
  unfold rename_entry. destruct (mem_str old (ge_members e)); [|done]. intros _. right. cbn [ge_members].
  by destruct (List.filter _ _).
Qed.

Lemma retain_lookup {V} (f : str → V → bool) (m : gmap str V) k v :
  retain f m !! k = Some v ↔ m !! k = Some v ∧ f k v = true.
Proof.
  unfold retain. rewrite map_lookup_imap. destruct (m !! k) as [x|]; cbn.
  - destruct (f k x) eqn:E; (split; [intros [= <-]; done|intros [[= <-] Hf]; congruence]).
  - split; [done|]. by intros [? _].
Qed.

Lemma rename_all_wf moved st :
  groups_wf st → Forall (λ '(_, new), member_ok new = true) moved → groups_wf (Groups.rename_all moved st).
Proof.
  intros Hst Hm. revert st Hst. induction Hm as [|[old new] moved Ho _ IH]; intros st Hst; [done|].
  cbn. apply IH, fmap_wf; [done| |apply renamed_settled]. intros e He. by apply renamed_plain.
Qed.

Lemma moved_members_ok is_live successor st :
  (∀ m new, successor m = Some new → member_ok new = true) →
  Forall (λ '(_, new), member_ok new = true) (Groups.moved_members is_live successor st).
Proof.
  intros Hs. apply Forall_forall. intros [old new] (sid & _ & Hsid)%list_elem_of_omap.
  destruct (is_live sid); [done|]. destruct (successor sid) eqn:E; [|done]. cbn in Hsid.
  injection Hsid as _ <-. by eapply Hs.
Qed.

Lemma sweep_wf is_live successor st :
  groups_wf st → (∀ m new, successor m = Some new → member_ok new = true) →
  groups_wf (sweep_state is_live successor st).
Proof.
  intros Hst Hs. apply groups_wf_intro. intros n x [Hx Hk]%retain_lookup.
  unfold Groups.drop_all in Hx. rewrite lookup_fmap in Hx. apply fmap_Some_1 in Hx as (e & He & ->).
  assert (Hr := rename_all_wf _ _ Hst (moved_members_ok is_live successor st Hs)).
  destruct (groups_wf_entry _ _ _ Hr He) as (Hn & Hpl & _). split_and!; [done| |].
  - pose proof (entry_plain_inv _ Hpl) as (Hm & HN & Hd).
    destruct (filter_plain (λ m, negb (mem_str m (Groups.dropped_members is_live successor st))) _ Hm HN).
    by apply (entry_plain_members e).
  - unfold Groups.swept in Hk. unfold name_ok in Hn. apply andb_prop in Hn as [_ Hn].
    unfold Groups.name_valid in Hk. rewrite Hn, andb_true_r in Hk. cbn [ge_pinned ge_members] in *.
    destruct (ge_pinned e); [by left|right]. rewrite andb_true_r in Hk.
    by apply negb_true_iff, bool_decide_eq_false in Hk.
Qed.

(** Every effect of an operation that fits keeps the membership well-formed. *)
Lemma effect_wf o st : groups_wf st → plain o → fits o st → groups_wf (effect o st).
Proof.
  intros Hst Hp Hf. destruct o as [me name pin|name d|name text|old new|me name m k|k name m|me name
    |name m allow|me name|me name m|name|name|name|he|live succ grace]; cbn in *.
  - destruct Hp as [Hl Hm]. apply groups_wf_insert; [done|by apply name_ok_intro| |].
    + apply joined_plain; [by apply entry_of_plain|done].
    + right. unfold joined. destruct (mem_str _ _) eqn:E; cbn [ge_members].
      * intros E'. rewrite E' in E. done.
      * by destruct (ge_members _).
  - destruct Hp as [Hl Hd], Hf as [Hv _]. apply groups_wf_insert; [done|by apply name_ok_intro| |by left].
    apply (entry_plain_members GroupEntry_default); [apply entry_plain_default|done|constructor|].
    destruct d as [d|]; [|done]. by apply kept_text_ok.
  - apply alter_wf; [done| |done]. intros e He. apply described_plain; [done|by apply kept_text_ok].
  - apply fmap_wf; [done| |apply renamed_settled]. intros e He. by apply renamed_plain.
  - done.
  - done.
  - done.
  - destruct Hp as (Hl & Hm & _), Hf as [Hv Hn]. apply groups_wf_insert; [done|by apply name_ok_intro| |].
    + apply added_plain; [by apply entry_of_plain|done|done].
    + right. cbn. by destruct (ge_members _).
  - apply groups_wf_drop; [done|]. intros. by apply without_plain.
  - apply groups_wf_drop; [done|]. intros. by apply without_plain.
  - apply alter_wf; [done| |by left]. intros. by apply pinned_plain.
  - apply groups_wf_drop; [done|]. intros. by apply pinned_plain.
  - by apply groups_wf_delete.
  - done.
  - by apply sweep_wf.
Qed.

(** ** The operations on disk and on the membership *)

(** What a run does to the membership that is read back. *)
Definition run_spec (an : Answers) (o : op) (sg : Signals) (r : bool * Signals) : Prop :=
  let st := load_groups sg in
  let st' := load_groups r.2 in
  (r.1 = true → fits o st) ∧ (st' = st ∨ fits o st ∧ st' = effect o st) ∧
  (an_save an = true → an_mkdir an = None → st' = if r.1 then effect o st else st).

Lemma run_refused an o sg sg' : load_groups sg' = load_groups sg → run_spec an o sg (false, sg').
Proof. intros E. unfold run_spec. cbn. split_and!; [done|by left|done]. Qed.

(** The state saved, and files moved around it. *)
Lemma run_saved an o sg sg' ok :
  groups_wf (load_groups sg) → plain o → fits o (load_groups sg) →
  load_groups sg' = (if an_save an then effect o (load_groups sg) else load_groups sg) →
  (an_mkdir an = None → ok = true) → run_spec an o sg (ok, sg').
Proof.
  intros Hst Hp Hf E Hok. unfold run_spec. cbn. rewrite E.
  split_and!; [done| |intros -> Hm; by rewrite Hok].
  destruct (an_save an); [by right|by left].
Qed.

Lemma saved_load an o sg sg1 : groups_wf (load_groups sg) → plain o → fits o (load_groups sg) →
  load_groups sg1 = load_groups sg →
  load_groups (save_state an (effect o (load_groups sg)) sg1) =
  if an_save an then effect o (load_groups sg) else load_groups sg.
Proof. intros Hst Hp Hf E. rewrite load_save, E; [done|]. by apply effect_wf. Qed.

Lemma save_or_remove_load an o name st1 sg sg1 :
  groups_wf (load_groups sg) → plain o → fits o (load_groups sg) →
  load_groups sg1 = load_groups sg → drop_if_empty name st1 = effect o (load_groups sg) →
  load_groups (Groups.save_or_remove an name st1 sg1) =
  if an_save an then effect o (load_groups sg) else load_groups sg.
Proof.
  intros Hst Hp Hf E Es. unfold Groups.save_or_remove, drop_if_empty in *.
  destruct (st1 !! name) as [e|]; [destruct (_ && _)|]; rewrite Es; by apply saved_load.
Qed.

Lemma remove_dir_load name sg : load_groups (remove_dir name sg) = load_groups sg.
Proof. by apply load_yaml. Qed.

Lemma run_join an now me name pin sg :
  groups_wf (load_groups sg) → plain (Join me name pin) →
  run_spec an (Join me name pin) sg (run an now (Join me name pin) sg).
Proof.
  intros Hst Hp. unfold run, Groups.join.
  destruct (validate_group_name name) eqn:V; [by apply run_refused|].
  destruct (an_lock an); cbn [negb]; [|by apply run_refused].
  destruct (if bool_decide _ then None else _); [by apply run_refused|].
  fold (entry_of name (load_groups sg)). fold (joined me pin (entry_of name (load_groups sg))).
  change (<[name := joined me pin (entry_of name (load_groups sg))]> (load_groups sg))
    with (effect (Join me name pin) (load_groups sg)).
  set (sg1 := save_state _ _ _).
  assert (E : load_groups sg1 = if an_save an then effect (Join me name pin) (load_groups sg)
    else load_groups sg) by (by apply saved_load).
  pose proof (create_dir_yaml an now name sg1) as Hy. pose proof (create_dir_ok an now name sg1) as Hok.
  destruct (create_dir an now name sg1) as [[err|] sg2]; unfold accepted; cbn [snd fst] in *;
    (eapply run_saved; [done|done|done| |]).
  - by rewrite (load_yaml _ _ Hy).
  - intros Hm. by specialize (Hok Hm).
  - by rewrite (load_yaml sg2 _ (remove_file_yaml _ _ _ _)), (load_yaml _ _ Hy).
  - done.
Qed.

Lemma run_create an now name d sg :
  groups_wf (load_groups sg) → plain (Create name d) →
  run_spec an (Create name d) sg (run an now (Create name d) sg).
Proof.
  intros Hst Hp. unfold run, Groups.create.
  destruct (validate_group_name name) eqn:V; [by apply run_refused|].
  assert (Hd : ∀ desc, match d with Some d => normalize_description d | None => inl None end = inl desc →
    desc = (t ← d; kept_text t)).
  { intros desc. destruct d as [t|]; cbn; [|by intros [= <-]]. unfold kept_text. by intros ->. }
  destruct (match d with Some d => normalize_description d | None => inl None end) as [desc|]; [|by apply run_refused].
  destruct (an_lock an); cbn [negb]; [|by apply run_refused].
  case_bool_decide as Habs; [by apply run_refused|]. apply eq_None_not_Some in Habs.
  destruct (Groups.refuse_leftover name sg); [by apply run_refused|].
  rewrite (Hd desc eq_refl). assert (Hf : fits (Create name d) (load_groups sg)) by (by split).
  change (<[name := {| ge_pinned := true; ge_members := []; ge_description := t ← d; kept_text t |}]> (load_groups sg))
    with (effect (Create name d) (load_groups sg)).
  set (sg1 := save_state _ _ _).
  assert (E : load_groups sg1 = if an_save an then effect (Create name d) (load_groups sg)
    else load_groups sg) by (by apply saved_load).
  pose proof (create_dir_yaml an now name sg1) as Hy. pose proof (create_dir_ok an now name sg1) as Hok.
  destruct (create_dir an now name sg1) as [[err|] sg2]; unfold accepted; cbn [snd fst] in *;
    (eapply run_saved; [done|done|done|by rewrite (load_yaml _ _ Hy)|]).
  - intros Hm. by specialize (Hok Hm).
  - done.
Qed.

Lemma alter_insert_entry (f : GroupEntry → GroupEntry) (st : Channels) (name : str) (e : GroupEntry) :
  st !! name = Some e → <[name := f e]> st = alter f name st.
Proof.
  intros He. apply map_eq. intros k. destruct (decide (name = k)) as [->|Hk].
  - by rewrite lookup_insert_eq, lookup_alter_eq, He.
  - by rewrite lookup_insert_ne, lookup_alter_ne.
Qed.

Lemma alter_absent (f : GroupEntry → GroupEntry) (st : Channels) (name : str) :
  st !! name = None → alter f name st = st.
Proof.
  intros He. apply map_eq. intros k. destruct (decide (name = k)) as [->|Hk].
  - by rewrite lookup_alter_eq, He.
  - by rewrite lookup_alter_ne.
Qed.

Lemma run_describe an now name text sg :
  groups_wf (load_groups sg) → plain (Describe name text) →
  run_spec an (Describe name text) sg (run an now (Describe name text) sg).
Proof.
  intros Hst Hp. unfold run, Groups.set_description.
  destruct (normalize_description text) as [d|] eqn:D; [|by apply run_refused].
  destruct (an_lock an); cbn [negb]; [|by apply run_refused].
  destruct (load_groups sg !! name) as [e|] eqn:He; [|by apply run_refused].
  assert (Ee : <[name := described d e]> (load_groups sg) = effect (Describe name text) (load_groups sg)).
  { cbn [effect]. unfold kept_text. rewrite D. by apply alter_insert_entry. }
  unfold described in Ee. rewrite Ee. unfold accepted. cbn [fst snd].
  eapply run_saved; [done|done|done|by apply saved_load|done].
Qed.

Lemma move_records_load now old new sg : load_groups (move_records now old new sg) = load_groups sg.
Proof. by apply load_yaml. Qed.

Lemma rename_absent (st : Channels) old new :
  bool_decide (map_Exists (λ _ e, mem_str old (ge_members e) = true) st) = false →
  rename_entry old new <$> st = st.
Proof.
  intros Hx%bool_decide_eq_false. rewrite <-(map_fmap_id st) at 2. apply map_fmap_ext.
  intros k e He. cbn [id]. unfold rename_entry. destruct (mem_str old (ge_members e)) eqn:M; [|done].
  destruct Hx. by exists k, e.
Qed.

Lemma run_rename an now old new sg :
  groups_wf (load_groups sg) → plain (Rename old new) →
  run_spec an (Rename old new) sg (run an now (Rename old new) sg).
Proof.
  intros Hst Hp. unfold run, Groups.rename_member, rename_in.
  destruct (an_lock an); cbn [negb]; [|by apply run_refused].
  eapply run_saved; [done|done|done| |done]. rewrite move_records_load.
  destruct (bool_decide _) eqn:B.
  - change (rename_entry old new <$> load_groups sg) with (effect (Rename old new) (load_groups sg)).
    by apply saved_load.
  - cbn [effect]. rewrite rename_absent by done. by destruct (an_save an).
Qed.

(** The operations on records leave the membership. *)
Lemma run_untouched an o sg ok sg' :
  effect o (load_groups sg) = load_groups sg → fits o (load_groups sg) →
  load_groups sg' = load_groups sg → run_spec an o sg (ok, sg').
Proof.
  intros Ee Hf E. unfold run_spec. cbn. rewrite Ee, E. split_and!; [done|by left|]. by destruct ok.
Qed.

Lemma write_record_load an now me name m k sg :
  load_groups (snd (Groups.write_record an now me name m k sg)) = load_groups sg.
Proof.
  apply load_yaml. unfold Groups.write_record, set_room.
  destruct (validate_group_name name), (validate_member_id m); try done.
  pose proof (create_dir_yaml an now name sg) as Hy.
  destruct (create_dir an now name sg) as [[e|] sg1]; [done|]. cbn [snd] in Hy.
  by destruct (an_write an), (sg_rooms sg1 !! name).
Qed.

Lemma run_add an now name m allow sg :
  groups_wf (load_groups sg) → plain (Add name m allow) →
  run_spec an (Add name m allow) sg (run an now (Add name m allow) sg).
Proof.
  intros Hst Hp. unfold run, Groups.add, Groups.add_with.
  destruct (validate_group_name name) eqn:V; [by apply run_refused|].
  destruct (validate_member_id m); [by apply run_refused|].
  destruct (an_lock an); cbn [negb]; [|by apply run_refused].
  destruct (_ && _); [by apply run_refused|].
  destruct (match load_groups sg !! name with Some e => _ | None => false end) eqn:M; [by apply run_refused|].
  assert (Hf : fits (Add name m allow) (load_groups sg)).
  { split; [done|]. unfold entry_of. intros Hin%mem_str_spec. destruct (load_groups sg !! name); cbn in *; [congruence|done]. }
  pose proof (create_dir_yaml an now name sg) as Hy. pose proof (create_dir_ok an now name sg) as Hok.
  destruct (create_dir an now name sg) as [[err|] sg1]; cbn [snd fst] in *.
  { apply run_refused. by apply load_yaml. }
  destruct Hp as (Hl & Hm & Ha). specialize (Ha sg1) as Hya.
  destruct (allow sg1) as [[e|] sg2] eqn:A; cbn [snd] in Hya.
  { apply run_refused. cbn [snd]. rewrite (load_yaml _ _ Hya). by apply load_yaml. }
  unfold accepted. cbn [fst snd]. eapply run_saved; [done|by split_and!|done| |done].
  rewrite (load_yaml _ _ (remove_file_yaml _ _ _ _)).
  fold (entry_of name (load_groups sg)). fold (added m (entry_of name (load_groups sg))).
  change (<[name := added m (entry_of name (load_groups sg))]> (load_groups sg))
    with (effect (Add name m allow) (load_groups sg)).
  apply saved_load; [done|by split_and!|done|]. rewrite (load_yaml _ _ Hya). by apply load_yaml.
Qed.

Lemma run_leave an now me name sg :
  groups_wf (load_groups sg) → run_spec an (Leave me name) sg (run an now (Leave me name) sg).
Proof.
  intros Hst. unfold run, Groups.leave. destruct (validate_group_name name); [by apply run_refused|].
  destruct (an_lock an); cbn [negb]; [|by apply run_refused]. unfold accepted. cbn [fst snd].
  eapply run_saved; [done|done|done| |done]. apply save_or_remove_load; try done.
  apply load_yaml, remove_file_yaml.
Qed.

Lemma run_kick an now me name m sg :
  groups_wf (load_groups sg) → run_spec an (Kick me name m) sg (run an now (Kick me name m) sg).
Proof.
  intros Hst. unfold run, Groups.kick. destruct (_ && _); [by apply run_refused|].
  destruct (validate_group_name name); [by apply run_refused|].
  destruct (an_lock an); cbn [negb]; [|by apply run_refused].
  destruct (load_groups sg !! name) as [e|] eqn:He; [|by apply run_refused].
  destruct (_ =? _); [by apply run_refused|]. unfold accepted. cbn [fst snd].
  eapply run_saved; [done|done|done| |done]. apply save_or_remove_load; try done.
  - apply load_yaml, remove_file_yaml.
  - cbn [effect]. by rewrite (alter_insert_entry (Groups.without m)).
Qed.

Lemma run_pin an now name sg :
  groups_wf (load_groups sg) → run_spec an (Pin name) sg (run an now (Pin name) sg).
Proof.
  intros Hst. unfold run, Groups.pin. destruct (an_lock an); cbn [negb]; [|by apply run_refused].
  eapply run_saved; [done|done|done| |done]. destruct (load_groups sg !! name) as [e|] eqn:He.
  - rewrite (alter_insert_entry (Groups.set_pinned true)) by done.
    change (alter (Groups.set_pinned true) name (load_groups sg)) with (effect (Pin name) (load_groups sg)).
    by apply saved_load.
  - cbn [effect]. rewrite alter_absent by done. by destruct (an_save an).
Qed.

Lemma run_unpin an now name sg :
  groups_wf (load_groups sg) → run_spec an (Unpin name) sg (run an now (Unpin name) sg).
Proof.
  intros Hst. unfold run, Groups.unpin.
  destruct (Groups.name_valid name); cbn [negb]; [|rewrite andb_false_r; by apply run_refused].
  destruct (an_lock an); cbn [negb andb]; [|by apply run_refused].
  eapply run_saved; [done|done|done| |done]. by apply save_or_remove_load.
Qed.

Lemma run_dissolve an now name sg :
  groups_wf (load_groups sg) → run_spec an (Dissolve name) sg (run an now (Dissolve name) sg).
Proof.
  intros Hst. unfold run, Groups.dissolve. destruct (validate_group_name name); [by apply run_refused|].
  destruct (an_lock an); cbn [negb]; [|by apply run_refused]. cbn [fst snd].
  eapply run_saved; [done|done|done| |done]. rewrite remove_dir_load.
  change (delete name (load_groups sg)) with (effect (Dissolve name) (load_groups sg)). by apply saved_load.
Qed.

Lemma retain_all {V} (f : str → V → bool) (m : gmap str V) :
  (∀ k v, m !! k = Some v → f k v = true) → retain f m = m.
Proof.
  intros H. apply map_eq. intros k. destruct (m !! k) as [v|] eqn:E.
  - apply retain_lookup. auto.
  - destruct (retain f m !! k) as [v|] eqn:R; [|done]. apply retain_lookup in R as [R _]. congruence.
Qed.

Lemma drop_none (st : Channels) : Groups.drop_all [] st = st.
Proof.
  unfold Groups.drop_all. rewrite <-(map_fmap_id st) at 2. apply map_fmap_ext. intros k e _.
  rewrite List.filter_true. by destruct e.
Qed.

Lemma moves_load now (moved : list (str * str)) (sg : Signals) :
  load_groups (fold_left (λ sg '(old, new), move_records now old new sg) moved sg) = load_groups sg.
Proof.
  revert sg. induction moved as [|[old new] moved IH]; intros sg; [done|]. cbn [fold_left].
  by rewrite IH, move_records_load.
Qed.

Lemma save_fails an st sg : an_save an = false → save_state an st sg = sg.
Proof. unfold save_state. by intros ->. Qed.

Lemma run_sweep an now live succ grace sg :
  groups_wf (load_groups sg) → plain (Sweep live succ grace) →
  run_spec an (Sweep live succ grace) sg (run an now (Sweep live succ grace) sg).
Proof.
  intros Hst Hp. unfold run. assert (Hwf := effect_wf _ _ Hst Hp I).
  destruct (an_lock an) eqn:L; [|apply run_refused; unfold Groups.cleanup_stale_moving; by rewrite L].
  apply run_saved; [done|done|done| |done]. unfold Groups.cleanup_stale_moving. rewrite L. cbn [negb snd].
  match goal with |- load_groups {| sg_yaml := sg_yaml ?s; sg_rooms := _ |} = ?r =>
    change (load_groups s = r) end.
  set (moved := Groups.moved_members _ _ _). set (dropped := Groups.dropped_members _ _ _).
  set (st1 := Groups.drop_all dropped (Groups.rename_all moved (load_groups sg))).
  set (sg1 := if _ && _ then sg else _).
  assert (E1 : retain Groups.swept st1 = ∅ → load_groups sg1 =
    if an_save an then effect (Sweep live succ grace) (load_groups sg) else load_groups sg).
  { intros Hnone. assert (Hall : effect (Sweep live succ grace) (load_groups sg) = st1).
    { apply retain_all. intros k e He. destruct (Groups.swept k e) eqn:S; [|done].
      assert (Hin : retain Groups.swept st1 !! k = Some e) by (by apply retain_lookup).
      by rewrite Hnone, lookup_empty in Hin. }
    subst sg1. destruct (_ && _) eqn:B.
    - apply andb_prop in B as [Bd%bool_decide_eq_true Bm%bool_decide_eq_true].
      rewrite Hall. subst st1. rewrite Bd, Bm, drop_none. by destruct (an_save an).
    - rewrite <-Hall. by apply saved_load. }
  case_bool_decide as Hnone.
  - etransitivity; [|exact (E1 Hnone)]. etransitivity; [|apply (moves_load now moved sg1)]. by apply load_yaml.
  - destruct (an_save an) eqn:S.
    + change (retain (λ name e, negb (Groups.swept name e)) st1) with (effect (Sweep live succ grace) (load_groups sg)).
      rewrite load_save, S; [done|apply Hwf].
    + rewrite save_fails by done. etransitivity; [|etransitivity; [apply (moves_load now moved sg1)|]].
      * by apply load_yaml.
      * subst sg1. destruct (_ && _); [done|]. by rewrite save_fails.
Qed.

(** Every run is the effect on the membership, or nothing. *)
Lemma run_load an now o sg :
  groups_wf (load_groups sg) → plain o → run_spec an o sg (run an now o sg).
Proof.
  intros Hst Hp. destruct o.
  - by apply run_join.
  - by apply run_create.
  - by apply run_describe.
  - by apply run_rename.
  - unfold run, accepted. apply run_untouched; [done|done|apply write_record_load].
  - apply run_untouched; [done|done|]. unfold Groups.unrecord. destruct (Groups.name_valid name); [|done].
    apply load_yaml, remove_file_yaml.
  - apply run_untouched; [done|done|]. unfold Groups.take_invite. destruct (Groups.name_valid name); [|done].
    apply load_yaml, remove_file_yaml.
  - by apply run_add.
  - by apply run_leave.
  - by apply run_kick.
  - by apply run_pin.
  - by apply run_unpin.
  - by apply run_dissolve.
  - by apply run_untouched.
  - by apply run_sweep.
Qed.
