(* ===== verification/GroupsSpec.v ===== *)
(** * What the channels promise

    The operations on disk refine operations on the membership alone; the membership stays
    well-formed over any sequence of them, and its file reads back; agents never remove a
    person; a new channel opens on no old message; the sweep keeps who is live. *)

From Stdlib Require Import Ascii.
From stdpp Require Import base tactics list numbers strings option gmap sorting.
From S2P Require Import Prelude RustStr RustStrFacts RustTextFacts RustPath RustPathFacts GroupsYaml GroupsOps GroupsRefine.

(** The channels file reads back: parsing what was written for channels with plain
    names, members and descriptions gives the same channels. *)
Theorem channels_file_round_trip (st : Channels) :
  wire_ok st → parse_groups_yaml (serialize_groups_yaml st) = st.
Proof. apply parse_serialize. Qed.


(** ** Sequences of operations *)

Definition runs (l : list (Answers * N * op)) (sg : Signals) : Signals :=
  fold_left (λ sg '(an, now, o), snd (run an now o sg)) l sg.

Lemma run_wf an now o sg :
  groups_wf (load_groups sg) → plain o → groups_wf (load_groups (snd (run an now o sg))).
Proof.
  intros Hst Hp. destruct (run_load an now o sg Hst Hp) as (_ & [->|[Hf ->]] & _); [done|].
  by apply effect_wf.
Qed.

(** Over any sequence of operations with plain names and ids, whatever lands of their
    writes, the membership that reads back stays well-formed: valid names, nobody in a
    channel twice, no empty channel but a pinned one. *)
Theorem groups_stay_wf (l : list (Answers * N * op)) (sg : Signals) :
  groups_wf (load_groups sg) → Forall (λ '(_, _, o), plain o) l → groups_wf (load_groups (runs l sg)).
Proof.
  intros Hst Hl. revert sg Hst. induction Hl as [|[[an now] o] l Ho _ IH]; intros sg Hst; [done|].
  cbn. apply IH. by apply run_wf.
Qed.

(** ** People and agents *)

Definition is_member (m name : str) (st : Channels) : Prop :=
  ∃ e, st !! name = Some e ∧ m ∈ ge_members e.

(** An operation an agent asks for, other than dissolving a channel. *)
Definition by_agent (o : op) : Prop :=
  match o with
  | Leave me _ | Kick me _ _ => is_agent_member me = true
  | Rename old _ => is_agent_member old = true
  | Dissolve _ | Sweep _ _ _ => False
  | _ => True
  end.

Lemma is_member_insert m name n e st :
  is_member m name st → (n = name → m ∈ ge_members (entry_of name st) → m ∈ ge_members e) →
  is_member m name (<[n := e]> st).
Proof.
  intros (x & Hx & Hm) He. destruct (decide (n = name)) as [->|Hne].
  - exists e. rewrite lookup_insert_eq. split; [done|]. apply He; [done|]. unfold entry_of. by rewrite Hx.
  - exists x. by rewrite lookup_insert_ne.
Qed.

Lemma is_member_alter m name n (f : GroupEntry → GroupEntry) st :
  is_member m name st → (∀ e, m ∈ ge_members e → m ∈ ge_members (f e)) → is_member m name (alter f n st).
Proof.
  intros (x & Hx & Hm) Hf. destruct (decide (n = name)) as [->|Hne].
  - exists (f x). rewrite lookup_alter_eq, Hx. split; [done|by apply Hf].
  - exists x. by rewrite lookup_alter_ne.
Qed.

Lemma is_member_drop m name n st : is_member m name st → is_member m name (drop_if_empty n st).
Proof.
  intros (x & Hx & Hm). unfold drop_if_empty. destruct (st !! n) as [e|] eqn:E; [|by exists x].
  case_bool_decide as B; cbn [andb]; [|by exists x]. destruct (negb (ge_pinned e)); [|by exists x].
  exists x. rewrite lookup_delete_ne; [done|]. intros ->. simplify_eq. rewrite B in Hm. by apply elem_of_nil in Hm.
Qed.

Lemma without_keeps m x e : m ≠ x → m ∈ ge_members e → m ∈ ge_members (Groups.without x e).
Proof.
  intros Hne Hm. cbn. apply list_elem_of_In, List.filter_In. split; [by apply list_elem_of_In|].
  by apply negb_true_iff, str_eqb_neq.
Qed.

Lemma renamed_keeps m old new e : m ≠ old → m ∈ ge_members e → m ∈ ge_members (rename_entry old new e).
Proof.
  intros Hne Hm. unfold rename_entry. destruct (mem_str old (ge_members e)); [|done]. cbn [ge_members].
  apply elem_of_app. destruct (decide (m = new)) as [->|Hn]; [right; by left|left].
  apply list_elem_of_In, List.filter_In. split; [by apply list_elem_of_In|].
  by rewrite (proj2 (str_eqb_neq _ _) Hne), (proj2 (str_eqb_neq _ _) Hn).
Qed.

Lemma effect_keeps_person h name o st :
  is_agent_member h = false → by_agent o → fits o st →
  (∀ me n m, o = Kick me n m → is_agent_member m = true) →
  is_member h name st → is_member h name (effect o st).
Proof.
  intros Hh Ho Hf Hk Hin.
  assert (Hne : ∀ x, is_agent_member x = true → h ≠ x) by (intros x Hx ->; congruence).
  destruct o as [me n pin|n d|n text|old new|me n m k|k n m|me n|n m allow|me n|me n m|n|n|n|he|live succ grace];
    cbn [effect by_agent] in *; try done.
  - apply is_member_insert; [done|]. intros ->. unfold joined. cbn [ge_members].
    destruct (mem_str me _); [done|]. rewrite elem_of_app. auto.
  - apply is_member_insert; [done|]. intros -> Hm. destruct Hf as [_ Hf]. unfold entry_of in Hm.
    rewrite Hf in Hm. by apply elem_of_nil in Hm.
  - by apply is_member_alter.
  - destruct Hin as (e & He & Hm). exists (rename_entry old new e). rewrite lookup_fmap, He.
    split; [done|]. apply renamed_keeps; auto.
  - apply is_member_insert; [done|]. intros ->. unfold added. cbn [ge_members]. rewrite elem_of_app. auto.
  - apply is_member_drop, is_member_alter; [done|]. intros e. apply without_keeps; auto.
  - apply is_member_drop, is_member_alter; [done|]. intros e. apply without_keeps, Hne. by eapply Hk.
  - by apply is_member_alter.
  - by apply is_member_drop, is_member_alter.
Qed.

Lemma run_keeps_person an now h name o sg :
  groups_wf (load_groups sg) → plain o → is_agent_member h = false → by_agent o →
  is_member h name (load_groups sg) → is_member h name (load_groups (snd (run an now o sg))).
Proof.
  intros Hst Hp Hh Ho Hin. destruct (run_load an now o sg Hst Hp) as (_ & [->|[Hf E]] & _); [done|].
  destruct o as [| | | | | | | | |me n m| | | | |]; try (rewrite E; by apply effect_keeps_person).
  destruct (is_agent_member m) eqn:Hm.
  - rewrite E. apply effect_keeps_person; try done. by intros ? ? ? [= <- <- <-].
  - unfold run, Groups.kick. cbn [by_agent] in Ho. by rewrite Ho, Hm.
Qed.


(** ** New channels *)

Definition holds_messages (name : str) (sg : Signals) : bool :=
  existsb (λ f, bool_decide (extension f = Some "signal")) (map_to_list (files_in name sg)).*1.

Lemma refuse_leftover_None name sg :
  Groups.refuse_leftover name sg = None → holds_messages name sg = false.
Proof.
  unfold Groups.refuse_leftover, holds_messages. destruct (length _ =? 0) eqn:L; [|done]. intros _.
  apply Nat.eqb_eq, length_zero_iff_nil in L. destruct (existsb _ _) eqn:X; [|done].
  apply existsb_exists in X as (f & Hf & Hp).
  assert (Hin : f ∈ List.filter (λ f, bool_decide (extension f = Some "signal")) (map_to_list (files_in name sg)).*1)
    by (by apply list_elem_of_In, List.filter_In).
  rewrite L in Hin. by apply elem_of_nil in Hin.
Qed.


Lemma holds_messages_files name sg sg' :
  files_in name sg' = files_in name sg → holds_messages name sg' = holds_messages name sg.
Proof. unfold holds_messages. by intros ->. Qed.

Lemma create_dir_files an now name n sg :
  files_in n (snd (create_dir an now name sg)) = files_in n sg.
Proof.
  unfold create_dir, files_in, set_room. destruct (sg_rooms sg !! name) eqn:R; [done|].
  destruct (an_mkdir an); [done|]. cbn. destruct (decide (name = n)) as [->|Hn].
  - by rewrite lookup_insert_eq, R.
  - by rewrite lookup_insert_ne.
Qed.

Lemma save_state_files an st n sg : files_in n (save_state an st sg) = files_in n sg.
Proof. unfold save_state. by destruct (an_save an). Qed.

Lemma remove_file_messages now name file n sg :
  holds_messages n sg = false → holds_messages n (remove_file now name file sg) = false.
Proof.
  intros H. unfold remove_file. destruct (sg_rooms sg !! name) as [r|] eqn:R; [|done].
  case_bool_decide; [|done]. unfold holds_messages in *. unfold files_in, set_room in *. cbn [sg_rooms].
  destruct (decide (name = n)) as [->|Hn]; [|by rewrite lookup_insert_ne].
  rewrite lookup_insert_eq. rewrite R in H. cbn in *.
  apply not_true_iff_false. intros (f & Hf & He)%existsb_exists. apply not_true_iff_false in H. apply H.
  apply existsb_exists. exists f. split; [|done].
  apply list_elem_of_In in Hf. apply list_elem_of_fmap in Hf as ([f' b] & -> & Hf).
  apply elem_of_map_to_list, lookup_delete_Some in Hf as [_ Hf].
  apply list_elem_of_In, list_elem_of_fmap. exists (f', b). split; [done|]. by apply elem_of_map_to_list.
Qed.

(** A channel that was not there opens with no message of an earlier channel: a join or
    a create that is carried out leaves no message file in its directory. *)
Theorem new_channel_is_empty an now (o : op) (name : str) (sg : Signals) :
  ((∃ me p, o = Join me name p) ∨ (∃ d, o = Create name d)) →
  load_groups sg !! name = None → fst (run an now o sg) = true →
  holds_messages name (snd (run an now o sg)) = false.
Proof.
  intros Ho Hn. destruct Ho as [(me & p & ->)|(d & ->)]; unfold run, accepted.
  - unfold Groups.join. destruct (validate_group_name name); [done|]. destruct (an_lock an); [|done].
    cbn [negb]. rewrite Hn. destruct (Groups.refuse_leftover name sg) eqn:R; [done|].
    apply refuse_leftover_None in R. cbn.
    match goal with |- context [create_dir an now name ?s] =>
      pose proof (create_dir_files an now name name s) as Hf; rewrite save_state_files in Hf;
      destruct (create_dir an now name s) as [[e|] sg1] end; [done|].
    intros _. cbn in *. apply remove_file_messages. by rewrite (holds_messages_files _ _ _ Hf).
  - unfold Groups.create. destruct (validate_group_name name); [done|].
    destruct (match d with Some _ => _ | None => _ end); [|done]. destruct (an_lock an); [|done].
    cbn [negb]. rewrite Hn. destruct (Groups.refuse_leftover name sg) eqn:R; [done|].
    apply refuse_leftover_None in R. cbn.
    match goal with |- context [create_dir an now name ?s] =>
      pose proof (create_dir_files an now name name s) as Hf; rewrite save_state_files in Hf;
      destruct (create_dir an now name s) as [[e|] sg1] end; [done|].
    intros _. cbn in *. by rewrite (holds_messages_files _ _ _ Hf).
Qed.

(** ** The sweep *)

Section sweep.
Context (is_live : str → bool) (successor : str → option str).

Lemma moved_spec st old new :
  (old, new) ∈ Groups.moved_members is_live successor st →
  is_live old = false ∧ successor old = Some new.
Proof.
  unfold Groups.moved_members. intros (s & _ & Hs)%list_elem_of_omap.
  destruct (is_live s) eqn:L; [done|]. destruct (successor s) as [n|] eqn:S; cbn in Hs; by simplify_eq.
Qed.

Lemma rename_all_keeps m name (moved : list (str * str)) st :
  m ∉ moved.*1 → is_member m name st → is_member m name (Groups.rename_all moved st).
Proof.
  unfold Groups.rename_all. revert st. induction moved as [|[old new] moved IH]; intros st Hn Hm; [done|].
  cbn [fold_left rename_in fst]. rewrite fmap_cons, not_elem_of_cons in Hn. destruct Hn as [Hne Hn]. apply IH; [done|].
  destruct Hm as (e & He & Hm). exists (rename_entry old new e). rewrite lookup_fmap, He.
  split; [done|]. by apply renamed_keeps.
Qed.

(** Who is in a channel after the renames is live, or was there and was not renamed. *)
Lemma rename_all_members (moved : list (str * str)) st m name :
  (∀ old new, (old, new) ∈ moved → is_live new = true) →
  is_member m name (Groups.rename_all moved st) →
  is_live m = true ∨ (is_member m name st ∧ m ∉ moved.*1).
Proof.
  unfold Groups.rename_all. revert st. induction moved as [|[old new] moved IH]; intros st Hl Hm.
  { right. split; [done|]. apply not_elem_of_nil. }
  cbn [fold_left rename_in fst] in Hm. apply IH in Hm as [?|[(e & He & Hm) Hn]]; [by left| |].
  2:{ intros o n Hin. apply (Hl o n). by right. }
  rewrite lookup_fmap in He. apply fmap_Some in He as (e0 & He0 & ->). unfold rename_entry in Hm.
  destruct (mem_str old (ge_members e0)) eqn:M.
  - cbn [ge_members] in Hm. apply elem_of_app in Hm as [Hm|Hm%list_elem_of_singleton].
    + apply list_elem_of_In, List.filter_In in Hm as [Hm Hx]. apply andb_prop in Hx as [Hx _].
      apply negb_true_iff, str_eqb_neq in Hx. right. split; [exists e0; by rewrite list_elem_of_In|].
      by rewrite fmap_cons, not_elem_of_cons.
    + subst. left. apply (Hl old). by left.
  - right. split; [by exists e0|]. rewrite fmap_cons, not_elem_of_cons. split; [|done]. intros ->.
    cbn [fst] in Hm. apply mem_str_spec in Hm. congruence.
Qed.

Lemma all_members_in m name st : is_member m name st → m ∈ Groups.all_members st.
Proof.
  intros (e & He & Hm). unfold Groups.all_members, sort_names. rewrite merge_sort_Permutation.
  apply elem_of_remove_dups. apply list_elem_of_In, in_concat. exists (ge_members e).
  split; [|by apply list_elem_of_In]. apply list_elem_of_In, list_elem_of_fmap. exists (name, e).
  split; [done|]. by apply elem_of_map_to_list.
Qed.

Lemma dropped_not_live st m : m ∈ Groups.dropped_members is_live successor st → is_live m = false.
Proof.
  unfold Groups.dropped_members. intros (s & _ & Hs)%list_elem_of_omap.
  destruct (is_live s) eqn:L; [done|]. destruct (successor s); by simplify_eq.
Qed.

Lemma moved_or_dropped st m name :
  is_member m name st → is_live m = false →
  m ∈ (Groups.moved_members is_live successor st).*1 ∨ m ∈ Groups.dropped_members is_live successor st.
Proof.
  intros Hm%all_members_in L. destruct (successor m) as [new|] eqn:S.
  - left. apply list_elem_of_fmap. exists (m, new). split; [done|]. apply list_elem_of_omap.
    exists m. split; [done|]. by rewrite L, S.
  - right. apply list_elem_of_omap. exists m. split; [done|]. by rewrite L, S.
Qed.

Lemma sweep_state_keeps m name st :
  is_live m = true → is_member m name st → is_member m name (sweep_state is_live successor st).
Proof.
  intros L Hm. unfold sweep_state.
  assert (Hr : is_member m name (Groups.rename_all (Groups.moved_members is_live successor st) st)).
  { apply rename_all_keeps; [|done]. intros ([o n] & -> & Hin)%list_elem_of_fmap.
    apply moved_spec in Hin as [? _]. cbn in L. congruence. }
  destruct Hr as (e & He & Hin).
  set (dr := Groups.dropped_members is_live successor st).
  set (e' := {| ge_pinned := ge_pinned e;
           ge_members := List.filter (λ m, negb (mem_str m dr)) (ge_members e);
           ge_description := ge_description e |}).
  assert (Hm' : m ∈ ge_members e').
  { apply list_elem_of_In, List.filter_In. split; [by apply list_elem_of_In|]. apply negb_true_iff.
    destruct (mem_str m dr) eqn:D; [|done]. apply mem_str_spec, dropped_not_live in D. congruence. }
  exists e'. split; [|done]. apply retain_lookup. split.
  - unfold Groups.drop_all. by rewrite lookup_fmap, He.
  - unfold Groups.swept. rewrite bool_decide_eq_false_2; [done|]. intros E. rewrite E in Hm'. by apply elem_of_nil in Hm'.
Qed.

Lemma sweep_state_live m name st :
  (∀ old new, successor old = Some new → is_live new = true) →
  is_member m name (sweep_state is_live successor st) → is_live m = true.
Proof.
  intros Hs (e & He & Hm). unfold sweep_state in He. apply retain_lookup in He as [He _].
  unfold Groups.drop_all in He. rewrite lookup_fmap in He. apply fmap_Some in He as (e0 & He0 & ->).
  cbn [ge_members] in Hm. apply list_elem_of_In, List.filter_In in Hm as [Hm Hd].
  apply negb_true_iff in Hd. destruct (is_live m) eqn:L; [done|].
  destruct (rename_all_members (Groups.moved_members is_live successor st) st m name) as [?|[Hin Hn]].
  - intros o n [_ Hx]%moved_spec. by eapply Hs.
  - exists e0. split; [done|]. by apply list_elem_of_In.
  - congruence.
  - destruct (moved_or_dropped _ _ _ Hin L) as [?|D]; [done|]. apply mem_str_spec in D. congruence.
Qed.
End sweep.

Lemma sweep_load an now live succ grace sg :
  groups_wf (load_groups sg) → plain (Sweep live succ grace) →
  an_lock an = true → an_save an = true →
  load_groups (snd (Groups.cleanup_stale_moving an now live succ grace sg)) =
  sweep_state live succ (load_groups sg).
Proof.
  intros Hst Hp L S. destruct an as [l s mk w]. cbn in L, S. subst.
  destruct (run_sweep (Build_Answers true true None w) now live succ grace sg Hst Hp) as (_ & _ & H).
  exact (H eq_refl eq_refl).
Qed.

Lemma moves_rooms now (moved : list (str * str)) (sg : Signals) name :
  is_Some (sg_rooms sg !! name) →
  is_Some (sg_rooms (fold_left (λ sg '(old, new), move_records now old new sg) moved sg) !! name).
Proof.
  revert sg. induction moved as [|[old new] moved IH]; intros sg H; [done|]. apply IH.
  cbn. rewrite lookup_fmap. by apply fmap_is_Some.
Qed.

Lemma save_state_rooms an st sg : sg_rooms (save_state an st sg) = sg_rooms sg.
Proof. unfold save_state. by destruct (an_save an). Qed.

Lemma retain_is_Some {V} (f : str → V → bool) (m : gmap str V) k :
  is_Some (m !! k) → (∀ v, f k v = true) → is_Some (retain f m !! k).
Proof. intros [v Hv] Hf. exists v. by apply retain_lookup. Qed.

(** The sweep keeps the directory of each channel it leaves. *)
Lemma sweep_keeps_rooms an now live succ grace sg name :
  an_lock an = true → is_Some (sg_rooms sg !! name) →
  is_Some (sweep_state live succ (load_groups sg) !! name) →
  is_Some (sg_rooms (snd (Groups.cleanup_stale_moving an now live succ grace sg)) !! name).
Proof.
  intros L Hr Hs. unfold Groups.cleanup_stale_moving. rewrite L. cbn [negb snd sg_rooms].
  fold (sweep_state live succ (load_groups sg)). apply retain_is_Some; [|intros r; by rewrite bool_decide_eq_true_2].
  match goal with |- context [if ?b then ?x else save_state an ?s ?y] =>
    replace (sg_rooms (if b then x else save_state an s y)) with (sg_rooms x)
      by (destruct b; [done|by rewrite save_state_rooms]) end.
  cbn [sg_rooms]. apply retain_is_Some.
  - apply moves_rooms. destruct (_ && _); [done|]. by rewrite save_state_rooms.
  - intros r. apply negb_true_iff, bool_decide_eq_false. intros [e He]. apply retain_lookup in He as [He Hsw].
    destruct Hs as [e' He']. apply retain_lookup in He' as [He' Hn]. rewrite He in He'. simplify_eq.
    by rewrite Hsw in Hn.
Qed.

(** A sweep keeps every live member in each of its channels, and the directory of each
    channel that stays; and where every successor is live, whoever is left in a channel is live. *)
Theorem sweep_keeps_who_is_live an now live succ grace sg :
  groups_wf (load_groups sg) → plain (Sweep live succ grace) →
  an_lock an = true → an_save an = true →
  let sg' := snd (Groups.cleanup_stale_moving an now live succ grace sg) in
  (∀ m name, live m = true → is_member m name (load_groups sg) → is_member m name (load_groups sg')) ∧
  (∀ name, is_Some (load_groups sg' !! name) → is_Some (sg_rooms sg !! name) → is_Some (sg_rooms sg' !! name)) ∧
  ((∀ old new, succ old = Some new → live new = true) →
   ∀ m name, is_member m name (load_groups sg') → live m = true).
Proof.
  intros Hst Hp L S. cbn zeta. rewrite sweep_load by done. split_and!.
  - intros m name. apply sweep_state_keeps.
  - intros name Hs Hr. by apply sweep_keeps_rooms.
  - intros Hs m name. by apply sweep_state_live.
Qed.


(** ** An invitation reads back *)

Lemma parse_by acc me : line_ok me = true →
  parse_record_line acc ("by: " ++ me) = Ok (Some me, snd acc).
Proof.
  intros (_ & _ & Hs & He)%line_ok_inv. unfold parse_record_line.
  change (split_once ":" ("by: " ++ me)) with (Some (lit "by", " " ++ me)).
  cbv zeta iota. change (trim "by") with (lit "by"). rewrite (trim_blank " " me), trim_solid by done.
  change (str_eqb "by" "by") with true. cbn [andb].
  rewrite bool_decide_eq_false_2; [done|]. by intros ->.
Qed.

Lemma parse_at acc n : (n ≤ i64_max)%N →
  parse_record_line acc ("at: " ++ show_N n) = Ok (fst acc, Some (n * NANOS)%N).
Proof.
  intros Hn. destruct (show_N_digits n) as (Hd & Hv & Hne). unfold parse_record_line.
  change (split_once ":" ("at: " ++ show_N n)) with (Some (lit "at", " " ++ show_N n)).
  cbv zeta iota. change (trim "at") with (lit "at").
  destruct (line_ok_inv _ (digits_line_ok _ Hd Hne)) as (_ & _ & Hs & He).
  rewrite (trim_blank " "), trim_solid by done. change (str_eqb "at" "by") with false. cbn [andb].
  change (str_eqb "at" "at") with true. cbv iota. rewrite parse_digits, Hv; [|done|done|].
  - unfold epoch_plus. by rewrite (proj2 (N.leb_le _ _)).
  - rewrite Hv. transitivity i64_max; [done|]. by vm_compute.
Qed.

Lemma parse_record_body me now :
  me = [] ∨ line_ok me = true → (now / NANOS ≤ i64_max)%N →
  parse_record (Groups.record_body me now) =
  Ok (if bool_decide (me = []) then None else Some me, Some (now / NANOS * NANOS)%N).
Proof.
  intros Hme Hn. set (at_ := "at: " ++ show_N (now / NANOS)).
  assert (Hat : one_line at_ = true ∧ solid_end at_ = true).
  { destruct (show_N_digits (now / NANOS)) as (Hd & _ & Hne).
    destruct (line_ok_inv _ (digits_line_ok _ Hd Hne)) as (Ho & _ & Hs & He).
    split; [by apply ascii_one_line|by apply solid_end_app]. }
  destruct (bool_decide (me = [])) eqn:B.
  - apply bool_decide_eq_true in B as ->.
    replace (Groups.record_body [] now) with (concat ((λ l, l ++ [nl]) <$> [at_]))
      by (unfold Groups.record_body, format, at_; cbn [fmap list_fmap concat bool_decide]; by rewrite !app_nil_r, <-app_assoc).
    unfold parse_record. rewrite lines_text by (by apply Forall_singleton). cbn [fold_left mbind res_bind].
    unfold at_. by rewrite parse_at.
  - apply bool_decide_eq_false in B as Hne. destruct Hme as [?|Hme]; [done|].
    assert (Hby : one_line ("by: " ++ me) = true ∧ solid_end ("by: " ++ me) = true).
    { destruct (line_ok_inv _ Hme) as (Ho & _ & Hs & He).
      split; [by apply ascii_one_line|by apply solid_end_app]. }
    replace (Groups.record_body me now) with (concat ((λ l, l ++ [nl]) <$> ["by: " ++ me; at_])).
    2:{ unfold Groups.record_body, format, at_. rewrite bool_decide_eq_false_2 by done.
        cbn [fmap list_fmap concat app]. by rewrite !app_nil_r, <-!app_assoc. }
    unfold parse_record. rewrite lines_text by (by apply Forall_cons; split; [|apply Forall_singleton]). cbn [fold_left].
    cbn [mbind res_bind]. rewrite parse_by by done. cbn [mbind res_bind]. unfold at_. by rewrite parse_at.
Qed.

Lemma record_name_invite member : member ≠ [] → record_name (record_file member INVITE) = Some (member, INVITE).
Proof.
  intros Hne. unfold record_name.
  rewrite (proj2 (strip_suffix_spec INVITE _ (member ++ "."))).
  2:{ unfold record_file, format. cbn [concat]. by rewrite app_nil_r, app_assoc. }
  cbn [mbind option_bind]. rewrite (proj2 (strip_suffix_spec "." _ member)) by done.
  cbn [mbind option_bind]. by rewrite bool_decide_eq_false_2.
Qed.

Lemma filter_map_res_in {A B} (f : A → res (option B)) (l : list A) (r : list B) (x : A) (y : B) :
  filter_map_res f l = Ok r → x ∈ l → f x = Ok (Some y) → y ∈ r.
Proof.
  revert r. induction l as [|a l IH]; intros r H Hx Hf; [by apply elem_of_nil in Hx|].
  cbn [filter_map_res] in H. destruct (f a) as [o| |] eqn:Fa; try done. cbn [mbind res_bind] in H.
  destruct (filter_map_res f l) as [r'| |]; try done. cbn [mbind res_bind] in H.
  apply elem_of_cons in Hx as [<-|Hx].
  - rewrite Hf in Fa. simplify_eq. by left.
  - destruct o; simplify_eq; [right|]; by apply IH.
Qed.

Lemma record_body_valid me now : utf8_valid me = true → utf8_valid (Groups.record_body me now) = true.
Proof.
  intros Hm. destruct (show_N_digits (now / NANOS)) as (Hd & _ & Hne).
  pose proof (line_ok_inv _ (digits_line_ok _ Hd Hne)) as (_ & Hv & _).
  unfold Groups.record_body, format. destruct (bool_decide (me = [])); cbn [app concat];
    rewrite ?app_nil_r; repeat (apply utf8_valid_concat; [done|]); try done.
Qed.

Lemma create_dir_there an now name sg :
  fst (create_dir an now name sg) = None → is_Some (sg_rooms (snd (create_dir an now name sg)) !! name).
Proof.
  unfold create_dir, set_room. destruct (sg_rooms sg !! name) eqn:R; [by cbn; rewrite R|].
  destruct (an_mkdir an); [done|]. cbn. by rewrite lookup_insert_eq.
Qed.

(** An invitation that is written reads back: its member is invited, and the channel's
    invitations, where every other record of the channel can be read, hold one for that
    member, from whoever wrote it, at the second it was written. *)
Theorem invite_reads_back an now me name member sg :
  me = [] ∨ line_ok me = true → (now / NANOS ≤ i64_max)%N →
  fst (Groups.invite an now me name member sg) = None →
  let sg' := snd (Groups.invite an now me name member sg) in
  Groups.is_invited name member sg' = true ∧
  ∀ l, Groups.invites name sg' = Ok l →
    {| in_channel := name; in_member := member;
       in_by := if bool_decide (me = []) then None else Some me;
       in_at := Some (now / NANOS * NANOS)%N |} ∈ l.
Proof.
  intros Hme Hnow. unfold Groups.invite, Groups.write_record, Groups.is_invited, Groups.is_recorded, Groups.invites, Groups.name_valid.
  destruct (validate_group_name name); [done|]. destruct (validate_member_id member) eqn:VM; [done|].
  assert (Hne : member ≠ []) by (by intros ->).
  pose proof (create_dir_there an now name sg) as Hd.
  destruct (create_dir an now name sg) as [[e|] sg1]; [done|]. destruct (Hd eq_refl) as [r R]. cbn [snd] in R.
  rewrite R. destruct (an_write an) as [e|]; [done|]. intros _. cbn [fst snd].
  set (sg' := set_room _ _ _).
  assert (Hf : files_in name sg' !! record_file member INVITE = Some (Groups.record_body me now)).
  { unfold files_in, sg', set_room. cbn [sg_rooms]. rewrite lookup_insert_eq. cbn. by rewrite lookup_insert_eq. }
  unfold has_file. rewrite Hf. split; [done|]. cbn [bool_decide decide_rel]. intros l Hl.
  destruct (read_records name INVITE (files_in name sg')) as [l'| |] eqn:Hr; [|done..].
  cbn [mbind res_bind] in Hl. rewrite bool_decide_eq_true_2 in Hl by done. simplify_eq. rewrite merge_sort_Permutation.
  eapply filter_map_res_in; [exact Hr|by apply elem_of_map_to_list|]. cbn beta iota.
  rewrite record_name_invite by done. change (str_eqb INVITE INVITE) with true. cbv iota.
  assert (Hv : utf8_valid me = true).
  { destruct Hme as [->|(_ & ? & _)%line_ok_inv]; done. }
  rewrite record_body_valid, parse_record_body by done. done.
Qed.

(** ** What the checks let through *)

(** A name over two lines is accepted, and the channel a create makes with it is not there
    when the file is read back; a member id over two lines makes a channel of its second line. *)
Definition fresh : Signals := {| sg_yaml := None; sg_rooms := ∅ |}.
Definition lands : Answers := {| an_lock := true; an_save := true; an_mkdir := None; an_write := None |}.

Theorem two_line_name :
  validate_group_name ("a" ++ nl :: "b") = None ∧
  fst (Groups.create lands 0 ("a" ++ nl :: "b") None fresh) = None ∧
  Groups.members ("a" ++ nl :: "b") (snd (Groups.create lands 0 ("a" ++ nl :: "b") None fresh)) = None ∧
  Groups.members "b" (snd (Groups.create lands 0 ("a" ++ nl :: "b") None fresh)) = Some [].
Proof. by vm_compute. Qed.

Theorem two_line_member :
  let sg := snd (Groups.create lands 0 "ops" None fresh) in
  validate_member_id ("x" ++ nl :: "evil:") = None ∧
  Groups.members "evil" sg = None ∧
  fst (Groups.add lands 0 "ops" ("x" ++ nl :: "evil:") (λ sg, (None, sg)) sg) = None ∧
  Groups.members "evil" (snd (Groups.add lands 0 "ops" ("x" ++ nl :: "evil:") (λ sg, (None, sg)) sg)) = Some [].
Proof. by vm_compute. Qed.

(** A record whose time is past the clock's range panics its reader. *)
Theorem far_record_panics : parse_record "at: 9223372036854775808" = Panicked.
Proof. by vm_compute. Qed.

(** ** The theorems on concrete channels *)

(** Two channels: a pinned one with a person and an agent, and one with the agent alone. *)
Definition two_channels : Signals :=
  {| sg_yaml := Some (format ["deploy:"; [nl]; "  pinned: true"; [nl]; "  description: releases"; [nl];
       "  members:"; [nl]; "    - ann"; [nl]; "    - pid-7"; [nl];
       "infra:"; [nl]; "  pinned: false"; [nl]; "  members:"; [nl]; "    - pid-7"; [nl]]);
     sg_rooms := <["deploy" := {| rm_files := ∅; rm_modified := 0 |}]>
                  (<["infra" := {| rm_files := ∅; rm_modified := 0 |}]> ∅) |}.

Lemma two_channels_wf : groups_wf (load_groups two_channels).
Proof. split; refine (bool_decide_unpack _ _); by vm_compute. Qed.

Lemma channels_file_round_trip_witness :
  wire_ok (load_groups two_channels) ∧
  parse_groups_yaml (serialize_groups_yaml (load_groups two_channels)) = load_groups two_channels.
Proof. split; [apply two_channels_wf|]. apply channels_file_round_trip, two_channels_wf. Defined.


Definition some_steps : list (Answers * N * op) :=
  [(lands, 1%N, Join "pid-7" "ops" false); (lands, 2%N, Kick "pid-9" "deploy" "ann");
   (lands, 3%N, Leave "pid-7" "infra"); (lands, 4%N, Rename "pid-7" "pid-8");
   (lands, 5%N, Unpin "deploy"); (lands, 6%N, Kick "pid-8" "deploy" "pid-8")].

Lemma some_steps_plain : Forall (λ '(_, _, o), plain o ∧ by_agent o) some_steps.
Proof. repeat constructor. Qed.

Lemma groups_stay_wf_witness : groups_wf (load_groups (runs some_steps two_channels)).
Proof.
  apply groups_stay_wf; [apply two_channels_wf|]. eapply Forall_impl; [apply some_steps_plain|].
  intros [[a t] o] H. apply H.
Defined.


Lemma new_channel_is_empty_witness :
  fst (run lands 1 (Join "pid-7" "ops" false) two_channels) = true ∧
  holds_messages "ops" (snd (run lands 1 (Join "pid-7" "ops" false) two_channels)) = false.
Proof.
  split; [by vm_compute|]. apply new_channel_is_empty; [left; by do 2 eexists|by vm_compute|by vm_compute].
Defined.

Definition ann_live (m : str) : bool := str_eqb m "ann" || str_eqb m "pid-8".
Definition pid7_moved (m : str) : option str := if str_eqb m "pid-7" then Some "pid-8" else None.

Lemma sweep_keeps_who_is_live_witness :
  let sg' := snd (Groups.cleanup_stale_moving lands 9 ann_live pid7_moved 3600 two_channels) in
  is_member "ann" "deploy" (load_groups sg') ∧ ∀ m name, is_member m name (load_groups sg') → ann_live m = true.
Proof.
  assert (Hs : ∀ old new, pid7_moved old = Some new → new = "pid-8").
  { intros old new. unfold pid7_moved. destruct (str_eqb old "pid-7"); congruence. }
  assert (Hp : plain (Sweep ann_live pid7_moved 3600)) by (intros old new ->%Hs; done).
  pose proof (sweep_keeps_who_is_live lands 9 ann_live pid7_moved 3600 two_channels two_channels_wf Hp eq_refl eq_refl)
    as (H1 & _ & H3).
  split; [|apply H3; intros old new ->%Hs; done].
  apply H1; [done|].
  exists {| ge_pinned := true; ge_members := ["ann"; "pid-7"]; ge_description := Some "releases" |}.
  split; [by vm_compute|by left].
Defined.

Lemma invite_reads_back_witness :
  let sg' := snd (Groups.invite lands 5000000001 "ann" "deploy" "pid-9" two_channels) in
  Groups.is_invited "deploy" "pid-9" sg' = true ∧ Groups.invites "deploy" sg' =
    Ok [{| in_channel := "deploy"; in_member := "pid-9"; in_by := Some (lit "ann"); in_at := Some 5000000000%N |}].
Proof.
  destruct (invite_reads_back lands 5000000001 "ann" "deploy" "pid-9" two_channels) as [H _];
    [by right|by vm_compute|by vm_compute|]. split; [exact H|by vm_compute].
Defined.
